(* ===== verification/_CoqProject ===== *)
-Q . S2P
Prelude.v
Effects.v
OperationCore.v
OperationLaws.v
OperationStore.v
OperationTheorems.v
OperationEffect.v
Workspace.v
Permission.v
PermissionTheorems.v
MemberStore.v
MemberLaws.v
Membership.v
MembershipLaws.v
MembershipSimulation.v
MembershipDemo.v
MembershipTheorems.v
OperationRunner.v
RunnerLaws.v
RunnerTheorems.v
RoadmapModel.v
RoadmapStore.v
RouteObjects.v
Templates.v
Roadmap.v
RoadmapLaws.v
RoadmapHistory.v
RoadmapSound.v
RoadmapCommit.v
RoadmapSteps.v
RouteLaws.v
RoadmapDemo.v
RoadmapTheorems.v
ImpactStore.v
ImpactStoreLaws.v
Lineage.v
ImpactDemo.v
Assessment.v
AssessmentLaws.v
AssessmentTheorems.v
Stabilization.v
StabilizationLaws.v
StabilizationSteps.v
StabilizationTheorems.v
Impact.v
ImpactService.v
FaultInjection.v
ImpactLaws.v
ImpactWrites.v
ImpactMoves.v
ImpactCalls.v
ImpactExact.v
ImpactRaising.v
ImpactCounter.v
ImpactTheorems.v
Candidates.v
CandidateLaws.v
CandidateTheorems.v
ChangeStore.v
ChangeDrafts.v
ChangeApply.v
ChangeInverse.v
ChangeService.v
ChangeLaws.v
ChangeWrites.v
ChangeApplied.v
ChangeCalls.v
ChangePort.v
ChangeHistory.v
ChangeLineage.v
ChangeDemo.v
ChangeTheorems.v
MemberReads.v
Redis.v
RateLimit.v
ModelLimiter.v
BudgetProfiles.v
BudgetLedger.v
BudgetWindow.v
BudgetTheorems.v
