(* ===== verification/Prelude.v ===== *)
(** A verification development for the workspace core of lingdoc.

    lingdoc is a Go service.  A tenant's users edit projects, and everything
    that changes a project runs through one operation pipeline; calls to model
    providers run under a rate limit, a concurrency limit and, for acceptance
    runs, a spending window.  This library models those parts: who may do
    what, how a change is committed exactly once, how members and the owner of
    a project change, how the roadmap of a project is edited and frozen, what a
    change obliges people to and how it is applied, undone and released, and how often
    and at what cost models are called.  Paths
    below are under [src/internal/].

    * The parts, and how they meet

    Every change of the workspace is an [OperationRequest]: a record of seams
    (authorize, read version, prepare, write, audit, ...) the caller fills in.
    [Run] ([lingdoc/operationcore]) puts the seams in order around one write
    transaction.  The transaction, its retries and the stored result of an
    idempotency key belong to the workspace ([lingdoc/workspacecore]).  The
    seam that authorizes is the permission policy, which reads the project's
    members; the members are changed by the member context
    ([lingdoc/membership]), whose operations are themselves requests of the
    pipeline.

    - Prelude.v: Go integers at their width, early returns, record updates, a
      result monad, strings.  Effects.v: Go errors with their wrapping chain
      and the state-and-error monad [M S E A].
    - OperationCore.v: [operationcore/{decision,operationcore}.go].  The key
      rule, the request digest, the human decision gate and [Run].
      OperationLaws.v: the contracts the pipeline is proved against
      ([TransactionLaws], [LedgerLaws], [RecordFrame]) and the inversion of a
      successful [Run].  OperationStore.v: [workspacecore/spec_retry.go],
      [GORMRepository.Transaction] and the operation rows of
      [workspacecore/service.go]; it discharges the contracts.
      OperationTheorems.v: the properties of both.
    - Workspace.v: [types/tenant_member.go] and the members and projects of
      [workspacecore/model.go].  Permission.v: [permission_policy.go],
      [typed_contracts.go], [owner_unavailable.go] and
      [owner_capability_registry.go] of [workspacecore/].
      PermissionTheorems.v: its properties.
    - MemberStore.v: the tables of [workspacecore/{service,member_records,]
      [membership_lifecycle}.go] as finite maps and the statements on them.
      MemberLaws.v: the reads and writes pointwise, for the clients.
    - Membership.v: [membership/{lifecycle,results,ext}.go] and the grants of
      [workspacecore/membership_grants.go].  MembershipLaws.v: the laws of the
      ports ([PortsLaws]), the abstract machine of ownership and what each
      write does to it.  MembershipSimulation.v: the operations as the calls
      of one machine, and the simulation.  MembershipDemo.v: a concrete
      workspace that satisfies the laws.  MembershipTheorems.v: the
      properties.  MemberReads.v: the invitation and transfer lists.
    - Redis.v: the sorted-set commands as an interface [ZSetLaws], with finite
      maps as one implementation.  RateLimit.v: [ratelimit/limiter.go].
      ModelLimiter.v: [models/limiter/{limiter,governor}.go].
    - BudgetProfiles.v: the profile table, the price list and the checklist of
      [models/acceptancebudget/].  BudgetLedger.v: the ledger file and the
      operations on it ([ledger.go], [reconcile.go],
      [reconcile_unresolved.go]).  BudgetWindow.v: the life of one window.
      BudgetTheorems.v: the properties.
    - OperationEffect.v: what one [Run] does to the store, up to a preorder
      every seam but the business write respects.  OperationRunner.v:
      [workspacecore/{operation_runner,operation_pipeline,service_facade,]
      [workspace_authorizer,workspace_policy}.go], the aggregate that fills
      the pipeline's seams and serves the ports of the member context.
      RunnerLaws.v: which seams leave which part of the store alone, for any
      type of values a request carries.  RunnerTheorems.v: the aggregate
      discharges [PortsLaws], so the theorems about members hold of the
      operations as they run through the pipeline.
    - RoadmapModel.v: the data of [workspacecore/{roadmap_model,impact_model,]
      [impact_severity}.go] and of the deltas in [semantic_delta.go].
      RoadmapStore.v: the tables and statements of [roadmap_store.go],
      [impact_store.go] and [context_revision.go], next to the tables of the
      workspace.  RouteObjects.v: the current state of an object, the
      recursion through route nodes, the validation and application of deltas
      ([impact_service.go], [semantic_delta.go]).  Roadmap.v:
      [roadmap_service.go], its writes being requests of the pipeline lifted
      to the larger store.
    - RoadmapLaws.v: what a run of the pipeline does to the roadmap, and the
      statements' effects.  RoadmapHistory.v: well-formed stores and how a
      store may evolve.  RoadmapSound.v, RoadmapCommit.v: every business write
      keeps both, and what a commit does exactly.  RoadmapSteps.v: record keys
      are injective and their versions parse back; the roadmap as a step
      relation, the calls that leave the frozen tables alone, and histories.  RouteLaws.v: the resolution of route nodes.
      RoadmapDemo.v: a concrete roadmap.  RoadmapTheorems.v: the properties.
    - ImpactStore.v: the statuses of change sets ([change_set_status.go]), and
      reading and writing change sets, plans, assessments, edges and tasks
      ([impact_store.go], [service.go], [semantic_delta.go]) with the sources
      of what they name ([impact_source_operation.go]).  ImpactStoreLaws.v:
      which of these leave the roadmap alone.  Assessment.v:
      [buildImpactAssessment] of [impact_service.go]; AssessmentLaws.v and
      AssessmentTheorems.v: its walk is reachability along the dependencies.
    - Stabilization.v: the conditions of [stabilization_conditions.go] with
      the release gate ([release_gate.go]).  StabilizationLaws.v,
      StabilizationSteps.v, StabilizationTheorems.v: the two renderings of the
      one evaluation agree, and what the gate lets through.
    - Impact.v: the business writes of [impact_service.go] and
      [impact_preflight.go]: edges proposed and decided, tasks raised, worked,
      marked stale and raised again, proofs acknowledged, change sets
      assessed.  ImpactService.v: the operations around them, each with its
      checks, the sources it stands on and its run through the pipeline, the
      stabilization of a revision with its audit ([stabilization_audit.go]),
      and the reads.  FaultInjection.v: the writer of tasks as a port, and the
      failing one ([fault_injection.go]).
    - ImpactLaws.v: the rules a task, an edge and a store obey, and how a store
      may move.  ImpactWrites.v, ImpactMoves.v: every business write obeys
      them.  ImpactCalls.v: the calls as one step relation.  ImpactExact.v,
      ImpactRaising.v: what a call and the raising of tasks do exactly.
      ImpactDemo.v, ImpactCounter.v: concrete projects.  ImpactTheorems.v: the
      properties.
    - Candidates.v: [impact_dependency_candidate.go] with its tables
      ([impact_dependency_candidate_store.go]).  CandidateLaws.v: the effect of
      its statements and writes, and the calls as one step relation.
      CandidateTheorems.v: a batch on the project of ImpactCounter.v, and the
      properties.
    - Templates.v: the fields of a template, the values they take and the
      specification after an upgrade ([service_facade.go],
      [change_template_fields.go]).  Lineage.v: what an inverse undoes and the
      guard that keeps it alone ([change_inverse_lineage.go]).  ChangeStore.v:
      the proposals of deltas, their pinning and applying
      ([semantic_delta.go]), the row of a change set and its provenance.
      ChangeDrafts.v: drafts, assessed change sets and edits
      ([change_creation_mutation.go], [context_revision.go]).  ChangeApply.v:
      [ApplyChangeSet] and [RejectChangeSet] of [service_facade.go].
      ChangeInverse.v: [ReassessChangeSet], and the planning of an inverse
      ([change_inverse_operation.go], [semantic_delta_inverse.go],
      [release_gate.go]).  ChangeService.v: the seven operations around these
      writes, with the sources each stands on, through the pipeline.
    - ChangeLaws.v, ChangeWrites.v, ChangeApplied.v: what each business write
      does to change sets and their project.  ChangeCalls.v: the calls as one
      relation.  ChangePort.v: the draft a roadmap commit asks for is the one
      modelled here, so that the law [World] states of it is proved.
      ChangeHistory.v: the table of moves and the revisions.
      ChangeLineage.v: the rules of lineage and the values an inverse leaves.  ChangeDemo.v: a project on which a change set is made,
      applied, reversed, staled and undone.  ChangeTheorems.v: the properties.
    * State, errors and effects

    A Go struct is a [Record] with the struct's fields; an enum of strings
    stays a string where the code compares strings.  A 64-bit integer is a [Z]
    with its wrap-around written out where the code can overflow; a time is
    its nanoseconds, or the milliseconds the Redis scripts use.  A handler is a
    computation of [M S E A], from a store to a result and the store left
    behind; an error is a Go error with the chain [errors.Is] walks.  A store
    is a record of tables; a table is a finite map from its primary key, and a
    missing row or a duplicate key is the error the code sees.  Concurrent
    code is a step relation over the interleavings of its critical sections.

    * What the theorems show

    - The pipeline: a success was authorized and audited in its own write
      transaction ([success_is_authorized_and_audited]); one key answers one
      request with one result ([one_key_one_result]); a failed run leaves no
      trace, but for one named exception ([failed_run_rolls_back]); machines
      never decide what is reserved for people ([machines_never_decide]);
      sources that were checked are the ones written about
      ([source_basis_held]).  The repository transaction with its retries is a
      refinement of "run the body once, or not at all"
      ([repository_transaction_atomic]).
    - The policy: it agrees with a table of rights per role
      ([authorization_exact]); token claims only lower a role
      ([stored_role_bounds]); refusals do not reveal a project
      ([stranger_refusal_uniform]); the owner's freeze is the ordinary
      authorization of the owner ([owner_freeze_agrees]).
    - The members: every operation refines an abstract machine of ownership
      ([ownership_refined]), from which a project keeps exactly one owner over
      every history in which ownership goes to seated members
      ([one_owner_always]); states move along a fixed table
      ([member_states_follow_table]); an accepted invitation is final
      ([accepted_invitation_final]); lists show only what a caller may see
      ([membership_records_hidden]).  Two results are defects of the code
      stated as what it does ([ownership_can_be_lost],
      [collaborators_saved_once]).
    - The spending window: reservations stay inside the ceilings whatever
      happens ([window_never_over_budget], [reserve_needs_settled_window]),
      the checklist is exact with overflow included ([checklist_exact]),
      cancelling is the inverse of reserving ([cancel_restores_ledger]), a
      crash or a violation stops the window
      ([crash_makes_window_unavailable], [violation_freezes_window]) and
      settling never refunds ([unresolved_settlement_never_refunds],
      [http_settlement_never_refunds]).
    - The limiters: at most the budget of hits in any window and at most the
      limit of leases under any interleaving ([local_window_bound],
      [redis_members_bounded], [redis_slots_bounded], [local_slots_bounded]),
      and two interleavings or inputs in which the code grants more
      ([cleanup_race_exceeds_budget], [same_millisecond_hits_uncounted]).
    - The composition: a run of the workspace's runner is a replay, one
      committed write on the project it authorized, or nothing
      ([runner_commits_authorized_write]); a call repeated with its key changes
      nothing ([repeated_call_changes_nothing]); and every member call made
      through the workspace refines the ownership machine with nothing assumed
      of the ports ([workspace_refines_ownership]).
    - The roadmap: every run keeps the store well formed and the history of
      each node whole ([roadmap_stays_wellformed]); what is frozen never
      changes ([frozen_versions_are_forever]); editing touches nothing
      ([editing_leaves_roadmap]) and a commit freezes exactly what was
      proposed, owing every dependent a review ([commit_freezes_exactly]);
      histories read back what was written ([history_reads_back]); resolving
      a node ends, cycles included ([route_resolution_terminates]), and
      confirms what the rules of review derive ([route_review_equivalence]).
      One result is a defect of the code ([edge_proposals_never_commit]).
    - The assessment of a change set lists exactly what the rules of
      reachability along the eligible dependencies derive
      ([assessment_is_reachability]), and its walk ends
      ([assessment_walk_ends]).
    - Impacts: over every history of calls tasks and edges stay well formed
      ([impacts_stay_wellformed]), tasks move along their table
      ([tasks_follow_their_table]), decisions on edges are final
      ([dependency_decisions_are_final]) and what a person replaced is not
      proposed again by a model ([replaced_suggestion_stays_out]); the change
      sets they touch move as declared ([impact_calls_close_change_sets]).  Each call does
      exactly its work: the action on a task ([task_action_is_exact]), the
      acknowledged proof ([proof_closes_every_block]), the raising of the tasks
      of an applied change set ([raising_is_exact]), which is idempotent
      ([redelivery_changes_nothing]) and atomic under an injected fault
      ([injected_fault_leaves_no_trace]).
    - Candidates of dependencies: a submission stores its whole batch or
      nothing ([submission_is_exact]), the latest version of a tuple has one
      candidate ([one_candidate_per_version]), each is settled once
      ([candidates_are_settled_once]), and a decision is a person's and writes
      the one edge it yields ([decision_settles_one_candidate]).  One result is
      a defect of the code: that edge may be one a person had rejected
      ([rejected_edge_is_reopened]), so that the finality of decisions on edges
      holds of the calls on impacts and the roadmap, not of this one.
    - Change sets: one that is made stands on the present of its project
      ([proposals_stand_on_the_present]); an apply either marks it stale or
      takes the project to the next revision with exactly its values
      ([apply_is_exact]), which fit the template
      ([applied_specification_fits]); a rejection records who rejected
      ([rejection_is_exact]).  Over every history change sets are born
      undecided, move along their table and are final once decided
      ([change_sets_follow_their_table]), and each revision is made by one of
      them ([one_change_set_per_revision]).  What an inverse undoes is found
      exactly when the rules derive it, loops included
      ([lineage_is_derived]); it is made only where nothing live undoes the
      same source ([an_inverse_has_no_rival]), and applied it gives back the
      values from before ([inverse_undoes]).  The draft a roadmap commit hands
      over to leaves the roadmap as it was ([drafting_leaves_the_roadmap]).
    - Stabilization: the owner's verdict is that of the conditions at the
      moment of the write ([stabilization_verdict]); the release gate passes
      exactly the revisions that are stabilized and owe nothing
      ([release_gate_exact]), whether it stops at the first failure or not
      ([fail_fast_is_faithful]), and what it passes the owner can stabilize
      but for the objects rechecked ([gate_pass_satisfies_owner]).
    * Fuel and bounds

    The retry loop of a transaction runs at most the code's own 64 attempts,
    and the fuel is that constant.  The walks of [trim], [allow] and the
    clean-up recurse on the list they consume.  [route_object] follows the
    inputs of route nodes with the number of stored nodes and one as fuel,
    which every path of distinct nodes fits in
    ([route_resolution_terminates]); the walk of an assessment takes the
    number of roots and edges, since a reference enters its queue as a root or
    through an edge that is followed once ([assessment_walk_ends]).  The other
    recursions are structural.

    * Parameters

    What is not under [src/] is an argument with its documented behaviour as a
    named law: the database transaction ([AtomicDB]: one run of the body is
    committed, or nothing is), the order of a query's rows, the Redis sorted
    sets ([ZSetLaws]), JSON and SHA-256 ([LedgerCodec], [Digester]; the
    bodies of the roadmap's rows are kept decoded), the parts of the workspace
    the roadmap and the impacts read ([World], [Checks], [ImpactPorts], [ChangePorts]),
    clocks, random identifiers and the iteration order of a Go map ([Oracle],
    [IO]).  Every law class has an instance that satisfies it, and every theorem with
    hypotheses is applied once at a concrete input.

    * Not modelled

    The editing side of the aggregate outside change sets (specifications,
    template copies, chapters, baselines), the archive of removed fields, the
    planning of the inverse of a template upgrade, the provenance records and
    the deltas of cards, claims, assets and rules (which the change sets take
    as [ChangePorts] and [World]), dependency recommendations, agent actions and research proposals, delivery and
    document generation; knowledge ingestion, retrieval, the agent runtime and chat pipeline (orchestration around
    parsers, search engines and model providers); the lock files and process
    probes of the spending window (operating-system glue); HTTP handlers,
    routing and third-party adapters (transport glue).

    * Plan

    Next: the project's life (archive, discard, restore) and its drafts; the
    working copy and chapters, so that the chapter versions a change set stands
    on are the program's own; then the archive of removed fields and the
    planning of template inverses, which are ports of [ChangePorts] now. *)

From stdpp Require Export base gmap strings list.
From Stdlib Require Export ZArith Lia.
From Stdlib Require Import Ascii String.

#[global] Open Scope string_scope.
#[global] Open Scope list_scope.
#[global] Open Scope Z_scope.

(** ** Record updates

    [r <| field := v |>] is the Go assignment [r.field = v] on a value.  The
    setter of a projection is found by instance search and built from the
    record's constructor. *)

Class Setter {R T : Type} (proj : R -> T) := set_field : (T -> T) -> R -> R.

Ltac eta_setter p :=
  intros upd rec; pose (whole := rec); destruct rec;
  let body := eval unfold whole in whole in
  let v := eval cbn in (p body) in
  match eval pattern v in body with
  | ?ctx _ => exact (ctx (upd v))
  end.

#[export] Hint Extern 0 (Setter ?p) =>
  (let t := type of p in
   let s := constr:(ltac:(eta_setter p) : ltac:(lazymatch t with ?R -> ?T => exact ((T -> T) -> R -> R) end)) in
   let s' := eval cbv beta zeta in s in exact s') : typeclass_instances.

Notation "r <| f := v |>" := (set_field (proj := f) (fun _ => v) r)
  (at level 1, f at level 9, v at level 99, left associativity,
   format "r  <| f  :=  v |>").

(** ** Early returns

    [when c return v; k] is the Go statement [if c { return v }; k]. *)

Notation "'when' c 'return' v ; k" := (if c then v else k)
  (at level 100, c at level 99, v at level 99, k at level 200, right associativity,
   only parsing).

(** ** Results *)

Inductive res (E A : Type) : Type :=
| Ok (a : A)
| Err (e : E).

Arguments Ok {E A} a.
Arguments Err {E A} e.

#[export] Instance res_ret {E} : MRet (res E) := fun A a => Ok a.
#[export] Instance res_bind {E} : MBind (res E) :=
  fun A B k m => match m with Ok a => k a | Err e => Err e end.

Definition is_ok {E A} (r : res E A) : bool :=
  match r with Ok _ => true | Err _ => false end.

Lemma res_bind_ok {E A B} (m : res E A) (k : A -> res E B) b :
  m ≫= k = Ok b <-> exists a, m = Ok a /\ k a = Ok b.
Proof. destruct m; cbn; split; intros H; [eauto|by destruct H as (? & [= ->] & ?)|done|by destruct H as (? & ? & ?)]. Qed.

(** ** Go integers

    [int] and [int64] are 64-bit two's complement; every arithmetic operator
    of the source is written with its wrap-around. *)

Declare Scope go_scope.
Delimit Scope go_scope with go.

Definition min_int64 : Z := - 2 ^ 63.
Definition max_int64 : Z := 2 ^ 63 - 1.
Definition i64 (z : Z) : Z := (z + 2 ^ 63) mod 2 ^ 64 - 2 ^ 63.
Definition int64_range (z : Z) : Prop := min_int64 <= z <= max_int64.

Notation "a +i b" := (i64 (a + b)) (at level 50, left associativity) : go_scope.
Notation "a -i b" := (i64 (a - b)) (at level 50, left associativity) : go_scope.
Notation "a *i b" := (i64 (a * b)) (at level 40, left associativity) : go_scope.
#[global] Open Scope go_scope.

Lemma i64_id z : int64_range z -> i64 z = z.
Proof.
  unfold int64_range, min_int64, max_int64, i64. intros H.
  rewrite Z.mod_small by lia. lia.
Qed.

Lemma i64_in_range z : int64_range (i64 z).
Proof.
  unfold int64_range, min_int64, max_int64, i64.
  pose proof (Z.mod_pos_bound (z + 2 ^ 63) (2 ^ 64)). lia.
Qed.

(** Two non-negative [int64]s whose sum overflows wrap to a negative number. *)
Lemma i64_add_overflow a b :
  0 <= a <= max_int64 -> 0 <= b <= max_int64 -> max_int64 < a + b -> i64 (a + b) < 0.
Proof.
  unfold max_int64, i64. intros Ha Hb Ho.
  replace (a + b + 2 ^ 63) with (a + b - 2 ^ 63 + 1 * 2 ^ 64) by lia.
  rewrite Z.mod_add, Z.mod_small by lia. lia.
Qed.

(** Subtraction undoes addition, wrap-around or not. *)
Lemma i64_add_sub a d : int64_range a -> i64 (i64 (a + d) - d) = a.
Proof.
  intros R. unfold i64. set (q := (a + d + 2 ^ 63) / 2 ^ 64).
  replace ((a + d + 2 ^ 63) mod 2 ^ 64) with (a + d + 2 ^ 63 - 2 ^ 64 * q)
    by (unfold q; rewrite (Z.div_mod (a + d + 2 ^ 63) (2 ^ 64)) at 1; lia).
  replace (a + d + 2 ^ 63 - 2 ^ 64 * q - 2 ^ 63 - d + 2 ^ 63) with (a + 2 ^ 63 + (- q) * 2 ^ 64) by lia.
  rewrite Z.mod_add, Z.mod_small; unfold int64_range, min_int64, max_int64 in *; lia.
Qed.

(** Discharge the wrap-arounds that cannot happen, innermost first. *)
Ltac solve_range := unfold int64_range, min_int64, max_int64 in *; lia.

Ltac no_wrap :=
  repeat match goal with
  | |- context [i64 ?z] =>
      lazymatch z with context [i64 _] => fail | _ => idtac end;
      rewrite (i64_id z) by solve_range
  end.

Ltac no_wrap_in H :=
  repeat match type of H with
  | context [i64 ?z] =>
      lazymatch z with context [i64 _] => fail | _ => idtac end;
      rewrite (i64_id z) in H by solve_range
  end.

(** ** Strings *)

Definition contains (l : list string) (s : string) : bool := existsb (String.eqb s) l.

Lemma contains_spec l s : contains l s = true <-> s ∈ l.
Proof.
  unfold contains. rewrite existsb_exists, list_elem_of_In. split.
  - intros (x & Hin & He). apply String.eqb_eq in He. by subst.
  - intros Hin. exists s. by rewrite String.eqb_refl.
Qed.

Lemma contains_false l s : contains l s = false <-> s ∉ l.
Proof. rewrite <- contains_spec. by destruct (contains l s). Qed.

Definition len (s : string) : Z := Z.of_nat (String.length s).

(** The UTF-8 encodings of the Unicode white space [strings.TrimSpace]
    removes. *)
Definition white_space : list (list nat) :=
  [[9]; [10]; [11]; [12]; [13]; [32]; [194; 133]; [194; 160]; [225; 154; 128]]%nat
  ++ ((fun k => [226; 128; 128 + k]%nat) <$> seq 0 11)
  ++ [[226; 128; 168]; [226; 128; 169]; [226; 128; 175]; [226; 129; 159]; [227; 128; 128]]%nat.

Fixpoint drop_bytes (p s : list nat) : option (list nat) :=
  match p, s with
  | [], _ => Some s
  | x :: p', y :: s' => if Nat.eqb x y then drop_bytes p' s' else None
  | _, [] => None
  end.

Definition drop_first (ps : list (list nat)) (s : list nat) : option (list nat) :=
  foldr (fun p acc => match drop_bytes p s with Some r => Some r | None => acc end) None ps.

(** Fuel: every round removes at least one byte. *)
Fixpoint trim_front (fuel : nat) (ps : list (list nat)) (s : list nat) : list nat :=
  match fuel with
  | O => s
  | S fuel' => match drop_first ps s with Some r => trim_front fuel' ps r | None => s end
  end.

Definition bytes_of (s : string) : list nat := nat_of_ascii <$> list_ascii_of_string s.
Definition string_of (l : list nat) : string := string_of_list_ascii (ascii_of_nat <$> l).

Definition TrimSpace (s : string) : string :=
  let b := bytes_of s in
  let front := trim_front (List.length b) white_space b in
  let back := trim_front (List.length front) ((fun p => reverse p) <$> white_space) (reverse front) in
  string_of (reverse back).

(** [len([]rune(s))]: a byte that starts no UTF-8 sequence is a rune of its
    own. *)
Definition between (lo hi b : nat) : bool := Nat.leb lo b && Nat.leb b hi.
Definition trailing (b : nat) : bool := between 128 191 b.

Fixpoint runes (l : list nat) : nat :=
  match l with
  | [] => 0
  | a :: l1 =>
      S match l1 with
        | b :: l2 =>
            if between 194 223 a && trailing b then runes l2
            else match l2 with
                 | c :: l3 =>
                     if ((a =? 224) && between 160 191 b || between 225 236 a && trailing b || (a =? 237) && between 128 159 b
                         || between 238 239 a && trailing b)%nat && trailing c then runes l3
                     else match l3 with
                          | d :: l4 =>
                              if ((a =? 240) && between 144 191 b || between 241 243 a && trailing b
                                  || (a =? 244) && between 128 143 b)%nat && trailing c && trailing d then runes l4
                              else runes l1
                          | [] => runes l1
                          end
                 | [] => runes l1
                 end
        | [] => runes l1
        end
  end.

Definition RuneCount (s : string) : Z := Z.of_nat (runes (bytes_of s)).

(** [strings.Cut]: the text around the first separator. *)
Fixpoint cut (sep : ascii) (s : string) : string * string * bool :=
  match s with
  | EmptyString => (EmptyString, EmptyString, false)
  | String c s' =>
      if Ascii.eqb c sep then (EmptyString, s', true)
      else let '(b, a, f) := cut sep s' in (String c b, a, f)
  end.

Definition colon : ascii := ":"%char.
Definition slash : ascii := "/"%char.

(** ** Lists *)

Fixpoint sum_by {A} (f : A -> Z) (l : list A) : Z :=
  match l with [] => 0 | a :: l' => f a + sum_by f l' end.

Lemma sum_by_app {A} (f : A -> Z) l1 l2 : sum_by f (l1 ++ l2) = sum_by f l1 + sum_by f l2.
Proof. induction l1; cbn; lia. Qed.

Lemma sum_by_nonneg {A} (f : A -> Z) l : Forall (fun a => 0 <= f a) l -> 0 <= sum_by f l.
Proof. induction 1; cbn; lia. Qed.

Lemma sum_by_insert {A} (f : A -> Z) (l : list A) i x y :
  l !! i = Some x -> sum_by f (<[i := y]> l) = sum_by f l - f x + f y.
Proof.
  revert i. induction l as [|a l IH]; intros [|i] H; simplify_eq/=; [lia|].
  rewrite (IH i H). lia.
Qed.

Lemma sum_by_ext {A} (f g : A -> Z) l :
  Forall (fun a => f a = g a) l -> sum_by f l = sum_by g l.
Proof. induction 1; cbn; lia. Qed.

(** ** Automation *)

(** Follow the early returns of a Go body recorded in [H]: split each guard,
    close the branches whose outcome contradicts [H]. *)
Ltac early_step H :=
  match type of H with
  | context [if ?b then _ else _] => let E := fresh "G" in destruct b eqn:E; try discriminate H
  | context [match ?x with _ => _ end] => let E := fresh "G" in destruct x eqn:E; try discriminate H
  end.

Ltac early_returns H := repeat (early_step H; cbn beta iota in H).

(** Split the outermost guard of the goal. *)
Ltac guard_step :=
  match goal with
  | |- context [if ?c then _ else _] => let G := fresh "G" in destruct c eqn:G
  end.

Ltac split_bools :=
  repeat match goal with
  | H : _ || _ = false |- _ => apply orb_false_iff in H as [? ?]
  | H : _ && _ = true |- _ => apply andb_true_iff in H as [? ?]
  | H : negb _ = false |- _ => apply negb_false_iff in H
  | H : negb _ = true |- _ => apply negb_true_iff in H
  | H : (_ <? _) = _ |- _ => first [apply Z.ltb_lt in H | apply Z.ltb_ge in H]
  | H : (_ <=? _) = _ |- _ => first [apply Z.leb_le in H | apply Z.leb_gt in H]
  | H : (_ =? _)%Z = _ |- _ => first [apply Z.eqb_eq in H | apply Z.eqb_neq in H]
  | H : (_ =? _)%string = _ |- _ => first [apply String.eqb_eq in H | apply String.eqb_neq in H]
  end.

Ltac guard_in H :=
  match type of H with
  | context [if ?c then _ else _] => let G := fresh "G" in destruct c eqn:G
  end.
