(* ===== verification/Effects.v ===== *)
(** Effects shared by the components: Go errors with their wrapping chain, and
    a state-and-error monad for code that calls out to a store.  A computation
    of type [M S E A] is a function of the store; a failing one still returns
    the store it leaves behind, so that what survives an error is a property
    of the model and not of its type. *)

From S2P Require Import Prelude.
From Stdlib Require Import Ascii String.

(** ** Errors *)

(** A Go [error]: a sentinel made by [errors.New], a driver error with a
    [Code() int] method, an error wrapping a cause under its own message, and
    the marker of [operationcore/decision.go], and the wrapper of
    [permission_policy.go] that adds the refused capability.  Sentinels are
    told apart by their message. *)
Inductive error :=
| Sentinel (message : string)
| DriverError (code : Z) (message : string)
| Wrapped (message : string) (cause : error)
| ReplayPayloadDecodeError (err : error)
| AuthorizationDecision (capability : string) (err : error).

#[export] Instance error_eq_dec : EqDecision error.
Proof. solve_decision. Defined.

(** [err.Error()] *)
Fixpoint Error (e : error) : string :=
  match e with
  | Sentinel message | DriverError _ message | Wrapped message _ => message
  | ReplayPayloadDecodeError err | AuthorizationDecision _ err => Error err
  end.

(** [errors.Is(err, target)] for a target that is a plain value. *)
Fixpoint errors_Is (e target : error) : bool :=
  bool_decide (e = target)
  || match e with
     | Sentinel _ | DriverError _ _ => false
     | Wrapped _ cause => errors_Is cause target
     | ReplayPayloadDecodeError err | AuthorizationDecision _ err => errors_Is err target
     end.

(** ** Strings *)

Fixpoint starts_with (needle hay : list nat) : bool :=
  match needle, hay with
  | [], _ => true
  | x :: needle', y :: hay' => Nat.eqb x y && starts_with needle' hay'
  | _, [] => false
  end.

Fixpoint has_infix (needle hay : list nat) : bool :=
  starts_with needle hay
  || match hay with [] => false | _ :: hay' => has_infix needle hay' end.

(** [strings.Contains] *)
Definition Contains (s substr : string) : bool := has_infix (bytes_of substr) (bytes_of s).

(** The ASCII part of [strings.ToLower]: the ASCII capitals and the two
    letters outside ASCII (the Kelvin sign and the dotted capital I) whose
    lower case is in ASCII. *)
Fixpoint lower_bytes (s : list nat) : list nat :=
  match s with
  | 226%nat :: ((132%nat :: (170%nat :: s'')) as s') => 107%nat :: lower_bytes s''
  | 196%nat :: ((176%nat :: s'') as s') => 105%nat :: lower_bytes s''
  | c :: s' => (if (65 <=? c)%nat && (c <=? 90)%nat then (c + 32)%nat else c) :: lower_bytes s'
  | [] => []
  end.

Definition ToLower (s : string) : string := string_of (lower_bytes (bytes_of s)).

(** ** The state and error monad *)

Definition M (S E A : Type) : Type := S -> S * res E A.

#[export] Instance M_ret {S E} : MRet (M S E) := fun A a s => (s, Ok a).
#[export] Instance M_bind {S E} : MBind (M S E) := fun A B k m s =>
  match m s with
  | (s', Ok a) => k a s'
  | (s', Err e) => (s', Err e)
  end.

Definition fail {S E A} (e : E) : M S E A := fun s => (s, Err e).
Definition modify {S E} (f : S -> S) : M S E unit := fun s => (f s, Ok tt).

(** [if c { return e }] *)
Definition refuse_if {S E} (c : bool) (e : E) : M S E unit := if c then fail e else mret tt.

(** A step whose Go function returns an [error] and nothing else. *)
Definition returned {S E} (o : option E) : M S E unit :=
  match o with Some e => fail e | None => mret tt end.

(** A seam that may be [nil]: [if f != nil { if err := f(...); ... }]. *)
Definition if_filled {S E F} (f : option F) (call : F -> M S E unit) : M S E unit :=
  match f with Some f => call f | None => mret tt end.

(** [_ = f(...)]: the error is dropped, the effect is not. *)
Definition ignore_error {S E A} (m : M S E A) : M S E unit := fun s => ((m s).1, Ok tt).

(** Run [h e] on the way out of a failure, then fail with [e]. *)
Definition on_error {S E A} (m : M S E A) (h : E -> M S E unit) : M S E A := fun s =>
  match m s with
  | (s', Ok a) => (s', Ok a)
  | (s', Err e) => ((ignore_error (h e) s').1, Err e)
  end.

(** [if err != nil { return wrap(err) }] *)
Definition map_error {S E E' A} (wrap : E -> E') (m : M S E A) : M S E' A := fun s =>
  match m s with
  | (s', Ok a) => (s', Ok a)
  | (s', Err e) => (s', Err (wrap e))
  end.

(** The error as a value: the caller looks at it and goes on. *)
Definition attempt {S E A} (m : M S E A) : M S E (res E A) := fun s =>
  let '(s', r) := m s in (s', Ok r).

(** Run a computation on the store inside one that also carries the local
    variables its closure captured. *)
Definition on_store {S L E A} (m : M S E A) : M (S * L) E A := fun sl =>
  let '(s', r) := m sl.1 in ((s', sl.2), r).

Definition assign {S L E} (f : L -> L) : M (S * L) E unit := fun sl => ((sl.1, f sl.2), Ok tt).
Definition local_vars {S L E} : M (S * L) E L := fun sl => (sl, Ok sl.2).

(** *** Inversion of a run *)

Lemma bind_ok {S E A B} (m : M S E A) (k : A -> M S E B) s s' b :
  (m ≫= k) s = (s', Ok b) -> exists s1 a, m s = (s1, Ok a) /\ k a s1 = (s', Ok b).
Proof. unfold mbind, M_bind. destruct (m s) as [s1 [a|e]]; intros H; [eauto|discriminate]. Qed.

Lemma bind_run {S E A B} (m : M S E A) (k : A -> M S E B) s s1 a :
  m s = (s1, Ok a) -> (m ≫= k) s = k a s1.
Proof. unfold mbind, M_bind. by intros ->. Qed.

Lemma bind_err {S E A B} (m : M S E A) (k : A -> M S E B) s s1 e :
  m s = (s1, Err e) -> (m ≫= k) s = (s1, Err e).
Proof. unfold mbind, M_bind. by intros ->. Qed.

Lemma refuse_if_ok {S E} c (e : E) (s s' : S) u :
  refuse_if c e s = (s', Ok u) -> c = false /\ s' = s.
Proof. unfold refuse_if. destruct c; [discriminate|]. by intros [= <- _]. Qed.

Lemma returned_run {S E} (o : option E) (s s' : S) u :
  returned o s = (s', Ok u) -> o = None /\ s' = s.
Proof. destruct o; [discriminate|]. intros F. by injection F as <- _. Qed.

Lemma on_store_ok {S L E A} (m : M S E A) (s s' : S * L) a :
  on_store m s = (s', Ok a) -> m s.1 = (s'.1, Ok a) /\ s'.2 = s.2.
Proof. unfold on_store. destruct (m s.1) as [s1 r]. by intros [= <- ->]. Qed.

Lemma on_error_ok {S E A} (m : M S E A) h s s' a :
  on_error m h s = (s', Ok a) -> m s = (s', Ok a).
Proof. unfold on_error. destruct (m s) as [s1 [x|e]]; [done|discriminate]. Qed.

Lemma map_error_ok {S E E' A} (wrap : E -> E') (m : M S E A) s s' a :
  map_error wrap m s = (s', Ok a) -> m s = (s', Ok a).
Proof. unfold map_error. destruct (m s) as [s1 [x|e]]; [|discriminate]. by intros [= <- <-]. Qed.

(** *** Frames

    [keeps I m]: whatever [m] answers, what [I] observes of the store is as
    before. *)

Definition keeps {S E A T} (I : S -> T) (m : M S E A) : Prop := forall s, I (m s).1 = I s.

Lemma keeps_run {S E A T} (I : S -> T) (m : M S E A) s s' r :
  keeps I m -> m s = (s', r) -> I s' = I s.
Proof. intros K E'. specialize (K s). by rewrite E' in K. Qed.

Lemma keeps_ret {S E A T} (I : S -> T) (a : A) : keeps I (mret a : M S E A).
Proof. by intros s. Qed.

Lemma keeps_bind {S E A B T} (I : S -> T) (m : M S E A) (k : A -> M S E B) :
  keeps I m -> (forall a, keeps I (k a)) -> keeps I (m ≫= k).
Proof.
  intros Hm Hk s. unfold mbind, M_bind. specialize (Hm s).
  destruct (m s) as [s1 [a|e]]; cbn in *; [by rewrite Hk|done].
Qed.

Lemma keeps_fail {S E A T} (I : S -> T) (e : E) : keeps I (fail e : M S E A).
Proof. by intros s. Qed.

Lemma keeps_refuse_if {S E T} (I : S -> T) c (e : E) : keeps I (refuse_if c e).
Proof. by intros s; destruct c. Qed.

Lemma keeps_if_filled {S E F T} (I : S -> T) (f : option F) (call : F -> M S E unit) :
  (forall x, f = Some x -> keeps I (call x)) -> keeps I (if_filled f call).
Proof. intros H. destruct f; [by apply H|by intros s]. Qed.

Lemma keeps_on_error {S E A T} (I : S -> T) (m : M S E A) h :
  keeps I m -> (forall e, keeps I (h e)) -> keeps I (on_error m h).
Proof.
  intros Hm Hh s. unfold on_error, ignore_error. specialize (Hm s).
  destruct (m s) as [s1 [a|e]]; cbn in *; [done|by rewrite Hh].
Qed.

Lemma keeps_map_error {S E E' A T} (I : S -> T) (wrap : E -> E') (m : M S E A) :
  keeps I m -> keeps I (map_error wrap m).
Proof. intros Hm s. unfold map_error. specialize (Hm s). by destruct (m s) as [s1 [a|e]]. Qed.

Lemma keeps_attempt {S E A T} (I : S -> T) (m : M S E A) : keeps I m -> keeps I (attempt m).
Proof. intros Hm s. unfold attempt. specialize (Hm s). by destruct (m s). Qed.

(** A read leaves the whole store as it was. *)
Abbreviation reads m := (keeps id m).

Lemma reads_run {S E A} (m : M S E A) s : reads m -> m s = (s, (m s).2).
Proof. intros R. specialize (R s). cbn in R. destruct (m s) as [s' r]. cbn in *. by subst. Qed.

Lemma reads_ok {S E A} (m : M S E A) s s' r : m s = (s', r) -> reads m -> s' = s.
Proof. intros F R. specialize (R s). by rewrite F in R. Qed.

Lemma reads_bind_ok {S E A B} (m : M S E A) (k : A -> M S E B) s s' b : reads m ->
  (m ≫= k) s = (s', Ok b) <-> exists a, m s = (s, Ok a) /\ k a s = (s', Ok b).
Proof.
  intros R. pose proof (reads_run m s R) as Er. unfold mbind, M_bind. rewrite Er.
  destruct ((m s).2) as [a|e]; cbn; split; [eauto| |discriminate|].
  - by intros (a' & [= ->] & ?).
  - by intros (a' & ? & ?).
Qed.

Lemma refuse_if_run {S E} c (e : E) (s s' : S) u :
  refuse_if c e s = (s', Ok u) <-> c = false /\ s' = s.
Proof.
  split; [apply refuse_if_ok|]. intros [-> ->]. by destruct u.
Qed.

Lemma keeps_on_store {S L E A T} (I : S -> T) (m : M S E A) :
  keeps I m -> keeps (fun sl : S * L => I sl.1) (on_store m).
Proof. intros Hm s. unfold on_store. specialize (Hm s.1). by destruct (m s.1). Qed.

Lemma keeps_assign {S L E T} (I : S -> T) (f : L -> L) :
  keeps (fun sl : S * L => I sl.1) (assign f : M _ E unit).
Proof. by intros s. Qed.

Create HintDb effects.
#[export] Hint Resolve keeps_ret keeps_fail keeps_refuse_if keeps_map_error keeps_on_error
  keeps_attempt keeps_on_store keeps_assign : effects.

(** Walk a body with a frame lemma per step: what is left are the frames of
    the seams. *)
Ltac keep_frame :=
  repeat first
    [ solve [auto with effects]
    | lazymatch goal with
      | |- forall _, _ => intro
      | |- keeps _ (_ ≫= _) => apply keeps_bind
      | |- keeps _ (if_filled _ _) => apply keeps_if_filled
      | |- keeps _ (match ?x with _ => _ end) => destruct x
      end ].
