(* ===== verification/OperationCore.v ===== *)
(** The shared operation pipeline of
    [src/internal/lingdoc/operationcore/{decision,operationcore}.go]: the
    idempotency key rule, the request digest, the human decision gate and
    [Run], which sequences the seams the workspace fills in.

    A seam is a field of [OperationRequest]; a seam that may be [nil] is an
    option.  A seam inside a transaction is a computation on the store; the
    transaction itself is a seam that runs such a computation together with
    the local variables [Run]'s closures capture. *)

From S2P Require Import Prelude Effects.

(** ** The caller ([types/principal.go], [types/tenant_api_key.go]) *)

Definition PrincipalWebUser := "web_user".
Definition PrincipalAPITenant := "api_tenant".
Definition PrincipalAPIPlatform := "api_platform".
Definition PrincipalAPIExternalUser := "api_external_user".
Definition PrincipalIMUser := "im_user".
Definition PrincipalEmbedChannel := "embed_channel".
Definition PrincipalEmbedSession := "embed_session".
Definition PrincipalEmbedVisitor := "embed_visitor".

Record Principal := { p_Type : string; p_ID : string }.

Definition Principal_Normalize (p : Principal) : Principal :=
  {| p_Type := TrimSpace (p_Type p); p_ID := TrimSpace (p_ID p) |}.

Definition Principal_Valid (p : Principal) : bool :=
  let p := Principal_Normalize p in
  negb (p_Type p =? "")%string && negb (p_ID p =? "")%string.

(** The values of a [context.Context] the program reads, and whatever the
    preparation steps add to it. *)
Set Primitive Projections.
Record Context {X : Type} := {
  ctx_APIKeyScope : bool;
  ctx_Principal : option Principal;
  ctx_UserID : option string;
  ctx_prepared : X
}.
Unset Primitive Projections.
Arguments Context : clear implicits.

Definition UserIDFromContext {X} (ctx : Context X) : option string :=
  match ctx_UserID ctx with
  | Some v => if (v =? "")%string then None else Some v
  | None => None
  end.

Definition PrincipalFromContext {X} (ctx : Context X) : option Principal :=
  let by_user := match UserIDFromContext ctx with
                 | Some uid => when (TrimSpace uid =? "")%string return None;
                               Some {| p_Type := PrincipalWebUser; p_ID := uid |}
                 | None => None
                 end in
  match ctx_Principal ctx with
  | Some p => if Principal_Valid p then Some (Principal_Normalize p) else by_user
  | None => by_user
  end.

(** ** [decision.go] *)

(** [HumanGate] is an [int]; a value other than the two declared ones is
    treated as undeclared. *)
Definition HumanGate := Z.
Definition HumanGateUndeclared : HumanGate := 0.
Definition HumanGateRequired : HumanGate := 1.
Definition HumanGateNotRequired : HumanGate := 2.

Definition machine_principals : list string :=
  [PrincipalAPITenant; PrincipalAPIPlatform; PrincipalAPIExternalUser;
   PrincipalEmbedChannel; PrincipalEmbedSession; PrincipalEmbedVisitor].

Definition RequireHumanDecision {X} (ctx : Context X) (required : error) : option error :=
  when ctx_APIKeyScope ctx return Some required;
  match PrincipalFromContext ctx with
  | Some p => when contains machine_principals (p_Type p) return Some required; None
  | None => None
  end.

Definition MarkReplayPayloadDecodeError (err : option error) : option error :=
  option_map ReplayPayloadDecodeError err.

(** [errors.As]: the marker anywhere in the chain. *)
Fixpoint IsReplayPayloadDecodeError (err : error) : bool :=
  match err with
  | ReplayPayloadDecodeError _ => true
  | Wrapped _ cause | AuthorizationDecision _ cause => IsReplayPayloadDecodeError cause
  | Sentinel _ | DriverError _ _ => false
  end.

(** ** [operationcore.go] *)

Definition MinKeyLength := 8.
Definition MaxKeyLength := 128.

Definition ValidKey (key : string) : bool :=
  (MinKeyLength <=? len key) && (len key <=? MaxKeyLength).

(** [encoding/json] and [crypto/sha256]. *)
Class Digester (V : Type) := {
  json_Marshal : V -> res error string;
  sha256_hex : string -> string
}.

Definition digestJSON {V} `{Digester V} (value : V) : string * option error :=
  match json_Marshal value with
  | Err err => (sha256_hex "", Some err)
  | Ok encoded => (sha256_hex encoded, None)
  end.

Definition ValueHash {V} `{Digester V} (value : V) : string := (digestJSON value).1.

Definition RequestHash {V} `{Digester V} (body : V) : string * option error := digestJSON body.

Set Primitive Projections.
Record Identity {A : Type} := {
  id_Actor : A;
  id_Operation : string;
  id_Target : string;
  id_Key : string
}.
Arguments Identity : clear implicits.

Record Authorization {A : Type} := {
  au_Actor : A;
  au_ProjectID : string;
  au_Action : string;
  au_Resource : string
}.
Arguments Authorization : clear implicits.

Record Result := {
  re_BodyHash : string;
  re_Body : string;
  re_Status : Z;
  re_Output : string
}.

Record Options := { opt_ReadOnly : bool; opt_RetryLocks : bool }.

Record Errors := {
  InvalidRequest : error;
  IdempotencyConflict : error;
  VersionConflict : error;
  InvalidState : error;
  HumanDecisionRequired : error
}.

Record Outcome := { out_Body : string; out_Status : Z; out_Replayed : bool }.
Unset Primitive Projections.

Definition Capability {A} (a : Authorization A) : string :=
  when (au_Resource a =? "")%string return au_Action a;
  au_Action a +:+ ":" +:+ au_Resource a.

Definition zero_result : Result :=
  {| re_BodyHash := ""; re_Body := ""; re_Status := 0; re_Output := "" |}.

Definition retryLockedOperations : list string :=
  ["saveSpec"; "createProject"; "changeTemplate"; "saveTemplateCopy"; "bindTemplateCopyRuleSet";
   "applyLegacyRuleOverrides"; "createTemplateFieldArchive"; "removeArchivedTemplateField";
   "reverseChangeSet"].

Definition RetryLocks (operation : string) : bool := contains retryLockedOperations operation.

(** The variables of [Run] its transaction closures assign. *)
Set Primitive Projections.
Record Locals {P : Type} := {
  lo_result : Result;
  lo_replayed : bool;
  lo_checkedProject : P;
  lo_checkedSources : list string;
  lo_checkedFound : bool
}.
Unset Primitive Projections.
Arguments Locals : clear implicits.

(** [A] is the actor, [W] the store, [P] the project, [V] what Go calls [any]
    (request bodies and written values) and [X] the prepared part of the
    context. *)
Section Pipeline.
Context {A W P V X : Type} `{Digester V}.

Abbreviation Ctx := (Context X).
Abbreviation St := (W * Locals P)%type.

Record LedgerOps := {
  Lookup : Identity A -> M W error (Result * bool);
  Save : Identity A -> Result -> M W error unit
}.

Set Primitive Projections.
Record OperationRequest := {
  op_Identity : Identity A;
  op_Authorization : Authorization A;
  op_Body : V;
  op_Output : string;
  op_SourceSensitive : bool;
  op_HumanGate : HumanGate;
  op_Errors : Errors;
  op_Transaction : Ctx -> Options -> M St error unit -> M St error unit;
  op_ValidActor : option (A -> bool);
  op_AuditWriteFailed : error -> error;
  op_Ledger : M W error LedgerOps;
  op_AuthorizeTenant : Ctx -> Authorization A -> M W error unit;
  op_AuthorizeProject : Ctx -> Authorization A -> M W error P;
  op_RecordAudit : Ctx -> string -> string -> option error -> M W error unit;
  op_CheckSources : option (Ctx -> string -> list string -> M W error unit);
  op_SourceIDs : option (Result -> bool -> M W error (list string));
  op_PrepareCached : option (Ctx -> Identity A -> V -> M W error (Ctx * bool));
  op_Prepare : option (Ctx -> Identity A -> V -> M W error Ctx);
  op_RequireInverseCaller : option (Ctx -> V -> option error);
  op_Validate : option (Ctx -> P -> M W error unit);
  op_CheckProject : option (P -> option error);
  op_StorePins : option (Ctx -> string -> M W error unit);
  op_Write : Ctx -> P -> M W error (V * string * Z);
  op_StoreReverseSources : option (Ctx -> V -> M W error unit);
  op_StoreProvenance : option (Ctx -> Identity A -> Result -> V -> M W error unit);
  op_Project : Ctx -> string -> string -> string -> M W error string;
  op_RuntimeGate : option (Ctx -> P -> string -> M W error unit);
  op_AfterWrite : option (Ctx -> P -> string -> string -> string -> Z -> V -> M W error unit);
  op_ObserveFailure : option (Ctx -> string -> string -> error -> M W error unit);
  op_Basis : P -> string
}.
Unset Primitive Projections.

(** [var project P]: the zero value of the project type. *)
Variable zero_project : P.

Section Steps.
Variable request : OperationRequest.
Let identity := op_Identity request.
Let operation := id_Operation (op_Identity request).
Let target := id_Target (op_Identity request).
Let projectID := au_ProjectID (op_Authorization request).
Let capability := Capability (op_Authorization request).

(** The refusals before anything is read or written. *)
Definition admit_request (ctx : Ctx) : option error :=
  when match op_ValidActor request with
       | Some valid => negb (valid (id_Actor identity))
       | None => false
       end
  return Some (InvalidRequest (op_Errors request));
  when negb (ValidKey (id_Key identity)) return Some (InvalidRequest (op_Errors request));
  match match op_RequireInverseCaller request with
        | Some require => require ctx (op_Body request)
        | None => None
        end with
  | Some err => Some err
  | None =>
      when op_HumanGate request =? HumanGateRequired
      return RequireHumanDecision ctx (HumanDecisionRequired (op_Errors request));
      when op_HumanGate request =? HumanGateNotRequired return None;
      Some (InvalidRequest (op_Errors request))
  end.

(** A failed [Run] answers an [Outcome] that holds nothing but [Replayed]:
    its failure is the pair of that flag and the error. *)
Definition prepare (ctx : Ctx) : M W (bool * error) Ctx :=
  match op_PrepareCached request with
  | Some prepareCached =>
      '(prepared, cached) ← map_error (fun err => (IsReplayPayloadDecodeError err, err))
                              (prepareCached ctx identity (op_Body request));
      match op_Prepare request with
      | Some prepare =>
          if negb cached
          then map_error (pair false) (prepare prepared identity (op_Body request))
          else mret prepared
      | None => mret prepared
      end
  | None =>
      match op_Prepare request with
      | Some prepare => map_error (pair false) (prepare ctx identity (op_Body request))
      | None => mret ctx
      end
  end.

(** [sources, err = request.SourceIDs(tx, previous, found)], and the mark
    when the stored replay could not be decoded. *)
Definition source_ids (previous : Result) (found : bool) : M St error (list string) := fun s =>
  match op_SourceIDs request with
  | None => (s, Ok [])
  | Some sourceIDs =>
      match on_store (sourceIDs previous found) s with
      | (s', Ok ids) => (s', Ok ids)
      | (s', Err err) =>
          if IsReplayPayloadDecodeError err
          then ((s'.1, s'.2 <| lo_replayed := true |>), Err err)
          else (s', Err err)
      end
  end.

Definition check_project (project : P) : M St error unit :=
  match op_CheckProject request with
  | Some check => returned (check project)
  | None => mret tt
  end.

(** The read-only transaction of a source-sensitive operation. *)
Definition recheck_tx (ctx : Ctx) (hash : string) : M St error unit :=
  ledger ← on_store (op_Ledger request);
  project ← on_store (op_AuthorizeProject request ctx (op_Authorization request));
  _ ← assign (fun l : Locals P => l <| lo_checkedProject := project |>);
  _ ← check_project project;
  '(previous, found) ← on_store (Lookup ledger identity);
  _ ← refuse_if (found && negb (re_BodyHash previous =? hash)%string)
        (IdempotencyConflict (op_Errors request));
  _ ← assign (fun l : Locals P => l <| lo_checkedFound := found |>);
  sources ← source_ids previous found;
  assign (fun l : Locals P => l <| lo_checkedSources := sources |>).

(** The write transaction up to the idempotency record. *)
Definition authorize (ctx : Ctx) : M W error P :=
  let denied err := op_RecordAudit request ctx projectID capability (Some err) in
  if (projectID =? "")%string
  then _ ← on_error (op_AuthorizeTenant request ctx (op_Authorization request)) denied;
       mret zero_project
  else on_error (op_AuthorizeProject request ctx (op_Authorization request)) denied.

Definition admit_tx (ctx : Ctx) (hash : string) (ledger : LedgerOps)
  : M St error (P * Result * bool) :=
  project ← on_store (authorize ctx);
  _ ← check_project project;
  _ ← on_store (map_error (op_AuditWriteFailed request)
                  (op_RecordAudit request ctx projectID capability None));
  _ ← if_filled (op_RuntimeGate request) (fun gate => on_store (gate ctx project operation));
  '(previous, found) ← on_store (Lookup ledger identity);
  _ ← refuse_if (found && negb (re_BodyHash previous =? hash)%string)
        (IdempotencyConflict (op_Errors request));
  _ ← if_filled (op_Validate request) (fun validate => on_store (validate ctx project));
  mret (project, previous, found).

(** The sources and the project must be those of the recheck. *)
Definition basis_tx (project : P) (previous : Result) (found : bool) : M St error unit :=
  if op_SourceSensitive request
  then sourceIDs ← source_ids previous found;
       l ← local_vars;
       refuse_if (negb (op_Basis request project =? op_Basis request (lo_checkedProject l))%string
                  || negb (Bool.eqb found (lo_checkedFound l))
                  || negb (bool_decide (sourceIDs = lo_checkedSources l)))
         (VersionConflict (op_Errors request))
  else mret tt.

(** The business write, its lineage and its record. *)
Definition perform_tx (ctx : Ctx) (hash : string) (ledger : LedgerOps) (project : P)
  : M St error unit :=
  _ ← if_filled (op_StorePins request) (fun store => on_store (store ctx projectID));
  '(value, output, status) ← on_store (op_Write request ctx project);
  let output := if (output =? "")%string then op_Output request else output in
  _ ← refuse_if (negb (output =? op_Output request)%string) (InvalidState (op_Errors request));
  _ ← if_filled (op_StoreReverseSources request) (fun store => on_store (store ctx value));
  match json_Marshal value with
  | Err err => fail err
  | Ok raw =>
      let result := {| re_BodyHash := hash; re_Body := raw; re_Status := status;
                       re_Output := output |} in
      _ ← assign (fun l : Locals P => l <| lo_result := result |>);
      _ ← if_filled (op_StoreProvenance request)
            (fun store => on_store (store ctx identity result value));
      _ ← if_filled (op_AfterWrite request)
            (fun after => on_store (after ctx project projectID operation target status value));
      on_store (Save ledger identity result)
  end.

Definition write_tx (ctx : Ctx) (hash : string) : M St error unit :=
  ledger ← on_store (op_Ledger request);
  '(project, previous, found) ← admit_tx ctx hash ledger;
  _ ← basis_tx project previous found;
  if (found : bool)
  then assign (fun l : Locals P => l <| lo_result := previous |> <| lo_replayed := true |>)
  else perform_tx ctx hash ledger project.

Definition initial_locals : Locals P :=
  {| lo_result := zero_result; lo_replayed := false; lo_checkedProject := zero_project;
     lo_checkedSources := []; lo_checkedFound := false |}.

(** The recheck of the sources, in its own transaction and then outside
    any. *)
Definition recheck_sources (ctx : Ctx) (hash : string) : M W (bool * error) (Locals P) := fun w =>
  if op_SourceSensitive request
  then
    match op_Transaction request ctx {| opt_ReadOnly := true; opt_RetryLocks := false |}
            (recheck_tx ctx hash) (w, initial_locals) with
    | ((w, l), Err err) => (w, Err (lo_replayed l, err))
    | ((w, l), Ok _) =>
        match if_filled (op_CheckSources request)
                (fun check => check ctx projectID (lo_checkedSources l)) w with
        | (w, Err err) => (w, Err (false, err))
        | (w, Ok _) => (w, Ok l)
        end
    end
  else (w, Ok initial_locals).

(** The write transaction and the projection of its result. *)
Definition commit_operation (ctx : Ctx) (hash : string) (l : Locals P)
  : M W (bool * error) Outcome := fun w =>
  match op_Transaction request ctx
          {| opt_ReadOnly := false; opt_RetryLocks := RetryLocks operation |}
          (write_tx ctx hash) (w, l) with
  | ((w, l), Err err) =>
      let observed := if_filled (op_ObserveFailure request)
                        (fun observe => observe ctx projectID operation err) w in
      (observed.1, Err (lo_replayed l, err))
  | ((w, l), Ok _) =>
      match op_Project request ctx operation projectID (re_Body (lo_result l)) w with
      | (w, Err err) => (w, Err (false, err))
      | (w, Ok visible) =>
          (w, Ok {| out_Body := visible; out_Status := re_Status (lo_result l);
                    out_Replayed := lo_replayed l |})
      end
  end.

Definition Run (ctx : Ctx) : M W (bool * error) Outcome :=
  _ ← returned (option_map (pair false) (admit_request ctx));
  match RequestHash (op_Body request) with
  | (_, Some _) => fail (false, InvalidRequest (op_Errors request))
  | (hash, None) =>
      ctx ← prepare ctx;
      l ← recheck_sources ctx hash;
      commit_operation ctx hash l
  end.
End Steps.
End Pipeline.
Arguments OperationRequest : clear implicits.
Arguments LedgerOps : clear implicits.
