(* ===== verification/OperationLaws.v ===== *)
(** The contracts the operation pipeline is proved against, and the inversion
    of a successful [Run]: what a transaction promises ([TransactionLaws]),
    what the store of completed operations promises ([LedgerLaws]), and what
    the other seams leave alone ([RecordFrame]). *)

From S2P Require Import Prelude Effects OperationCore.

(** ** Contracts *)

(** Local variables as earlier runs of the same body on the same store may
    have left them: Go closures keep their assignments when a transaction is
    rolled back and tried again. *)
Inductive retried {W L} (body : M (W * L) error unit) (w : W) : L -> L -> Prop :=
| retried_none l : retried body w l l
| retried_more l l2 s1 r :
    body (w, l) = (s1, r) -> retried body w s1.2 l2 -> retried body w l l2.

(** The seam [Transaction]: an error leaves the store untouched, success means
    exactly one run of the body took effect. *)
Class TransactionLaws {W L} (tx : Options -> M (W * L) error unit -> M (W * L) error unit) := {
  tx_failed o body s s' err : tx o body s = (s', Err err) -> s'.1 = s.1;
  tx_committed o body s s' : tx o body s = (s', Ok tt) ->
    exists l0, retried body s.1 s.2 l0 /\ body (s.1, l0) = (s', Ok tt)
               /\ (opt_RetryLocks o = false -> l0 = s.2);
  tx_readonly o body s s' r : opt_ReadOnly o = true -> tx o body s = (s', r) -> s'.1 = s.1
}.

(** The ledger of completed operations: [recorded w id] is the record the
    store holds.  The kind of output is not part of what a record keeps. *)
Class LedgerLaws {A W} (ledger : LedgerOps A W) (recorded : W -> Identity A -> option Result) := {
  lookup_recorded id w w' r found :
    Lookup ledger id w = (w', Ok (r, found)) ->
    recorded w id = if found : bool then Some r else None;
  lookup_keeps id id' : keeps (fun w => recorded w id') (Lookup ledger id);
  save_recorded id r w w' :
    Save ledger id r w = (w', Ok tt) ->
    recorded w id = None /\ recorded w' id = Some (r <| re_Output := "" |>)
    /\ forall id', recorded w' id' = recorded w id' \/ recorded w' id' = recorded w' id
}.

Section Laws.
Context {A W P V X : Type} `{Digester V}.
Variable zero_project : P.
Variable request : OperationRequest A W P V X.

Let identity := op_Identity request.
Let projectID := au_ProjectID (op_Authorization request).
Let capability := Capability (op_Authorization request).

(** No seam but the ledger touches what [recorded] shows of the operation. *)
Class RecordFrame (recorded : W -> option Result) := {
  frame_ledger : keeps recorded (op_Ledger request);
  frame_tenant ctx au : keeps recorded (op_AuthorizeTenant request ctx au);
  frame_project ctx au : keeps recorded (op_AuthorizeProject request ctx au);
  frame_audit ctx p c e : keeps recorded (op_RecordAudit request ctx p c e);
  frame_check_sources f : op_CheckSources request = Some f -> forall ctx p s, keeps recorded (f ctx p s);
  frame_source_ids f : op_SourceIDs request = Some f -> forall r b, keeps recorded (f r b);
  frame_prepare_cached f : op_PrepareCached request = Some f -> forall ctx i b, keeps recorded (f ctx i b);
  frame_prepare f : op_Prepare request = Some f -> forall ctx i b, keeps recorded (f ctx i b);
  frame_validate f : op_Validate request = Some f -> forall ctx p, keeps recorded (f ctx p);
  frame_pins f : op_StorePins request = Some f -> forall ctx p, keeps recorded (f ctx p);
  frame_write ctx p : keeps recorded (op_Write request ctx p);
  frame_reverse f : op_StoreReverseSources request = Some f -> forall ctx v, keeps recorded (f ctx v);
  frame_provenance f : op_StoreProvenance request = Some f -> forall ctx i r v, keeps recorded (f ctx i r v);
  frame_render ctx o p b : keeps recorded (op_Project request ctx o p b);
  frame_gate f : op_RuntimeGate request = Some f -> forall ctx p o, keeps recorded (f ctx p o);
  frame_after f : op_AfterWrite request = Some f ->
    forall ctx p i o t s v, keeps recorded (f ctx p i o t s v)
}.

(** The seams outside the transactions leave the store alone. *)
Record OutsideReadsOnly := {
  outside_prepare_cached f : op_PrepareCached request = Some f -> forall ctx i b, keeps id (f ctx i b);
  outside_prepare f : op_Prepare request = Some f -> forall ctx i b, keeps id (f ctx i b);
  outside_check_sources f : op_CheckSources request = Some f -> forall ctx p s, keeps id (f ctx p s);
  outside_observe f : op_ObserveFailure request = Some f -> forall ctx p o e, keeps id (f ctx p o e);
  outside_render ctx o p b : keeps id (op_Project request ctx o p b)
}.

(** ** The parts of a successful run *)

Definition checked (l : Locals P) : P * list string * bool :=
  (lo_checkedProject l, lo_checkedSources l, lo_checkedFound l).

Lemma on_store_run {B} (m : M W error B) (w w' : W) (l l' : Locals P) b :
  on_store m (w, l) = ((w', l'), Ok b) -> m w = (w', Ok b) /\ l' = l.
Proof. intros E%on_store_ok. exact E. Qed.

Lemma if_filled_run {F} (f : option F) (call : F -> M W error unit) (w w' : W) (l l' : Locals P) u :
  if_filled f (fun x => on_store (call x)) (w, l) = ((w', l'), Ok u) ->
  l' = l /\ if_filled f call w = (w', Ok u).
Proof.
  destruct f; cbn.
  - intros [E ->]%on_store_run. by split.
  - intros E. injection E as <- <- <-. by split.
Qed.

Lemma check_project_run project (s s' : W * Locals P) u :
  check_project request project s = (s', Ok u) ->
  s' = s /\ forall check, op_CheckProject request = Some check -> check project = None.
Proof.
  unfold check_project. destruct (op_CheckProject request) as [c|].
  - intros [E ->]%returned_run. split; [done|]. by intros ? [= <-].
  - intros E. injection E as <- _. by split.
Qed.

Lemma source_ids_run prev found (w w' : W) (l l' : Locals P) ids :
  source_ids request prev found (w, l) = ((w', l'), Ok ids) ->
  l' = l /\ match op_SourceIDs request with
            | Some f => f prev found w = (w', Ok ids)
            | None => w' = w /\ ids = []
            end.
Proof.
  unfold source_ids. destruct (op_SourceIDs request) as [f|].
  - destruct (on_store _ _) as [s1 [x|e]] eqn:E; [|destruct (IsReplayPayloadDecodeError e); discriminate].
    intros F. injection F as -> ->. by apply on_store_run in E as [E ->].
  - intros E. by injection E as <- <- <-.
Qed.

(** What the write transaction established before it looked at the record. *)
Record admitted (ctx : Context X) (hash : string) (ledger : LedgerOps A W) (w w' : W)
  (project : P) (prev : Result) (found : bool) : Prop := {
  ad_store : exists w1 w2 w3 w4,
    authorize zero_project request ctx w = (w1, Ok project)
    /\ op_RecordAudit request ctx projectID capability None w1 = (w2, Ok tt)
    /\ if_filled (op_RuntimeGate request)
         (fun gate => gate ctx project (id_Operation identity)) w2 = (w3, Ok tt)
    /\ Lookup ledger identity w3 = (w4, Ok (prev, found))
    /\ if_filled (op_Validate request) (fun validate => validate ctx project) w4 = (w', Ok tt);
  ad_project : forall check, op_CheckProject request = Some check -> check project = None;
  ad_hash : found = true -> re_BodyHash prev = hash
}.

Lemma admit_tx_inv ctx hash ledger (w w' : W) (l l' : Locals P) project prev found :
  admit_tx zero_project request ctx hash ledger (w, l) = ((w', l'), Ok (project, prev, found)) ->
  l' = l /\ admitted ctx hash ledger w w' project prev found.
Proof.
  unfold admit_tx. intros ([w1 l1] & p & E1 & E)%bind_ok.
  apply on_store_run in E1 as [E1 ->].
  apply bind_ok in E as (s2 & [] & [-> Hc]%check_project_run & E).
  apply bind_ok in E as ([w3 l3] & [] & [E3%map_error_ok ->]%on_store_run & E).
  apply bind_ok in E as ([w4 l4] & [] & [-> E4]%if_filled_run & E).
  apply bind_ok in E as ([w5 l5] & [r f] & [E5 ->]%on_store_run & E).
  apply bind_ok in E as (s6 & [] & [G ->]%refuse_if_ok & E).
  apply bind_ok in E as ([w7 l7] & [] & [-> E7]%if_filled_run & E).
  injection E as <- <- <- <- <-. split; [reflexivity|]. split; [|exact Hc|].
  - by exists w1, w3, w4, w5.
  - intros ->. cbn in G. by apply negb_false_iff, String.eqb_eq in G.
Qed.

Lemma basis_tx_inv project prev found (w w' : W) (l l' : Locals P) u :
  basis_tx request project prev found (w, l) = ((w', l'), Ok u) ->
  l' = l
  /\ (op_SourceSensitive request = false -> w' = w)
  /\ (op_SourceSensitive request = true ->
      op_Basis request project = op_Basis request (lo_checkedProject l)
      /\ found = lo_checkedFound l
      /\ source_ids request prev found (w, l) = ((w', l), Ok (lo_checkedSources l))).
Proof.
  unfold basis_tx. destruct (op_SourceSensitive request); intros E.
  - apply bind_ok in E as ([w1 l1] & ids & E1 & E).
    pose proof (source_ids_run _ _ _ _ _ _ _ E1) as [-> _].
    apply bind_ok in E as (s2 & l2 & E2 & E). injection E2 as <- <-.
    apply refuse_if_ok in E as [G E]. injection E as -> ->. cbn [snd] in G.
    split_and!; [reflexivity|discriminate|]. intros _.
    apply orb_false_iff in G as [[G1 G2]%orb_false_iff G3].
    apply negb_false_iff in G1, G2, G3.
    apply String.eqb_eq in G1. apply Bool.eqb_prop in G2. apply bool_decide_eq_true_1 in G3 as ->.
    by split_and!.
  - injection E as <- <- _. by split_and!.
Qed.

(** What a performed write left. *)
Record performed (ctx : Context X) (hash : string) (ledger : LedgerOps A W) (project : P)
  (w w' : W) (result : Result) : Prop := {
  pf_write : exists w1 w2 value output,
    if_filled (op_StorePins request) (fun store => store ctx projectID) w = (w1, Ok tt)
    /\ op_Write request ctx project w1 = (w2, Ok (value, output, re_Status result))
    /\ (output = "" \/ output = op_Output request)
    /\ json_Marshal value = Ok (re_Body result);
  pf_hash : re_BodyHash result = hash;
  pf_output : re_Output result = op_Output request;
  pf_saved : exists w0, Save ledger identity result w0 = (w', Ok tt)
}.

Lemma perform_tx_inv ctx hash ledger project (w w' : W) (l l' : Locals P) :
  perform_tx request ctx hash ledger project (w, l) = ((w', l'), Ok tt) ->
  exists result, performed ctx hash ledger project w w' result
  /\ l' = l <| lo_result := result |>.
Proof.
  unfold perform_tx. intros ([w1 l1] & [] & [-> E1]%if_filled_run & E)%bind_ok.
  apply bind_ok in E as ([w2 l2] & [[value output] status] & [E2 ->]%on_store_run & E).
  apply bind_ok in E as (s3 & [] & [G ->]%refuse_if_ok & E).
  apply bind_ok in E as ([w4 l4] & [] & [-> E4]%if_filled_run & E).
  destruct (json_Marshal value) as [raw|e] eqn:Raw; [|discriminate E].
  apply bind_ok in E as (s5 & [] & E5 & E). injection E5 as <-.
  apply bind_ok in E as ([w6 l6] & [] & [-> E6]%if_filled_run & E).
  apply bind_ok in E as ([w7 l7] & [] & [-> E7]%if_filled_run & E).
  apply on_store_run in E as [E ->]. eexists. split; [|reflexivity].
  apply negb_false_iff, String.eqb_eq in G. split; cbn.
  - exists w1, w2, value, output. split_and!; [exact E1|exact E2| |exact Raw].
    destruct (output =? "")%string eqn:O; [left; by apply String.eqb_eq|by right].
  - reflexivity.
  - exact G.
  - by exists w7.
Qed.

(** The outcome of the write transaction: a replay or a performed write. *)
Inductive written (ctx : Context X) (hash : string) (l : Locals P) (w w' : W) : Locals P -> Prop :=
| written_replay ledger w1 w2 project prev :
    op_Ledger request w = (w1, Ok ledger) ->
    admitted ctx hash ledger w1 w2 project prev true ->
    basis_tx request project prev true (w2, l) = ((w', l), Ok tt) ->
    written ctx hash l w w' (l <| lo_result := prev |> <| lo_replayed := true |>)
| written_fresh ledger w1 w2 w3 project prev result :
    op_Ledger request w = (w1, Ok ledger) ->
    admitted ctx hash ledger w1 w2 project prev false ->
    basis_tx request project prev false (w2, l) = ((w3, l), Ok tt) ->
    performed ctx hash ledger project w3 w' result ->
    written ctx hash l w w' (l <| lo_result := result |>).

Lemma write_tx_inv ctx hash (w w' : W) (l l' : Locals P) :
  write_tx zero_project request ctx hash (w, l) = ((w', l'), Ok tt) ->
  written ctx hash l w w' l'.
Proof.
  unfold write_tx. intros ([w1 l1] & ledger & [E1 ->]%on_store_run & E)%bind_ok.
  apply bind_ok in E as ([w2 l2] & [[p r] f] & E2 & E). apply admit_tx_inv in E2 as [-> E2].
  apply bind_ok in E as ([w3 l3] & [] & E3 & E).
  pose proof (basis_tx_inv _ _ _ _ _ _ _ _ E3) as [-> _]. destruct f.
  - injection E as <- <-. by eapply written_replay.
  - apply perform_tx_inv in E as (result & E & ->). by eapply written_fresh.
Qed.
End Laws.
