(* ===== verification/OperationStore.v ===== *)
(** The storage side of the operation pipeline: the retry loop of
    [src/internal/lingdoc/workspacecore/spec_retry.go], the transaction of
    [GORMRepository] and the operation records of [service.go], and the
    adapters of [operation_pipeline.go] that hand them to the pipeline.

    GORM and the database are not modelled: [db_transaction] is a parameter
    that either commits one run of its body or leaves the store as it was
    ([AtomicDB]), and the faults of single statements are parameters. *)

From S2P Require Import Prelude Effects OperationCore.

(** ** Lock errors ([service.go]) *)

(** [errors.As(err, &codedError)]: the first code in the chain. *)
Fixpoint error_code (err : error) : option Z :=
  match err with
  | DriverError code _ => Some code
  | Sentinel _ => None
  | Wrapped _ cause => error_code cause
  | ReplayPayloadDecodeError err | AuthorizationDecision _ err => error_code err
  end.

Definition isSQLiteLockError (err : option error) : bool :=
  match err with
  | None => false
  | Some err =>
      match error_code err with
      | Some code => let code := Z.land code 255 in (code =? 5) || (code =? 6)
      | None =>
          let message := ToLower (Error err) in
          Contains message "database is locked" || Contains message "database table is locked"
      end
  end.

(** ** The retry loop ([spec_retry.go]) *)

Definition ErrRequestInProgress : error := Sentinel "request_in_progress".
Definition DeadlineExceeded : error := Sentinel "context deadline exceeded".
Definition Canceled : error := Sentinel "context canceled".

Definition specLockRetryBudget := 5000000000.
Definition specLockMaxAttempts : nat := 64.
Definition specLockInitialDelay := 5000000.
Definition specLockMaximumDelay := 100000000.

(** What the contexts and the timer answer at the [attempt]-th round. *)
Record RetryClock := {
  ck_start : option error;                (* ctx.Err() on entry *)
  ck_before : nat -> bool;                (* retryCtx.Err() != nil at the top *)
  ck_fires : nat -> Z -> bool;            (* the timer wins the select *)
  ck_fired : nat -> bool;                 (* retryCtx.Err() != nil after the timer *)
  ck_cancelled : nat -> bool;             (* ctx.Err() != nil after the operation *)
  ck_expired : nat -> bool;               (* retryCtx.Err() != nil after the operation *)
  ck_stop : nat -> option error           (* ctx.Err() inside stopped() *)
}.

Section Retry.
Context {S R : Type}.
Variable zero : R.
(** The [attempt]-th call of the operation. *)
Variable operation : nat -> S -> S * (R * option error).
Variable clock : RetryClock.

Definition stopped (attempt : nat) : R * option error :=
  match ck_stop clock attempt with
  | Some err => (zero, Some err)
  | None => (zero, Some ErrRequestInProgress)
  end.

(** [remaining] rounds are left; the loop ends after [specLockMaxAttempts]
    attempts, the first of which is not in it. *)
Fixpoint retry_loop (remaining attempt : nat) (delay : Z) (s : S) : S * (R * option error) :=
  match remaining with
  | O => (s, stopped attempt)
  | Datatypes.S remaining' =>
      when ck_before clock attempt return (s, stopped attempt);
      when negb (ck_fires clock attempt delay) return (s, stopped attempt);
      when ck_fired clock attempt return (s, stopped attempt);
      match operation attempt s with
      | (s, (r, None)) => (s, (r, None))
      | (s, (r, Some err)) =>
          when ck_cancelled clock attempt return (s, stopped attempt);
          when ck_expired clock attempt
               && (isSQLiteLockError (Some err) || errors_Is err DeadlineExceeded
                   || errors_Is err Canceled)
          return (s, stopped attempt);
          when negb (isSQLiteLockError (Some err)) return (s, (r, Some err));
          retry_loop remaining' (attempt + 1)%nat (Z.min (delay *i 2) specLockMaximumDelay) s
      end
  end.

Definition retrySQLiteSpecOperation (s : S) : S * (R * option error) :=
  match ck_start clock with
  | Some err => (s, (zero, Some err))
  | None =>
      match operation 0%nat s with
      | (s, (r, err)) =>
          when negb (isSQLiteLockError err) return (s, (r, err));
          retry_loop (specLockMaxAttempts - 1) 1 specLockInitialDelay s
      end
  end.
End Retry.

(** ** [GORMRepository.Transaction] ([service.go]) *)

Record TransactionOptions := {
  to_ReadOnly : bool;
  to_RetryLocks : bool;
  to_RepeatableRead : bool
}.

(** [sql.TxOptions]: nil, or repeatable read with the read-only flag. *)
Definition sql_options (options : TransactionOptions) : option bool :=
  if to_ReadOnly options || to_RepeatableRead options then Some (to_ReadOnly options) else None.

Section Repository.
Context {W L : Type}.
(** [gorm.DB.Transaction], the [attempt]-th call. *)
Variable db_transaction : nat -> option bool -> M (W * L) error unit -> M (W * L) error unit.
Variable clock : RetryClock.

Definition transaction_run (options : TransactionOptions) (fn : M (W * L) error unit)
  (attempt : nat) (s : W * L) : (W * L) * (string * Z * bool * option error) :=
  match db_transaction attempt (sql_options options) fn s with
  | (s, Ok _) => (s, ("", 0, false, None))
  | (s, Err err) => (s, ("", 0, false, Some err))
  end.

Definition GORMRepository_Transaction (options : TransactionOptions)
  (fn : M (W * L) error unit) : M (W * L) error unit := fun s =>
  let '(s, (_, err)) :=
    if negb (to_RetryLocks options) then transaction_run options fn 0 s
    else retrySQLiteSpecOperation ("", 0, false) (transaction_run options fn) clock s in
  (s, match err with Some err => Err err | None => Ok tt end).
End Repository.

(** The documented contract of a database transaction. *)
Class AtomicDB {W L} (db_transaction : nat -> option bool -> M (W * L) error unit -> M (W * L) error unit) := {
  db_committed k o fn s s' :
    db_transaction k o fn s = (s', Ok tt) -> fn s = (s', Ok tt);
  db_rolled_back k o fn s s' err :
    db_transaction k o fn s = (s', Err err) ->
    s'.1 = s.1 /\ (s'.2 = s.2 \/ exists s1 r, fn s = (s1, r) /\ s'.2 = s1.2);
  db_readonly k fn s s' r :
    db_transaction k (Some true) fn s = (s', r) -> s'.1 = s.1
}.

(** ** The operation records ([model.go], [service.go]) *)

Set Primitive Projections.
Record Actor := {
  ac_TenantID : Z;
  ac_UserID : string;
  ac_TenantRole : string;
  ac_SystemAdmin : bool;
  ac_Role : string
}.

(** The columns of [lingdoc_operations] outside its primary key; the time
    stamp GORM fills in is never read. *)
Record operationRow := { or_BodyHash : string; or_ResponseJSON : string; or_ResponseCode : Z }.

Record OperationResult := {
  or_result_BodyHash : string;
  or_result_Body : string;
  or_result_Status : Z;
  or_result_Output : string
}.

(** The primary key: tenant, user, operation, target, key. *)
Definition operation_key : Type := Z * string * string * string * string.

Record store {T : Type} := { st_operations : gmap operation_key operationRow; st_tables : T }.
Unset Primitive Projections.
Arguments store : clear implicits.

Definition validActor (actor : Actor) : bool :=
  negb (ac_TenantID actor =? 0) && negb (ac_UserID actor =? "")%string.

Definition row_key (id : Identity Actor) : operation_key :=
  (ac_TenantID (id_Actor id), ac_UserID (id_Actor id), id_Operation id, id_Target id, id_Key id).

Section Records.
Context {T : Type}.
(** What the driver answers, besides the row, to a query and an insert; and
    its answer to a duplicate primary key. *)
Variables query_fault insert_fault : store T -> option error.
Variable duplicate : error.

Definition Operation (id : Identity Actor) : M (store T) error (OperationResult * bool) := fun w =>
  match query_fault w with
  | Some err => (w, Err err)
  | None =>
      match st_operations w !! row_key id with
      | None => (w, Ok ({| or_result_BodyHash := ""; or_result_Body := "";
                           or_result_Status := 0; or_result_Output := "" |}, false))
      | Some row => (w, Ok ({| or_result_BodyHash := or_BodyHash row;
                               or_result_Body := or_ResponseJSON row;
                               or_result_Status := or_ResponseCode row;
                               or_result_Output := "" |}, true))
      end
  end.

Definition in_progress (err : error) : error :=
  Wrapped (Error ErrRequestInProgress +:+ ": " +:+ Error err) ErrRequestInProgress.

Definition SaveOperation (id : Identity Actor) (result : OperationResult)
  : M (store T) error unit := fun w =>
  let row := {| or_BodyHash := or_result_BodyHash result;
                or_ResponseJSON := or_result_Body result;
                or_ResponseCode := or_result_Status result |} in
  match insert_fault w with
  | Some err => (w, Err (in_progress err))
  | None =>
      match st_operations w !! row_key id with
      | Some _ => (w, Err (in_progress duplicate))
      | None => (w <| st_operations := <[row_key id := row]> (st_operations w) |>, Ok tt)
      end
  end.

(** *** The adapter ([operation_pipeline.go]) *)

Definition ledger_Lookup (id : Identity Actor) : M (store T) error (Result * bool) :=
  '(previous, found) ← Operation id;
  if (found : bool)
  then mret ({| re_BodyHash := or_result_BodyHash previous; re_Body := or_result_Body previous;
                re_Status := or_result_Status previous; re_Output := or_result_Output previous |},
             true)
  else mret (zero_result, false).

Definition ledger_Save (id : Identity Actor) (result : Result) : M (store T) error unit :=
  SaveOperation id {| or_result_BodyHash := re_BodyHash result; or_result_Body := re_Body result;
                      or_result_Status := re_Status result;
                      or_result_Output := re_Output result |}.

Definition operationLedger : LedgerOps Actor (store T) :=
  {| Lookup := ledger_Lookup; Save := ledger_Save |}.
End Records.

(** ** The workspace's declarations ([operation_pipeline.go], [human_decision.go]) *)

Definition workspaceHumanDecisionOperations : list string :=
  ["discardProject"; "restoreProject"; "archiveProject"; "removeArchivedTemplateField";
   "activateProject"; "applyChangeSet"; "reverseChangeSet"; "stabilizeRevision"; "transferOwner";
   "requestOwnerTransfer"; "acceptOwnerTransfer"; "rejectOwnerTransfer"; "inviteMember";
   "acceptMemberInvitation"; "memberAssignment"; "memberLifecycle"; "apiKeyProjectGrant";
   "chapterReview"; "chapterComment"].

Definition workspaceHumanGate (operation : string) : HumanGate :=
  if contains workspaceHumanDecisionOperations operation then HumanGateRequired
  else HumanGateNotRequired.
