(* ===== verification/OperationTheorems.v ===== *)
(** The properties of the operation pipeline: who is refused and when, that a
    failed run leaves no trace, that a key answers one request with one
    result, and that the storage side commits one run of its body. *)

From S2P Require Import Prelude Effects OperationCore OperationLaws OperationStore.

(** ** Successful runs *)

Section Runs.
Context {A W P V X : Type} `{Digester V}.
Variable zero_project : P.
Variable request : OperationRequest A W P V X.
Context {TL : forall ctx, TransactionLaws (op_Transaction request ctx)}.

Let identity := op_Identity request.
Let projectID := au_ProjectID (op_Authorization request).

Lemma recheck_tx_inv ctx hash (w w' : W) (l l' : Locals P) :
  recheck_tx request ctx hash (w, l) = ((w', l'), Ok tt) ->
  lo_replayed l' = lo_replayed l
  /\ exists w1 w2, op_AuthorizeProject request ctx (op_Authorization request) w1
                   = (w2, Ok (lo_checkedProject l')).
Proof.
  unfold recheck_tx. intros ([w1 l1] & ledger & [E1 ->]%on_store_run & E)%bind_ok.
  apply bind_ok in E as ([w2 l2] & p & [E2 ->]%on_store_run & E).
  apply bind_ok in E as (s3 & [] & E3 & E). injection E3 as <-.
  apply bind_ok in E as (s4 & [] & [-> Hc]%check_project_run & E).
  apply bind_ok in E as ([w5 l5] & [r f] & [E5 ->]%on_store_run & E).
  apply bind_ok in E as (s6 & [] & [G ->]%refuse_if_ok & E).
  apply bind_ok in E as (s7 & [] & E7 & E). injection E7 as <-.
  apply bind_ok in E as ([w8 l8] & ids & [-> E8]%source_ids_run & E).
  injection E as <- <-. split; [reflexivity|]. by exists w1, w2.
Qed.

Lemma recheck_sources_inv ctx hash (w w' : W) (l : Locals P) :
  recheck_sources zero_project request ctx hash w = (w', Ok l) ->
  lo_replayed l = false
  /\ (op_SourceSensitive request = false -> w' = w)
  /\ (op_SourceSensitive request = true -> exists w1 w2 w3,
        recheck_tx request ctx hash (w, initial_locals zero_project) = ((w3, l), Ok tt)
        /\ op_AuthorizeProject request ctx (op_Authorization request) w1
           = (w2, Ok (lo_checkedProject l))
        /\ if_filled (op_CheckSources request)
             (fun check => check ctx projectID (lo_checkedSources l)) w3 = (w', Ok tt)).
Proof.
  unfold recheck_sources. destruct (op_SourceSensitive request).
  - destruct (op_Transaction _ _ _ _ _) as [[w1 l1] [[]|e]] eqn:T; [|discriminate].
    destruct (if_filled _ _ _) as [w2 [[]|e]] eqn:F; [|discriminate].
    intros E. injection E as <- <-.
    apply tx_committed in T as (l0 & _ & T & R). rewrite (R eq_refl) in T.
    pose proof (recheck_tx_inv _ _ _ _ _ _ T) as (Hr & wa & wb & Ha).
    split_and!; [exact Hr|discriminate|]. intros _. exists wa, wb, w1. by split_and!.
  - intros E. injection E as <- <-. by split_and!.
Qed.

(** The stages of a successful [Run]. *)
Record ran (ctx : Context X) (w w' : W) (o : Outcome) : Prop := {
  ran_admitted : admit_request request ctx = None;
  ran_stages : exists hash ctx' w1 w2 w3 l l0 l3,
    RequestHash (op_Body request) = (hash, None)
    /\ prepare request ctx w = (w1, Ok ctx')
    /\ recheck_sources zero_project request ctx' hash w1 = (w2, Ok l)
    /\ retried (write_tx zero_project request ctx' hash) w2 l l0
    /\ (RetryLocks (id_Operation identity) = false -> l0 = l)
    /\ written zero_project request ctx' hash l0 w2 w3 l3
    /\ op_Project request ctx' (id_Operation identity) projectID (re_Body (lo_result l3)) w3
       = (w', Ok (out_Body o))
    /\ out_Status o = re_Status (lo_result l3) /\ out_Replayed o = lo_replayed l3
}.

Lemma run_ok_inv ctx w w' o :
  Run zero_project request ctx w = (w', Ok o) -> ran ctx w w' o.
Proof.
  unfold Run. intros (s & [] & [Ha ->]%returned_run & E)%bind_ok.
  split; [by destruct (admit_request request ctx)|].
  destruct (RequestHash (op_Body request)) as [hash [e|]] eqn:Hh; [discriminate E|].
  apply bind_ok in E as (w1 & ctx' & E1 & E). apply bind_ok in E as (w2 & l & E2 & E).
  revert E. unfold commit_operation.
  destruct (op_Transaction _ _ _ _ _) as [[w3 l3] [[]|e]] eqn:T; [|discriminate].
  destruct (op_Project _ _ _ _ _ _) as [w4 [visible|e]] eqn:Pr; [|discriminate].
  intros E. injection E as <- <-.
  apply tx_committed in T as (l0 & Rt & T & Rl). apply write_tx_inv in T.
  exists hash, ctx', w1, w2, w3, l, l0, l3. by split_and!.
Qed.

(** *** Failed runs *)

Lemma filled_id {F} (f : option F) (call : F -> M W error unit) w w' r :
  (forall x, f = Some x -> keeps id (call x)) -> if_filled f call w = (w', r) -> w' = w.
Proof. intros K. apply (keeps_run id). by apply keeps_if_filled. Qed.

Lemma prepare_id ctx : OutsideReadsOnly request -> keeps id (prepare request ctx).
Proof.
  intros O. unfold prepare. destruct (op_PrepareCached request) as [f|] eqn:F.
  - apply keeps_bind; [apply keeps_map_error; by eapply outside_prepare_cached|].
    intros [c b]. destruct (op_Prepare request) as [g|] eqn:G; [|apply keeps_ret].
    destruct (negb b); [apply keeps_map_error; by eapply outside_prepare|apply keeps_ret].
  - destruct (op_Prepare request) as [g|] eqn:G; [|apply keeps_ret].
    apply keeps_map_error; by eapply outside_prepare.
Qed.

Lemma recheck_id ctx hash :
  OutsideReadsOnly request -> keeps id (recheck_sources zero_project request ctx hash).
Proof.
  intros O w. unfold recheck_sources. destruct (op_SourceSensitive request); [|done].
  destruct (op_Transaction _ _ _ _ _) as [[w1 l1] r] eqn:T.
  apply tx_readonly in T; [|done]. cbn in T. subst w1. destruct r as [[]|e]; [|done].
  destruct (if_filled _ _ _) as [w2 [[]|e]] eqn:F;
    apply filled_id in F as ->; try done; intros f Hf ?; by eapply outside_check_sources.
Qed.

Lemma commit_failed ctx hash l w w' b e :
  OutsideReadsOnly request ->
  commit_operation zero_project request ctx hash l w = (w', Err (b, e)) ->
  w' = w
  \/ exists l0 l1, written zero_project request ctx hash l0 w w' l1 /\ b = false
     /\ op_Project request ctx (id_Operation identity) projectID (re_Body (lo_result l1)) w'
        = (w', Err e).
Proof.
  intros O. unfold commit_operation.
  destruct (op_Transaction _ _ _ _ _) as [[w1 l1] [[]|err]] eqn:T.
  - destruct (op_Project _ _ _ _ _ _) as [w2 [visible|err]] eqn:Pr; [discriminate|].
    intros E. injection E as <- <- <-. right.
    pose proof (keeps_run id _ _ _ _ (outside_render _ O _ _ _ _) Pr) as K. cbn in K. subst w2.
    apply tx_committed in T as (l0 & _ & T & _). apply write_tx_inv in T. by exists l0, l1.
  - intros E. injection E as <- _ _. left. apply tx_failed in T. cbn in T. subst w1.
    destruct (if_filled _ _ w) as [w2 r] eqn:F.
    apply filled_id in F as ->; [done|]. intros f Hf. by eapply outside_observe.
Qed.

(** *** What a rolled back and repeated write transaction leaves of the
    variables the recheck assigned. *)

Lemma checked_kept_on_store {B} (m : M W error B) :
  keeps (fun sl : W * Locals P => checked sl.2) (on_store m).
Proof. intros s. unfold on_store. by destruct (m s.1). Qed.

Lemma checked_kept_source_ids r f :
  keeps (fun sl : W * Locals P => checked sl.2) (source_ids request r f).
Proof.
  intros s. unfold source_ids. destruct (op_SourceIDs request) as [g|]; [|done].
  unfold on_store. destruct (g r f s.1) as [s1 [x|e]]; [done|]. by case_match.
Qed.

Lemma checked_kept_check p :
  keeps (fun sl : W * Locals P => checked sl.2) (check_project request p).
Proof. intros s. unfold check_project, returned. by repeat case_match. Qed.

#[local] Hint Resolve checked_kept_on_store checked_kept_source_ids checked_kept_check : effects.

Lemma checked_kept_write_tx ctx hash :
  keeps (fun sl : W * Locals P => checked sl.2) (write_tx zero_project request ctx hash).
Proof.
  unfold write_tx, admit_tx, basis_tx, perform_tx. keep_frame; by intros ?.
Qed.

Lemma checked_kept_retried ctx hash w l l0 :
  retried (write_tx zero_project request ctx hash) w l l0 -> checked l0 = checked l.
Proof.
  induction 1 as [|l l2 s1 r E _ IH]; [reflexivity|].
  rewrite IH. exact (keeps_run _ _ _ _ _ (checked_kept_write_tx ctx hash) E).
Qed.

(** *** The record of the operation along a run *)

Section Recorded.
Variable recorded : W -> Identity A -> option Result.
Context {LL : forall w w' ledger, op_Ledger request w = (w', Ok ledger) -> LedgerLaws ledger recorded}.
Let here (w : W) : option Result := recorded w identity.
Context {RF : RecordFrame request here}.

Local Tactic Notation "by_frame" uconstr(lem) := eapply lem; first [exact _ | eassumption].

Lemma run_here {B E} (m : M W E B) w w' r : keeps here m -> m w = (w', r) -> here w' = here w.
Proof. apply keeps_run. Qed.

Lemma filled_keeps {F} (f : option F) (call : F -> M W error unit) w w' u :
  (forall x, f = Some x -> keeps here (call x)) -> if_filled f call w = (w', Ok u) -> here w' = here w.
Proof. intros K. apply keeps_run. by apply keeps_if_filled. Qed.

Lemma authorize_keeps ctx : keeps here (authorize zero_project request ctx).
Proof.
  unfold authorize. destruct (_ =? "")%string.
  - apply keeps_bind; [|intros; apply keeps_ret].
    apply keeps_on_error; [by_frame frame_tenant|intros; by_frame frame_audit].
  - apply keeps_on_error; [by_frame frame_project|intros; by_frame frame_audit].
Qed.

Lemma prepare_keeps ctx : keeps here (prepare request ctx).
Proof.
  unfold prepare. destruct (op_PrepareCached request) as [f|] eqn:F.
  - apply keeps_bind; [apply keeps_map_error; by_frame frame_prepare_cached|].
    intros [c b]. destruct (op_Prepare request) as [g|] eqn:G; [|apply keeps_ret].
    destruct (negb b); [apply keeps_map_error; by_frame frame_prepare|apply keeps_ret].
  - destruct (op_Prepare request) as [g|] eqn:G; [|apply keeps_ret].
    apply keeps_map_error; by_frame frame_prepare.
Qed.

Lemma source_ids_keeps r f : keeps (fun sl : W * Locals P => here sl.1) (source_ids request r f).
Proof.
  intros s. unfold source_ids. destruct (op_SourceIDs request) as [g|] eqn:G; [|done].
  unfold on_store. pose proof (frame_source_ids _ _ G r f s.1) as K.
  destruct (g r f s.1) as [s1 [x|e]]; [exact K|]. case_match; exact K.
Qed.

Lemma admitted_record ctx hash w w1 ledger w2 project prev found :
  op_Ledger request w = (w1, Ok ledger) ->
  admitted zero_project request ctx hash ledger w1 w2 project prev found ->
  here w2 = here w /\ here w = if found then Some prev else None.
Proof.
  intros El [(wa & wb & wc & wd & Ea & Eb & Ec & Ed & Ev) _ _]. pose proof (LL _ _ _ El).
  apply run_here in El, Eb; [|by_frame frame_audit|by_frame frame_ledger].
  apply run_here in Ea; [|apply authorize_keeps].
  apply filled_keeps in Ec, Ev; [|intros f F; by_frame frame_validate|intros f F; by_frame frame_gate].
  apply lookup_recorded in Ed as Er. apply run_here in Ed; [|by_frame lookup_keeps].
  fold (here wc) in Er. unfold here, identity in *. rewrite ?Ev, ?Ed, ?Ec, ?Eb, ?Ea, ?El in *. by split.
Qed.

Lemma performed_record ctx hash ledger project w w' result :
  LedgerLaws ledger recorded ->
  performed request ctx hash ledger project w w' result ->
  here w' = Some (result <| re_Output := "" |>).
Proof. intros Ll [_ _ _ [w0 Es]]. by apply save_recorded in Es as (_ & Hs & _). Qed.

Lemma basis_keeps p r f w w' l l' :
  basis_tx request p r f (w, l) = ((w', l'), Ok tt) -> here w' = here w.
Proof.
  intros (_ & Hn & Hs)%basis_tx_inv. destruct (op_SourceSensitive request).
  - destruct (Hs eq_refl) as (_ & _ & E). exact (keeps_run _ _ _ _ _ (source_ids_keeps r f) E).
  - by rewrite Hn.
Qed.

(** What the write transaction made of the record. *)
Lemma written_record ctx hash l w w' l' :
  written zero_project request ctx hash l w w' l' ->
  match here w with
  | Some prev => re_BodyHash prev = hash /\ here w' = here w
                 /\ l' = l <| lo_result := prev |> <| lo_replayed := true |>
  | None => exists result, here w' = Some (result <| re_Output := "" |>)
              /\ re_BodyHash result = hash /\ re_Output result = op_Output request
              /\ l' = l <| lo_result := result |>
  end.
Proof.
  intros [ledger w1 w2 project prev El Ad Eb|ledger w1 w2 w3 project prev result El Ad Eb Pf];
    apply (admitted_record _ _ _ _ _ _ _ _ _ El) in Ad as Hr; destruct Hr as [K Hh]; rewrite Hh.
  - split_and!; [destruct Ad; auto| |reflexivity].
    apply basis_keeps in Eb. by rewrite Eb, K.
  - exists result. split_and!; [|apply Pf|apply Pf|reflexivity].
    by eapply performed_record; [eapply LL|].
Qed.

Lemma recheck_tx_record ctx hash (w w' : W) (l l' : Locals P) :
  recheck_tx request ctx hash (w, l) = ((w', l'), Ok tt) -> here w' = here w.
Proof.
  unfold recheck_tx. intros ([w1 l1] & ledger & [E1 ->]%on_store_run & E)%bind_ok.
  pose proof (LL _ _ _ E1).
  apply run_here in E1; [|by_frame frame_ledger]. rewrite <- E1.
  refine (keeps_run (fun sl : W * Locals P => here sl.1) _ (w1, l) (w', l') _ _ E).
  repeat first
    [ apply keeps_bind | intros [] | intros ? | solve [auto with effects]
    | apply (keeps_on_store here); by_frame frame_project
    | apply (keeps_on_store here); by_frame lookup_keeps | apply source_ids_keeps ].
  all: unfold check_project, returned, refuse_if; by repeat case_match.
Qed.

(** The record when the write transaction starts is the one [Run] found. *)
Lemma recheck_record ctx hash (w w' : W) (l : Locals P) :
  recheck_sources zero_project request ctx hash w = (w', Ok l) -> here w' = here w.
Proof.
  intros (_ & Hn & Hs)%recheck_sources_inv. destruct (op_SourceSensitive request).
  - destruct (Hs eq_refl) as (wa & wb & w3 & T & _ & F). apply recheck_tx_record in T.
    apply filled_keeps in F; [congruence|]. intros f Hf. by_frame frame_check_sources.
  - by rewrite Hn.
Qed.
End Recorded.
End Runs.

(** ** The properties *)



Section Once.
Context {A W P V X : Type} `{Digester V}.
Variable zero_project : P.
Variable request : OperationRequest A W P V X.
Context {TL : forall ctx, TransactionLaws (op_Transaction request ctx)}.
Variable recorded : W -> Identity A -> option Result.
Context {LL : forall w w' ledger, op_Ledger request w = (w', Ok ledger) -> LedgerLaws ledger recorded}.
Context {RF : RecordFrame request (fun w => recorded w (op_Identity request))}.

Let identity := op_Identity request.

(** What a successful run made of the record of its key. *)
Lemma run_record ctx w w' o :
  Run zero_project request ctx w = (w', Ok o) ->
  exists ctx' w3 result,
    op_Project request ctx' (id_Operation identity) (au_ProjectID (op_Authorization request))
      (re_Body result) w3 = (w', Ok (out_Body o))
    /\ out_Status o = re_Status result
    /\ RequestHash (op_Body request) = (re_BodyHash result, None)
    /\ match recorded w identity with
       | Some prev => result = prev /\ recorded w' identity = Some prev /\ out_Replayed o = true
       | None => recorded w' identity = Some (result <| re_Output := "" |>)
                 /\ re_Output result = op_Output request
                 /\ (RetryLocks (id_Operation identity) = false -> out_Replayed o = false)
       end.
Proof.
  intros [_ (hash & ctx' & w1 & w2 & w3 & l & l0 & l3 & Eh & Ep & Er & _ & Hl & Wr & Pr & Es & Eo)]
    %(run_ok_inv zero_project request).
  pose proof (run_here request recorded _ _ _ _ (prepare_keeps request recorded ctx) Ep) as K1.
  pose proof (recheck_record zero_project request recorded _ _ _ _ _ Er) as K2.
  pose proof (run_here request recorded _ _ _ _ (frame_render request _ _ _ _) Pr) as K3.
  pose proof (proj1 (recheck_sources_inv _ _ _ _ _ _ _ Er)) as R0.
  pose proof (written_record zero_project request recorded _ _ _ _ _ _ Wr) as Rec.
  cbn beta in K1, K2, K3, Rec. fold identity in K1, K2, K3, Rec. rewrite K2, K1 in Rec.
  exists ctx', w3, (lo_result l3). split; [exact Pr|]. split; [exact Es|].
  destruct (recorded w identity) as [prev|].
  - destruct Rec as (Hh & Hw & ->). split; [by rewrite Eh, <- Hh|].
    split_and!; [reflexivity|by rewrite K3, Hw|by rewrite Eo].
  - destruct Rec as (result & Hw & Hh & Ho & ->). split; [by rewrite Eh, <- Hh|].
    split_and!; [by rewrite K3, Hw|exact Ho|]. intros Hr. rewrite Eo, (Hl Hr). exact R0.
Qed.
End Once.

(** C32. A key answers one request with one result.  Once a record is stored
    for an identity, a successful [Run] under that identity is a replay: the
    stored status and the rendering of the stored body, marked as replayed,
    with the record unchanged; and only a request whose body has the stored
    digest succeeds at all.  Without a record, a successful [Run] stores one,
    which holds the digest of its body, its status and the body it answered
    from. *)
Theorem one_key_one_result {A W P V X} `{Digester V} zero_project (request : OperationRequest A W P V X)
    {TL : forall ctx, TransactionLaws (op_Transaction request ctx)} recorded
    {LL : forall w w' ledger, op_Ledger request w = (w', Ok ledger) -> LedgerLaws ledger recorded}
    {RF : RecordFrame request (fun w => recorded w (op_Identity request))} ctx w w' o :
  let identity := op_Identity request in
  Run zero_project request ctx w = (w', Ok o) ->
  exists stored,
    recorded w' identity = Some stored
    /\ RequestHash (op_Body request) = (re_BodyHash stored, None)
    /\ out_Status o = re_Status stored
    /\ (exists ctx' w3, op_Project request ctx' (id_Operation identity)
                          (au_ProjectID (op_Authorization request)) (re_Body stored) w3
                        = (w', Ok (out_Body o)))
    /\ (forall prev, recorded w identity = Some prev -> stored = prev /\ out_Replayed o = true)
    /\ (recorded w identity = None -> RetryLocks (id_Operation identity) = false ->
        out_Replayed o = false).
Proof.
  intros identity (ctx' & w3 & result & Pr & Es & Eh & Rec)%(run_record zero_project request recorded).
  fold identity in Rec. destruct (recorded w identity) as [prev|].
  - destruct Rec as (-> & Hw & Hr). exists prev. split_and!; [exact Hw|exact Eh|exact Es|by eauto| |done].
    intros p E. by injection E as <-.
  - destruct Rec as (Hw & _ & Hr). eexists. split; [exact Hw|].
    split_and!; [exact Eh|exact Es|by exists ctx', w3|done|intros _; exact Hr].
Qed.

(** The sources were checked for the project that was written: in a
    successful source-sensitive [Run] the recheck and the write transaction
    saw projects with the same basis, and the sources the write transaction
    resolved are exactly those [CheckSources] accepted. *)
Theorem source_basis_held {A W P V X} `{Digester V} zero_project
    (request : OperationRequest A W P V X)
    {TL : forall ctx, TransactionLaws (op_Transaction request ctx)} ctx w w' o :
  op_SourceSensitive request = true ->
  Run zero_project request ctx w = (w', Ok o) ->
  exists ctx' sources rechecked written prev found wa wb wc wd we wf wg wh,
    op_AuthorizeProject request ctx' (op_Authorization request) wa = (wb, Ok rechecked)
    /\ if_filled (op_CheckSources request)
         (fun check => check ctx' (au_ProjectID (op_Authorization request)) sources) wc
       = (wd, Ok tt)
    /\ authorize zero_project request ctx' we = (wf, Ok written)
    /\ op_Basis request written = op_Basis request rechecked
    /\ match op_SourceIDs request with
       | Some sourceIDs => sourceIDs prev found wg = (wh, Ok sources)
       | None => sources = []
       end.
Proof.
  intros Hs [_ (hash & ctx' & w1 & w2 & w3 & l & l0 & l3 & _ & _ & Er & Rt & _ & Wr & _)]
    %(run_ok_inv zero_project request).
  apply (recheck_sources_inv zero_project request) in Er as (_ & _ & Er).
  destruct (Er Hs) as (wa & wb & wc & _ & Ea & Ec).
  apply checked_kept_retried in Rt. unfold checked in Rt. injection Rt as Rp Rs Rf.
  assert (B : exists project prev found we wf wg wh,
    authorize zero_project request ctx' we = (wf, Ok project)
    /\ basis_tx request project prev found (wg, l0) = ((wh, l0), Ok tt)).
  { destruct Wr as [ledger v1 v2 project prev _ Ad Eb|ledger v1 v2 v4 project prev result _ Ad Eb _];
      destruct Ad as [(wx & wy & _ & _ & Ad & _) _ _];
      do 3 eexists; exists v1, wx, v2; eexists; split; [exact Ad|exact Eb|exact Ad|exact Eb]. }
  destruct B as (project & prev & found & we & wf & wg & wh & Ea' & Eb).
  apply basis_tx_inv in Eb as (_ & _ & Eb). destruct (Eb Hs) as (Hb & _ & Ei).
  apply source_ids_run in Ei as [_ Ei].
  exists ctx', (lo_checkedSources l), (lo_checkedProject l), project, prev, found, wa, wb, wc, w2, we, wf, wg, wh.
  split_and!; [exact Ea|exact Ec|exact Ea'|by rewrite <- Rp|]. rewrite <- Rs.
  destruct (op_SourceIDs request); [exact Ei|by destruct Ei].
Qed.

(** A machine never decides for a person: an operation on the
    workspace's human decision list, called with an API key or by a machine
    principal, is refused before the store is touched, and when nothing else
    is wrong with the request the refusal is [HumanDecisionRequired]. *)
Theorem machines_never_decide {A W P V X} `{Digester V} zero_project
    (request : OperationRequest A W P V X) ctx w :
  op_HumanGate request = workspaceHumanGate (id_Operation (op_Identity request)) ->
  id_Operation (op_Identity request) ∈ workspaceHumanDecisionOperations ->
  ctx_APIKeyScope ctx = true
  \/ (exists p, ctx_Principal ctx = Some p /\ TrimSpace (p_Type p) ∈ machine_principals
                /\ Principal_Valid p = true) ->
  exists e, Run zero_project request ctx w = (w, Err (false, e))
  /\ (match op_ValidActor request with
      | Some valid => valid (id_Actor (op_Identity request)) = true
      | None => True
      end ->
      ValidKey (id_Key (op_Identity request)) = true -> op_RequireInverseCaller request = None ->
      e = HumanDecisionRequired (op_Errors request)).
Proof.
  intros Hg Hop%contains_spec Hm.
  assert (Rd : RequireHumanDecision ctx (HumanDecisionRequired (op_Errors request))
               = Some (HumanDecisionRequired (op_Errors request))).
  { unfold RequireHumanDecision, PrincipalFromContext.
    destruct Hm as [->|(p & -> & Ht%contains_spec & ->)]; [reflexivity|].
    destruct (ctx_APIKeyScope ctx); [reflexivity|]. cbn [Principal_Normalize p_Type]. by rewrite Ht. }
  unfold workspaceHumanGate in Hg. rewrite Hop in Hg. unfold Run, admit_request. rewrite Hg, Rd. cbn [Z.eqb].
  destruct (op_ValidActor request) as [valid|].
  1: destruct (valid _) eqn:Hv; cbn [negb]; [|by eexists; split].
  all: destruct (ValidKey _) eqn:Hk; cbn [negb]; [|by eexists; split].
  all: destruct (op_RequireInverseCaller request) as [f|];
    [destruct (f _ _); (eexists; split; [reflexivity|done])|by eexists; split].
Qed.

(** ** The storage side *)

Section Storage.
Context {W L : Type}.
Variable db : nat -> option bool -> M (W * L) error unit -> M (W * L) error unit.
Context {DB : AtomicDB db}.
Variable clock : RetryClock.

Lemma attempt_run options fn k s s' r err :
  transaction_run db options fn k s = (s', (r, err)) ->
  match err with
  | None => fn s = (s', Ok tt) /\ (to_ReadOnly options = true -> s'.1 = s.1)
  | Some _ => s'.1 = s.1 /\ forall l0, retried fn s.1 s'.2 l0 -> retried fn s.1 s.2 l0
  end.
Proof.
  unfold transaction_run. destruct (db k _ fn s) as [s1 [[]|e]] eqn:D; intros E; injection E as <- _ <-.
  - split; [by apply db_committed in D|]. intros Hr. unfold sql_options in D.
    rewrite Hr in D. cbn [orb] in D. by eapply db_readonly.
  - apply db_rolled_back in D as [Hw [->|(s2 & r2 & E & ->)]]; (split; [exact Hw|]); [done|].
    intros l0 Rt. destruct s as [w l]. by eapply retried_more.
Qed.

(** What [Transaction] promises of one attempt or of the whole loop. *)
Definition atomic_outcome (options : TransactionOptions) (fn : M (W * L) error unit)
  (s s' : W * L) (err : option error) : Prop :=
  match err with
  | None => (exists l0, retried fn s.1 s.2 l0 /\ fn (s.1, l0) = (s', Ok tt))
            /\ (to_ReadOnly options = true -> s'.1 = s.1)
  | Some _ => s'.1 = s.1
  end.

Lemma stopped_outcome options fn k s s' r err :
  (s, stopped ("", 0, false) clock k) = (s', (r, err)) -> atomic_outcome options fn s s' err.
Proof. unfold stopped. destruct (ck_stop clock k); intros E; by injection E as <- _ <-. Qed.

Lemma loop_run options fn n k d s s' r err :
  retry_loop ("", 0, false) (transaction_run db options fn) clock n k d s = (s', (r, err)) ->
  atomic_outcome options fn s s' err.
Proof.
  revert k d s. induction n as [|n IH]; intros k d s; cbn [retry_loop]; [apply stopped_outcome|].
  destruct (ck_before clock k); [apply stopped_outcome|].
  destruct (ck_fires clock k d); cbn [negb]; [|apply stopped_outcome].
  destruct (ck_fired clock k); [apply stopped_outcome|].
  destruct (transaction_run db options fn k s) as [s1 [r1 [e|]]] eqn:T; apply attempt_run in T.
  2: { intros E. injection E as <- _ <-. destruct T. split; [|done].
       exists s.2. split; [constructor|by destruct s]. }
  destruct T as [Hw Hr].
  assert (K : forall err, atomic_outcome options fn s1 s' err -> atomic_outcome options fn s s' err).
  { intros [x|]; cbn; [by rewrite Hw|]. rewrite Hw. intros [(l0 & Rt & E) Ro]. split; [|exact Ro]. exists l0. auto. }
  destruct (ck_cancelled clock k); [intros E; by eapply K, stopped_outcome|].
  destruct (_ && _); [intros E; by eapply K, stopped_outcome|].
  destruct (negb _); [intros E; by injection E as <- _ <-|]. intros E. by eapply K, IH.
Qed.

Lemma repository_outcome options fn s s' r :
  GORMRepository_Transaction db clock options fn s = (s', r) ->
  atomic_outcome options fn s s' (match r with Ok _ => None | Err e => Some e end)
  /\ (to_RetryLocks options = false -> r = Ok tt -> fn s = (s', Ok tt)).
Proof.
  unfold GORMRepository_Transaction. destruct (to_RetryLocks options); cbn [negb].
  - unfold retrySQLiteSpecOperation. destruct (ck_start clock) as [e|].
    { intros E. injection E as <- <-. by split. }
    destruct (transaction_run db options fn 0 s) as [s1 [r1 err]] eqn:T.
    pose proof (attempt_run _ _ _ _ _ _ _ T) as A. destruct err as [e|]; cbn [isSQLiteLockError negb].
    2: { intros E. injection E as <- <-. split; [|discriminate]. destruct A. split; [|done].
         exists s.2. split; [constructor|by destruct s]. }
    destruct A as [Hw Hr]. destruct (negb _).
    { intros E. injection E as <- <-. split; [exact Hw|discriminate]. }
    destruct (retry_loop _ _ _ _ _ _ s1) as [s2 [r2 err]] eqn:E2. apply loop_run in E2.
    intros E. injection E as <- <-. split; [|discriminate]. destruct err; cbn in *; [by rewrite E2|].
    rewrite Hw in E2. destruct E2 as [(l0 & Rt & E2) Ro]. split; [|exact Ro]. exists l0. auto.
  - destruct (transaction_run db options fn 0 s) as [s1 [r1 err]] eqn:T. apply attempt_run in T.
    intros E. injection E as <- <-. destruct err; (split; [|try done]).
    + by destruct T.
    + destruct T. split; [|done]. exists s.2. split; [constructor|by destruct s].
    + by destruct T.
Qed.
End Storage.

(** The storage transaction, retries included, is atomic: when it
    succeeds exactly one run of its body took effect, on the store it started
    from, although earlier attempts may have left their assignments in the
    closure's variables; when it fails, for whatever reason the driver, the
    deadline or the body had, the store is as it was. *)
Theorem repository_transaction_atomic {W L} (db : nat -> option bool -> M (W * L) error unit -> M (W * L) error unit)
    {DB : AtomicDB db} clock options fn s s' r :
  GORMRepository_Transaction db clock options fn s = (s', r) ->
  match r with
  | Ok _ => exists l0, retried fn s.1 s.2 l0 /\ fn (s.1, l0) = (s', Ok tt)
            /\ (to_RetryLocks options = false -> l0 = s.2)
  | Err _ => s'.1 = s.1
  end.
Proof.
  intros [A Hn]%(repository_outcome db clock). destruct r as [[]|e]; [|exact A].
  destruct (to_RetryLocks options).
  - destruct A as [(l0 & Rt & E) _]. by exists l0.
  - exists s.2. split_and!; [constructor|by destruct s; apply Hn|done].
Qed.

(** ** The workspace's seams meet the contracts *)

(** [Transaction] of [operation_pipeline.go]. *)
Definition workspace_transaction {W L X} db clock (ctx : Context X) (options : Options)
  : M (W * L) error unit -> M (W * L) error unit :=
  GORMRepository_Transaction db clock
    {| to_ReadOnly := opt_ReadOnly options; to_RetryLocks := opt_RetryLocks options;
       to_RepeatableRead := false |}.

#[export] Instance workspace_transaction_laws {W L X} db {DB : AtomicDB (W := W) (L := L) db} clock
  (ctx : Context X) : TransactionLaws (workspace_transaction db clock ctx).
Proof.
  split; intros o body s s'; unfold workspace_transaction.
  - intros err [A _]%(repository_outcome db clock). exact A.
  - intros E. apply (repository_outcome db clock) in E as [[(l0 & Rt & A) _] Hn].
    cbn [to_RetryLocks] in Hn. destruct (opt_RetryLocks o).
    + by exists l0.
    + exists s.2. split_and!; [constructor|by destruct s; apply Hn|done].
  - intros r Hr [A _]%(repository_outcome db clock). destruct r; [by apply A|exact A].
Qed.

(** The record the table holds for an identity. *)
Definition stored_result {T} (w : store T) (id : Identity Actor) : option Result :=
  (fun row => {| re_BodyHash := or_BodyHash row; re_Body := or_ResponseJSON row;
                 re_Status := or_ResponseCode row; re_Output := "" |})
  <$> st_operations w !! row_key id.

#[export] Instance operation_ledger_laws {T} query_fault insert_fault duplicate :
  LedgerLaws (operationLedger (T := T) query_fault insert_fault duplicate) stored_result.
Proof.
  split.
  - intros id w w' r found. cbn. unfold ledger_Lookup, mbind, M_bind, Operation, stored_result.
    destruct (query_fault w); [discriminate|].
    destruct (_ !! _) as [row|]; intros E; by injection E as <- <- <-.
  - intros id id' w. cbn. unfold ledger_Lookup, mbind, M_bind, Operation.
    destruct (query_fault w); [done|]. by destruct (_ !! _).
  - intros id r w w'. cbn. unfold ledger_Save, SaveOperation, stored_result.
    destruct (insert_fault w); [discriminate|].
    destruct (st_operations w !! row_key id) eqn:Hr; [discriminate|]. intros E. injection E as <-.
    cbn. split_and!; [done|by rewrite lookup_insert_eq|]. intros id'.
    destruct (decide (row_key id = row_key id')) as [<-|Hk]; [by right|left].
    by rewrite lookup_insert_ne.
Qed.

(** ** A concrete workspace for the witnesses *)

#[export] Instance operationRow_eq_dec : EqDecision operationRow.
Proof. intros [a b c] [d e f]. unfold Decision. decide equality; apply decide; apply _. Defined.

#[export] Instance store_eq_dec {T} `{EqDecision T} : EqDecision (store T).
Proof.
  intros [a b] [c d]. destruct (decide (a = c)) as [->|N]; [|right; by intros [= ?]].
  destruct (decide (b = d)) as [->|N]; [by left|right; by intros [= ?]].
Defined.

(** A body is its own encoding and its own digest. *)
#[export] Instance text_digester : Digester string :=
  {| json_Marshal := fun s => Ok s; sha256_hex := fun s => s |}.

(** A database that is locked during its first [busy] attempts. *)
Definition demo_db {L} (busy : nat) (k : nat) (read_only : option bool)
  (fn : M (store Z * L) error unit) : M (store Z * L) error unit := fun s =>
  if (k <? busy)%nat then (s, Err (DriverError 5 "database is locked"))
  else match fn s with
       | (s', Err e) => ((s.1, s'.2), Err e)
       | (s', Ok _) =>
           if bool_decide (read_only = Some true) && negb (bool_decide (s'.1 = s.1))
           then ((s.1, s'.2), Err (Sentinel "read-only transaction"))
           else (s', Ok tt)
       end.

#[export] Instance demo_db_atomic {L} busy : AtomicDB (demo_db (L := L) busy).
Proof.
  split; unfold demo_db.
  - intros k o fn s s'. destruct (k <? busy)%nat; [discriminate|].
    destruct (fn s) as [s1 [[]|e]]; [|discriminate]. destruct (_ && _); [discriminate|]. done.
  - intros k o fn s s' err. destruct (k <? busy)%nat.
    { intros E. injection E as <- _. split; [done|by left]. }
    destruct (fn s) as [s1 [[]|e]]; [destruct (_ && _); [|discriminate]|];
      intros E; injection E as <- _; (split; [done|right]); by do 2 eexists.
  - intros k fn s s' r. destruct (k <? busy)%nat; [intros E; by injection E as <- _|].
    destruct (fn s) as [s1 [[]|e]]; [|intros E; by injection E as <- _].
    rewrite bool_decide_true by done. cbn [andb].
    destruct (bool_decide (s1.1 = s.1)) eqn:B; intros E; injection E as <- _; [|done].
    by apply bool_decide_eq_true_1 in B.
Qed.

Definition calm_clock : RetryClock := {|
  ck_start := None; ck_before := fun _ => false; ck_fires := fun _ _ => true;
  ck_fired := fun _ => false; ck_cancelled := fun _ => false; ck_expired := fun _ => false;
  ck_stop := fun _ => None |}.

Definition demo_actor : Actor :=
  {| ac_TenantID := 7; ac_UserID := "u1"; ac_TenantRole := ""; ac_SystemAdmin := false;
     ac_Role := "owner" |}.

(** One table beside the records, a counter the write increments. *)
Definition demo_request (operation : string) (sensitive : bool)
  : OperationRequest Actor (store Z) Z string unit := {|
  op_Identity := {| id_Actor := demo_actor; id_Operation := operation; id_Target := "p1";
                    id_Key := "key-0001" |};
  op_Authorization := {| au_Actor := demo_actor; au_ProjectID := "p1"; au_Action := "write";
                         au_Resource := "" |};
  op_Body := "body"; op_Output := "project"; op_SourceSensitive := sensitive;
  op_HumanGate := workspaceHumanGate operation;
  op_Errors := {| InvalidRequest := Sentinel "invalid_request";
                  IdempotencyConflict := Sentinel "idempotency_conflict";
                  VersionConflict := Sentinel "version_conflict";
                  InvalidState := Sentinel "invalid_state";
                  HumanDecisionRequired := Sentinel "human_decision_required" |};
  op_Transaction := workspace_transaction (demo_db (if sensitive then 0 else 2)) calm_clock;
  op_ValidActor := Some validActor;
  op_AuditWriteFailed := Wrapped "audit_write_failed";
  op_Ledger := mret (operationLedger (fun _ => None) (fun _ => None) (Sentinel "duplicate"));
  op_AuthorizeTenant := fun _ _ => mret tt;
  op_AuthorizeProject := fun _ _ w => (w, Ok (st_tables w));
  op_RecordAudit := fun _ _ _ _ => mret tt;
  op_CheckSources := Some (fun _ _ _ => mret tt);
  op_SourceIDs := Some (fun _ _ => mret ["s1"]);
  op_PrepareCached := None; op_Prepare := None; op_RequireInverseCaller := None;
  op_Validate := None; op_CheckProject := None; op_StorePins := None;
  op_Write := fun _ _ w => (w <| st_tables := st_tables w + 1 |>, Ok ("value", "", 200));
  op_StoreReverseSources := None; op_StoreProvenance := None;
  op_Project := fun _ _ _ body => mret body;
  op_RuntimeGate := None; op_AfterWrite := None; op_ObserveFailure := None;
  op_Basis := fun _ => "1:1" |}.

Definition demo_ctx : Context unit :=
  {| ctx_APIKeyScope := false; ctx_Principal := None; ctx_UserID := Some "u1"; ctx_prepared := () |}.

Definition machine_ctx : Context unit :=
  {| ctx_APIKeyScope := false; ctx_Principal := Some {| p_Type := "embed_visitor "; p_ID := "v1" |};
     ctx_UserID := None; ctx_prepared := () |}.

Definition demo_store : store Z := {| st_operations := ∅; st_tables := 5 |}.

(** The store and the answer of a first call. *)
Definition demo_first : store Z * res (bool * error) Outcome :=
  Run 0 (demo_request "saveSpec" false) demo_ctx demo_store.

#[export] Instance demo_transaction_laws operation sensitive ctx :
  TransactionLaws (op_Transaction (demo_request operation sensitive) ctx).
Proof. apply (workspace_transaction_laws (X := unit) (demo_db _) calm_clock ctx). Qed.

Lemma demo_ledger_laws operation sensitive w w' ledger :
  op_Ledger (demo_request operation sensitive) w = (w', Ok ledger) -> LedgerLaws ledger stored_result.
Proof. intros E. injection E as _ <-. apply _. Qed.

#[export] Instance demo_frame operation sensitive id :
  RecordFrame (demo_request operation sensitive) (fun w => stored_result w id).
Proof. split; cbn; intros; simplify_eq; by intros ?. Qed.


(** A request whose output kind is not the declared one fails after its write. *)
Definition demo_mismatch : OperationRequest Actor (store Z) Z string unit :=
  (demo_request "saveSpec" false) <| op_Write := fun _ _ w =>
    (w <| st_tables := st_tables w + 1 |>, Ok ("value", "chapter", 200)) |>.


Lemma one_key_one_result_witness :
  exists stored,
    stored_result demo_first.1 (op_Identity (demo_request "saveSpec" false)) = Some stored
    /\ RequestHash "body" = (re_BodyHash stored, None)
    /\ 200 = re_Status stored
    /\ (exists (ctx' : Context unit) w3, op_Project (demo_request "saveSpec" false) ctx' "saveSpec" "p1"
                                            (re_Body stored) w3 = (demo_first.1, Ok "value"))
    /\ (forall prev, stored_result demo_first.1 (op_Identity (demo_request "saveSpec" false)) = Some prev ->
        stored = prev /\ true = true)
    /\ (stored_result demo_first.1 (op_Identity (demo_request "saveSpec" false)) = None ->
        RetryLocks "saveSpec" = false -> true = false).
Proof.
  apply (one_key_one_result 0 (demo_request "saveSpec" false) stored_result
           (LL := demo_ledger_laws "saveSpec" false) demo_ctx demo_first.1 demo_first.1
           {| out_Body := "value"; out_Status := 200; out_Replayed := true |}).
  vm_compute. reflexivity.
Defined.

Lemma source_basis_held_witness :
  exists ctx' sources rechecked written prev found wa wb wc wd we wf wg wh,
    op_AuthorizeProject (demo_request "saveSpec" true) ctx'
      (op_Authorization (demo_request "saveSpec" true)) wa = (wb, Ok rechecked)
    /\ if_filled (op_CheckSources (demo_request "saveSpec" true)) (fun check => check ctx' "p1" sources) wc
       = (wd, Ok tt)
    /\ authorize 0 (demo_request "saveSpec" true) ctx' we = (wf, Ok written)
    /\ op_Basis (demo_request "saveSpec" true) written = op_Basis (demo_request "saveSpec" true) rechecked
    /\ match op_SourceIDs (demo_request "saveSpec" true) with
       | Some sourceIDs => sourceIDs prev found wg = (wh, Ok sources)
       | None => sources = []
       end.
Proof.
  apply (source_basis_held 0 (demo_request "saveSpec" true) demo_ctx demo_store demo_first.1
           {| out_Body := "value"; out_Status := 200; out_Replayed := false |});
    vm_compute; reflexivity.
Defined.

Lemma machines_never_decide_witness :
  exists e, Run 0 (demo_request "transferOwner" false) machine_ctx demo_store = (demo_store, Err (false, e))
  /\ (validActor demo_actor = true -> ValidKey "key-0001" = true ->
      op_RequireInverseCaller (demo_request "transferOwner" false) = None ->
      e = Sentinel "human_decision_required").
Proof.
  apply (machines_never_decide 0 (demo_request "transferOwner" false) machine_ctx demo_store).
  - reflexivity.
  - apply contains_spec. vm_compute. reflexivity.
  - right. eexists. split; [reflexivity|]. split; [apply contains_spec|]; vm_compute; reflexivity.
Defined.

(** A body that counts in a variable of its closure. *)
Definition demo_body : M (store Z * Z) error unit := assign (fun n => n + 1).

Lemma repository_transaction_atomic_witness :
  exists l0, retried demo_body demo_store 0 l0
  /\ demo_body (demo_store, l0) = ((demo_store, 1), Ok tt)
  /\ (true = false -> l0 = 0).
Proof.
  apply (repository_transaction_atomic (demo_db 2) calm_clock
           {| to_ReadOnly := false; to_RetryLocks := true; to_RepeatableRead := false |}
           demo_body (demo_store, 0) (demo_store, 1) (Ok tt)).
  vm_compute. reflexivity.
Defined.
