(* ===== verification/OperationEffect.v ===== *)
(** What one [Run] of the pipeline does to the store, up to a preorder that
    every seam but the business write respects: nothing, or the effect of one
    business write on a project its own transaction authorized. *)

From S2P Require Import Prelude Effects OperationCore OperationLaws OperationTheorems.

Section Effect.
Context {A W P V X : Type} `{Digester V}.
Variable zero_project : P.
Variable request : OperationRequest A W P V X.
Context {TL : forall ctx, TransactionLaws (op_Transaction request ctx)}.
(** [undisturbed w w'] *)
Variable R : W -> W -> Prop.
Context `{!PreOrder R}.

Definition calm {E B} (m : M W E B) : Prop := forall w, R w (m w).1.

Lemma calm_run {E B} (m : M W E B) w w' r : calm m -> m w = (w', r) -> R w w'.
Proof. intros C F. specialize (C w). by rewrite F in C. Qed.

Lemma calm_ret {E B} (b : B) : calm (mret b : M W E B).
Proof. intros w. by cbn. Qed.

Lemma calm_bind {E B C} (m : M W E B) (k : B -> M W E C) :
  calm m -> (forall b, calm (k b)) -> calm (m ≫= k).
Proof.
  intros Cm Ck w. unfold mbind, M_bind. specialize (Cm w). destruct (m w) as [w1 [b|e]]; [|done].
  cbn in Cm. etransitivity; [exact Cm|apply Ck].
Qed.

Lemma calm_ignore {E B} (m : M W E B) : calm m -> calm (ignore_error m).
Proof. intros C w. apply C. Qed.

Lemma calm_on_error {E B} (m : M W E B) h : calm m -> (forall e, calm (h e)) -> calm (on_error m h).
Proof.
  intros Cm Ch w. unfold on_error. specialize (Cm w). destruct (m w) as [w1 [b|e]]; [done|].
  cbn in *. etransitivity; [exact Cm|]. apply calm_ignore, Ch.
Qed.

Lemma calm_map_error {E E' B} (wrap : E -> E') (m : M W E B) : calm m -> calm (map_error wrap m).
Proof. intros C w. unfold map_error. specialize (C w). by destruct (m w) as [w1 [b|e]]. Qed.

Lemma calm_filled {E F} (f : option F) (call : F -> M W E unit) :
  (forall x, f = Some x -> calm (call x)) -> calm (if_filled f call).
Proof. intros C. destruct f; [by apply C|apply calm_ret]. Qed.

Lemma calm_reads {E B} (m : M W E B) : reads m -> calm m.
Proof. intros K w. by rewrite (reads_run m w K). Qed.

(** Every seam but the business write. *)
Class Calm := {
  calm_ledger : calm (op_Ledger request);
  calm_lookup w w' ledger : op_Ledger request w = (w', Ok ledger) -> forall i, calm (Lookup ledger i);
  calm_save w w' ledger : op_Ledger request w = (w', Ok ledger) -> forall i r, calm (Save ledger i r);
  calm_tenant ctx au : calm (op_AuthorizeTenant request ctx au);
  calm_project ctx au : calm (op_AuthorizeProject request ctx au);
  calm_audit ctx p c e : calm (op_RecordAudit request ctx p c e);
  calm_prepare_cached f : op_PrepareCached request = Some f -> forall ctx i b, calm (f ctx i b);
  calm_prepare f : op_Prepare request = Some f -> forall ctx i b, calm (f ctx i b);
  calm_validate f : op_Validate request = Some f -> forall ctx p, calm (f ctx p);
  calm_pins f : op_StorePins request = Some f -> forall ctx p, calm (f ctx p);
  calm_reverse f : op_StoreReverseSources request = Some f -> forall ctx v, calm (f ctx v);
  calm_provenance f : op_StoreProvenance request = Some f -> forall ctx i r v, calm (f ctx i r v);
  calm_render ctx o p b : calm (op_Project request ctx o p b);
  calm_gate f : op_RuntimeGate request = Some f -> forall ctx p o, calm (f ctx p o);
  calm_after f : op_AfterWrite request = Some f -> forall ctx p i o t s v, calm (f ctx p i o t s v);
  calm_observe f : op_ObserveFailure request = Some f -> forall ctx p o e, calm (f ctx p o e);
  calm_sources f : op_SourceIDs request = Some f -> forall r b, calm (f r b);
  calm_check f : op_CheckSources request = Some f -> forall ctx p l, calm (f ctx p l)
}.
Context {CS : Calm}.

(** What the ledger answers about the operation on a store the seams have not
    disturbed since [w]. *)
Definition looked_up (w : W) (prev : Result) (found : bool) : Prop :=
  exists wz wz' ledger wl wl',
    op_Ledger request wz = (wz', Ok ledger) /\ R w wl
    /\ Lookup ledger (op_Identity request) wl = (wl', Ok (prev, found)).

Definition unrecorded (w : W) : Prop := exists prev, looked_up w prev false.

(** The answer of a replay: the stored result of the same body. *)
Definition replayed (w : W) (hash : string) (prev : Result) : Prop :=
  looked_up w prev true /\ re_BodyHash prev = hash.

(** The result of the operation was stored, and the store not disturbed
    since. *)
Definition saved (hash : string) (status : Z) (w' : W) : Prop :=
  exists wz wz' ledger result ws ws',
    op_Ledger request wz = (wz', Ok ledger)
    /\ Save ledger (op_Identity request) result ws = (ws', Ok tt) /\ R ws' w'
    /\ re_BodyHash result = hash /\ re_Status result = status.

(** One business write of an operation without a record, between undisturbed
    stretches, and its record. *)
Definition wrote (hash : string) (status : Z) (w w' : W) : Prop :=
  unrecorded w /\ saved hash status w'
  /\ exists ctx wa wb w0 w1 project value output,
    R w wa /\ authorize zero_project request ctx wa = (wb, Ok project)
    /\ R wb w0 /\ op_Write request ctx project w0 = (w1, Ok (value, output, status)) /\ R w1 w'.

Local Tactic Notation "by_calm" uconstr(lem) := eapply lem; first [exact _ | eassumption].

Lemma authorize_calm ctx : calm (authorize zero_project request ctx).
Proof.
  unfold authorize. destruct (_ =? "")%string.
  - apply calm_bind; [|intros; apply calm_ret].
    apply calm_on_error; [by_calm calm_tenant|intros; by_calm calm_audit].
  - apply calm_on_error; [by_calm calm_project|intros; by_calm calm_audit].
Qed.

Lemma prepare_calm ctx : calm (prepare request ctx).
Proof.
  unfold prepare. destruct (op_PrepareCached request) as [f|] eqn:F.
  - apply calm_bind; [apply calm_map_error; by_calm calm_prepare_cached|].
    intros [c b]. destruct (op_Prepare request) as [g|] eqn:G; [|apply calm_ret].
    destruct (negb b); [apply calm_map_error; by_calm calm_prepare|apply calm_ret].
  - destruct (op_Prepare request) as [g|] eqn:G; [|apply calm_ret].
    apply calm_map_error; by_calm calm_prepare.
Qed.

(** The local variables the recheck of the sources assigned; the write
    transaction reads them and leaves them alone. *)
Definition checked (l : Locals P) := (lo_checkedProject l, lo_checkedSources l, lo_checkedFound l).

Lemma source_ids_steady previous found w : exists w' r, R w w' /\ forall l, exists l',
  source_ids request previous found (w, l) = ((w', l'), r) /\ checked l' = checked l /\ (forall ids, r = Ok ids -> l' = l).
Proof.
  unfold source_ids. destruct (op_SourceIDs request) as [f|] eqn:F; [|exists w, (Ok []); split; [done|]; by intros l; exists l].
  pose proof (calm_sources _ F previous found w) as C. unfold on_store. cbn.
  destruct (f previous found w) as [w1 [ids|e]]; exists w1.
  - exists (Ok ids). split; [exact C|]. by intros l; exists l.
  - exists (Err e). split; [exact C|]. intros l. destruct (IsReplayPayloadDecodeError e); by eexists.
Qed.

(** The comparison with the recheck depends on what it assigned alone. *)
Lemma basis_steady p previous found w k : exists w' r, R w w' /\ forall l, checked l = k -> exists l',
  basis_tx request p previous found (w, l) = ((w', l'), r) /\ checked l' = k /\ (r = Ok tt -> l' = l).
Proof.
  unfold basis_tx. destruct (op_SourceSensitive request); [|exists w, (Ok tt); split; [done|]; by intros l <-; exists l].
  destruct (source_ids_steady previous found w) as (w' & [ids|e] & Rw & S); exists w'; [|exists (Err e)].
  - destruct k as [[kp ks] kf].
    exists (refuse_if (negb (op_Basis request p =? op_Basis request kp)%string || negb (Bool.eqb found kf)
                       || negb (bool_decide (ids = ks))) (VersionConflict (op_Errors request)) tt).2.
    split; [exact Rw|]. intros l K. destruct (S l) as (l' & E & _ & Same). rewrite (Same ids eq_refl) in E.
    exists l. rewrite (bind_run _ _ _ _ _ E). unfold mbind, M_bind, local_vars. cbn. unfold checked in K. injection K as <- <- <-.
    unfold refuse_if. by destruct (negb (_ =? _)%string || _ || _).
  - split; [exact Rw|]. intros l <-. destruct (S l) as (l' & E & Kl & _). exists l'. by rewrite (bind_err _ _ _ _ _ E).
Qed.

Lemma admitted_calm ctx hash ledger w0 w w' project prev found :
  op_Ledger request w0 = (w, Ok ledger) ->
  admitted zero_project request ctx hash ledger w w' project prev found ->
  exists wb, authorize zero_project request ctx w = (wb, Ok project) /\ R wb w'
  /\ exists wl wl', R wb wl /\ Lookup ledger (op_Identity request) wl = (wl', Ok (prev, found)).
Proof.
  intros El [(wa & wb & wc & wd & Ea & Eb & Ec & Ed & Ev) _ _]. exists wa. split; [exact Ea|].
  apply calm_run in Eb; [|by_calm calm_audit].
  apply calm_run in Ec; [|apply calm_filled; intros f F; by_calm calm_gate].
  apply calm_run in Ev; [|apply calm_filled; intros f F; by_calm calm_validate].
  split; [|exists wc, wd; split; [by etransitivity|exact Ed]].
  apply calm_run in Ed; [|by_calm calm_lookup].
  etransitivity; [exact Eb|]. etransitivity; [exact Ec|]. by etransitivity.
Qed.

(** The tail of [perform_tx], past the business write. *)
Lemma recorded_calm ctx hash ledger project (w w' : W) (l l' : Locals P) w0 w00 :
  op_Ledger request w0 = (w00, Ok ledger) ->
  perform_tx request ctx hash ledger project (w, l) = ((w', l'), Ok tt) ->
  exists w1 w2 value output,
    R w w1 /\ op_Write request ctx project w1 = (w2, Ok (value, output, re_Status (lo_result l'))) /\ R w2 w'
    /\ saved hash (re_Status (lo_result l')) w'.
Proof.
  intros El. unfold perform_tx. intros ([w1 l1] & [] & [-> E1]%if_filled_run & E)%bind_ok.
  apply bind_ok in E as ([w2 l2] & [[value output] status] & [E2 ->]%on_store_run & E).
  apply bind_ok in E as (s3 & [] & [G ->]%refuse_if_ok & E).
  apply bind_ok in E as ([w4 l4] & [] & [-> E4]%if_filled_run & E).
  destruct (json_Marshal value) as [raw|e] eqn:Raw; [|discriminate E].
  apply bind_ok in E as (s5 & [] & E5 & E). injection E5 as <-.
  apply bind_ok in E as ([w6 l6] & [] & [-> E6]%if_filled_run & E).
  apply bind_ok in E as ([w7 l7] & [] & [-> E7]%if_filled_run & E).
  apply on_store_run in E as [E ->]. cbn [lo_result set_field].
  exists w1, w2, value, output. split; [|split; [exact E2|split]].
  - apply calm_run in E1; [done|]. apply calm_filled; intros f F; by_calm calm_pins.
  - apply calm_run in E4; [|apply calm_filled; intros f F; by_calm calm_reverse].
    apply calm_run in E6; [|apply calm_filled; intros f F; by_calm calm_provenance].
    apply calm_run in E7; [|apply calm_filled; intros f F; by_calm calm_after].
    apply calm_run in E; [|by_calm calm_save].
    etransitivity; [exact E4|]. etransitivity; [exact E6|]. by etransitivity.
  - eexists w0, w00, ledger, _, w7, w'. by split_and!.
Qed.

(** *** Retries *)

(** A step that neither reads nor writes the local variables. *)
Definition uniform {B} (m : M (W * Locals P) error B) : Prop :=
  forall w, exists w' r, forall l, m (w, l) = ((w', l), r).

Lemma uniform_on_store {B} (m : M W error B) : uniform (on_store m).
Proof. intros w. unfold on_store. destruct (m w) as [w' r] eqn:E. exists w', r. intros l. cbn. by rewrite E. Qed.

Lemma uniform_returned (o : option error) : uniform (returned o).
Proof. intros w. destruct o as [e|]; [by exists w, (Err e)|by exists w, (Ok tt)]. Qed.

Lemma uniform_refuse_if c e : uniform (refuse_if c e).
Proof. intros w. destruct c; [by exists w, (Err e)|by exists w, (Ok tt)]. Qed.

Lemma uniform_ret {B} (b : B) : uniform (mret b).
Proof. intros w. by exists w, (Ok b). Qed.

Lemma uniform_bind {B C} (m : M (W * Locals P) error B) (k : B -> M (W * Locals P) error C) :
  uniform m -> (forall b, uniform (k b)) -> uniform (m ≫= k).
Proof.
  intros Um Uk w. destruct (Um w) as (w1 & [b|e] & F).
  - destruct (Uk b w1) as (w2 & r & G). exists w2, r. intros l. unfold mbind, M_bind. by rewrite F.
  - exists w1, (Err e). intros l. unfold mbind, M_bind. by rewrite F.
Qed.

Lemma admit_uniform ctx hash ledger : uniform (admit_tx zero_project request ctx hash ledger).
Proof.
  unfold admit_tx, check_project, if_filled.
  repeat first
    [ apply uniform_on_store | apply uniform_refuse_if | apply uniform_ret | apply uniform_returned
    | lazymatch goal with
      | |- uniform (match ?x with _ => _ end) => destruct x
      | |- uniform (_ ≫= _) => apply uniform_bind
      | |- forall _, uniform _ => intro
      end ].
Qed.

(** What a run of the write transaction on [w] is, whatever its locals beside
    those the recheck assigned: a refusal, a replay, or a write of the project
    it authorized. *)
Inductive write_shape (ctx : Context X) (hash : string) (w : W) (k : P * list string * bool) : Prop :=
| shape_refused e :
    (forall l, checked l = k -> (write_tx zero_project request ctx hash (w, l)).2 = Err e) -> write_shape ctx hash w k
| shape_replay w1 prev :
    replayed w hash prev -> R w w1 ->
    (forall l, checked l = k -> write_tx zero_project request ctx hash (w, l)
               = ((w1, l <| lo_result := prev |> <| lo_replayed := true |>), Ok tt)) -> write_shape ctx hash w k
| shape_fresh w0 ledger wa wb project :
    op_Ledger request w = (wa, Ok ledger) ->
    unrecorded w -> authorize zero_project request ctx wa = (wb, Ok project) -> R wb w0 ->
    (forall l, checked l = k -> write_tx zero_project request ctx hash (w, l)
               = perform_tx request ctx hash ledger project (w0, l)) -> write_shape ctx hash w k.

Lemma write_shaped ctx hash w k : write_shape ctx hash w k.
Proof.
  destruct (op_Ledger request w) as [wa [ledger|e]] eqn:El; cycle 1.
  { apply shape_refused with (e := e). intros l _. unfold write_tx.
    rewrite (bind_err _ _ _ (wa, l) e); [done|]. unfold on_store. cbn. by rewrite El. }
  assert (forall l, write_tx zero_project request ctx hash (w, l)
    = ('(project, previous, found) ← admit_tx zero_project request ctx hash ledger;
       _ ← basis_tx request project previous found;
       if (found : bool)
       then assign (fun l : Locals P => l <| lo_result := previous |> <| lo_replayed := true |>)
       else perform_tx request ctx hash ledger project) (wa, l)) as Head.
  { intros l. unfold write_tx. by rewrite (bind_run _ _ _ (wa, l) ledger) by (unfold on_store; cbn; by rewrite El). }
  destruct (admit_uniform ctx hash ledger wa) as (w0 & [[[p prev] found]|e] & Ad); cycle 1.
  { apply shape_refused with (e := e). intros l _. rewrite Head. by rewrite (bind_err _ _ _ _ _ (Ad l)). }
  destruct (basis_steady p prev found w0 k) as (w1 & [[]|e] & R1 & Ba); cycle 1.
  { apply shape_refused with (e := e). intros l K. rewrite Head, (bind_run _ _ _ _ _ (Ad l)).
    destruct (Ba l K) as (l' & B & _). by rewrite (bind_err _ _ _ _ _ B). }
  assert (forall l, checked l = k -> write_tx zero_project request ctx hash (w, l)
    = (if (found : bool)
       then assign (fun l : Locals P => l <| lo_result := prev |> <| lo_replayed := true |>)
       else perform_tx request ctx hash ledger p) (w1, l)) as Shape.
  { intros l K. rewrite Head, (bind_run _ _ _ _ _ (Ad l)). destruct (Ba l K) as (l' & B & _ & Same).
    rewrite (Same eq_refl) in B. by rewrite (bind_run _ _ _ _ _ B). }
  pose (l := initial_locals zero_project).
  destruct (admit_tx_inv zero_project request ctx hash ledger _ _ _ _ _ _ _ (Ad l)) as [_ Inv].
  destruct (admitted_calm _ _ _ _ _ _ _ _ _ El Inv) as (wb & Ea & Rb & wl & wl' & Rl & Lk).
  assert (R w wb) as Rwb.
  { etransitivity; [eapply calm_run; [by_calm calm_ledger|exact El]|].
    eapply calm_run; [apply authorize_calm|exact Ea]. }
  assert (looked_up w prev found) as Lw.
  { exists w, wa, ledger, wl, wl'. split; [exact El|]. split; [by etransitivity|exact Lk]. }
  destruct found.
  - eapply shape_replay; [split; [exact Lw|by apply (ad_hash _ _ _ _ _ _ _ _ _ _ Inv)]| |exact Shape].
    transitivity wb; [done|]. by transitivity w0.
  - eapply shape_fresh; [exact El|by exists prev|exact Ea|by transitivity w0|exact Shape].
Qed.

Lemma on_store_flags {B} (m : M W error B) :
  keeps (fun sl : W * Locals P => (lo_replayed sl.2, checked sl.2)) (on_store m).
Proof. intros s. unfold on_store. by destruct (m s.1). Qed.

Lemma flags_kept_perform ctx hash ledger project :
  keeps (fun sl : W * Locals P => (lo_replayed sl.2, checked sl.2)) (perform_tx request ctx hash ledger project).
Proof. unfold perform_tx. keep_frame; first [apply on_store_flags|by intros ?]. Qed.

(** An attempt leaves what the recheck assigned as it was. *)
Lemma attempt_checked ctx hash w l :
  checked (write_tx zero_project request ctx hash (w, l)).1.2 = checked l.
Proof.
  assert (forall {B} (m : M W error B), keeps (fun sl : W * Locals P => checked sl.2) (on_store m)) as K.
  { intros B m s. unfold on_store. by destruct (m s.1). }
  assert (keeps (fun sl : W * Locals P => checked sl.2) (write_tx zero_project request ctx hash)) as Kw; [|apply Kw].
  unfold write_tx. apply keeps_bind; [apply K|]. intros ledger. apply keeps_bind.
  { intros [w1 l1]. destruct (admit_uniform ctx hash ledger w1) as (w2 & r & ->). done. }
  intros [[p prev] found]. apply keeps_bind.
  { intros [w1 l1]. destruct (basis_steady p prev found w1 (checked l1)) as (w2 & r & _ & B).
    destruct (B l1 eq_refl) as (l2 & -> & E & _). exact E. }
  intros []. destruct found; [by intros ?|]. intros s.
  pose proof (flags_kept_perform ctx hash ledger p s) as E. exact (f_equal snd E).
Qed.

Lemma checked_retried ctx hash w l l0 :
  retried (write_tx zero_project request ctx hash) w l l0 -> checked l0 = checked l.
Proof. induction 1 as [|l l2 s1 r E _ IH]; [done|]. rewrite IH. pose proof (attempt_checked ctx hash w l) as K. by rewrite E in K. Qed.

(** A retried transaction that ends in a write never set the mark of a
    replay on the way. *)
Lemma flag_kept_retried ctx hash w l l0 w0 ledger project :
  (forall l', checked l' = checked l -> write_tx zero_project request ctx hash (w, l')
             = perform_tx request ctx hash ledger project (w0, l')) ->
  retried (write_tx zero_project request ctx hash) w l l0 -> lo_replayed l0 = lo_replayed l.
Proof.
  intros S Rt. induction Rt as [|l l2 s1 r E _ IH]; [done|].
  pose proof (attempt_checked ctx hash w l) as Kc. rewrite E in Kc. cbn in Kc.
  rewrite (S l eq_refl) in E. rewrite IH by (intros l' Kl; apply S; by rewrite Kl).
  pose proof (flags_kept_perform ctx hash ledger project (w0, l)) as K. rewrite E in K. exact (f_equal fst K).
Qed.

(** *** The effect of a run *)

Lemma commit_effect ctx hash w w' (l l' : Locals P) r :
  op_Transaction request ctx {| opt_ReadOnly := false; opt_RetryLocks := RetryLocks (id_Operation (op_Identity request)) |}
    (write_tx zero_project request ctx hash) (w, l) = ((w', l'), r) ->
  match r with
  | Ok _ => (lo_replayed l' = true /\ replayed w hash (lo_result l') /\ R w w') \/ lo_replayed l' = lo_replayed l /\ wrote hash (re_Status (lo_result l')) w w'
  | Err _ => w' = w
  end.
Proof.
  destruct r as [[]|e]; intros T; [|by apply tx_failed in T].
  apply tx_committed in T as (l0 & Rt & T & _). cbn in Rt, T. pose proof (checked_retried _ _ _ _ _ Rt) as Kl.
  destruct (write_shaped ctx hash w (checked l)) as [e S|w1 prev Rp Rw S|w0 ledger wa wb project El Un Ea Rb S];
    specialize (S l0 Kl) as S0.
  - by rewrite T in S0.
  - rewrite S0 in T. injection T as <- <-. by left.
  - right. rewrite S0 in T. split.
    + pose proof (flags_kept_perform ctx hash ledger project (w0, l0)) as K. rewrite T in K. apply (f_equal fst) in K.
      cbn in K. rewrite K. by eapply flag_kept_retried.
    + destruct (recorded_calm _ _ _ _ _ _ _ _ _ _ El T) as (w1 & w2 & value & output & R1 & Ew & R2 & Sv).
      split; [exact Un|]. split; [exact Sv|]. exists ctx, wa, wb, w1, w2, project, value, output.
      split; [eapply calm_run; [by_calm calm_ledger|exact El]|]. split; [exact Ea|].
      split; [by etransitivity|by split].
Qed.

(** The recheck of the sources leaves the store undisturbed, and marks no
    replay. *)
Lemma recheck_calm ctx hash : calm (recheck_sources zero_project request ctx hash).
Proof.
  intros w. unfold recheck_sources. destruct (op_SourceSensitive request); [|done].
  destruct (op_Transaction _ _ _ _ _) as [[w1 l1] [[]|e]] eqn:T; apply tx_readonly in T; try done; cbn in T; subst w1; [|done].
  destruct (if_filled _ _ w) as [w2 r] eqn:F. apply calm_run in F.
  - by destruct r.
  - apply calm_filled. intros f Ef. by_calm calm_check.
Qed.

(** Whatever a run answers: a success that is a replay and a failure leave the
    store undisturbed, a first success wrote once; a failure may also be a
    write that was committed and could not be rendered. *)
Lemma run_effect ctx w w' r :
  Run zero_project request ctx w = (w', r) ->
  match r with
  | Ok o => exists hash, RequestHash (op_Body request) = (hash, None)
            /\ if out_Replayed o
               then R w w' /\ exists prev, replayed w hash prev /\ out_Status o = re_Status prev
               else wrote hash (out_Status o) w w'
  | Err _ => R w w' \/ exists hash status, wrote hash status w w'
  end.
Proof.
  unfold Run, returned. destruct (option_map (pair false) (admit_request request ctx)) as [err|].
  { intros E. injection E as <- <-. by left. }
  unfold mbind, M_bind, mret, M_ret.
  destruct (RequestHash _) as [hash [err|]]; [intros E; injection E as <- <-; by left|].
  destruct (prepare request ctx w) as [w1 [ctx'|err]] eqn:Ep; apply (calm_run _ _ _ _ (prepare_calm ctx)) in Ep;
    [|intros E; injection E as <- <-; by left].
  destruct (recheck_sources zero_project request ctx' hash w1) as [w1' [l|[flag err]]] eqn:Rs;
    pose proof (calm_run _ _ _ _ (recheck_calm ctx' hash) Rs) as Rw'; cycle 1.
  { intros E. injection E as <- <-. left. by transitivity w1. }
  apply (recheck_sources_inv zero_project request) in Rs as [Unmarked _].
  assert (R w w1') as Ep' by (by transitivity w1). clear w1 Rw' Ep. rename w1' into w1, Ep' into Ep.
  unfold commit_operation. destruct (op_Transaction _ _ _ _ _) as [[w2 l2] t] eqn:T. apply commit_effect in T. destruct t as [[]|err].
  - destruct (op_Project _ _ _ _ _ _) as [w3 v] eqn:Pr. apply calm_run in Pr; [|by_calm calm_render].
    assert (forall prev found, looked_up w1 prev found -> looked_up w prev found) as Before.
    { intros prev found (wz & wz' & lg & wl & wl' & El & Rl & Lk).
      exists wz, wz', lg, wl, wl'. split; [exact El|]. split; [by etransitivity|exact Lk]. }
    assert (forall st, wrote hash st w1 w2 -> wrote hash st w w3) as Across.
    { intros st ([prev Un] & (wz & wz' & lg & re & ws & ws' & El & Es & Rs & Hh & Ht)
                 & (c & wa & wb & wc & wd & p & v' & o & R1 & Ea & R2 & Ew & R3)).
      split; [by exists prev; apply Before|].
      split; [exists wz, wz', lg, re, ws, ws'; split_and!; try done; by etransitivity|].
      exists c, wa, wb, wc, wd, p, v', o. split; [by etransitivity|]. split; [done|].
      split; [done|]. split; [done|]. by etransitivity. }
    destruct v as [visible|err]; intros E; injection E as <- <-; cbn [out_Replayed].
    + exists hash. split; [done|].
      destruct T as [(-> & [Lk Hp] & Rw)|[-> Wr]]; rewrite ?Unmarked; cbn; [|by apply Across].
      split; [etransitivity; [exact Ep|]; by etransitivity|].
      exists (lo_result l2). split; [split; [by apply Before|done]|done].
    + destruct T as [(_ & _ & Rw)|[_ Wr]]; [left|right; eexists hash, _; by apply Across].
      etransitivity; [exact Ep|]. by etransitivity.
  - subst w2. destruct (if_filled (op_ObserveFailure request) _ w1) as [w3 u] eqn:O.
    apply calm_run in O; [|apply calm_filled; intros f F; by_calm calm_observe].
    intros E. injection E as <- <-. left. by etransitivity.
Qed.
End Effect.
