(* ===== verification/Workspace.v ===== *)
(** The workspace's project and member data
    ([src/internal/lingdoc/workspacecore/model.go]), the tenant roles of
    [src/internal/types/tenant_member.go], and the judgements about a
    project's members every other part asks for.

    JSON documents a project carries along (template definitions, rule sets,
    policies) are kept as their text; a time is its Unix nanoseconds. *)

From S2P Require Import Prelude Effects OperationStore.

(** ** Errors ([model.go], [human_decision.go]) *)

Definition ErrNotFound : error := Sentinel "not_found".
Definition ErrInvalidRequest : error := Sentinel "invalid_request".
Definition ErrInvalidState : error := Sentinel "invalid_state".
Definition ErrVersionConflict : error := Sentinel "version_conflict".
Definition ErrPermissionSchemaUnavailable : error := Sentinel "permission_schema_unavailable".
Definition ErrHumanDecisionRequired : error := Sentinel "human_decision_required".
Definition ErrProjectInvitationRequired : error := Sentinel "project_invitation_required".

(** ** Tenant roles ([types/tenant_member.go]) *)

Definition TenantRole := string.
Definition TenantRoleOwner : TenantRole := "owner".
Definition TenantRoleAdmin : TenantRole := "admin".
Definition TenantRoleContributor : TenantRole := "contributor".
Definition TenantRoleViewer : TenantRole := "viewer".

Definition tenantRoleLevel : gmap string Z :=
  {[ TenantRoleOwner := 40; TenantRoleAdmin := 30; TenantRoleContributor := 20;
     TenantRoleViewer := 10 ]}.

Definition IsValid (r : TenantRole) : bool := bool_decide (is_Some (tenantRoleLevel !! r)).

(** A missing key reads as zero. *)
Definition Level (r : TenantRole) : Z := default 0 (tenantRoleLevel !! r).

Definition HasPermission (r required : TenantRole) : bool := Level required <=? Level r.

(** ** Projects and their members ([model.go]) *)

Set Primitive Projections.
Record Member := {
  m_UserID : string;
  m_Role : string;
  m_GovernanceRole : string;
  m_FunctionRoles : list string;
  m_FunctionScopes : gmap string (list string);
  m_Status : string
}.

Unset Primitive Projections.

(** [Member{}] *)
Definition zero_member : Member :=
  {| m_UserID := ""; m_Role := ""; m_GovernanceRole := ""; m_FunctionRoles := [];
     m_FunctionScopes := ∅; m_Status := "" |}.

Record SpecField := {
  sf_Value : string;
  sf_Origin : string;
  sf_Status : string;
  sf_Provenance : option string;
  sf_ModifiedBy : string;
  sf_ModifiedAt : Z;
  sf_ModifiedProjectVersion : Z
}.

Record ProjectTemplateCopy := {
  tc_SourceKind : string;
  tc_legacySourceRuleSetSnapshot : option string;
  tc_BindingPolicies : list string;
  tc_SourcePolicyHash : string;
  tc_RuleSetSnapshot : option string;
  tc_SourceRuleSetID : string;
  tc_SourceRuleSetVersion : string;
  tc_SourceRuleSetHash : string;
  tc_ID : string;
  tc_ProjectID : string;
  tc_SourceTemplateID : string;
  tc_SourceTemplateVersion : string;
  tc_Version : Z;
  tc_Status : string;
  tc_ContentHash : string;
  tc_RulesetHash : string;
  tc_TemplateVersionRuleSetRef : option string;
  tc_Definition : string;
  tc_CreatedBy : string;
  tc_CreatedAt : Z
}.

Set Primitive Projections.
Record Project := {
  pr_CurrentSnapshotID : string;
  pr_ID : string;
  pr_Name : string;
  pr_Status : string;
  pr_ProjectVersion : Z;
  pr_SpecRevision : Z;
  pr_CurrentContextRevision : Z;
  pr_DeliveryStatus : string;
  pr_BaselineConfirmationID : string;
  pr_Spec : gmap string string;
  pr_SpecFields : gmap string SpecField;
  pr_TemplateID : string;
  pr_TemplateVersion : string;
  pr_TemplateCopyVersion : Z;
  pr_TemplateCopy : option ProjectTemplateCopy;
  pr_DiscardedAt : option Z;
  pr_Members : list Member
}.

Unset Primitive Projections.

(** [Project{}] *)
Definition zero_project : Project :=
  {| pr_CurrentSnapshotID := ""; pr_ID := ""; pr_Name := ""; pr_Status := ""; pr_ProjectVersion := 0;
     pr_SpecRevision := 0; pr_CurrentContextRevision := 0; pr_DeliveryStatus := "";
     pr_BaselineConfirmationID := ""; pr_Spec := ∅; pr_SpecFields := ∅; pr_TemplateID := "";
     pr_TemplateVersion := ""; pr_TemplateCopyVersion := 0; pr_TemplateCopy := None;
     pr_DiscardedAt := None; pr_Members := [] |}.

Definition is_nil {A} (o : option A) : bool := match o with None => true | Some _ => false end.

(** [project_state.go] *)
Definition Archived (p : Project) : bool :=
  negb (is_nil (pr_DiscardedAt p)) || (pr_Status p =? "archived")%string.

(** ** Judgements about members ([permission_policy.go], [service_facade.go],
    [owner_unavailable.go]) *)

(** The first member of the list with that user id. *)
Definition find_member (members : list Member) (userID : string) : option Member :=
  snd <$> list_find (fun m => m_UserID m = userID) members.

Definition projectMember (p : Project) (userID : string) : Member * bool :=
  match find_member (pr_Members p) userID with
  | Some m => (m, true)
  | None => (zero_member, false)
  end.

Definition governanceRole (m : Member) : string :=
  when (m_Role m =? "owner")%string return "owner";
  when (m_GovernanceRole m =? "")%string return "member";
  m_GovernanceRole m.

Definition function_scopes (m : Member) (role : string) : list string :=
  default [] (m_FunctionScopes m !! role).

Definition memberHasScope (m : Member) (role target : string) : bool :=
  contains (m_FunctionRoles m) role && negb (target =? "")%string
  && contains (function_scopes m role) target.

Definition projectOwner (p : Project) (userID : string) : bool :=
  existsb (fun m => (m_UserID m =? userID)%string && (m_Role m =? "owner")%string) (pr_Members p).

Definition projectOwnerUser (p : Project) : option string :=
  (fun im => m_UserID im.2) <$> list_find (fun m => m_Role m = "owner") (pr_Members p).

(** [m.Status == "" || m.Status == "active"], the reading of an active
    assignment the code repeats. *)
Definition active_status (m : Member) : bool :=
  (m_Status m =? "")%string || (m_Status m =? "active")%string.

(** ** Lemmas *)

Lemma find_member_cons m members u :
  find_member (m :: members) u = if decide (m_UserID m = u) then Some m else find_member members u.
Proof.
  unfold find_member. cbn. destruct (decide (m_UserID m = u)); [done|].
  by destruct (list_find _ members) as [[i m']|].
Qed.

Lemma find_member_some members u m :
  find_member members u = Some m -> m ∈ members /\ m_UserID m = u.
Proof.
  unfold find_member. intros F. apply fmap_Some in F as ([i x] & F & ->).
  apply list_find_Some in F as (F & Hu & _). split; [by eapply list_elem_of_lookup_2|done].
Qed.

Lemma find_member_unique members u m :
  NoDup (m_UserID <$> members) -> m ∈ members -> m_UserID m = u -> find_member members u = Some m.
Proof.
  intros Hnd Hin Hu. unfold find_member.
  destruct (list_find (fun m => m_UserID m = u) members) as [[i x]|] eqn:E; cbn.
  - apply list_find_Some in E as (Hx & Hxu & _).
    apply list_elem_of_lookup_1 in Hin as [j Hj].
    assert (i = j) as ->; [|congruence].
    apply (NoDup_lookup (m_UserID <$> members) i j u); [done| |].
    + rewrite list_lookup_fmap, Hx. simpl. rewrite <- Hxu. reflexivity.
    + rewrite list_lookup_fmap, Hj. simpl. rewrite <- Hu. reflexivity.
  - exfalso. apply list_find_None in E. by eapply Forall_forall in E; [|exact Hin].
Qed.

Lemma projectOwner_spec p u :
  projectOwner p u = true <-> exists m, m ∈ pr_Members p /\ m_UserID m = u /\ m_Role m = "owner".
Proof.
  unfold projectOwner. rewrite existsb_exists. setoid_rewrite andb_true_iff.
  setoid_rewrite String.eqb_eq. by setoid_rewrite <- list_elem_of_In.
Qed.

Lemma projectOwnerUser_spec p u :
  projectOwnerUser p = Some u -> projectOwner p u = true.
Proof.
  intros F. apply fmap_Some in F as ([i m] & F & ->). cbn.
  apply list_find_Some in F as (F & Hr & _). apply projectOwner_spec.
  exists m. split; [by eapply list_elem_of_lookup_2|done].
Qed.

Lemma governanceRole_owner m : m_Role m = "owner" -> governanceRole m = "owner".
Proof. unfold governanceRole. by intros ->. Qed.

Lemma HasPermission_spec r q : HasPermission r q = true <-> Level q <= Level r.
Proof. apply Z.leb_le. Qed.

Lemma Level_nonneg r : 0 <= Level r.
Proof.
  unfold Level, tenantRoleLevel. rewrite !lookup_insert, lookup_singleton.
  repeat case_decide; cbn; lia.
Qed.

Lemma IsValid_level r : IsValid r = true <-> 0 < Level r.
Proof.
  unfold IsValid, Level, tenantRoleLevel. rewrite bool_decide_eq_true.
  rewrite !lookup_insert, lookup_singleton.
  repeat case_decide; cbn; split; intros V; try lia; try by eexists.
  by destruct V.
Qed.
