(* ===== verification/Permission.v ===== *)
(** The workspace permission policy: the request vocabulary of
    [src/internal/lingdoc/workspacecore/typed_contracts.go], the decision of
    [permission_policy.go], and the owner availability judgement of
    [owner_unavailable.go] with its registry [owner_capability_registry.go].

    The transaction the policy reads is a record of ports; whether it carries
    the tenant role port is the type assertion of [currentTenantRole]. *)

From S2P Require Import Prelude Effects OperationStore Workspace.

(** ** Requests ([typed_contracts.go]) *)

Record AuthorizationRequest := {
  rq_Actor : Actor;
  rq_ProjectID : string;
  rq_Action : string;
  rq_Resource : string
}.

Definition capability (r : AuthorizationRequest) : string :=
  when (rq_Resource r =? "")%string return rq_Action r;
  rq_Action r +:+ ":" +:+ rq_Resource r.

Definition authorization_actions : list string :=
  ["delivery-read"; "tenant-manage"; "research"; "agent"; "evidence-write"; "evidence-confirm";
   "confirm"; "review"; "change-assess"; "impact-resolve"; "ops-control"; "read"; "write"; "create";
   "manage"; "issue-resolve"; "issue-dismiss"; "issue-waive"; "issue-dismiss-blocking"].

Definition validAuthorizationAction (action : string) : bool := contains authorization_actions action.

Definition authorizationRequestFromCapability (actor : Actor) (projectID cap : string)
  : res error AuthorizationRequest :=
  let '(before, after, ok) := cut colon cap in
  let action := if (ok : bool) then before else cap in
  let resource := after in
  when negb (validAuthorizationAction action) || Contains resource ":" return Err ErrInvalidRequest;
  Ok {| rq_Actor := actor; rq_ProjectID := projectID; rq_Action := action; rq_Resource := resource |}.

Inductive ResourceKind := ResourceChapter | ResourceAsset.

Record ResourceRef := { rr_Kind : ResourceKind; rr_ID : string; rr_ChapterID : string }.

Definition validID (value : string) : bool :=
  negb (value =? "")%string && (TrimSpace value =? value)%string && negb (Contains value ":").

Definition ResourceRef_valid (r : ResourceRef) : bool :=
  match rr_Kind r with
  | ResourceChapter => validID (rr_ID r) && (rr_ChapterID r =? "")%string
  | ResourceAsset => validID (rr_ID r) && ((rr_ChapterID r =? "")%string || validID (rr_ChapterID r))
  end.

Definition NewAssetResourceRef (id : string) : res error ResourceRef :=
  let ref := {| rr_Kind := ResourceAsset; rr_ID := id; rr_ChapterID := "" |} in
  when negb (ResourceRef_valid ref) return Err ErrInvalidRequest;
  Ok ref.

Definition AuthorizationResource (r : ResourceRef) : string :=
  when negb (ResourceRef_valid r) return "";
  match rr_Kind r with
  | ResourceAsset => "asset:" +:+ rr_ID r
  | ResourceChapter => rr_ID r
  end.

(** ** The policy ([permission_policy.go]) *)

Definition permissionRoles : gmap string TenantRole :=
  list_to_map
    [("read", TenantRoleViewer); ("delivery-read", TenantRoleContributor);
     ("create", TenantRoleContributor); ("write", TenantRoleContributor);
     ("manage", TenantRoleContributor); ("tenant-manage", TenantRoleAdmin);
     ("research", TenantRoleContributor); ("agent", TenantRoleContributor);
     ("evidence-write", TenantRoleContributor); ("evidence-confirm", TenantRoleContributor);
     ("confirm", TenantRoleContributor); ("review", TenantRoleContributor);
     ("change-assess", TenantRoleContributor); ("impact-resolve", TenantRoleContributor);
     ("ops-control", TenantRoleContributor); ("issue-resolve", TenantRoleContributor);
     ("issue-dismiss", TenantRoleContributor); ("issue-waive", TenantRoleContributor);
     ("issue-dismiss-blocking", TenantRoleContributor)].

Record Transaction {W : Type} := {
  tx_ActiveMember : Actor -> M W error bool;
  tx_CurrentTenantRole : option (Actor -> M W error TenantRole);
  tx_Project : Z -> string -> M W error Project;
  tx_Chapter : string -> string -> M W error unit
}.
Arguments Transaction : clear implicits.

(** The role the request itself claims. *)
Definition claimed_role (actor : Actor) : TenantRole :=
  if (ac_Role actor =? "")%string then ac_TenantRole actor else ac_Role actor.

Section Policy.
Context {W : Type} (tx : Transaction W).

Definition currentTenantRole (actor : Actor) : M W error TenantRole :=
  match tx_CurrentTenantRole tx with
  | Some port =>
      role ← port actor;
      let claim := claimed_role actor in
      if negb (claim =? "")%string && (negb (IsValid claim) || (Level claim <? Level role))
      then mret claim else mret role
  | None => mret (claimed_role actor)
  end.

Definition legacyAuthorizeTenant (actor : Actor) : M W error unit :=
  _ ← refuse_if (negb (validActor actor)) ErrNotFound;
  active ← tx_ActiveMember tx actor;
  refuse_if (negb active) ErrNotFound.

Definition authorizeCurrentTenant (request : AuthorizationRequest) : M W error unit :=
  let actor := rq_Actor request in
  _ ← legacyAuthorizeTenant actor;
  match permissionRoles !! rq_Action request with
  | None => fail ErrInvalidRequest
  | Some required =>
      role ← currentTenantRole actor;
      refuse_if (negb (role =? "")%string && (negb (IsValid role) || negb (HasPermission role required)))
        (AuthorizationDecision (capability request) ErrNotFound)
  end.

(** The [switch] at the end of [authorizeCurrentProject]: whether one of its
    cases returns the project. *)
Definition function_grant (m : Member) (base target : string) : bool :=
  let has := contains (m_FunctionRoles m) in
  let scoped := fun role => memberHasScope m role target in
  let admin := (governanceRole m =? "admin")%string in
  let named := negb (target =? "")%string in
  when (base =? "manage")%string return admin;
  when (base =? "ops-control")%string return false;
  when (base =? "write")%string return scoped "author";
  when (base =? "confirm")%string || (base =? "review")%string return scoped "reviewer";
  when (base =? "research")%string || (base =? "evidence-write")%string
  return named && scoped "author"
         || has "researcher"
            && (named && scoped "researcher"
                || negb named && (0 <? Z.of_nat (List.length (function_scopes m "researcher"))));
  when (base =? "evidence-confirm")%string return scoped "reviewer";
  when (base =? "agent")%string return has "author" || has "researcher" || has "reviewer";
  when (base =? "change-assess")%string || (base =? "impact-resolve")%string
  return admin || has "author" || has "researcher" || scoped "reviewer";
  when (base =? "issue-dismiss-blocking")%string
  return let assetScope := match NewAssetResourceRef target with
                           | Ok ref => AuthorizationResource ref
                           | Err _ => ""
                           end in
         scoped "reviewer" || memberHasScope m "reviewer" assetScope
         || memberHasScope m "reviewer" ("delivery:" +:+ target);
  when (base =? "issue-resolve")%string || (base =? "issue-dismiss")%string
       || (base =? "issue-waive")%string return admin;
  false.

Definition authorizeCurrentProject (request : AuthorizationRequest) : M W error Project :=
  let actor := rq_Actor request in
  let projectID := rq_ProjectID request in
  let denied := AuthorizationDecision (capability request) ErrNotFound in
  _ ← authorizeCurrentTenant request;
  let base := rq_Action request in
  let target := rq_Resource request in
  p ← tx_Project tx (ac_TenantID actor) projectID;
  let '(m, ok) := projectMember p (ac_UserID actor) in
  _ ← refuse_if (negb ok || negb (m_Status m =? "")%string && negb (m_Status m =? "active")%string)
        denied;
  let governance := governanceRole m in
  _ ← refuse_if (negb (is_nil (pr_DiscardedAt p))
                 && (negb (base =? "read")%string || negb (governance =? "owner")%string))
        ErrInvalidState;
  _ ← (if negb (target =? "")%string
          && ((base =? "write")%string || (base =? "confirm")%string || (base =? "review")%string)
       then map_error (fun _ => denied) (tx_Chapter tx projectID target) else mret tt);
  when (base =? "read")%string || (base =? "delivery-read")%string return mret p;
  when (governance =? "owner")%string return mret p;
  when function_grant m base target return mret p;
  fail denied.

(** ** The owner's availability ([owner_unavailable.go]) *)

Definition ReasonAllowed := "allowed".
Definition ReasonNotOwner := "not_owner".
Definition ReasonOwnerUnavailable := "owner_unavailable".

Definition ErrOwnerUnavailable : error := Wrapped ReasonOwnerUnavailable ErrNotFound.

Record OwnerAuthority := { oa_OwnerUserID : string; oa_Available : bool }.

(** [Actor{TenantID: tenant, UserID: user}] *)
Definition plain_actor (tenant : Z) (user : string) : Actor :=
  {| ac_TenantID := tenant; ac_UserID := user; ac_TenantRole := ""; ac_SystemAdmin := false;
     ac_Role := "" |}.

Definition ownerCurrentlyAvailable (p : Project) (tenant : Z) (user : string) : M W error bool :=
  when negb (projectOwner p user) return mret false;
  answer ← attempt (tx_ActiveMember tx (plain_actor tenant user));
  match answer with
  | Err _ | Ok false => mret false
  | Ok true =>
      answer ← attempt (currentTenantRole (plain_actor tenant user));
      match answer with
      | Err _ => mret false
      | Ok role =>
          when negb (role =? "")%string && negb (HasPermission role TenantRoleContributor)
          return mret false;
          let '(m, ok) := projectMember p user in
          mret (ok && ((m_Status m =? "")%string || (m_Status m =? "active")%string))
      end
  end.

Definition OwnerAuthorityOf (p : Project) (tenant : Z) : M W error OwnerAuthority :=
  match projectOwnerUser p with
  | None => mret {| oa_OwnerUserID := ""; oa_Available := false |}
  | Some owner =>
      available ← ownerCurrentlyAvailable p tenant owner;
      mret {| oa_OwnerUserID := owner; oa_Available := available |}
  end.

Record OwnerActionJudgement := { oj_Allowed : bool; oj_ReasonCode : string; oj_OwnerUserID : string }.

Record OwnerAvailability := {
  ov_OwnerUserID : string;
  ov_Available : bool;
  ov_ReasonCode : string;
  ov_RecoveryPaths : list string
}.

Definition OwnerAvailabilityOf (p : Project) (tenant : Z) : M W error OwnerAvailability :=
  authority ← OwnerAuthorityOf p tenant;
  if (oa_OwnerUserID authority =? "")%string || oa_Available authority
  then mret {| ov_OwnerUserID := oa_OwnerUserID authority; ov_Available := true;
               ov_ReasonCode := ReasonAllowed; ov_RecoveryPaths := [] |}
  else mret {| ov_OwnerUserID := oa_OwnerUserID authority; ov_Available := false;
               ov_ReasonCode := ReasonOwnerUnavailable;
               ov_RecoveryPaths := ["restore_tenant_identity"; "tenant_owner_nomination"] |}.

Definition JudgeOwnerAction (p : Project) (actor : Actor) : M W error OwnerActionJudgement :=
  authority ← OwnerAuthorityOf p (ac_TenantID actor);
  let owner := oa_OwnerUserID authority in
  when (owner =? "")%string || negb (ac_UserID actor =? owner)%string
  return mret {| oj_Allowed := false; oj_ReasonCode := ReasonNotOwner; oj_OwnerUserID := owner |};
  when negb (oa_Available authority)
  return mret {| oj_Allowed := false; oj_ReasonCode := ReasonOwnerUnavailable;
                 oj_OwnerUserID := owner |};
  mret {| oj_Allowed := true; oj_ReasonCode := ReasonAllowed; oj_OwnerUserID := owner |}.

Definition ownerFreezeRefusal (actor : Actor) (projectID : string) : M W error unit :=
  answer ← attempt (tx_Project tx (ac_TenantID actor) projectID);
  match answer with
  | Err _ => mret tt
  | Ok p =>
      judgement ← JudgeOwnerAction p actor;
      when negb (oj_ReasonCode judgement =? ReasonOwnerUnavailable)%string return mret tt;
      fail ErrOwnerUnavailable
  end.

Definition ownerDecisionInTransaction (p : Project) (actor : Actor) : M W error unit :=
  judgement ← JudgeOwnerAction p actor;
  _ ← refuse_if (oj_ReasonCode judgement =? ReasonOwnerUnavailable)%string ErrOwnerUnavailable;
  refuse_if (negb (oj_Allowed judgement)) ErrNotFound.
End Policy.

(** ** The registry ([owner_capability_registry.go]) *)

Record OwnerOnlyEntry := {
  oe_Name : string;
  oe_AuthorizationCapability : string;
  oe_ReadCapabilities : list string
}.

Definition ownerOnlyEntries : list OwnerOnlyEntry :=
  [{| oe_Name := "ActivateProject"; oe_AuthorizationCapability := "write";
      oe_ReadCapabilities := ["manage"] |};
   {| oe_Name := "ApplyChangeSet"; oe_AuthorizationCapability := "manage";
      oe_ReadCapabilities := ["manage"] |};
   {| oe_Name := "RejectChangeSet"; oe_AuthorizationCapability := "manage";
      oe_ReadCapabilities := ["manage"] |};
   {| oe_Name := "AuthorizeDeliveryExportInTransaction"; oe_AuthorizationCapability := "ops-control";
      oe_ReadCapabilities := ["manage"; "ops-control"] |};
   {| oe_Name := "ArchiveProject"; oe_AuthorizationCapability := "manage";
      oe_ReadCapabilities := ["manage"] |};
   {| oe_Name := "TransferOwner"; oe_AuthorizationCapability := "manage";
      oe_ReadCapabilities := ["manage"] |};
   {| oe_Name := "RequestOwnerTransfer"; oe_AuthorizationCapability := "manage";
      oe_ReadCapabilities := ["manage"] |}].

Definition add_capability (capabilities : list string) (capability : string) : list string :=
  if contains capabilities capability then capabilities else capabilities ++ [capability].

Definition deriveOwnerOnlyEntryCapabilities : list string :=
  foldl (fun acc entry => foldl add_capability acc (oe_ReadCapabilities entry)) [] ownerOnlyEntries.

Definition OwnerOnlyCapability (capability : string) : bool :=
  contains deriveOwnerOnlyEntryCapabilities capability.

(** ** The permission read outlet ([membership/policy.go]) *)

Record EffectivePermission := {
  ep_Allowed : bool;
  ep_Capability : string;
  ep_Target : string;
  ep_ReasonCode : string;
  ep_ProjectVersion : Z;
  ep_ContextRevision : Z
}.

Section Outlet.
Context {W : Type} (tx : Transaction W).

(** The body of the read-only transaction of [EffectivePermission]. *)
Definition effective_permission (actor : Actor) (projectID cap : string)
  (request : AuthorizationRequest) : M W error EffectivePermission :=
  p ← authorizeCurrentProject tx {| rq_Actor := actor; rq_ProjectID := projectID;
                                     rq_Action := "read"; rq_Resource := "" |};
  let '(base, target, _) := cut colon cap in
  let answer := fun allowed reason =>
    {| ep_Allowed := allowed; ep_Capability := cap; ep_Target := target; ep_ReasonCode := reason;
       ep_ProjectVersion := pr_ProjectVersion p;
       ep_ContextRevision := pr_CurrentContextRevision p |} in
  verdict ← attempt (authorizeCurrentProject tx request);
  match verdict with
  | Ok _ => mret (answer true ReasonAllowed)
  | Err _ =>
      if OwnerOnlyCapability base then
        authority ← OwnerAuthorityOf tx p (ac_TenantID actor);
        if negb (oa_OwnerUserID authority =? "")%string && negb (oa_Available authority)
        then mret (answer false ReasonOwnerUnavailable)
        else mret (answer false "capability_or_scope_denied")
      else mret (answer false "capability_or_scope_denied")
  end.

Definition Membership_EffectivePermission (actor : Actor) (projectID cap : string)
  : M W error EffectivePermission :=
  match authorizationRequestFromCapability actor projectID cap with
  | Err err => fail err
  | Ok request => effective_permission actor projectID cap request
  end.

(** The project level read outlet of the owner's availability. *)
Definition Membership_OwnerAvailability (actor : Actor) (projectID : string) : M W error OwnerAvailability :=
  p ← authorizeCurrentProject tx {| rq_Actor := actor; rq_ProjectID := projectID;
                                     rq_Action := "read"; rq_Resource := "" |};
  OwnerAvailabilityOf tx p (ac_TenantID actor).
End Outlet.
