(* ===== verification/PermissionTheorems.v ===== *)
(** What the permission policy promises: the decision agrees with a table of
    rights written per role, token claims only lower a role, refusals do not
    reveal a project, and the owner's freeze is the judgement the ordinary
    authorization makes. *)

From S2P Require Import Prelude Effects OperationStore Workspace Permission.

(** ** The rights, per role *)

(** A function role that covers a resource. *)
Definition holds (m : Member) (role target : string) : Prop :=
  role ∈ m_FunctionRoles m /\ target <> "" /\ target ∈ function_scopes m role.

Definition admin_rights : list string :=
  ["manage"; "change-assess"; "impact-resolve"; "issue-resolve"; "issue-dismiss"; "issue-waive"].

(** What a function role allows on a resource in its scope. *)
Definition scoped_rights (role : string) : list string :=
  if (role =? "author")%string then ["write"; "research"; "evidence-write"]
  else if (role =? "researcher")%string then ["research"; "evidence-write"]
  else if (role =? "reviewer")%string
  then ["confirm"; "review"; "evidence-confirm"; "change-assess"; "impact-resolve";
        "issue-dismiss-blocking"]
  else [].

(** What a function role allows whatever its scope. *)
Definition role_rights (role : string) : list string :=
  if (role =? "author")%string || (role =? "researcher")%string
  then ["agent"; "change-assess"; "impact-resolve"]
  else if (role =? "reviewer")%string then ["agent"] else [].

Inductive Grants (m : Member) : string -> string -> Prop :=
| grants_read target : Grants m "read" target
| grants_delivery_read target : Grants m "delivery-read" target
| grants_owner action target : governanceRole m = "owner" -> Grants m action target
| grants_admin action target :
    governanceRole m = "admin" -> action ∈ admin_rights -> Grants m action target
| grants_scope role action target :
    action ∈ scoped_rights role -> holds m role target -> Grants m action target
| grants_role role action target :
    action ∈ role_rights role -> role ∈ m_FunctionRoles m -> Grants m action target
| grants_open_research action :
    action ∈ ["research"; "evidence-write"] -> "researcher" ∈ m_FunctionRoles m ->
    function_scopes m "researcher" <> [] -> Grants m action ""
| grants_delivery_reviewer target :
    holds m "reviewer" ("delivery:" +:+ target) -> Grants m "issue-dismiss-blocking" target
| grants_asset_reviewer target ref :
    NewAssetResourceRef target = Ok ref -> holds m "reviewer" (AuthorizationResource ref) ->
    Grants m "issue-dismiss-blocking" target.

Lemma memberHasScope_spec m role target : memberHasScope m role target = true <-> holds m role target.
Proof.
  unfold memberHasScope, holds. rewrite !andb_true_iff, !contains_spec, negb_true_iff, String.eqb_neq.
  tauto.
Qed.

Lemma nonempty_scopes (l : list string) : (0 <? Z.of_nat (List.length l)) = true <-> l <> [].
Proof. rewrite Z.ltb_lt. destruct l; cbn; split; intros F; try done; lia. Qed.

(** *** The switch gives what the table gives *)

Lemma holds_empty m role : ~ holds m role "".
Proof. by intros (_ & F & _). Qed.

(** The actions the switch has a case for. *)
Definition switch_actions : list string :=
  ["manage"; "ops-control"; "write"; "confirm"; "review"; "research"; "evidence-write";
   "evidence-confirm"; "agent"; "change-assess"; "impact-resolve"; "issue-dismiss-blocking";
   "issue-resolve"; "issue-dismiss"; "issue-waive"].

Lemma switch_default m action target :
  contains switch_actions action = false -> function_grant m action target = false.
Proof.
  intros N. unfold function_grant.
  assert (forall w, contains switch_actions w = true -> (action =? w)%string = false) as Other.
  { intros w Hw. apply String.eqb_neq. intros ->. congruence. }
  by rewrite !Other by reflexivity.
Qed.

Ltac each_action E :=
  repeat (apply elem_of_cons in E as [->|E]); [..|by apply not_elem_of_nil in E].

Ltac split_rights :=
  repeat match goal with
  | G : _ || _ = true |- _ => apply orb_true_iff in G as [G|G]
  | G : _ && _ = true |- _ => apply andb_true_iff in G as [? G]
  | G : memberHasScope _ _ _ = true |- _ => apply memberHasScope_spec in G
  | G : contains _ _ = true |- _ => apply contains_spec in G
  | G : (_ =? _)%string = true |- _ => apply String.eqb_eq in G
  | G : negb (negb _) = true |- _ => rewrite negb_involutive in G
  | G : (0 <? _) = true |- _ => apply nonempty_scopes in G
  end.

Lemma in_by_contains l (s : string) : contains l s = true -> s ∈ l.
Proof. apply contains_spec. Qed.

Ltac in_list := apply in_by_contains; reflexivity.

Lemma function_grant_sound m action target : function_grant m action target = true -> Grants m action target.
Proof.
  intros G. destruct (contains switch_actions action) eqn:E; [|by rewrite switch_default in G].
  apply contains_spec in E. unfold switch_actions in E. each_action E;
    unfold function_grant in G; cbn [String.eqb Ascii.eqb Bool.eqb orb] in G;
    try discriminate; split_rights; subst;
    first [ by eapply grants_admin; [|in_list]
          | by eapply (grants_scope m "author"); [in_list|]
          | by eapply (grants_scope m "researcher"); [in_list|]
          | by eapply (grants_scope m "reviewer"); [in_list|]
          | by eapply (grants_role m "author"); [in_list|]
          | by eapply (grants_role m "researcher"); [in_list|]
          | by eapply (grants_role m "reviewer"); [in_list|]
          | by apply grants_open_research; [in_list| |]
          | by apply grants_delivery_reviewer
          | idtac ].
  destruct (NewAssetResourceRef target) as [ref|] eqn:E'; [by eapply grants_asset_reviewer|].
  by apply holds_empty in G.
Qed.

Definition always_granted (m : Member) (action target : string) : bool :=
  (action =? "read")%string || (action =? "delivery-read")%string
  || (governanceRole m =? "owner")%string || function_grant m action target.

Ltac grant_true :=
  unfold function_grant; cbn [String.eqb Ascii.eqb Bool.eqb orb];
  repeat match goal with
  | F : holds _ _ _ |- _ =>
      let E := fresh "E" in pose proof (proj2 (memberHasScope_spec _ _ _) F) as E;
      let N := fresh "N" in assert (N := proj1 (proj2 F)); apply String.eqb_neq in N;
      let R := fresh "R" in pose proof (proj2 (contains_spec _ _) (proj1 F)) as R;
      rewrite ?E, ?N, ?R; clear F
  | F : _ ∈ m_FunctionRoles _ |- _ => apply contains_spec in F; rewrite ?F; clear F
  | F : governanceRole _ = _ |- _ => rewrite ?F; clear F
  | F : function_scopes _ _ <> [] |- _ => apply nonempty_scopes in F; rewrite ?F; clear F
  end;
  cbn [negb andb orb]; rewrite ?orb_true_r; reflexivity.

Lemma scope_grants m role action target :
  action ∈ scoped_rights role -> holds m role target -> function_grant m action target = true.
Proof.
  unfold scoped_rights. intros A Hs.
  destruct (role =? "author")%string eqn:Er; [apply String.eqb_eq in Er as ->; each_action A; grant_true|].
  destruct (role =? "researcher")%string eqn:Er'; [apply String.eqb_eq in Er' as ->; each_action A; grant_true|].
  destruct (role =? "reviewer")%string eqn:Er''; [apply String.eqb_eq in Er'' as ->; each_action A; grant_true|].
  by apply not_elem_of_nil in A.
Qed.

Lemma role_grants m role action target :
  action ∈ role_rights role -> role ∈ m_FunctionRoles m -> function_grant m action target = true.
Proof.
  unfold role_rights. intros A Hr.
  destruct (role =? "author")%string eqn:Er; [apply String.eqb_eq in Er as ->; each_action A; grant_true|].
  destruct (role =? "researcher")%string eqn:Er'; [apply String.eqb_eq in Er' as ->; each_action A; grant_true|].
  destruct (role =? "reviewer")%string eqn:Er''; [apply String.eqb_eq in Er'' as ->; each_action A; grant_true|].
  by apply not_elem_of_nil in A.
Qed.

Lemma always_granted_spec m action target :
  always_granted m action target = true <-> Grants m action target.
Proof.
  unfold always_granted. rewrite !orb_true_iff, !String.eqb_eq. split.
  - intros [[[->| ->]|Ho]|F]; [constructor|constructor|by apply grants_owner|].
    by apply function_grant_sound.
  - intros [| |a t Ho|a t Ha Hin|r a t Hin Hs|r a t Hin Hr|a Hin Hr Hs|t Hs|t ref Href Hs]; auto; right.
    + unfold admin_rights in Hin. each_action Hin; grant_true.
    + by eapply scope_grants.
    + by eapply role_grants.
    + each_action Hin; grant_true.
    + grant_true.
    + unfold function_grant. cbn [String.eqb Ascii.eqb Bool.eqb orb].
      rewrite Href, (proj2 (memberHasScope_spec _ _ _) Hs). by rewrite orb_true_r.
Qed.

(** ** The decision *)

(** The ports only read. *)
Class ReadPorts {W} (tx : Transaction W) := {
  active_reads actor : reads (tx_ActiveMember tx actor);
  role_reads port actor : tx_CurrentTenantRole tx = Some port -> reads (port actor);
  project_reads tenant id : reads (tx_Project tx tenant id);
  chapter_reads project id : reads (tx_Chapter tx project id)
}.

Section Decision.
Context {W : Type} (tx : Transaction W) `{!ReadPorts tx}.

Lemma role_port_reads port actor : tx_CurrentTenantRole tx = Some port -> reads (port actor).
Proof. apply role_reads. Qed.

#[local] Hint Resolve active_reads role_port_reads project_reads chapter_reads : effects.

Lemma currentTenantRole_reads actor : reads (currentTenantRole tx actor).
Proof.
  unfold currentTenantRole. destruct (tx_CurrentTenantRole tx) as [port|] eqn:E; keep_frame.
Qed.
#[local] Hint Resolve currentTenantRole_reads : effects.

Lemma legacyAuthorizeTenant_reads actor : reads (legacyAuthorizeTenant tx actor).
Proof. unfold legacyAuthorizeTenant. keep_frame. Qed.
#[local] Hint Resolve legacyAuthorizeTenant_reads : effects.

Lemma authorizeCurrentTenant_reads request : reads (authorizeCurrentTenant tx request).
Proof. unfold authorizeCurrentTenant. keep_frame. Qed.
#[local] Hint Resolve authorizeCurrentTenant_reads : effects.

Lemma authorizeCurrentProject_reads request : reads (authorizeCurrentProject tx request).
Proof. unfold authorizeCurrentProject. keep_frame. Qed.

(** What the tenant must say of the caller. *)
Definition tenant_admits (s : W) (request : AuthorizationRequest) : Prop :=
  let actor := rq_Actor request in
  ac_TenantID actor <> 0 /\ ac_UserID actor <> ""
  /\ tx_ActiveMember tx actor s = (s, Ok true)
  /\ exists required role,
      permissionRoles !! rq_Action request = Some required
      /\ currentTenantRole tx actor s = (s, Ok role)
      /\ (role = "" \/ Level required <= Level role).

Lemma permissionRoles_level action required :
  permissionRoles !! action = Some required -> 0 < Level required.
Proof.
  intros F. apply elem_of_list_to_map_2 in F.
  repeat (apply elem_of_cons in F as [[= -> ->]|F]; [reflexivity|]).
  by apply not_elem_of_nil in F.
Qed.

Lemma authorizeCurrentTenant_ok request s s' u :
  authorizeCurrentTenant tx request s = (s', Ok u) <-> s' = s /\ tenant_admits s request.
Proof.
  unfold authorizeCurrentTenant, legacyAuthorizeTenant, tenant_admits.
  rewrite reads_bind_ok by (exact (legacyAuthorizeTenant_reads (rq_Actor request))).
  setoid_rewrite reads_bind_ok; [|apply keeps_refuse_if]. split.
  - intros (? & (? & G1 & G2) & G3).
    apply refuse_if_ok in G1 as [G1 _].
    apply reads_bind_ok in G2 as (active & Ha & G2); [|apply active_reads].
    apply refuse_if_ok in G2 as [G2 _].
    destruct (permissionRoles !! _) as [required|] eqn:Er; [|discriminate].
    apply reads_bind_ok in G3 as (role & Hr & G3); [|apply currentTenantRole_reads].
    apply refuse_if_ok in G3 as [G3 ->]. split; [done|].
    unfold validActor in G1. apply negb_false_iff, andb_true_iff in G1 as [G1 G1'].
    split_bools. subst active. repeat split; try done.
    exists required, role. repeat split; try done.
    apply andb_false_iff in G3 as [G3|G3]; split_bools; [by left|].
    right. by apply HasPermission_spec.
  - intros (-> & Ht & Hu & Ha & required & role & Hp & Hr & Hl).
    exists tt. split.
    + exists tt. split.
      * apply refuse_if_run. split; [|done]. unfold validActor.
        apply Z.eqb_neq in Ht. apply String.eqb_neq in Hu. by rewrite Ht, Hu.
      * apply reads_bind_ok; [apply active_reads|]. exists true. split; [done|].
        by apply refuse_if_run.
    + rewrite Hp. apply reads_bind_ok; [apply currentTenantRole_reads|]. exists role. split; [done|].
      apply refuse_if_run. split; [|done]. destruct Hl as [->|Hl]; [done|].
      pose proof (permissionRoles_level _ _ Hp).
      apply HasPermission_spec in Hl as Hl'. rewrite Hl'.
      destruct (IsValid role) eqn:V; [by destruct (_ =? _)%string|].
      exfalso. assert (IsValid role = true) by (apply IsValid_level; lia). congruence.
Qed.

(** The actions whose resource is a chapter that must exist. *)
Definition chapter_actions : list string := ["write"; "confirm"; "review"].

(** What the project must say of the caller. *)
Definition project_admits (s : W) (request : AuthorizationRequest) (p : Project) : Prop :=
  let action := rq_Action request in
  let target := rq_Resource request in
  exists m,
    find_member (pr_Members p) (ac_UserID (rq_Actor request)) = Some m
    /\ active_status m = true
    /\ (pr_DiscardedAt p <> None -> action = "read" /\ governanceRole m = "owner")
    /\ (target <> "" -> action ∈ chapter_actions ->
        tx_Chapter tx (rq_ProjectID request) target s = (s, Ok tt))
    /\ Grants m action target.

Lemma status_gate m :
  negb (m_Status m =? "")%string && negb (m_Status m =? "active")%string = negb (active_status m).
Proof. unfold active_status. by rewrite negb_orb. Qed.

Lemma tail_ok m action target (p p' : Project) (denied : error) (s s' : W) :
  (when (action =? "read")%string || (action =? "delivery-read")%string return mret p;
   when (governanceRole m =? "owner")%string return mret p;
   when function_grant m action target return mret p;
   fail denied) s = (s', Ok p') <-> s' = s /\ p' = p /\ Grants m action target.
Proof.
  rewrite <- always_granted_spec. unfold always_granted.
  destruct ((action =? "read")%string || _); cbn [orb]; [split; [by intros [= <- <-]|by intros (-> & -> & _)]|].
  destruct (governanceRole m =? "owner")%string; cbn [orb]; [split; [by intros [= <- <-]|by intros (-> & -> & _)]|].
  destruct (function_grant _ _ _); (split; [|by intros (-> & -> & ?)]); [by intros [= <- <-]|discriminate].
Qed.

Lemma discarded_gate (p : Project) (action governance : string) :
  negb (is_nil (pr_DiscardedAt p)) && (negb (action =? "read")%string || negb (governance =? "owner")%string)
    = false <-> (pr_DiscardedAt p <> None -> action = "read" /\ governance = "owner").
Proof.
  destruct (pr_DiscardedAt p); cbn; [|split; [by intros _ F|done]].
  rewrite orb_false_iff, !negb_false_iff, !String.eqb_eq. split; [tauto|]. intros F. by apply F.
Qed.

Lemma chapter_gate project target action (denied : error) (s s' : W) u :
  (if negb (target =? "")%string
      && ((action =? "write")%string || (action =? "confirm")%string || (action =? "review")%string)
   then map_error (fun _ => denied) (tx_Chapter tx project target) else mret tt) s = (s', Ok u)
  <-> s' = s /\ (target <> "" -> action ∈ chapter_actions -> tx_Chapter tx project target s = (s, Ok tt)).
Proof.
  assert ((action =? "write")%string || (action =? "confirm")%string || (action =? "review")%string
          = contains chapter_actions action) as -> by (cbn; by rewrite orb_false_r, orb_assoc).
  rewrite <- contains_spec. destruct u.
  destruct (target =? "")%string eqn:Et; cbn [negb andb].
  { apply String.eqb_eq in Et. split; [by intros [= <-]|by intros [-> _]]. }
  apply String.eqb_neq in Et. destruct (contains chapter_actions action);
    [|split; [by intros [= <-]|by intros [-> _]]].
  unfold map_error. pose proof (reads_run _ s (chapter_reads project target)) as R. rewrite R.
  destruct ((tx_Chapter tx project target s).2) as [[]|e]; split.
  - by intros [= <-].
  - by intros [-> _].
  - discriminate.
  - intros [_ F]. by specialize (F Et eq_refl).
Qed.
End Decision.

Lemma authorize_ok {W} (tx : Transaction W) `{!ReadPorts tx} request s s' p :
  authorizeCurrentProject tx request s = (s', Ok p)
  <-> s' = s /\ tenant_admits tx s request
      /\ tx_Project tx (ac_TenantID (rq_Actor request)) (rq_ProjectID request) s = (s, Ok p)
      /\ project_admits tx s request p.
Proof.
  unfold authorizeCurrentProject, project_admits, projectMember.
  rewrite reads_bind_ok by apply (authorizeCurrentTenant_reads tx).
  setoid_rewrite (authorizeCurrentTenant_ok tx). split.
  - intros (_ & [_ Ht] & F). apply reads_bind_ok in F as (q & Hp & F); [|apply project_reads].
    destruct (find_member _ _) as [m|] eqn:Em; [|discriminate]. cbn [negb orb] in F.
    apply reads_bind_ok in F as (u1 & F1 & F); [|apply keeps_refuse_if].
    rewrite status_gate in F1. apply refuse_if_ok in F1 as [F1 _].
    apply reads_bind_ok in F as (u2 & F2 & F); [|apply keeps_refuse_if].
    apply refuse_if_ok in F2 as [F2 _]. rewrite discarded_gate in F2.
    apply bind_ok in F as (s1 & u3 & F3 & F). apply (chapter_gate tx) in F3 as [-> F3].
    apply tail_ok in F as (-> & -> & F). apply negb_false_iff in F1.
    do 3 (split; [done|]). by exists m.
  - intros (-> & Ht & Hp & m & Hm & Ha & Hd & Hc & Hg).
    exists tt. split; [done|]. apply reads_bind_ok; [apply project_reads|]. exists p. split; [done|].
    rewrite Hm. cbn [negb orb]. rewrite status_gate, Ha. cbn [negb].
    rewrite (proj2 (discarded_gate _ _ _) Hd).
    rewrite (bind_run _ _ s s tt) by done. rewrite (bind_run _ _ s s tt) by done.
    rewrite (bind_run _ _ s s tt) by (by apply (chapter_gate tx)).
    by apply tail_ok.
Qed.

(** C30. The decision is exact: a request is authorized, and the project
    returned, if and only if the tenant admits the caller (well-formed actor,
    active tenant membership, known action, role at least as high as the
    action's floor) and the project admits the member (active assignment, a
    discarded project read by its owner only, an existing chapter where the
    action is about one, and a right in the per-role table); and it leaves the
    store as it was. *)
Theorem authorization_exact {W} (tx : Transaction W) `{!ReadPorts tx} request s s' p :
  authorizeCurrentProject tx request s = (s', Ok p)
  <-> s' = s /\ tenant_admits tx s request
      /\ tx_Project tx (ac_TenantID (rq_Actor request)) (rq_ProjectID request) s = (s, Ok p)
      /\ project_admits tx s request p.
Proof. exact (authorize_ok tx request s s' p). Qed.

(** ** Roles *)

(** The effective role is the lower of the stored and the claimed one. *)
Lemma effective_level {W} (tx : Transaction W) port actor s s' stored role :
  tx_CurrentTenantRole tx = Some port -> port actor s = (s', Ok stored) ->
  currentTenantRole tx actor s = (s', Ok role) ->
  Level role = (if (claimed_role actor =? "")%string then Level stored
                else Z.min (Level stored) (Level (claimed_role actor)))
  /\ (IsValid stored = true -> role <> "").
Proof.
  intros Ep Es. unfold currentTenantRole. rewrite Ep, (bind_run _ _ _ _ _ Es).
  destruct (claimed_role actor =? "")%string eqn:Ec; cbn [negb andb].
  - intros [= <-]. split; [done|]. intros V ->. by apply IsValid_level in V.
  - destruct (IsValid (claimed_role actor)) eqn:Ev; cbn [negb orb].
    + destruct (_ <? _) eqn:El; intros [= <-]; split_bools.
      * split; [lia|done].
      * split; [lia|]. intros V ->. by apply IsValid_level in V.
    + intros [= <-]. split_bools. split; [|done].
      assert (~ 0 < Level (claimed_role actor)) by (rewrite <- IsValid_level; congruence).
      pose proof (Level_nonneg stored). pose proof (Level_nonneg (claimed_role actor)). lia.
Qed.

(** A role claimed by a token never restores authority: whoever is
    authorized has, in the stored membership, a role at least as high as the
    action's floor, and every claim the request carries is at least as high
    too; in particular anything but a plain read needs a stored contributor. *)
Theorem stored_role_bounds {W} (tx : Transaction W) `{!ReadPorts tx} port request s s' stored p
  (Port : tx_CurrentTenantRole tx = Some port)
  (Stored : port (rq_Actor request) s = (s, Ok stored))
  (Valid : IsValid stored = true)
  (Allowed : authorizeCurrentProject tx request s = (s', Ok p)) :
  (exists required, permissionRoles !! rq_Action request = Some required
     /\ Level required <= Level stored
     /\ (claimed_role (rq_Actor request) <> "" ->
         Level required <= Level (claimed_role (rq_Actor request))))
  /\ (rq_Action request <> "read" -> Level TenantRoleContributor <= Level stored).
Proof.
  apply (authorize_ok tx) in Allowed as (_ & (_ & _ & _ & required & role & Er & Erole & Hl) & _).
  destruct (effective_level tx port _ s s stored role Port Stored Erole) as [Elevel Ne].
  destruct Hl as [->|Hl]; [by destruct (Ne Valid)|].
  assert (Level required <= Level stored
          /\ (claimed_role (rq_Actor request) <> "" ->
              Level required <= Level (claimed_role (rq_Actor request)))) as [H1 H2].
  { destruct (_ =? _)%string eqn:Ec; split_bools; [|lia]. split; [lia|done]. }
  split; [by exists required|]. intros Na. transitivity (Level required); [|done].
  apply elem_of_list_to_map_2 in Er.
  apply elem_of_cons in Er as [[= E' _]|Er]; [done|].
  repeat (apply elem_of_cons in Er as [[= _ ->]|Er]; [discriminate|]).
  by apply not_elem_of_nil in Er.
Qed.

(** ** Refusals *)

(** A stranger learns nothing: once the tenant admits the caller, a
    project that does not exist and a project (discarded or not) the caller
    is no active member of are refused with the same message and the same
    answer to [errors.Is], whatever is asked for. *)
Theorem stranger_refusal_uniform {W} (tx : Transaction W) `{!ReadPorts tx} request s
  (Tenant : tenant_admits tx s request)
  (Outside :
    tx_Project tx (ac_TenantID (rq_Actor request)) (rq_ProjectID request) s = (s, Err ErrNotFound)
    \/ exists p,
         tx_Project tx (ac_TenantID (rq_Actor request)) (rq_ProjectID request) s = (s, Ok p)
         /\ forall m, find_member (pr_Members p) (ac_UserID (rq_Actor request)) = Some m ->
              active_status m = false) :
  exists e, authorizeCurrentProject tx request s = (s, Err e)
    /\ Error e = "not_found" /\ errors_Is e ErrNotFound = true
    /\ errors_Is e ErrInvalidState = false /\ errors_Is e ErrInvalidRequest = false.
Proof.
  assert (authorizeCurrentTenant tx request s = (s, Ok tt)) as T
    by (by apply (authorizeCurrentTenant_ok tx)).
  unfold authorizeCurrentProject. rewrite (bind_run _ _ s s tt T).
  destruct Outside as [Np|(p & Hp & Na)].
  - exists ErrNotFound. by rewrite (bind_err _ _ s s _ Np).
  - exists (AuthorizationDecision (capability request) ErrNotFound).
    rewrite (bind_run _ _ s s p Hp). unfold projectMember.
    destruct (find_member _ _) as [m|] eqn:Em; [|done].
    cbn [negb orb]. by rewrite status_gate, (Na m eq_refl).
Qed.

(** ** The owner's freeze *)

Section Freeze.
Context {W : Type} (tx : Transaction W) `{!ReadPorts tx}.

Lemma attempt_reads {A} (m : M W error A) s : reads m -> attempt m s = (s, Ok (m s).2).
Proof. intros R. unfold attempt. by rewrite (reads_run _ s R). Qed.

(** Whether the owner may act, as a statement about the answers of the ports. *)
Lemma ownerCurrentlyAvailable_run p tenant u s :
  exists b, ownerCurrentlyAvailable tx p tenant u s = (s, Ok b)
    /\ (b = true <-> projectOwner p u = true
        /\ tx_ActiveMember tx (plain_actor tenant u) s = (s, Ok true)
        /\ (exists role, currentTenantRole tx (plain_actor tenant u) s = (s, Ok role)
              /\ (role = "" \/ Level TenantRoleContributor <= Level role))
        /\ exists m, find_member (pr_Members p) u = Some m /\ active_status m = true).
Proof.
  unfold ownerCurrentlyAvailable.
  destruct (projectOwner p u) eqn:Eo; cbn [negb]; [|exists false; split; [done|]; by split; [|intros [? _]]].
  rewrite (bind_run _ _ s s _ (attempt_reads _ s (active_reads _))).
  rewrite (reads_run _ s (active_reads (plain_actor tenant u))).
  destruct ((tx_ActiveMember tx (plain_actor tenant u) s).2) as [[]|e]; cbn [snd];
    [|by (exists false; split; [done|]; split; [|intros (_ & ? & _)])..].
  rewrite (bind_run _ _ s s _ (attempt_reads _ s (currentTenantRole_reads tx _))).
  rewrite (reads_run _ s (currentTenantRole_reads tx (plain_actor tenant u))).
  destruct ((currentTenantRole tx (plain_actor tenant u) s).2) as [role|e]; cbn [snd];
    [|by (exists false; split; [done|]; split; [|intros (_ & _ & (? & ? & _) & _)])].
  assert (negb (role =? "")%string && negb (HasPermission role TenantRoleContributor) = false
          <-> role = "" \/ Level TenantRoleContributor <= Level role) as Er.
  { rewrite andb_false_iff, !negb_false_iff, String.eqb_eq, HasPermission_spec. done. }
  destruct (negb _ && negb _).
  { exists false. split; [done|]. split; [done|].
    intros (_ & _ & (role' & [= <-] & Hr) & _). by apply Er in Hr. }
  apply proj1 in Er. specialize (Er eq_refl).
  unfold projectMember. destruct (find_member _ _) as [m|].
  - exists (active_status m). split; [done|]. split; [by eauto 10|].
    by intros (_ & _ & _ & m' & [= <-] & ?).
  - exists false. split; [done|]. by split; [|intros (_ & _ & _ & ? & ? & _)].
Qed.

Lemma available_reads p tenant u : reads (ownerCurrentlyAvailable tx p tenant u).
Proof. intros s. by destruct (ownerCurrentlyAvailable_run p tenant u s) as (b & -> & _). Qed.

Lemma owner_authority_reads p tenant : reads (OwnerAuthorityOf tx p tenant).
Proof.
  unfold OwnerAuthorityOf. destruct (projectOwnerUser p); [|apply keeps_ret].
  apply keeps_bind; [apply available_reads|intros; apply keeps_ret].
Qed.

Lemma JudgeOwnerAction_reads p actor : reads (JudgeOwnerAction tx p actor).
Proof.
  apply keeps_bind; [apply owner_authority_reads|]. intros authority.
  intros s. cbv beta zeta. destruct (_ || negb _), (negb (oa_Available authority)); reflexivity.
Qed.

Lemma ownerFreezeRefusal_reads actor projectID : reads (ownerFreezeRefusal tx actor projectID).
Proof.
  apply keeps_bind; [apply keeps_attempt, project_reads|]. intros [p|e]; [|apply keeps_ret].
  apply keeps_bind; [apply JudgeOwnerAction_reads|]. intros j s'. cbv beta. by case_match.
Qed.
End Freeze.

(** The capabilities the freeze is reported by share one tenant floor. *)
Lemma owner_capabilities cap :
  OwnerOnlyCapability cap = true -> permissionRoles !! cap = Some TenantRoleContributor.
Proof.
  intros F. apply contains_spec in F. cbv in F.
  repeat (apply elem_of_cons in F as [->|F]; [reflexivity|]). by apply not_elem_of_nil in F.
Qed.

(** The freeze and the ordinary authorization are one judgement: for the
    owner of a live project and every capability the registry reports a
    freeze by, the owner's action is judged allowed exactly when the policy
    authorizes the owner for that capability, and when it is not, the reason
    given is that the owner is unavailable. *)
Theorem owner_freeze_agrees {W} (tx : Transaction W) `{!ReadPorts tx} tenant u pid cap s p
  (Tenant : tenant <> 0) (User : u <> "")
  (Keyed : NoDup (m_UserID <$> pr_Members p))
  (Loaded : tx_Project tx tenant pid s = (s, Ok p))
  (Owner : projectOwnerUser p = Some u)
  (Live : pr_DiscardedAt p = None)
  (Registered : OwnerOnlyCapability cap = true) :
  exists j, JudgeOwnerAction tx p (plain_actor tenant u) s = (s, Ok j)
    /\ (oj_Allowed j = true <->
        authorizeCurrentProject tx {| rq_Actor := plain_actor tenant u; rq_ProjectID := pid;
                                      rq_Action := cap; rq_Resource := "" |} s = (s, Ok p))
    /\ (oj_Allowed j = false -> oj_ReasonCode j = ReasonOwnerUnavailable).
Proof.
  destruct (ownerCurrentlyAvailable_run tx p tenant u s) as (b & Eb & Hb).
  assert (OwnerAuthorityOf tx p tenant s = (s, Ok {| oa_OwnerUserID := u; oa_Available := b |})) as Ea.
  { unfold OwnerAuthorityOf. rewrite Owner. by rewrite (bind_run _ _ s s _ Eb). }
  assert (exists m, find_member (pr_Members p) u = Some m /\ m_Role m = "owner") as (m & Hm & Hr).
  { apply projectOwnerUser_spec, projectOwner_spec in Owner as (m & Hin & Hu & Hr).
    exists m. split; [by apply find_member_unique|done]. }
  assert (b = true <->
    authorizeCurrentProject tx {| rq_Actor := plain_actor tenant u; rq_ProjectID := pid;
                                  rq_Action := cap; rq_Resource := "" |} s = (s, Ok p)) as Agree.
  { rewrite (authorize_ok tx), Hb. unfold tenant_admits, project_admits.
    cbn [rq_Actor rq_ProjectID rq_Action rq_Resource ac_TenantID ac_UserID plain_actor].
    rewrite (owner_capabilities _ Registered), Hm. split.
    - intros (_ & Hact & (role & Hrole & Hl) & m' & [= <-] & Hs).
      repeat split; try done; [by exists TenantRoleContributor, role|].
      exists m. repeat split; try done. by apply grants_owner, governanceRole_owner.
    - intros (_ & (_ & _ & Hact & required & role & [= <-] & Hrole & Hl) & _ & m' & [= <-] & Hs & _).
      repeat split; try done; [by apply projectOwnerUser_spec|by exists role|by exists m]. }
  unfold JudgeOwnerAction. cbn [ac_TenantID ac_UserID plain_actor].
  rewrite (bind_run _ _ s s _ Ea). cbn [oa_OwnerUserID oa_Available].
  apply String.eqb_neq in User. rewrite User, String.eqb_refl. cbn [negb orb].
  destruct b; cbn [negb]; eexists; (split; [done|]); by split.
Qed.

(** ** A concrete transaction *)

Module Demo.
Definition demo_member (u role governance : string) (functions : list string) (scopes : gmap string (list string)) :=
  {| m_UserID := u; m_Role := role; m_GovernanceRole := governance; m_FunctionRoles := functions;
     m_FunctionScopes := scopes; m_Status := "active" |}.

Definition owner := demo_member "ann" "owner" "owner" [] ∅.
Definition author := demo_member "ben" "collaborator" "member" ["author"] {[ "author" := ["ch-1"] ]}.
Definition project : Project :=
  zero_project <| pr_ID := "p-1" |> <| pr_Status := "active" |> <| pr_ProjectVersion := 3 |>
               <| pr_Members := [owner; author] |>.

(** The store is the tenant's role table; one project, one chapter. *)
Definition stored_role (roles : gmap string TenantRole) (actor : Actor) : res error TenantRole :=
  match roles !! ac_UserID actor with Some r => Ok r | None => Err ErrNotFound end.

Definition tx : Transaction (gmap string TenantRole) := {|
  tx_ActiveMember := fun actor roles => (roles, Ok (bool_decide (is_Some (roles !! ac_UserID actor))));
  tx_CurrentTenantRole := Some (fun actor roles => (roles, stored_role roles actor));
  tx_Project := fun tenant id roles =>
    (roles, if (tenant =? 7) && (id =? "p-1")%string then Ok project else Err ErrNotFound);
  tx_Chapter := fun pid id roles =>
    (roles, if (id =? "ch-1")%string then Ok tt else Err ErrNotFound)
|}.

#[global] Instance tx_reads : ReadPorts tx.
Proof. split; try by intros. cbn. by intros port actor [= <-] s. Qed.

Definition roles : gmap string TenantRole :=
  {[ "ann" := TenantRoleOwner; "ben" := TenantRoleContributor; "cat" := TenantRoleViewer ]}.

Definition write_request (u : string) : AuthorizationRequest :=
  {| rq_Actor := plain_actor 7 u; rq_ProjectID := "p-1"; rq_Action := "write"; rq_Resource := "ch-1" |}.

Definition tenant_ok u : res error Project := (authorizeCurrentProject tx (write_request u) roles).2.
End Demo.

Lemma authorization_exact_witness :
  authorizeCurrentProject Demo.tx (Demo.write_request "ben") Demo.roles = (Demo.roles, Ok Demo.project)
  /\ Demo.roles = Demo.roles
  /\ tenant_admits Demo.tx Demo.roles (Demo.write_request "ben")
  /\ tx_Project Demo.tx 7 "p-1" Demo.roles = (Demo.roles, Ok Demo.project)
  /\ project_admits Demo.tx Demo.roles (Demo.write_request "ben") Demo.project.
Proof.
  assert (authorizeCurrentProject Demo.tx (Demo.write_request "ben") Demo.roles
          = (Demo.roles, Ok Demo.project)) as E by reflexivity.
  split; [exact E|]. exact (proj1 (authorization_exact Demo.tx (Demo.write_request "ben") _ _ _) E).
Defined.

Lemma stored_role_bounds_witness :
  (exists required, permissionRoles !! "write" = Some required
     /\ Level required <= Level TenantRoleContributor
     /\ ("" <> "" -> Level required <= Level ""))
  /\ ("write" <> "read" -> Level TenantRoleContributor <= Level TenantRoleContributor).
Proof.
  exact (stored_role_bounds Demo.tx _ (Demo.write_request "ben") Demo.roles Demo.roles
           TenantRoleContributor Demo.project eq_refl eq_refl eq_refl eq_refl).
Defined.

Lemma stranger_refusal_uniform_witness :
  exists e, authorizeCurrentProject Demo.tx
      {| rq_Actor := plain_actor 7 "cat"; rq_ProjectID := "p-1"; rq_Action := "read"; rq_Resource := "" |}
      Demo.roles = (Demo.roles, Err e)
    /\ Error e = "not_found" /\ errors_Is e ErrNotFound = true
    /\ errors_Is e ErrInvalidState = false /\ errors_Is e ErrInvalidRequest = false.
Proof.
  apply (stranger_refusal_uniform Demo.tx).
  - repeat split; [done..|]. by exists TenantRoleViewer, TenantRoleViewer; repeat split; [..|right].
  - right. exists Demo.project. split; [reflexivity|]. by intros m [= <-].
Defined.

Lemma owner_freeze_agrees_witness :
  exists j, JudgeOwnerAction Demo.tx Demo.project (plain_actor 7 "ann") Demo.roles = (Demo.roles, Ok j)
    /\ (oj_Allowed j = true <->
        authorizeCurrentProject Demo.tx
          {| rq_Actor := plain_actor 7 "ann"; rq_ProjectID := "p-1"; rq_Action := "ops-control";
             rq_Resource := "" |} Demo.roles = (Demo.roles, Ok Demo.project))
    /\ (oj_Allowed j = false -> oj_ReasonCode j = ReasonOwnerUnavailable).
Proof.
  apply (owner_freeze_agrees Demo.tx); try done.
  apply (bool_decide_unpack _). exact I.
Defined.
