(* ===== verification/MemberStore.v ===== *)
(** The member and owner storage: the tables behind
    [src/internal/lingdoc/workspacecore/{service,member_records,membership_lifecycle}.go]
    and the operations of [gormTransaction] and [MemberStorage] on them.

    A table is a finite map from its primary key; JSON columns hold their
    decoded values.  What the database adds (faults of single statements, the
    order of a query's rows) and the halves of [projectView] and
    [UpdateProject] about specifications and template copies are the fields
    of [Database]. *)

From S2P Require Import Prelude Effects OperationStore Workspace.

(** ** Rows ([model.go], [membership_lifecycle.go]) *)

(** Columns of [lingdoc_projects] outside its primary key. *)
Record projectRow := {
  row_TenantID : Z;
  row_Name : string;
  row_Status : string;
  row_ProjectVersion : Z;
  row_SpecRevision : Z;
  row_CurrentContextRevision : Z;
  row_DeliveryStatus : string;
  row_BaselineConfirmationID : string;
  row_SpecJSON : string;
  row_SpecMetadataJSON : string;
  row_TemplateID : string;
  row_TemplateVersion : string;
  row_TemplateCopyVersion : Z;
  row_DiscardedAt : option Z
}.

(** Columns of [lingdoc_member_permissions] outside its primary key. *)
Record memberPermissionRow := {
  mp_GovernanceRole : string;
  mp_FunctionRoles : list string;
  mp_FunctionScopes : gmap string (list string);
  mp_Status : string
}.

Set Primitive Projections.
Record OwnerTransfer := {
  ot_ID : string;
  ot_ProjectID : string;
  ot_FromUserID : string;
  ot_ToUserID : string;
  ot_Status : string;
  ot_ExpectedProjectVersion : Z;
  ot_CreatedAt : Z;
  ot_AcceptedAt : option Z
}.
Unset Primitive Projections.

Record projectRecordRow := { pr_Version : Z; pr_PayloadJSON : string }.

(** The fields the member and owner operations fill in; [TargetVersion] and
    [ProjectRevision] stay at their zero values. *)
Record AuditEvent := {
  ae_ID : string;
  ae_ProjectID : string;
  ae_ActorID : string;
  ae_Action : string;
  ae_Target : string;
  ae_Details : gmap string string;
  ae_CreatedAt : Z;
  ae_TenantID : Z;
  ae_UserID : string;
  ae_Role : string;
  ae_Capability : string;
  ae_Decision : string;
  ae_Reason : string
}.

Record tenantMemberRow := { tm_Role : TenantRole; tm_Status : string }.

(** [tb_tenant_members] holds the rows with a null [deleted_at]. *)
Set Primitive Projections.
Record tables := {
  tb_projects : gmap string projectRow;
  tb_tenant_members : gmap (Z * string) tenantMemberRow;
  tb_members : gmap (string * string) string;
  tb_permissions : gmap (string * string) memberPermissionRow;
  tb_transfers : gmap string OwnerTransfer;
  tb_records : gmap (string * string * string) projectRecordRow;
  tb_chapters : gmap (string * string) unit;
  tb_operations : gmap operation_key operationRow;
  tb_audit : list AuditEvent
}.
Unset Primitive Projections.

Definition T (A : Type) := M tables error A.

(** ** The database *)

Definition ErrRecordNotFound : error := Sentinel "record not found".
Definition duplicate_key : error := Sentinel "UNIQUE constraint failed".

Record Database := {
  (** what the driver answers to a statement instead of running it *)
  db_fault : string -> tables -> option error;
  (** [ORDER BY] *)
  db_order : list Member -> list Member;
  db_project_order : list (string * projectRow) -> list (string * projectRow);
  db_record_order : list (string * projectRecordRow) -> list (string * projectRecordRow);
  db_transfer_order : list OwnerTransfer -> list OwnerTransfer;
  (** [decodeSpec], [decodeSpecFields]; the template half of [projectView] *)
  db_spec : projectRow -> res error (gmap string string * gmap string SpecField);
  db_template : projectRow -> tables -> res error (option ProjectTemplateCopy);
  (** [persistTemplateCopyTransition] and [persistProvenanceSnapshot] *)
  db_persist : Project -> Project -> T unit;
  (** the JSON columns [UpdateProject] writes *)
  db_spec_json : Project -> res error (string * string)
}.

(** The kinds of project record that trace where a value came from; no member
    operation reads or writes them. *)
Definition provenance_kind (kind : string) : bool :=
  contains ["g1_snapshot"; "g1_provenance"; "g1_change_provenance"; "g1_action_provenance";
            "g1_operation_provenance"] kind.

(** What the seams leave alone. *)
Class DatabaseLaws (db : Database) := {
  order_perm l : db_order db l ≡ₚ l;
  project_order_perm l : db_project_order db l ≡ₚ l;
  record_order_perm l : db_record_order db l ≡ₚ l;
  transfer_order_perm l : db_transfer_order db l ≡ₚ l;
  persist_members p q : keeps tb_members (db_persist db p q);
  persist_permissions p q : keeps tb_permissions (db_persist db p q);
  persist_transfers p q : keeps tb_transfers (db_persist db p q);
  persist_tenant_members p q : keeps tb_tenant_members (db_persist db p q);
  persist_operations p q : keeps tb_operations (db_persist db p q);
  persist_projects p q : keeps tb_projects (db_persist db p q);
  persist_records p q pid kind id : provenance_kind kind = false ->
    keeps (fun w => tb_records w !! (pid, kind, id)) (db_persist db p q)
}.

Definition of_res {A} (r : res error A) : T A := fun w => (w, r).

Section Gorm.
Variable db : Database.

(** One statement: a fault leaves the tables alone. *)
Definition statement {A} (name : string) (m : T A) : T A := fun w =>
  match db_fault db name w with Some err => (w, Err err) | None => m w end.

Definition query {A} (name : string) (f : tables -> A) : T A :=
  statement name (fun w => (w, Ok (f w))).

Definition exec (name : string) (f : tables -> tables) : T unit := statement name (modify f).

Definition storageError (err : error) : error :=
  if errors_Is err ErrRecordNotFound then ErrNotFound else err.

Definition permissionSchemaError (err : error) : error :=
  let message := ToLower (Error err) in
  when Contains message "lingdoc_member_permissions"
       && (Contains message "no such table" || Contains message "does not exist"
           || Contains message "undefined table")
  return Wrapped (Error ErrPermissionSchemaUnavailable +:+ ": " +:+ Error err)
           ErrPermissionSchemaUnavailable;
  err.

(** [First], [Take] *)
Definition take {A} (name : string) (f : tables -> option A) : T A :=
  found ← query name f;
  match found with Some a => mret a | None => fail ErrRecordNotFound end.

(** The rows a conditional [UPDATE] changed. *)
Definition update {A} `{Countable K} (name : string) (get : tables -> gmap K A)
  (put : tables -> gmap K A -> tables) (key : K) (cond : A -> bool) (set : A -> A) : T Z :=
  statement name (fun w =>
    match get w !! key with
    | Some a => if cond a then (put w (<[key := set a]> (get w)), Ok 1) else (w, Ok 0)
    | None => (w, Ok 0)
    end).

Definition affected (result : T Z) : T unit :=
  rows ← result;
  refuse_if (negb (rows =? 1)) ErrVersionConflict.

(** ** Tenant members *)

Definition ActiveMember (actor : Actor) : T bool :=
  query "count tenant_members" (fun w =>
    match tb_tenant_members w !! (ac_TenantID actor, ac_UserID actor) with
    | Some row => (tm_Status row =? "active")%string
    | None => false
    end).

Definition CurrentTenantRole (actor : Actor) : T TenantRole :=
  role ← map_error storageError (take "select tenant_members" (fun w =>
    match tb_tenant_members w !! (ac_TenantID actor, ac_UserID actor) with
    | Some row => if (tm_Status row =? "active")%string then Some (tm_Role row) else None
    | None => None
    end));
  _ ← refuse_if (negb (IsValid role)) ErrNotFound;
  mret role.

(** ** Projects *)

(** One member of [projectView]. *)
Definition member_view (userID role : string) (permission : option memberPermissionRow) : Member :=
  let collaborator := (role =? "collaborator")%string in
  let owner := (role =? "owner")%string in
  let member := {| m_UserID := userID; m_Role := role;
                   m_GovernanceRole := if owner then "owner" else if collaborator then "member" else "";
                   m_FunctionRoles := if collaborator then ["author"] else [];
                   m_FunctionScopes := ∅; m_Status := "" |} in
  let member := match permission with
                | Some permission =>
                    {| m_UserID := userID; m_Role := role;
                       m_GovernanceRole := mp_GovernanceRole permission;
                       m_FunctionRoles := mp_FunctionRoles permission;
                       m_FunctionScopes := mp_FunctionScopes permission;
                       m_Status := mp_Status permission |}
                | None => member
                end in
  if owner then member <| m_GovernanceRole := "owner" |> else member.

(** The members of a project, from both tables. *)
Definition members_of (w : tables) (pid : string) : list Member :=
  omap (fun row : (string * string) * string =>
          if decide (row.1.1 = pid)
          then Some (member_view row.1.2 row.2 (tb_permissions w !! row.1)) else None)
       (map_to_list (tb_members w)).

Definition projectView (id : string) (row : projectRow) : T Project :=
  '(spec, specFields) ← of_res (db_spec db row);
  _ ← query "select lingdoc_members" (fun w => w);
  members ← map_error permissionSchemaError
              (query "select lingdoc_member_permissions" (fun w => db_order db (members_of w id)));
  copy ← ((fun w => (w, db_template db row w)) : T (option ProjectTemplateCopy));
  mret {| pr_CurrentSnapshotID := ""; pr_ID := id; pr_Name := row_Name row;
          pr_Status := row_Status row; pr_ProjectVersion := row_ProjectVersion row;
          pr_SpecRevision := row_SpecRevision row;
          pr_CurrentContextRevision := row_CurrentContextRevision row;
          pr_DeliveryStatus := if (row_DeliveryStatus row =? "")%string then "NOT_READY"
                               else row_DeliveryStatus row;
          pr_BaselineConfirmationID := row_BaselineConfirmationID row;
          pr_Spec := spec; pr_SpecFields := specFields;
          pr_TemplateID := row_TemplateID row; pr_TemplateVersion := row_TemplateVersion row;
          pr_TemplateCopyVersion := row_TemplateCopyVersion row; pr_TemplateCopy := copy;
          pr_DiscardedAt := row_DiscardedAt row; pr_Members := members |}.

Definition Gorm_Project (tenantID : Z) (id : string) : T Project :=
  row ← map_error storageError (take "select lingdoc_projects" (fun w =>
    match tb_projects w !! id with
    | Some row => if row_TenantID row =? tenantID then Some row else None
    | None => None
    end));
  projectView id row.

Fixpoint traverse {A B} (f : A -> T B) (l : list A) : T (list B) :=
  match l with
  | [] => mret []
  | a :: l' => b ← f a; bs ← traverse f l'; mret (b :: bs)
  end.

(** The projects the user is a member of, discarded ones left out. *)
Definition Gorm_Projects (tenantID : Z) (userID : string) (limit : Z) : T (list Project) :=
  rows ← query "select lingdoc_projects" (fun w =>
    firstn (Z.to_nat limit) (db_project_order db (List.filter (fun '(id, row) =>
      (row_TenantID row =? tenantID) && negb (is_nil (tb_members w !! (id, userID)))
      && is_nil (row_DiscardedAt row)) (map_to_list (tb_projects w)))));
  traverse (fun '(id, row) => projectView id row) rows.

Definition UpdateProject (tenantID : Z) (previous next : Project) : T unit :=
  '(spec, metadata) ← of_res (db_spec_json db next);
  _ ← affected (update "update lingdoc_projects" tb_projects (fun w t => w <| tb_projects := t |>)
        (pr_ID previous)
        (fun row => (row_TenantID row =? tenantID)
                    && (row_ProjectVersion row =? pr_ProjectVersion previous)
                    && (row_SpecRevision row =? pr_SpecRevision previous)
                    && (row_Status row =? pr_Status previous)%string)
        (fun row => {| row_TenantID := row_TenantID row;
                       row_Name := row_Name row; row_Status := pr_Status next;
                       row_ProjectVersion := pr_ProjectVersion next;
                       row_SpecRevision := pr_SpecRevision next;
                       row_CurrentContextRevision := pr_CurrentContextRevision next;
                       row_DeliveryStatus := pr_DeliveryStatus next;
                       row_BaselineConfirmationID := pr_BaselineConfirmationID next;
                       row_SpecJSON := spec; row_SpecMetadataJSON := metadata;
                       row_TemplateID := pr_TemplateID next;
                       row_TemplateVersion := pr_TemplateVersion next;
                       row_TemplateCopyVersion := pr_TemplateCopyVersion next;
                       row_DiscardedAt := pr_DiscardedAt next |}));
  db_persist db previous next.

(** ** Members *)

Definition insert_member (pid userID role : string) : T unit :=
  statement "insert lingdoc_members" (fun w =>
    match tb_members w !! (pid, userID) with
    | Some _ => (w, Err duplicate_key)
    | None => (w <| tb_members := <[(pid, userID) := role]> (tb_members w) |>, Ok tt)
    end).

Definition insert_permission (pid userID : string) (row : memberPermissionRow) : T unit :=
  map_error permissionSchemaError (statement "insert lingdoc_member_permissions" (fun w =>
    match tb_permissions w !! (pid, userID) with
    | Some _ => (w, Err duplicate_key)
    | None => (w <| tb_permissions := <[(pid, userID) := row]> (tb_permissions w) |>, Ok tt)
    end)).

Fixpoint each {A} (l : list A) (f : A -> T unit) : T unit :=
  match l with
  | [] => mret tt
  | a :: l' => _ ← f a; each l' f
  end.

Definition insert_collaborator (pid id : string) : T unit :=
  _ ← insert_member pid id "collaborator";
  insert_permission pid id {| mp_GovernanceRole := "member"; mp_FunctionRoles := ["author"];
                              mp_FunctionScopes := ∅; mp_Status := "active" |}.

Definition ReplaceCollaborators (pid : string) (ids : list string) : T unit :=
  _ ← exec "delete lingdoc_members" (fun w =>
        w <| tb_members := filter (fun row => ~ (row.1.1 = pid /\ row.2 = "collaborator")) (tb_members w) |>);
  each ids (insert_collaborator pid).

Definition stored_governance (member : Member) : string :=
  if (m_GovernanceRole member =? "")%string
  then if (m_Role member =? "owner")%string then "owner" else "member"
  else m_GovernanceRole member.

Definition stored_status (member : Member) : string :=
  if (m_Status member =? "")%string then "active" else m_Status member.

Definition permission_row (member : Member) : memberPermissionRow :=
  {| mp_GovernanceRole := stored_governance member; mp_FunctionRoles := m_FunctionRoles member;
     mp_FunctionScopes := m_FunctionScopes member; mp_Status := stored_status member |}.

Definition insert_assignment (pid : string) (member : Member) : T unit :=
  _ ← insert_member pid (m_UserID member) (m_Role member);
  insert_permission pid (m_UserID member) (permission_row member).

Definition ReplaceMembers (pid : string) (members : list Member) : T unit :=
  _ ← exec "delete lingdoc_members" (fun w =>
        w <| tb_members := filter (fun row => row.1.1 <> pid) (tb_members w) |>);
  _ ← map_error permissionSchemaError (exec "delete lingdoc_member_permissions" (fun w =>
        w <| tb_permissions := filter (fun row => row.1.1 <> pid) (tb_permissions w) |>));
  each members (insert_assignment pid).

Definition SetMemberRole (pid userID role : string) : T unit :=
  _ ← affected (update "update lingdoc_members" tb_members (fun w t => w <| tb_members := t |>)
        (pid, userID) (fun _ => true) (fun _ => role));
  let governance := if (role =? "owner")%string then "owner" else "member" in
  _ ← map_error permissionSchemaError
        (update "update lingdoc_member_permissions" tb_permissions
           (fun w t => w <| tb_permissions := t |>) (pid, userID) (fun _ => true)
           (fun row => {| mp_GovernanceRole := governance; mp_FunctionRoles := [];
                          mp_FunctionScopes := ∅; mp_Status := mp_Status row |}));
  mret tt.

Definition EnsureMember (pid userID role : string) : T unit := fun w =>
  match take "select lingdoc_members" (fun w => tb_members w !! (pid, userID)) w with
  | (w, Ok _) => (w, Ok tt)
  | (w, Err err) =>
      if errors_Is err ErrRecordNotFound then insert_member pid userID role w else (w, Err err)
  end.

(** ** Owner transfers *)

Definition transfer_ttl := 72 * 3600 * 1000000000.

(** The stale pending transfers of the project are cancelled; the partial
    unique index allows one pending transfer per project. *)
Definition InsertOwnerTransfer (now : Z) (transfer : OwnerTransfer) : T unit :=
  _ ← exec "update lingdoc_owner_transfers" (fun w =>
        w <| tb_transfers := (fun row =>
               if (ot_ProjectID row =? ot_ProjectID transfer)%string
                  && (ot_Status row =? "pending")%string && (ot_CreatedAt row <? now - transfer_ttl)
               then row <| ot_Status := "cancelled" |> else row) <$> tb_transfers w |>);
  statement "insert lingdoc_owner_transfers" (fun w =>
    if is_nil (tb_transfers w !! ot_ID transfer)
       && negb ((ot_Status transfer =? "pending")%string
                && existsb (fun row => (ot_ProjectID row =? ot_ProjectID transfer)%string
                                       && (ot_Status row =? "pending")%string)
                     (map_to_list (tb_transfers w)).*2)
    then (w <| tb_transfers := <[ot_ID transfer := transfer <| ot_AcceptedAt := None |>]> (tb_transfers w) |>, Ok tt)
    else (w, Err duplicate_key)).

Definition Gorm_OwnerTransfer (pid id : string) : T OwnerTransfer :=
  map_error storageError (take "select lingdoc_owner_transfers" (fun w =>
    match tb_transfers w !! id with
    | Some row => if (ot_ProjectID row =? pid)%string then Some row else None
    | None => None
    end)).

Definition AcceptOwnerTransfer (pid id : string) (version acceptedAt : Z) : T unit :=
  affected (update "update lingdoc_owner_transfers" tb_transfers (fun w t => w <| tb_transfers := t |>)
    id (fun row => (ot_ProjectID row =? pid)%string && (ot_Status row =? "pending")%string
                   && (ot_ExpectedProjectVersion row =? version))
    (fun row => row <| ot_Status := "accepted" |> <| ot_AcceptedAt := Some acceptedAt |>)).

Definition cancelOwnerTransfer (pid id : string) : T unit :=
  affected (update "update lingdoc_owner_transfers" tb_transfers (fun w t => w <| tb_transfers := t |>)
    id (fun row => (ot_ProjectID row =? pid)%string && (ot_Status row =? "pending")%string)
    (fun row => row <| ot_Status := "cancelled" |>)).

(** ** Records *)

Section Records.
(** [encoding/json] for the record's payload. *)
Context {P : Type}.
Variable Marshal : P -> res error string.
Variable Unmarshal : string -> res error P.

Definition GetProjectRecord (pid kind id : string) : T (P * Z) :=
  row ← map_error storageError (take "select lingdoc_g5_records" (fun w => tb_records w !! (pid, kind, id)));
  value ← of_res (Unmarshal (pr_PayloadJSON row));
  mret (value, pr_Version row).

(** [ORDER BY id] *)
Definition ListProjectRecords (pid kind : string) : T (list (string * projectRecordRow)) :=
  query "select lingdoc_g5_records" (fun w =>
  db_record_order db (omap (fun '(key, row) =>
      let '(p, k, id) := key in if (p =? pid)%string && (k =? kind)%string then Some (id, row) else None)
      (map_to_list (tb_records w)))).

Definition PutProjectRecord (pid kind id : string) (expected : Z) (value : P) : T unit :=
  raw ← of_res (Marshal value);
  if expected =? 0 then
  statement "insert lingdoc_g5_records" (fun w =>
      match tb_records w !! (pid, kind, id) with
      | Some _ => (w, Err duplicate_key)
      | None => (w <| tb_records := <[(pid, kind, id) := {| pr_Version := 1; pr_PayloadJSON := raw |}]>
                                      (tb_records w) |>, Ok tt)
      end)
  else
  rows ← update "update lingdoc_g5_records" tb_records (fun w t => w <| tb_records := t |>)
             (pid, kind, id) (fun row => pr_Version row =? expected)
             (fun _ => {| pr_Version := expected +i 1; pr_PayloadJSON := raw |});
  refuse_if (negb (rows =? 1)) ErrVersionConflict.
End Records.

(** ** Audit *)

(** The reason has no column of its own: it goes into the details. *)
Definition RecordAudit (event : AuditEvent) : T unit :=
  let values := if (ae_Reason event =? "")%string then ae_Details event
                else <["reason" := ae_Reason event]> (ae_Details event) in
  exec "insert lingdoc_audit_events" (fun w =>
    w <| tb_audit := tb_audit w ++ [event <| ae_Details := values |> <| ae_Reason := "" |>] |>).

Definition recordProjectAuditEvent (id : string) (now : Z) (actor : Actor)
  (pid action target reason : string) : T unit :=
RecordAudit {| ae_ID := id; ae_ProjectID := pid; ae_ActorID := ac_UserID actor; ae_Action := action;
                 ae_Target := target; ae_Details := ∅; ae_CreatedAt := now;
                 ae_TenantID := ac_TenantID actor; ae_UserID := ac_UserID actor;
                 ae_Role := ""; ae_Capability := ""; ae_Decision := "allow"; ae_Reason := reason |}.

Definition Gorm_Chapter (pid id : string) : T unit :=
  _ ← map_error storageError (take "select lingdoc_chapters" (fun w => tb_chapters w !! (pid, id)));
  mret tt.
End Gorm.
