(* ===== verification/MemberLaws.v ===== *)
(** What the member storage promises its clients: the members a project is
    read with, pointwise; what each write does to them; and what it leaves
    alone. *)

From S2P Require Import Prelude Effects OperationStore Workspace MemberStore.

(** ** The members of a project, pointwise *)

Definition member_at (w : tables) (pid u : string) : option Member :=
  (fun role => member_view u role (tb_permissions w !! (pid, u))) <$> tb_members w !! (pid, u).

Lemma member_view_id u role permission : m_UserID (member_view u role permission) = u.
Proof. unfold member_view. destruct permission; cbn; by destruct (role =? "owner")%string. Qed.

Lemma member_view_role u role permission : m_Role (member_view u role permission) = role.
Proof. unfold member_view. destruct permission; cbn; by destruct (role =? "owner")%string. Qed.

Lemma member_at_id w pid u m : member_at w pid u = Some m -> m_UserID m = u.
Proof. unfold member_at. intros F. apply fmap_Some in F as (role & _ & ->). apply member_view_id. Qed.

Lemma member_at_role w pid u m : member_at w pid u = Some m -> tb_members w !! (pid, u) = Some (m_Role m).
Proof.
  unfold member_at. intros F. apply fmap_Some in F as (role & F & ->). by rewrite member_view_role.
Qed.

Lemma members_of_spec w pid m : m ∈ members_of w pid <-> member_at w pid (m_UserID m) = Some m.
Proof.
  unfold members_of. rewrite list_elem_of_omap. split.
  - intros ([[p u] role] & Hin & F). apply elem_of_map_to_list in Hin. cbn in F.
    destruct (decide (p = pid)) as [->|]; [|discriminate]. injection F as <-.
    unfold member_at. by rewrite member_view_id, Hin.
  - intros F. pose proof (member_at_role _ _ _ _ F) as Hr. unfold member_at in F. rewrite Hr in F.
    exists ((pid, m_UserID m), m_Role m). split; [by apply elem_of_map_to_list|].
    cbn. by rewrite decide_True.
Qed.

Lemma members_of_keyed w pid : NoDup (m_UserID <$> members_of w pid).
Proof.
  unfold members_of. pose proof (NoDup_fst_map_to_list (tb_members w)) as Nd.
  induction (map_to_list (tb_members w)) as [|[[p u] role] l IH]; [constructor|].
  cbn in Nd. apply NoDup_cons in Nd as [Hn Nd]. cbn.
  destruct (decide (p = pid)) as [->|]; [|by apply IH]. cbn. apply NoDup_cons. split; [|by apply IH].
  rewrite member_view_id. intros F. apply list_elem_of_fmap in F as (m & -> & F).
  apply list_elem_of_omap in F as ([[p u] role'] & Hin & F). cbn in F.
  destruct (decide (p = pid)) as [->|]; [|discriminate]. injection F as <-.
  apply Hn. rewrite member_view_id. by apply (list_elem_of_fmap_2 fst) in Hin.
Qed.

Section Laws.
Variable db : Database.
Context `{!DatabaseLaws db}.

Lemma order_spec l m : m ∈ db_order db l <-> m ∈ l.
Proof. by rewrite (order_perm l). Qed.

Lemma ordered_find w pid u : find_member (db_order db (members_of w pid)) u = member_at w pid u.
Proof.
  destruct (member_at w pid u) as [m|] eqn:E.
  - pose proof (member_at_id _ _ _ _ E) as <-. apply find_member_unique; [| |done].
    + rewrite (order_perm (members_of w pid)). apply members_of_keyed.
    + by apply order_spec, members_of_spec.
  - destruct (find_member _ u) as [m|] eqn:F; [|done].
    apply find_member_some in F as [F <-]. apply order_spec, members_of_spec in F. congruence.
Qed.

(** *** Frames of statements *)

Lemma keeps_statement {A V} (I : tables -> V) name (m : T A) :
  keeps I m -> keeps I (statement db name m).
Proof. intros K w. unfold statement. by destruct (db_fault db name w). Qed.

Lemma keeps_query {A V} (I : tables -> V) name (f : tables -> A) : keeps I (query db name f).
Proof. by apply keeps_statement. Qed.

Lemma keeps_of_res {A V} (I : tables -> V) (r : res error A) : keeps I (of_res r).
Proof. by intros w. Qed.

Lemma keeps_take {A V} (I : tables -> V) name (f : tables -> option A) : keeps I (take db name f).
Proof. apply keeps_bind; [apply keeps_query|]. intros [a|]; [apply keeps_ret|apply keeps_fail]. Qed.

Lemma keeps_exec {V} (I : tables -> V) name f : (forall w, I (f w) = I w) -> keeps I (exec db name f).
Proof. intros F. by apply keeps_statement. Qed.

Lemma keeps_update {A V} `{Countable K} (I : tables -> V) name (get : tables -> gmap K A) put key cond set :
  (forall w t, I (put w t) = I w) -> keeps I (update db name get put key cond set).
Proof.
  intros F. apply keeps_statement. intros w. destruct (get w !! key); [|done]. destruct (cond _); [apply F|done].
Qed.

Lemma keeps_affected {V} (I : tables -> V) m : keeps I m -> keeps I (affected m).
Proof. intros K. apply keeps_bind; [done|]. intros. apply keeps_refuse_if. Qed.

Lemma keeps_each {A V} (I : tables -> V) (l : list A) f : (forall a, keeps I (f a)) -> keeps I (each l f).
Proof.
  intros F. induction l as [|a l IH]; cbn; [apply keeps_ret|]. apply keeps_bind; [done|]. by intros _.
Qed.

Lemma statement_ok {A} name (m : T A) w w' a : statement db name m w = (w', Ok a) -> m w = (w', Ok a).
Proof. unfold statement. by destruct (db_fault db name w). Qed.

Lemma query_ok {A} name (f : tables -> A) w w' a : query db name f w = (w', Ok a) -> w' = w /\ a = f w.
Proof. intros F. apply statement_ok in F. by injection F as <- <-. Qed.

Lemma take_ok {A} name (f : tables -> option A) w w' a :
  take db name f w = (w', Ok a) -> w' = w /\ f w = Some a.
Proof.
  unfold take. intros F. apply bind_ok in F as (w1 & r & F1 & F2). apply query_ok in F1 as [-> ->].
  destruct (f w); [|discriminate]. by injection F2 as <- <-.
Qed.

Lemma update_affected {A} `{Countable K} name (get : tables -> gmap K A) put key cond set w w' u :
  affected (update db name get put key cond set) w = (w', Ok u) ->
  exists a, get w !! key = Some a /\ cond a = true /\ w' = put w (<[key := set a]> (get w)).
Proof.
  unfold affected, update. intros F. apply bind_ok in F as (w1 & n & F1 & F2).
  apply statement_ok in F1. apply refuse_if_ok in F2 as [F2 ->]. apply negb_false_iff, Z.eqb_eq in F2.
  destruct (get w !! key) as [a|]; [|injection F1 as _ <-; discriminate].
  destruct (cond a) eqn:E; injection F1 as <- <-; [|discriminate]. eauto.
Qed.

(** *** Reading a project *)

(** What a project that was read says about the store. *)
Definition shows (w : tables) (tenant : Z) (id : string) (p : Project) : Prop :=
  pr_ID p = id
  /\ (exists row, tb_projects w !! id = Some row /\ row_TenantID row = tenant
        /\ row_ProjectVersion row = pr_ProjectVersion p /\ row_Status row = pr_Status p
        /\ row_DiscardedAt row = pr_DiscardedAt p)
  /\ pr_Members p = db_order db (members_of w id).

Lemma Gorm_Project_ok tenant id w w' p :
  Gorm_Project db tenant id w = (w', Ok p) -> w' = w /\ shows w tenant id p.
Proof.
  unfold Gorm_Project. intros F. apply bind_ok in F as (w1 & row & F1 & F).
  apply map_error_ok, take_ok in F1 as [-> F1].
  unfold projectView in F. apply bind_ok in F as (w1 & [spec fields] & F2 & F). injection F2 as <- F2.
  apply bind_ok in F as (w1 & w2 & F3 & F). apply query_ok in F3 as [-> _].
  apply bind_ok in F as (w1 & members & F4 & F). apply map_error_ok, query_ok in F4 as [-> ->].
  apply bind_ok in F as (w1 & copy & F5 & F). injection F5 as <- F5.
  injection F as <- <-. split; [done|]. split; [done|]. split; [|done].
  destruct (tb_projects w !! id) as [row'|]; [|discriminate].
  destruct (row_TenantID row' =? tenant) eqn:E; [|discriminate]. injection F1 as ->.
  apply Z.eqb_eq in E. exists row. by repeat split.
Qed.

Lemma shows_find w tenant id p u :
  shows w tenant id p -> find_member (pr_Members p) u = member_at w id u.
Proof. intros (_ & _ & ->). apply ordered_find. Qed.

Lemma shows_keyed w tenant id p : shows w tenant id p -> NoDup (m_UserID <$> pr_Members p).
Proof. intros (_ & _ & ->). rewrite (order_perm (members_of w id)). apply members_of_keyed. Qed.

Lemma shows_member w tenant id p m :
  shows w tenant id p -> m ∈ pr_Members p <-> member_at w id (m_UserID m) = Some m.
Proof. intros (_ & _ & ->). by rewrite order_spec, members_of_spec. Qed.

(** *** The compare-and-set of [UpdateProject] *)

Lemma UpdateProject_ok tenant p q w w' u :
  UpdateProject db tenant p q w = (w', Ok u) ->
  exists row, tb_projects w !! pr_ID p = Some row
    /\ row_TenantID row = tenant /\ row_ProjectVersion row = pr_ProjectVersion p
    /\ row_Status row = pr_Status p
    /\ exists row', tb_projects w' = <[pr_ID p := row']> (tb_projects w)
        /\ row_TenantID row' = tenant /\ row_ProjectVersion row' = pr_ProjectVersion q
        /\ row_Status row' = pr_Status q /\ row_DiscardedAt row' = pr_DiscardedAt q.
Proof.
  unfold UpdateProject. intros F. apply bind_ok in F as (w1 & [spec meta] & F1 & F). injection F1 as <- _.
  apply bind_ok in F as (w1 & u1 & F2 & F). apply update_affected in F2 as (row & Hr & Hc & ->).
  split_bools. exists row. repeat (split; [done|]).
  apply (keeps_run tb_projects) in F; [|apply persist_projects]. cbn in F.
  eexists. split; [exact F|]. cbn. by repeat split.
Qed.

Lemma UpdateProject_keeps {V} (I : tables -> V) tenant p q :
  (forall w t, I (w <| tb_projects := t |>) = I w) -> keeps I (db_persist db p q) ->
  keeps I (UpdateProject db tenant p q).
Proof.
  intros F K. unfold UpdateProject. apply keeps_bind; [apply keeps_of_res|]. intros [spec meta].
  apply keeps_bind; [by apply keeps_affected, keeps_update|]. by intros _.
Qed.

(** *** Replacing the members *)

(** A member as it is read back after being stored. *)
Definition as_stored (m : Member) : Member :=
  member_view (m_UserID m) (m_Role m) (Some (permission_row m)).

(** Both tables of a project after the rows of [members] went in. *)
Record inserted (pid : string) (members : list Member) (w w' : tables) : Prop := {
  ins_keyed : NoDup (m_UserID <$> members);
  ins_free m : m ∈ members -> tb_members w !! (pid, m_UserID m) = None;
  ins_members v : tb_members w' !! (pid, v)
    = match find_member members v with Some m => Some (m_Role m) | None => tb_members w !! (pid, v) end;
  ins_permissions v : tb_permissions w' !! (pid, v)
    = match find_member members v with Some m => Some (permission_row m)
                                     | None => tb_permissions w !! (pid, v) end;
  ins_others pid' v : pid' <> pid -> tb_members w' !! (pid', v) = tb_members w !! (pid', v)
    /\ tb_permissions w' !! (pid', v) = tb_permissions w !! (pid', v)
}.

Lemma insert_assignment_ok pid m w w' u :
  insert_assignment db pid m w = (w', Ok u) ->
  tb_members w !! (pid, m_UserID m) = None
  /\ tb_members w' = <[(pid, m_UserID m) := m_Role m]> (tb_members w)
  /\ tb_permissions w' = <[(pid, m_UserID m) := permission_row m]> (tb_permissions w).
Proof.
  unfold insert_assignment, insert_member, insert_permission. intros F.
  apply bind_ok in F as (w1 & u1 & F1 & F). apply statement_ok in F1.
  apply map_error_ok, statement_ok in F.
  destruct (tb_members w !! (pid, m_UserID m)) eqn:E; [discriminate|]. injection F1 as <- _.
  cbn [tb_permissions set_field] in F.
  destruct (tb_permissions _ !! _) eqn:E'; [discriminate|]. injection F as <- _. done.
Qed.

Lemma insert_assignments_ok pid members w w' u :
  each members (insert_assignment db pid) w = (w', Ok u) -> inserted pid members w w'.
Proof.
  revert w. induction members as [|m members IH]; cbn; intros w F.
  { injection F as <- _. split; [apply NoDup_nil_2| |done..].
    by intros m Hm; apply not_elem_of_nil in Hm. }
  apply bind_ok in F as (w1 & u1 & F1 & F).
  destruct (insert_assignment_ok _ _ _ _ _ F1) as (N & Em & Ep).
  destruct (IH w1 F) as [Nd Hfree Hm Hp Ho]. rewrite Em in *. rewrite Ep in *.
  assert (forall m', m' ∈ members -> m_UserID m' <> m_UserID m) as Fresh.
  { intros m' Hm' E. specialize (Hfree m' Hm'). rewrite E, lookup_insert_eq in Hfree. discriminate. }
  assert (find_member members (m_UserID m) = None) as Alone.
  { destruct (find_member members (m_UserID m)) as [m'|] eqn:E; [|done].
    apply find_member_some in E as [E E']. by apply (Fresh m' E) in E'. }
  split.
  - apply NoDup_cons. split; [|done]. intros Hin. apply list_elem_of_fmap in Hin as (m' & E & Hm').
    by apply (Fresh m' Hm').
  - intros m' Hm'. apply elem_of_cons in Hm' as [->|Hm']; [done|].
    specialize (Hfree m' Hm'). pose proof (Fresh m' Hm'). by rewrite lookup_insert_ne in Hfree by congruence.
  - intros v. rewrite Hm, find_member_cons. destruct (decide (m_UserID m = v)) as [<-|Nv].
    + by rewrite Alone, lookup_insert_eq.
    + by rewrite lookup_insert_ne by congruence.
  - intros v. rewrite Hp, find_member_cons. destruct (decide (m_UserID m = v)) as [<-|Nv].
    + by rewrite Alone, lookup_insert_eq.
    + by rewrite lookup_insert_ne by congruence.
  - intros pid' v Np. destruct (Ho pid' v Np) as [-> ->]. by rewrite !lookup_insert_ne by congruence.
Qed.

(** What was stored is what is read, and nothing else of the project is left. *)
Record replaced (pid : string) (members : list Member) (w w' : tables) : Prop := {
  rep_keyed : NoDup (m_UserID <$> members);
  rep_members v : tb_members w' !! (pid, v) = m_Role <$> find_member members v;
  rep_permissions v : tb_permissions w' !! (pid, v) = permission_row <$> find_member members v;
  rep_others pid' v : pid' <> pid -> tb_members w' !! (pid', v) = tb_members w !! (pid', v)
    /\ tb_permissions w' !! (pid', v) = tb_permissions w !! (pid', v)
}.

Lemma filter_other {A} (t : gmap (string * string) A) pid pid' v : pid' <> pid ->
  filter (fun row => row.1.1 <> pid) t !! (pid', v) = t !! (pid', v).
Proof.
  intros N. rewrite map_lookup_filter. destruct (t !! (pid', v)); [|done]. cbn.
  by rewrite option_guard_True.
Qed.

Lemma filter_own {A} (t : gmap (string * string) A) pid v :
  filter (fun row => row.1.1 <> pid) t !! (pid, v) = None.
Proof. apply map_lookup_filter_None_2. right. by intros x _ []. Qed.

Lemma ReplaceMembers_ok pid members w w' u :
  ReplaceMembers db pid members w = (w', Ok u) -> replaced pid members w w'.
Proof.
  unfold ReplaceMembers. intros F.
  apply bind_ok in F as (w1 & u1 & F1 & F). apply statement_ok in F1. injection F1 as <- _.
  apply bind_ok in F as (w1 & u2 & F2 & F). apply map_error_ok, statement_ok in F2. injection F2 as <- _.
  apply insert_assignments_ok in F as [Nd _ Hm Hp Ho]. cbn in Hm, Hp, Ho. split; [done| | |].
  - intros v. rewrite Hm, filter_own. by destruct (find_member members v).
  - intros v. rewrite Hp, filter_own. by destruct (find_member members v).
  - intros pid' v Np. destruct (Ho pid' v Np) as [-> ->]. by rewrite !filter_other.
Qed.

Lemma ReplaceMembers_keeps {V} (I : tables -> V) pid members :
  (forall w t, I (w <| tb_members := t |>) = I w) ->
  (forall w t, I (w <| tb_permissions := t |>) = I w) -> keeps I (ReplaceMembers db pid members).
Proof.
  intros Hm Hp. unfold ReplaceMembers. apply keeps_bind; [by apply keeps_exec|intros _].
  apply keeps_bind; [by apply keeps_map_error, keeps_exec|intros _]. apply keeps_each. intros m.
  apply keeps_bind; [|intros _].
  - apply keeps_statement. intros w. destruct (tb_members w !! _); [done|apply Hm].
  - apply keeps_map_error, keeps_statement. intros w. destruct (tb_permissions w !! _); [done|apply Hp].
Qed.

Lemma replaced_member_at pid members w w' v :
  replaced pid members w w' -> member_at w' pid v = as_stored <$> find_member members v.
Proof.
  intros [_ Hm Hp _]. unfold member_at. rewrite Hm, Hp.
  destruct (find_member members v) as [m|] eqn:E; [|done]. cbn.
  apply find_member_some in E as [_ <-]. done.
Qed.

(** *** Roles *)

(** A role was set: one row of each table, and the status stays. *)
Record role_set (pid v role : string) (w w' : tables) : Prop := {
  rs_existed : exists old, tb_members w !! (pid, v) = Some old;
  rs_member : tb_members w' = <[(pid, v) := role]> (tb_members w);
  rs_status : mp_Status <$> tb_permissions w' !! (pid, v) = mp_Status <$> tb_permissions w !! (pid, v);
  rs_others key : key <> (pid, v) -> tb_permissions w' !! key = tb_permissions w !! key;
  rs_projects : tb_projects w' = tb_projects w;
  rs_transfers : tb_transfers w' = tb_transfers w
}.

Lemma SetMemberRole_ok pid v role w w' u :
  SetMemberRole db pid v role w = (w', Ok u) -> role_set pid v role w w'.
Proof.
  unfold SetMemberRole. intros F. apply bind_ok in F as (w1 & u1 & F1 & F).
  apply update_affected in F1 as (old & Ho & _ & ->).
  apply bind_ok in F as (w2 & rows & F2 & F). injection F as <- _.
  apply map_error_ok, statement_ok in F2. cbn in F2.
  destruct (tb_permissions w !! (pid, v)) as [row|] eqn:E; injection F2 as <- _;
    (split; [by exists old|done| | |done|done]).
  - cbn. by rewrite lookup_insert_eq, E.
  - intros key N. cbn. by rewrite lookup_insert_ne by congruence.
  - done.
  - done.
Qed.

Lemma EnsureMember_ok pid v role w w' u :
  EnsureMember db pid v role w = (w', Ok u) ->
  (w' = w /\ exists old, tb_members w !! (pid, v) = Some old)
  \/ (tb_members w !! (pid, v) = None
      /\ w' = w <| tb_members := <[(pid, v) := role]> (tb_members w) |>).
Proof.
  unfold EnsureMember, take, query, statement. unfold mbind, M_bind.
  destruct (db_fault db "select lingdoc_members" w) as [e|].
  - destruct (errors_Is e ErrRecordNotFound); [|discriminate].
    intros F. apply statement_ok in F. destruct (tb_members w !! (pid, v)) eqn:E; [discriminate|].
    injection F as <- _. by right.
  - destruct (tb_members w !! (pid, v)) as [old|] eqn:E; cbn.
    + intros [= <- _]. left. split; [done|]. by exists old.
    + intros F. apply statement_ok in F. rewrite E in F. injection F as <- _. by right.
Qed.

Lemma SetMemberRole_keeps {V} (I : tables -> V) pid v role :
  (forall w t, I (w <| tb_members := t |>) = I w) ->
  (forall w t, I (w <| tb_permissions := t |>) = I w) -> keeps I (SetMemberRole db pid v role).
Proof.
  intros Hm Hp. apply keeps_bind; [by apply keeps_affected, keeps_update|intros _].
  apply keeps_bind; [by apply keeps_map_error, keeps_update|]. intros _. apply keeps_ret.
Qed.

Lemma EnsureMember_keeps {V} (I : tables -> V) pid v role :
  (forall w t, I (w <| tb_members := t |>) = I w) -> keeps I (EnsureMember db pid v role).
Proof.
  intros Hm w. unfold EnsureMember.
  pose proof (keeps_take I "select lingdoc_members" (fun w => tb_members w !! (pid, v)) w) as K.
  destruct (take db _ _ w) as [w1 [r|e]]; [done|]. cbn in K. destruct (errors_Is e ErrRecordNotFound); [|done].
  cbn. rewrite <- K. apply keeps_statement. intros w2. destruct (tb_members w2 !! _); [done|apply Hm].
Qed.

Lemma Gorm_Project_reads tenant id : reads (Gorm_Project db tenant id).
Proof.
  unfold Gorm_Project, projectView. apply keeps_bind; [by apply keeps_map_error, keeps_take|]. intros row.
  apply keeps_bind; [apply keeps_of_res|]. intros [spec fields].
  apply keeps_bind; [apply keeps_query|]. intros _.
  apply keeps_bind; [by apply keeps_map_error, keeps_query|]. intros members.
  apply keeps_bind; [by intros w|]. intros copy. apply keeps_ret.
Qed.

Lemma ActiveMember_reads actor : reads (ActiveMember db actor).
Proof. apply keeps_query. Qed.

Lemma CurrentTenantRole_reads actor : reads (CurrentTenantRole db actor).
Proof.
  apply keeps_bind; [by apply keeps_map_error, keeps_take|]. intros role.
  apply keeps_bind; [apply keeps_refuse_if|]. intros _. apply keeps_ret.
Qed.

Lemma Gorm_Chapter_reads pid id : reads (Gorm_Chapter db pid id).
Proof. apply keeps_bind; [by apply keeps_map_error, keeps_take|]. intros _. apply keeps_ret. Qed.

Lemma Gorm_OwnerTransfer_reads pid id : reads (Gorm_OwnerTransfer db pid id).
Proof. by apply keeps_map_error, keeps_take. Qed.

Lemma GetProjectRecord_reads {P} (unmarshal : string -> res error P) pid kind id :
  reads (GetProjectRecord db unmarshal pid kind id).
Proof.
  apply keeps_bind; [by apply keeps_map_error, keeps_take|]. intros row.
  apply keeps_bind; [apply keeps_of_res|]. intros value. apply keeps_ret.
Qed.

Lemma PutProjectRecord_keeps {P V} (I : tables -> V) (marshal : P -> res error string) pid kind id expected value :
  (forall w key row, key = (pid, kind, id) -> I (w <| tb_records := <[key := row]> (tb_records w) |>) = I w) ->
  keeps I (PutProjectRecord db marshal pid kind id expected value).
Proof.
  intros F. apply keeps_bind; [apply keeps_of_res|]. intros raw. destruct (expected =? 0).
  - apply keeps_statement. intros w. destruct (tb_records w !! _); [done|by apply F].
  - apply keeps_bind; [|intros; apply keeps_refuse_if]. apply keeps_statement. intros w.
    destruct (tb_records w !! _); [|done]. destruct (_ =? _); [by apply F|done].
Qed.

Lemma audit_keeps {V} (I : tables -> V) id now actor pid action target reason :
  (forall w t, I (w <| tb_audit := t |>) = I w) ->
  keeps I (recordProjectAuditEvent db id now actor pid action target reason).
Proof. intros F. by apply keeps_exec. Qed.
End Laws.

#[export] Hint Resolve Gorm_Project_reads ActiveMember_reads CurrentTenantRole_reads Gorm_Chapter_reads
  Gorm_OwnerTransfer_reads GetProjectRecord_reads keeps_query keeps_of_res keeps_take : effects.
