(* ===== verification/Membership.v ===== *)
(** The member and owner context: the operations of
    [src/internal/lingdoc/membership/{lifecycle,results,ext}.go].

    The ports of [service.go] (the operation runner, the authorizer, the
    workspace policy, the read transaction, the resource reader) are the
    fields of [Ports]; records and transfers are the storage of [MemberStore].
    What [time.Now], [uuid.NewString] and the iteration order of a Go map
    answer is an [Oracle], one answer per call site. *)

From stdpp Require Import sorting.
From S2P Require Import Prelude Effects OperationCore OperationStore Workspace Permission MemberStore.

(** ** Inputs and records ([membership_lifecycle.go], [membership.go],
    [membership_grants.go], [service_facade.go]) *)

Set Primitive Projections.
Record MemberInvitation := {
  mi_ID : string;
  mi_ProjectID : string;
  mi_UserID : string;
  mi_Version : Z;
  mi_Assignment : Member;
  mi_Status : string;
  mi_Inviter : string;
  mi_Reason : string;
  mi_ExpiresAt : Z;
  mi_CreatedAt : Z;
  mi_AcceptedAt : option Z
}.
Unset Primitive Projections.

Record InviteMemberInput := {
  ii_ExpectedProjectVersion : Z;
  ii_Assignment : Member;
  ii_Reason : string;
  ii_InvitationID : string;
  ii_ExpectedInvitationVersion : Z
}.

Record AcceptMemberInput := { ai_ExpectedInvitationVersion : Z }.

Record MemberLifecycleInput := {
  li_ExpectedProjectVersion : Z;
  li_Action : string;
  li_Reason : string
}.

Record MemberAssignmentInput := {
  mai_ExpectedProjectVersion : Z;
  mai_Assignment : Member;
  mai_Reason : string
}.

(** [CollaboratorUserIDs] and [Members] tell [nil] from empty. *)
Record SaveMembersInput := {
  si_ExpectedProjectVersion : Z;
  si_CollaboratorUserIDs : option (list string);
  si_Members : option (list Member)
}.

Record TransferOwnerInput := { ti_ExpectedProjectVersion : Z; ti_NewOwnerUserID : string }.

Record OwnerTransferInput := { oi_ToUserID : string; oi_ExpectedProjectVersion : Z }.

Record OwnerTransferDecisionInput := { di_ExpectedProjectVersion : Z; di_Reason : string }.

Record ownerTransferOrigin := { oo_RequesterID : string; oo_Recovery : bool }.

Set Primitive Projections.
Record ProjectAPIKeyGrant := {
  kg_KeyID : Z;
  kg_Capabilities : list string;
  kg_ExpectedProjectVersion : Z;
  kg_Reason : string;
  kg_Active : bool;
  kg_CreatedBy : string;
  kg_UpdatedAt : Z
}.
Unset Primitive Projections.

(** What the operations hand to the pipeline as [any]. *)
Inductive any :=
| AnyInvite (input : InviteMemberInput)
| AnyAccept (input : AcceptMemberInput)
| AnyLifecycle (input : MemberLifecycleInput)
| AnyAssignment (input : MemberAssignmentInput)
| AnySaveMembers (input : SaveMembersInput)
| AnyTransferOwner (input : TransferOwnerInput)
| AnyOwnerTransferInput (input : OwnerTransferInput)
| AnyDecision (input : OwnerTransferDecisionInput)
| AnyTransferID (transferID : string)
| AnyInvitation (invitation : MemberInvitation)
| AnyTransfer (transfer : OwnerTransfer)
| AnyProject (project : Project)
| AnyGrant (grant : ProjectAPIKeyGrant).

Record OperationSpec := {
  sp_Name : string;
  sp_Target : string;
  sp_Key : string;
  sp_Body : any;
  sp_Request : AuthorizationRequest
}.

Record OperationOutcome := { oc_Value : any; oc_Status : Z }.
Definition OperationStatusOK : Z := 200.
Definition OperationStatusCreated : Z := 201.

(** ** Ports *)

Record Ports := {
  po_Run : Actor -> OperationSpec -> (Project -> T OperationOutcome) -> T (string * Z * bool);
  po_ReadTransaction : T unit -> T unit;
  po_AuthorizeTenant : AuthorizationRequest -> T unit;
  po_AuthorizeProject : AuthorizationRequest -> T Project;
  po_Rollback : bool;
  po_RequiresActivationRead : bool;
  po_RecordAuditEvent : AuditEvent -> T unit;
  po_Authorize : Actor -> string -> string -> T unit;
  po_OwnerFreezeRefusal : Actor -> string -> T unit;
  po_ResourceExists : string -> string -> string -> T bool;
  po_Chapters : string -> T (list string);
  po_HasAPIKey : Z -> Z -> T bool;
  po_VerifyMachineNativeKey : Z -> Z -> T unit
}.

Record Oracle := {
  or_now : nat -> Z;
  or_uuid : nat -> string;
  or_range : gmap string (list string) -> list (string * list string)
}.

(** [encoding/json] for the records the operations store, and the digest of a
    key's id ([ValueHash]). *)
Record Codec := {
  co_invitation : MemberInvitation -> res error string;
  co_read_invitation : string -> res error MemberInvitation;
  co_origin : ownerTransferOrigin -> res error string;
  co_read_origin : string -> res error ownerTransferOrigin;
  co_grant : ProjectAPIKeyGrant -> res error string;
  co_read_grant : string -> res error ProjectAPIKeyGrant;
  co_ValueHash : Z -> string
}.

(** ** List helpers of [slices] *)

Definition string_le (a b : string) : Prop := String.leb a b = true.
#[export] Instance string_le_dec : RelDecision string_le.
Proof. intros a b. unfold string_le. apply _. Defined.

Definition member_le (a b : Member) : Prop := string_le (m_UserID a) (m_UserID b).
#[export] Instance member_le_dec : RelDecision member_le.
Proof. intros a b. unfold member_le. apply _. Defined.

(** [slices.Compact] *)
Fixpoint compact (l : list string) : list string :=
  match l with
  | a :: ((b :: _) as l') => if (a =? b)%string then compact l' else a :: compact l'
  | l => l
  end.

Definition map_member (members : list Member) (userID : string) (f : Member -> Member) : list Member :=
  (fun m => if (m_UserID m =? userID)%string then f m else m) <$> members.

(** The last member a condition holds of, as the pointer loops keep it. *)
Definition last_member (cond : Member -> bool) (members : list Member) : option Member :=
  foldl (fun found m => if cond m then Some m else found) None members.

Definition function_roles : list string := ["author"; "researcher"; "reviewer"; "observer"].

Definition HasPrefix (s p : string) : bool := String.prefix p s.

Section Service.
Variable db : Database.
Variable ports : Ports.
Variable codec : Codec.
Variable oracle : Oracle.
Context {X : Type} (ctx : Context X).

Definition project_request (actor : Actor) (pid action : string) : AuthorizationRequest :=
  {| rq_Actor := actor; rq_ProjectID := pid; rq_Action := action; rq_Resource := "" |}.

Definition RequireHuman : T unit := returned (RequireHumanDecision ctx ErrHumanDecisionRequired).

Definition get_invitation (pid id : string) : T (MemberInvitation * Z) :=
  GetProjectRecord db (co_read_invitation codec) pid "invitation" id.

Definition put_invitation (pid id : string) (version : Z) (invitation : MemberInvitation) : T unit :=
  PutProjectRecord db (co_invitation codec) pid "invitation" id version invitation.

Definition user_active (actor : Actor) (user : string) : T bool :=
  ActiveMember db (plain_actor (ac_TenantID actor) user).

(** The transaction the policy reads through. *)
Definition policy_tx : Transaction tables := {|
  tx_ActiveMember := ActiveMember db;
  tx_CurrentTenantRole := Some (CurrentTenantRole db);
  tx_Project := Gorm_Project db;
  tx_Chapter := Gorm_Chapter db
|}.

(** ** Validation ([lifecycle.go]) *)

Fixpoint distinct_functions (seen roles : list string) : bool :=
  match roles with
  | [] => true
  | role :: roles' =>
      if contains seen role || negb (contains function_roles role) then false
      else distinct_functions (role :: seen) roles'
  end.

Definition verifyMemberResourceScope (p : Project) (scope : string) : T unit :=
  let '(kind, id, found) := cut colon scope in
  if negb found || (id =? "")%string then fail ErrInvalidRequest
  else if (kind =? "template")%string then
    match pr_TemplateCopy p with
    | Some copy => refuse_if (negb ((id =? tc_ID copy)%string || (id =? pr_TemplateID p)%string)) ErrNotFound
    | None => fail ErrNotFound
    end
  else
    exists_ ← po_ResourceExists ports (pr_ID p) kind id;
    refuse_if (negb exists_) ErrNotFound.

Definition resource_scope (scope : string) : bool :=
  HasPrefix scope "asset:" || HasPrefix scope "knowledge:" || HasPrefix scope "template:"
  || HasPrefix scope "delivery:".

Fixpoint validate_scopes (p : Project) (seen scopes : list string) : T unit :=
  match scopes with
  | [] => mret tt
  | scope :: scopes' =>
      _ ← refuse_if ((scope =? "")%string || contains seen scope) ErrInvalidRequest;
      _ ← (if resource_scope scope then verifyMemberResourceScope p scope
           else
             _ ← refuse_if (pr_Status p =? "draft")%string ErrInvalidRequest;
             map_error (fun _ => ErrNotFound) (Gorm_Chapter db (pr_ID p) scope));
      validate_scopes p (scope :: seen) scopes'
  end.

Definition validateInvitation (p : Project) (m : Member) : T unit :=
  _ ← refuse_if ((m_UserID m =? "")%string || (64 <? len (m_UserID m))
                 || negb (TrimSpace (m_UserID m) =? m_UserID m)%string
                 || (m_Role m =? "owner")%string
                 || negb (m_GovernanceRole m =? "member")%string
                    && negb (m_GovernanceRole m =? "admin")%string) ErrInvalidRequest;
  _ ← refuse_if (negb (distinct_functions [] (m_FunctionRoles m))) ErrInvalidRequest;
  each (or_range oracle (m_FunctionScopes m)) (fun '(role, scopes) =>
    _ ← refuse_if (negb (contains (m_FunctionRoles m) role)) ErrInvalidRequest;
    validate_scopes p [] scopes).

(** The end of every write that replaces the members: the project's version
    is advanced under a compare-and-set, the members are replaced. *)
Definition advance (p : Project) (members : list Member) : Project :=
  p <| pr_ProjectVersion := pr_ProjectVersion p +i 1 |> <| pr_Members := members |>.

Definition save_project (actor : Actor) (pid : string) (p next : Project) : T unit :=
  _ ← UpdateProject db (ac_TenantID actor) p next;
  ReplaceMembers db pid (pr_Members next).

Definition audit (k : nat) (actor : Actor) (pid action target reason : string) : T unit :=
  recordProjectAuditEvent db (or_uuid oracle k) (or_now oracle k) actor pid action target reason.

(** ** Invitations ([lifecycle.go]) *)

Definition upsert_member (members : list Member) (m : Member) : list Member :=
  if existsb (fun x => (m_UserID x =? m_UserID m)%string) members
  then map_member members (m_UserID m) (fun _ => m) else members ++ [m].

Definition invite_write (actor : Actor) (pid : string) (input : InviteMemberInput) (p : Project)
  : T OperationOutcome :=
  _ ← refuse_if (negb (pr_ProjectVersion p =? ii_ExpectedProjectVersion input)) ErrVersionConflict;
  _ ← refuse_if (Archived p) ErrInvalidState;
  let m := ii_Assignment input in
  _ ← validateInvitation p m;
  active ← user_active actor (m_UserID m);
  _ ← refuse_if (negb active) ErrNotFound;
  version ← (if negb (ii_InvitationID input =? "")%string then
               '(old, version) ← get_invitation pid (ii_InvitationID input);
               _ ← refuse_if (negb (version =? ii_ExpectedInvitationVersion input)
                              || negb (mi_UserID old =? m_UserID m)%string
                              || negb (mi_Status old =? "invited")%string) ErrVersionConflict;
               mret version
             else mret 0 : T Z);
  let '(existing, exists_) := projectMember p (m_UserID m) in
  _ ← refuse_if (exists_ && negb (m_Status existing =? "invited")%string
                 && negb (m_Status existing =? "removed")%string) ErrInvalidState;
  let id := if (ii_InvitationID input =? "")%string then or_uuid oracle 0 else ii_InvitationID input in
  let now := or_now oracle 0 in
  let m := m <| m_Role := "collaborator" |> <| m_Status := "invited" |> in
  let invitation :=
    {| mi_ID := id; mi_ProjectID := pid; mi_UserID := m_UserID m; mi_Version := version +i 1;
       mi_Assignment := m; mi_Status := "invited"; mi_Inviter := ac_UserID actor;
       mi_Reason := ii_Reason input; mi_CreatedAt := now; mi_ExpiresAt := now + transfer_ttl;
       mi_AcceptedAt := None |} in
  _ ← put_invitation pid id version invitation;
  let next := advance p (upsert_member (pr_Members p) m) in
  _ ← save_project actor pid p next;
  _ ← audit 1 actor pid "member.invite" (m_UserID m) (ii_Reason input);
  mret {| oc_Value := AnyInvitation invitation; oc_Status := OperationStatusCreated |}.

Definition InviteProjectMember (actor : Actor) (pid key : string) (input : InviteMemberInput)
  : T (string * Z * bool) :=
  when (ii_ExpectedProjectVersion input <? 1) || (TrimSpace (ii_Reason input) =? "")%string
  return fail ErrInvalidRequest;
  po_Run ports actor {| sp_Name := "inviteMember"; sp_Target := pid; sp_Key := key;
                        sp_Body := AnyInvite input; sp_Request := project_request actor pid "manage" |}
    (invite_write actor pid input).

(** The read-only check before the operation. *)
Definition accept_check (actor : Actor) (pid id : string) (input : AcceptMemberInput) : T unit :=
  _ ← po_AuthorizeTenant ports (project_request actor "" "read");
  p ← Gorm_Project db (ac_TenantID actor) pid;
  _ ← refuse_if (Archived p) ErrInvalidState;
  '(checked, v) ← get_invitation pid id;
  _ ← refuse_if (negb (mi_UserID checked =? ac_UserID actor)%string) ErrNotFound;
  let expected := ai_ExpectedInvitationVersion input in
  let accepted := (mi_Status checked =? "accepted")%string in
  _ ← (if accepted then
         let '(m, ok) := projectMember p (ac_UserID actor) in
         refuse_if (negb ok || negb (m_Status m =? "active")%string
                    || negb (mi_Version checked =? expected) || negb (v =? expected +i 1)) ErrNotFound
       else refuse_if (negb (v =? expected)) ErrVersionConflict);
  refuse_if (negb accepted
             && (negb (mi_Status checked =? "invited")%string
                 || negb (or_now oracle 0 <? mi_ExpiresAt checked))) ErrInvalidState.

(** The loop over the members: the actor's invited entry becomes the invited
    assignment, active; another state of it stops the operation. *)
Fixpoint accept_members (members : list Member) (user : string) (assignment : Member)
  : res error (list Member * bool) :=
  match members with
  | [] => Ok ([], false)
  | m :: members' =>
      if (m_UserID m =? user)%string then
        if negb (m_Status m =? "invited")%string then Err ErrInvalidState
        else '(rest, _) ← accept_members members' user assignment;
             Ok ((assignment <| m_Status := "active" |>) :: rest, true)
      else '(rest, found) ← accept_members members' user assignment;
           Ok (m :: rest, found)
  end.

Definition accept_write (actor : Actor) (pid id : string) (input : AcceptMemberInput) : T OperationOutcome :=
  p ← Gorm_Project db (ac_TenantID actor) pid;
  _ ← refuse_if (Archived p) ErrInvalidState;
  '(invitation, version) ← get_invitation pid id;
  _ ← refuse_if (negb (version =? ai_ExpectedInvitationVersion input)
                 || negb (mi_Status invitation =? "invited")%string
                 || negb (or_now oracle 1 <? mi_ExpiresAt invitation)) ErrVersionConflict;
  _ ← validateInvitation p (mi_Assignment invitation);
  '(members, found) ← of_res (accept_members (pr_Members p) (ac_UserID actor) (mi_Assignment invitation));
  _ ← refuse_if (negb found) ErrNotFound;
  let invitation := invitation <| mi_Status := "accepted" |> <| mi_AcceptedAt := Some (or_now oracle 2) |> in
  _ ← put_invitation pid id version invitation;
  _ ← save_project actor pid p (advance p members);
  _ ← audit 3 actor pid "member.accept" (ac_UserID actor) "";
  mret {| oc_Value := AnyInvitation invitation; oc_Status := OperationStatusOK |}.

Definition AcceptProjectInvitation (actor : Actor) (pid id key : string) (input : AcceptMemberInput)
  : T (string * Z * bool) :=
  when ai_ExpectedInvitationVersion input <? 1 return fail ErrInvalidRequest;
  _ ← po_ReadTransaction ports (accept_check actor pid id input);
  po_Run ports actor {| sp_Name := "acceptMemberInvitation"; sp_Target := pid +:+ "/" +:+ id; sp_Key := key;
                        sp_Body := AnyAccept input; sp_Request := project_request actor "" "read" |}
    (fun _ => accept_write actor pid id input).

(** ** Member states ([lifecycle.go]) *)

Definition lifecycle_actions : list string := ["suspend"; "remove"; "restore"; "restore_tenant"].

(** The [switch] of [ChangeMemberState]: the member in its next state. *)
Definition change_state (actor : Actor) (user action : string) (m : Member) : T Member :=
  if (action =? "suspend")%string then
    _ ← refuse_if (negb (m_Status m =? "active")%string && negb (m_Status m =? "")%string) ErrInvalidState;
    mret (m <| m_Status := "suspended" |>)
  else if (action =? "remove")%string then
    _ ← refuse_if (m_Status m =? "removed")%string ErrInvalidState;
    mret (m <| m_Status := "removed" |> <| m_FunctionScopes := ∅ |>)
  else if (action =? "restore")%string || (action =? "restore_tenant")%string then
    _ ← refuse_if ((action =? "restore")%string && negb (m_Status m =? "suspended")%string
                   || (action =? "restore_tenant")%string
                      && negb (m_Status m =? "suspended_by_tenant")%string) ErrInvalidState;
    active ← user_active actor user;
    _ ← refuse_if (negb active) ErrNotFound;
    mret (m <| m_Status := "active" |>)
  else mret m.

Definition state_write (actor : Actor) (pid user : string) (input : MemberLifecycleInput) (p : Project)
  : T OperationOutcome :=
  _ ← refuse_if (negb (pr_ProjectVersion p =? li_ExpectedProjectVersion input)) ErrVersionConflict;
  let '(m, found) := projectMember p user in
  _ ← refuse_if (negb found || (governanceRole m =? "owner")%string) ErrInvalidState;
  m ← change_state actor user (li_Action input) m;
  let next := advance p (map_member (pr_Members p) user (fun _ => m)) in
  _ ← save_project actor pid p next;
  _ ← audit 0 actor pid ("member." +:+ li_Action input) user (li_Reason input);
  mret {| oc_Value := AnyProject next; oc_Status := OperationStatusOK |}.

Definition ChangeMemberState (actor : Actor) (pid user key : string) (input : MemberLifecycleInput)
  : T (string * Z * bool) :=
  when (li_ExpectedProjectVersion input <? 1) || (TrimSpace (li_Reason input) =? "")%string
       || negb (contains lifecycle_actions (li_Action input)) return fail ErrInvalidRequest;
  po_Run ports actor {| sp_Name := "memberLifecycle"; sp_Target := pid +:+ "/" +:+ user; sp_Key := key;
                        sp_Body := AnyLifecycle input; sp_Request := project_request actor pid "manage" |}
    (state_write actor pid user input).

(** ** Assignments ([ext.go]) *)

Definition assignment_write (actor : Actor) (pid user : string) (input : MemberAssignmentInput) (p : Project)
  : T OperationOutcome :=
  _ ← refuse_if (negb (pr_ProjectVersion p =? mai_ExpectedProjectVersion input)) ErrVersionConflict;
  let '(old, exists_) := projectMember p user in
  _ ← refuse_if (negb exists_ || (governanceRole old =? "owner")%string
                 || negb (m_Status old =? "")%string && negb (m_Status old =? "active")%string)
        ErrInvalidState;
  let nextMember := mai_Assignment input in
  _ ← validateInvitation p nextMember;
  active ← user_active actor user;
  _ ← refuse_if (negb active) ErrNotFound;
  let nextMember := nextMember <| m_Role := "collaborator" |> <| m_Status := "active" |> in
  let next := advance p (map_member (pr_Members p) user (fun _ => nextMember)) in
  _ ← save_project actor pid p next;
  _ ← audit 0 actor pid "member.assignment" user (mai_Reason input);
  mret {| oc_Value := AnyProject next; oc_Status := OperationStatusOK |}.

Definition SetMemberAssignment (actor : Actor) (pid user key : string) (input : MemberAssignmentInput)
  : T (string * Z * bool) :=
  when negb (m_UserID (mai_Assignment input) =? user)%string || (mai_ExpectedProjectVersion input <? 1)
       || (TrimSpace (mai_Reason input) =? "")%string return fail ErrInvalidRequest;
  po_Run ports actor {| sp_Name := "memberAssignment"; sp_Target := pid +:+ "/" +:+ user; sp_Key := key;
                        sp_Body := AnyAssignment input; sp_Request := project_request actor pid "manage" |}
    (assignment_write actor pid user input).

(** ** Saving the members at once ([results.go])

    The details of the audit records keep the user ids of what the source
    writes there. *)

(** The events the writes of this group record. *)
Definition write_event (actor : Actor) (pid action : string) (details : gmap string string) : AuditEvent :=
  {| ae_ID := or_uuid oracle 0; ae_ProjectID := pid; ae_ActorID := ac_UserID actor; ae_Action := action;
     ae_Target := pid; ae_Details := details; ae_CreatedAt := or_now oracle 0; ae_TenantID := 0;
     ae_UserID := ""; ae_Role := ""; ae_Capability := ""; ae_Decision := ""; ae_Reason := "" |}.

(** [slices.Sort], then [slices.Compact] on a copy. *)
Definition has_duplicates (ids : list string) : bool :=
  negb (Nat.eqb (List.length (compact ids)) (List.length ids)).

Definition valid_collaborator (actor : Actor) (id : string) : bool :=
  (TrimSpace id =? id)%string && negb (id =? "")%string && (len id <=? 64)
  && negb (id =? ac_UserID actor)%string.

Definition is_collaborator (m : Member) : bool := (m_Role m =? "collaborator")%string.

Definition plain_collaborator (id : string) : Member :=
  zero_member <| m_UserID := id |> <| m_Role := "collaborator" |>.

Definition collaborators_write (actor : Actor) (pid : string) (input : SaveMembersInput)
  (ids : list string) (p : Project) : T OperationOutcome :=
  _ ← refuse_if (negb (pr_ProjectVersion p =? si_ExpectedProjectVersion input)) ErrVersionConflict;
  _ ← each ids (fun id =>
        active ← user_active actor id;
        refuse_if (negb active) ErrInvalidState);
  let existing := merge_sort string_le
        (m_UserID <$> List.filter is_collaborator (pr_Members p)) in
  let others := List.filter (fun m => negb (is_collaborator m)) (pr_Members p) in
  if bool_decide (existing = ids) then mret {| oc_Value := AnyProject p; oc_Status := OperationStatusOK |}
  else
    let next := p <| pr_ProjectVersion := pr_ProjectVersion p +i 1 |> in
    _ ← UpdateProject db (ac_TenantID actor) p next;
    _ ← ReplaceCollaborators db pid ids;
    _ ← RecordAudit db (write_event actor pid "project.member_permissions.replace" {[ "collaborator_user_ids" := String.concat "," ids ]});
    let members := merge_sort member_le (others ++ (plain_collaborator <$> ids)) in
    mret {| oc_Value := AnyProject (next <| pr_Members := members |>); oc_Status := OperationStatusOK |}.

(** The loop that finds the one owner. *)
Fixpoint owner_scan (ownerID : string) (members : list Member) : res error string :=
  match members with
  | [] => Ok ownerID
  | m :: members' =>
      if (m_Role m =? "owner")%string then
        if negb (ownerID =? "")%string then Err ErrInvalidState else owner_scan (m_UserID m) members'
      else owner_scan ownerID members'
  end.

(** The owner entries kept by [saveMemberPermissions]. *)
Definition owner_entry (m : Member) : Member :=
  {| m_UserID := m_UserID m; m_Role := "owner"; m_GovernanceRole := "owner"; m_FunctionRoles := [];
     m_FunctionScopes := ∅; m_Status := "active" |}.

Definition distinct_scopes (chapters scopes : list string) : bool :=
  bool_decide (NoDup scopes)
  && forallb (fun scope => negb (scope =? "")%string
                           && (contains chapters scope || HasPrefix scope "asset:"
                               || HasPrefix scope "delivery:")) scopes.

(** The checks of one entry after the tenant was asked. *)
Definition valid_functions (chapters : list string) (m : Member) : bool :=
  distinct_functions [] (m_FunctionRoles m)
  && forallb (fun '(role, scopes) => contains (m_FunctionRoles m) role && distinct_scopes chapters scopes)
       (map_to_list (m_FunctionScopes m)).

Fixpoint permission_members (actor : Actor) (chapters seen : list string) (input : list Member)
  : T (list Member) :=
  match input with
  | [] => mret []
  | m :: input' =>
      _ ← refuse_if ((m_UserID m =? "")%string || (64 <? len (m_UserID m))
                     || negb (TrimSpace (m_UserID m) =? m_UserID m)%string
                     || contains seen (m_UserID m)
                     || negb (m_GovernanceRole m =? "admin")%string
                        && negb (m_GovernanceRole m =? "member")%string) ErrInvalidRequest;
      _ ← refuse_if (negb (m_Role m =? "")%string && negb (m_Role m =? "collaborator")%string)
            ErrInvalidRequest;
      _ ← refuse_if (negb (m_Status m =? "")%string && negb (m_Status m =? "active")%string
                     && negb (m_Status m =? "suspended")%string) ErrInvalidRequest;
      active ← user_active actor (m_UserID m);
      _ ← refuse_if (negb active) ErrInvalidState;
      _ ← refuse_if (negb (valid_functions chapters m)) ErrInvalidRequest;
      let m := m <| m_Role := "collaborator" |>
                 <| m_Status := if (m_Status m =? "")%string then "active" else m_Status m |> in
      rest ← permission_members actor chapters (m_UserID m :: seen) input';
      mret (m :: rest)
  end.

Definition permissions_write (actor : Actor) (pid : string) (input : SaveMembersInput)
  (assignments : list Member) (p : Project) : T OperationOutcome :=
  _ ← refuse_if (negb (pr_ProjectVersion p =? si_ExpectedProjectVersion input)) ErrVersionConflict;
  let owners := List.filter (fun m => (m_Role m =? "owner")%string) (pr_Members p) in
  ownerID ← of_res (owner_scan "" (pr_Members p));
  _ ← refuse_if (ownerID =? "")%string ErrInvalidState;
  chapters ← po_Chapters ports pid;
  entries ← permission_members actor chapters [ownerID] assignments;
  let members := merge_sort member_le ((owner_entry <$> owners) ++ entries) in
  let next := advance p members in
  _ ← save_project actor pid p next;
  _ ← RecordAudit db (write_event actor pid "project.member_permissions.replace" {[ "members" := String.concat "," (m_UserID <$> assignments) ]});
  mret {| oc_Value := AnyProject next; oc_Status := OperationStatusOK |}.

(** [_ = s.policy.RecordAuditEvent(...)] after a run that was not a replay. *)
Definition announce (actor : Actor) (pid : string) (details : gmap string string) (outcome : string * Z * bool)
  : T (string * Z * bool) :=
  let '(_, _, replayed) := outcome in
  _ ← (if (replayed : bool) then mret tt
       else ignore_error (po_RecordAuditEvent ports
              {| ae_ID := ""; ae_ProjectID := pid; ae_ActorID := ""; ae_Action := ""; ae_Target := "";
                 ae_Details := details; ae_CreatedAt := 0;
                 ae_TenantID := ac_TenantID actor; ae_UserID := ac_UserID actor; ae_Role := ac_Role actor;
                 ae_Capability := "manage:members"; ae_Decision := "allow"; ae_Reason := "" |}));
  mret outcome.

Definition saveMemberPermissions (actor : Actor) (pid key : string) (input : SaveMembersInput)
  (assignments : list Member) : T (string * Z * bool) :=
  when po_Rollback ports return fail ErrInvalidState;
  when (si_ExpectedProjectVersion input <? 1) || negb (is_nil (si_CollaboratorUserIDs input))
       || (20 <? Z.of_nat (List.length assignments)) return fail ErrInvalidRequest;
  outcome ← po_Run ports actor
      {| sp_Name := "saveMembers"; sp_Target := pid; sp_Key := key; sp_Body := AnySaveMembers input;
         sp_Request := project_request actor pid "manage" |}
      (permissions_write actor pid input assignments);
  announce actor pid (<["change" := "member_permissions_replaced"]>
      {[ "members" := String.concat "," (m_UserID <$> assignments) ]}) outcome.

Definition SaveMembers (actor : Actor) (pid key : string) (input : SaveMembersInput)
  : T (string * Z * bool) :=
  when po_RequiresActivationRead ports return fail ErrProjectInvitationRequired;
  match si_Members input with
  | Some assignments => saveMemberPermissions actor pid key input assignments
  | None =>
      match si_CollaboratorUserIDs input with
      | None => fail ErrInvalidRequest
      | Some requested =>
          when (si_ExpectedProjectVersion input <? 1) || (20 <? Z.of_nat (List.length requested))
          return fail ErrInvalidRequest;
          let ids := merge_sort string_le requested in
          when has_duplicates ids return fail ErrInvalidRequest;
          when negb (forallb (valid_collaborator actor) ids) return fail ErrInvalidRequest;
          po_Run ports actor
            {| sp_Name := "saveMembers"; sp_Target := pid; sp_Key := key; sp_Body := AnySaveMembers input;
               sp_Request := project_request actor pid "manage" |}
            (collaborators_write actor pid input ids)
      end
  end.

(** ** Ownership ([results.go]) *)

Definition set_owner_role (m : Member) (role governance : string) : Member :=
  m <| m_Role := role |> <| m_GovernanceRole := governance |> <| m_FunctionRoles := [] |>
    <| m_FunctionScopes := ∅ |>.

Definition swap_owner (from to : string) (m : Member) : Member :=
  if (m_UserID m =? from)%string then set_owner_role m "collaborator" "member"
  else if (m_UserID m =? to)%string then set_owner_role m "owner" "owner" else m.

Definition transfer_write (actor : Actor) (pid : string) (input : TransferOwnerInput) (p : Project)
  : T OperationOutcome :=
  _ ← refuse_if (negb (pr_ProjectVersion p =? ti_ExpectedProjectVersion input)) ErrVersionConflict;
  let currentOwner := last_member (fun m => (m_Role m =? "owner")%string) (pr_Members p) in
  let recipient := last_member (fun m => (m_UserID m =? ti_NewOwnerUserID input)%string) (pr_Members p) in
  match currentOwner, recipient with
  | Some owner, Some recipient =>
      _ ← refuse_if (negb (m_UserID owner =? ac_UserID actor)%string
                     || (m_Role recipient =? "owner")%string) ErrNotFound;
      active ← user_active actor (m_UserID recipient);
      _ ← refuse_if (negb active) ErrInvalidState;
      let members := swap_owner (ac_UserID actor) (m_UserID recipient) <$> pr_Members p in
      let next := advance p members in
      _ ← save_project actor pid p next;
      _ ← RecordAudit db (write_event actor pid "project.owner_transfer" {[ "new_owner_user_id" := ti_NewOwnerUserID input ]});
      mret {| oc_Value := AnyProject next; oc_Status := OperationStatusOK |}
  | _, _ => fail ErrNotFound
  end.

Definition TransferOwner (actor : Actor) (pid key : string) (input : TransferOwnerInput)
  : T (string * Z * bool) :=
  when po_Rollback ports return fail ErrInvalidState;
  let user := ti_NewOwnerUserID input in
  when (ti_ExpectedProjectVersion input <? 1) || negb (TrimSpace user =? user)%string
       || (user =? "")%string || (64 <? len user) || (user =? ac_UserID actor)%string
  return fail ErrInvalidRequest;
  _ ← po_OwnerFreezeRefusal ports actor pid;
  outcome ← po_Run ports actor
      {| sp_Name := "transferOwner"; sp_Target := pid; sp_Key := key; sp_Body := AnyTransferOwner input;
         sp_Request := project_request actor pid "manage" |}
      (transfer_write actor pid input);
  announce actor pid (<["change" := "owner_transfer"]> {[ "new_owner_user_id" := ti_NewOwnerUserID input ]}) outcome.

Definition put_origin (pid id : string) (origin : ownerTransferOrigin) : T unit :=
  PutProjectRecord db (co_origin codec) pid "owner_transfer_origin" id 0 origin.

Definition recordOwnerTransferOrigin (actor : Actor) (p : Project) (transfer : OwnerTransfer) : T unit :=
  _ ← put_origin (pr_ID p) (ot_ID transfer)
        {| oo_RequesterID := ac_UserID actor;
           oo_Recovery := negb (ac_UserID actor =? ot_FromUserID transfer)%string |};
  audit 5 actor (pr_ID p) "owner.transfer.request" (ot_ID transfer) "".

(** [err != nil || !ok] on a question that answers a bool. *)
Definition or_false (m : T bool) : T bool :=
  answer ← attempt m;
  mret (match answer with Ok b => b | Err _ => false end).

Definition inactive_assignment (p : Project) (user : string) : bool :=
  let '(m, ok) := projectMember p user in
  negb ok || negb (m_Status m =? "")%string && negb (m_Status m =? "active")%string.

Definition request_write (actor : Actor) (pid : string) (input : OwnerTransferInput) : T OperationOutcome :=
  p ← Gorm_Project db (ac_TenantID actor) pid;
  match projectOwnerUser p with
  | None => fail ErrInvalidState
  | Some currentOwner =>
      _ ← refuse_if (currentOwner =? "")%string ErrInvalidState;
      authority ← OwnerAuthorityOf policy_tx p (ac_TenantID actor);
      currentRole ← currentTenantRole policy_tx actor;
      let isRecoveryAdmin := (currentRole =? TenantRoleOwner)%string in
      _ ← refuse_if (negb (ac_UserID actor =? currentOwner)%string
                     && (negb isRecoveryAdmin || oa_Available authority)) ErrNotFound;
      _ ← refuse_if (negb (pr_ProjectVersion p =? oi_ExpectedProjectVersion input)
                     || (pr_Status p =? "archived")%string) ErrVersionConflict;
      _ ← refuse_if (negb (is_nil (pr_DiscardedAt p))) ErrInvalidState;
      active ← or_false (user_active actor (oi_ToUserID input));
      _ ← refuse_if (negb active) ErrInvalidState;
      _ ← refuse_if (po_RequiresActivationRead ports && inactive_assignment p (oi_ToUserID input))
            ErrNotFound;
      let transfer :=
        {| ot_ID := or_uuid oracle 0; ot_ProjectID := pid; ot_FromUserID := currentOwner;
           ot_ToUserID := oi_ToUserID input; ot_Status := "pending";
           ot_ExpectedProjectVersion := pr_ProjectVersion p; ot_CreatedAt := or_now oracle 0;
           ot_AcceptedAt := None |} in
      _ ← InsertOwnerTransfer db (or_now oracle 1) transfer;
      _ ← (if po_RequiresActivationRead ports then recordOwnerTransferOrigin actor p transfer
           else mret tt);
      mret {| oc_Value := AnyTransfer transfer; oc_Status := OperationStatusCreated |}
  end.

Definition RequestOwnerTransfer (actor : Actor) (pid key : string) (input : OwnerTransferInput)
  : T (string * Z * bool) :=
  let input := {| oi_ToUserID := TrimSpace (oi_ToUserID input);
                  oi_ExpectedProjectVersion := oi_ExpectedProjectVersion input |} in
  when (oi_ToUserID input =? "")%string || (oi_ToUserID input =? ac_UserID actor)%string
       || (oi_ExpectedProjectVersion input <? 1) return fail ErrInvalidRequest;
  _ ← po_OwnerFreezeRefusal ports actor pid;
  po_Run ports actor {| sp_Name := "requestOwnerTransfer"; sp_Target := pid; sp_Key := key;
                        sp_Body := AnyOwnerTransferInput input;
                        sp_Request := project_request actor "" "read" |}
    (fun _ => request_write actor pid input).

Definition verifyOwnerTransferOrigin (actor : Actor) (p : Project) (transfer : OwnerTransfer) : T unit :=
  _ ← RequireHuman;
  '(origin, _) ← map_error (fun _ => ErrInvalidState)
    (GetProjectRecord db (co_read_origin codec) (pr_ID p) "owner_transfer_origin" (ot_ID transfer));
  available ← (if oo_Recovery origin || (oo_RequesterID origin =? ot_FromUserID transfer)%string
               then ownerCurrentlyAvailable policy_tx p (ac_TenantID actor) (ot_FromUserID transfer)
               else mret false);
  _ ← (if oo_Recovery origin then
         _ ← refuse_if available ErrInvalidState;
         role ← map_error (fun _ => ErrNotFound)
           (currentTenantRole policy_tx (plain_actor (ac_TenantID actor) (oo_RequesterID origin)));
         refuse_if (negb (role =? TenantRoleOwner)%string) ErrNotFound
       else refuse_if (negb (oo_RequesterID origin =? ot_FromUserID transfer)%string || negb available)
              ErrInvalidState);
  role ← map_error (fun _ => ErrNotFound) (currentTenantRole policy_tx actor);
  refuse_if (negb (role =? "")%string && negb (HasPermission role TenantRoleContributor)) ErrNotFound.

Definition accept_transfer_write (actor : Actor) (pid transferID : string) : T OperationOutcome :=
  let strict := po_RequiresActivationRead ports in
  _ ← refuse_if (negb (validActor actor)) ErrNotFound;
  p ← Gorm_Project db (ac_TenantID actor) pid;
  _ ← refuse_if (negb (is_nil (pr_DiscardedAt p))) ErrInvalidState;
  transfer ← map_error (fun _ => ErrInvalidState) (Gorm_OwnerTransfer db pid transferID);
  _ ← refuse_if (negb (ot_Status transfer =? "pending")%string
                 || negb (ot_ToUserID transfer =? ac_UserID actor)%string) ErrInvalidState;
  _ ← refuse_if (transfer_ttl <? or_now oracle 0 - ot_CreatedAt transfer) ErrInvalidState;
  _ ← refuse_if (strict && inactive_assignment p (ac_UserID actor)) ErrNotFound;
  _ ← refuse_if (negb (ot_ExpectedProjectVersion transfer =? pr_ProjectVersion p)) ErrVersionConflict;
  _ ← (if strict then verifyOwnerTransferOrigin actor p transfer else mret tt);
  active ← or_false (ActiveMember db actor);
  _ ← refuse_if (negb active) ErrNotFound;
  _ ← EnsureMember db pid (ac_UserID actor) "collaborator";
  _ ← UpdateProject db (ac_TenantID actor) p (p <| pr_ProjectVersion := pr_ProjectVersion p +i 1 |>);
  _ ← SetMemberRole db pid (ot_FromUserID transfer) "collaborator";
  _ ← SetMemberRole db pid (ac_UserID actor) "owner";
  let acceptedAt := or_now oracle 1 in
  _ ← AcceptOwnerTransfer db pid transferID (ot_ExpectedProjectVersion transfer) acceptedAt;
  _ ← (if strict then audit 2 actor (pr_ID p) "owner.transfer.accept" (ot_ID transfer) "" else mret tt);
  mret {| oc_Value := AnyTransfer (transfer <| ot_Status := "accepted" |> <| ot_AcceptedAt := Some acceptedAt |>);
          oc_Status := OperationStatusOK |}.

Definition Membership_AcceptOwnerTransfer (actor : Actor) (pid transferID key : string)
  : T (string * Z * bool) :=
  _ ← (if po_RequiresActivationRead ports then
         _ ← RequireHuman;
         po_Authorize ports actor pid "read"
       else mret tt);
  po_Run ports actor {| sp_Name := "acceptOwnerTransfer"; sp_Target := pid +:+ "/" +:+ transferID;
                        sp_Key := key; sp_Body := AnyTransferID transferID;
                        sp_Request := project_request actor "" "read" |}
    (fun _ => accept_transfer_write actor pid transferID).

(** [ext.go] *)
Definition reject_write (actor : Actor) (pid id : string) (input : OwnerTransferDecisionInput) (p : Project)
  : T OperationOutcome :=
  _ ← refuse_if (negb (pr_ProjectVersion p =? di_ExpectedProjectVersion input)) ErrVersionConflict;
  item ← Gorm_OwnerTransfer db pid id;
  _ ← refuse_if (negb (ot_Status item =? "pending")%string
                 || negb (ot_ToUserID item =? ac_UserID actor)%string
                    && negb (projectOwner p (ac_UserID actor))) ErrNotFound;
  _ ← refuse_if (transfer_ttl <? or_now oracle 0 - ot_CreatedAt item) ErrInvalidState;
  _ ← cancelOwnerTransfer db pid id;
  _ ← audit 1 actor pid "owner.transfer.reject" id (di_Reason input);
  mret {| oc_Value := AnyTransfer (item <| ot_Status := "cancelled" |>); oc_Status := OperationStatusOK |}.

Definition RejectOwnerTransfer (actor : Actor) (pid id key : string) (input : OwnerTransferDecisionInput)
  : T (string * Z * bool) :=
  when (di_ExpectedProjectVersion input <? 1) || (TrimSpace (di_Reason input) =? "")%string
  return fail ErrInvalidRequest;
  po_Run ports actor {| sp_Name := "rejectOwnerTransfer"; sp_Target := pid +:+ "/" +:+ id; sp_Key := key;
                        sp_Body := AnyDecision input; sp_Request := project_request actor pid "read" |}
    (reject_write actor pid id input).

(** ** API key grants ([ext.go]) *)

Definition grant_write (actor : Actor) (pid : string) (input : ProjectAPIKeyGrant) (p : Project)
  : T OperationOutcome :=
  _ ← refuse_if (negb (pr_ProjectVersion p =? kg_ExpectedProjectVersion input)) ErrVersionConflict;
  has ← po_HasAPIKey ports (ac_TenantID actor) (kg_KeyID input);
  _ ← refuse_if (negb has) ErrNotFound;
  _ ← (if kg_Active input then po_VerifyMachineNativeKey ports (ac_TenantID actor) (kg_KeyID input)
       else mret tt);
  let id := co_ValueHash codec (kg_KeyID input) in
  old ← attempt (GetProjectRecord db (co_read_grant codec) pid "api_key_grant" id);
  version ← match old with
            | Ok (_, version) => mret version
            | Err err => if bool_decide (err = ErrNotFound) then mret 0 else fail err
            end;
  let input := input <| kg_CreatedBy := ac_UserID actor |> <| kg_UpdatedAt := or_now oracle 0 |> in
  _ ← PutProjectRecord db (co_grant codec) pid "api_key_grant" id version input;
  _ ← audit 1 actor pid "api_key.scope" id (kg_Reason input);
  mret {| oc_Value := AnyGrant input; oc_Status := OperationStatusOK |}.

Definition SaveProjectAPIKeyGrant (actor : Actor) (pid key : string) (input : ProjectAPIKeyGrant)
  : T (string * Z * bool) :=
  when (kg_KeyID input =? 0) || (kg_ExpectedProjectVersion input <? 1)
       || (TrimSpace (kg_Reason input) =? "")%string return fail ErrInvalidRequest;
  when negb (forallb (fun cap => (cap =? "read")%string) (kg_Capabilities input))
  return fail ErrInvalidRequest;
  po_Run ports actor {| sp_Name := "apiKeyProjectGrant"; sp_Target := pid; sp_Key := key;
                        sp_Body := AnyGrant input; sp_Request := project_request actor pid "manage" |}
    (grant_write actor pid input).

(** ** Tenant suspension ([membership_lifecycle.go]) *)

(** One round of the loop of [CaptureTenantSuspension]. *)
Definition suspend_in (tenant : Z) (user : string) (p : Project) : T unit :=
  let actor := plain_actor tenant user in
  let '(m, _) := projectMember p user in
  when (governanceRole m =? "owner")%string
       || negb (m_Status m =? "")%string && negb (m_Status m =? "active")%string return mret tt;
  let next := advance p (map_member (pr_Members p) user (fun m => m <| m_Status := "suspended_by_tenant" |>)) in
  _ ← UpdateProject db tenant p next;
  _ ← ReplaceMembers db (pr_ID p) (pr_Members next);
  audit 0 actor (pr_ID p) "member.tenant_suspended" user "tenant_membership_changed".

(** The suspension runs in one transaction over the user's projects. *)
Definition CaptureTenantSuspension (tenant : Z) (user : string) : T unit :=
  projects ← Gorm_Projects db tenant user 10000;
  each projects (suspend_in tenant user).
End Service.
