(* ===== verification/MembershipLaws.v ===== *)
(** What one member operation does to the ownership of a project: the laws of
    the ports, the abstract machine of ownership the operations refine, and
    the effect of each write on it. *)

From stdpp Require Import sorting.
From S2P Require Import Prelude Effects OperationCore OperationStore Workspace Permission PermissionTheorems MemberStore MemberLaws Membership.

(** ** What the ports must leave alone *)

(** The tables of membership agree; provenance snapshots and audit may not. *)
Record membership_eq (w w' : tables) : Prop := {
  meq_projects : tb_projects w' = tb_projects w;
  meq_members : tb_members w' = tb_members w;
  meq_permissions : tb_permissions w' = tb_permissions w;
  meq_transfers : tb_transfers w' = tb_transfers w;
  meq_tenants : tb_tenant_members w' = tb_tenant_members w;
  meq_records pid kind id : provenance_kind kind = false ->
    tb_records w' !! (pid, kind, id) = tb_records w !! (pid, kind, id)
}.

#[export] Instance membership_eq_refl : Reflexive membership_eq.
Proof. by split. Qed.

#[export] Instance membership_eq_trans : Transitive membership_eq.
Proof.
  intros a b c [H1 H2 H3 H4 H5 H6] [K1 K2 K3 K4 K5 K6].
  split; [congruence..|]. intros pid kind id N. by rewrite K6, H6.
Qed.

Definition quiet {A} (m : T A) : Prop := forall w, membership_eq w (m w).1.

Lemma reads_quiet {A} (m : T A) : reads m -> quiet m.
Proof. intros R w. rewrite (reads_run m w R). done. Qed.

(** The request was authorized, and read [p], on a store whose membership is
    the one of [w]: between the two the pipeline writes audit and provenance. *)
Definition authorized (db : Database) (request : AuthorizationRequest) (w : tables) (p : Project) : Prop :=
  exists wa, membership_eq wa w /\ authorizeCurrentProject (policy_tx db) request wa = (wa, Ok p).

(** A write that was committed: it ran on the project the request was
    authorized for, or on the zero project where the request names none. *)
Definition committed (db : Database) (spec : OperationSpec) (write : Project -> T OperationOutcome)
  (w w' : tables) : Prop :=
  exists w0 w1 p o,
    membership_eq w w0 /\ write p w0 = (w1, Ok o) /\ membership_eq w1 w'
    /\ (if (rq_ProjectID (sp_Request spec) =? "")%string then p = zero_project
        else authorized db (sp_Request spec) w0 p).

Class PortsLaws (db : Database) (ports : Ports) := {
  (** a run replays, or commits the write *)
  run_ok actor spec write w w' body status replayed :
    rq_Actor (sp_Request spec) = actor ->
    po_Run ports actor spec write w = (w', Ok (body, status, replayed)) ->
    if (replayed : bool) then membership_eq w w' else committed db spec write w w';
  (** a failed run changed nothing, or committed and failed to render *)
  run_err actor spec write w w' e :
    rq_Actor (sp_Request spec) = actor ->
    po_Run ports actor spec write w = (w', Err e) ->
    membership_eq w w' \/ committed db spec write w w';
  read_quiet m : quiet (po_ReadTransaction ports m);
  event_quiet e : quiet (po_RecordAuditEvent ports e);
  authorize_quiet actor pid cap : quiet (po_Authorize ports actor pid cap);
  freeze_quiet actor pid : quiet (po_OwnerFreezeRefusal ports actor pid);
  resource_reads pid kind id : reads (po_ResourceExists ports pid kind id);
  chapters_reads pid : reads (po_Chapters ports pid);
  api_key_reads tenant key : reads (po_HasAPIKey ports tenant key);
  native_key_reads tenant key : reads (po_VerifyMachineNativeKey ports tenant key)
}.

Class OracleLaws (oracle : Oracle) := {
  range_perm m : or_range oracle m ≡ₚ map_to_list m
}.

(** ** Ownership *)

Definition owns (w : tables) (pid u : string) : Prop := tb_members w !! (pid, u) = Some "owner".

(** The stored status of a user's seat, where one is stored, is an active one. *)
Definition seat_ok (w : tables) (pid u : string) : Prop :=
  forall row, tb_permissions w !! (pid, u) = Some row -> mp_Status row = "" \/ mp_Status row = "active".

Definition well_owned (w : tables) (pid u : string) : Prop :=
  owns w pid u /\ seat_ok w pid u /\ forall v, owns w pid v -> v = u.

(** The abstract machine: a project has a version, one owner, and pending
    offers of ownership. *)
Record ownership := {
  own_version : Z;
  own_owner : string;
  own_offers : gmap string (string * Z)
}.

Inductive ownership_act :=
| Edit                  (* the members changed, not the owner *)
| HandOver (to : string)
| Offer (id to : string)
| Close (id : string)
| Accept (id : string).

Inductive ownership_step : ownership_act -> ownership -> ownership -> Prop :=
| own_edit v u offers :
    ownership_step Edit
      {| own_version := v; own_owner := u; own_offers := offers |}
      {| own_version := v + 1; own_owner := u; own_offers := offers |}
| own_hand_over v u to offers :
    ownership_step (HandOver to)
      {| own_version := v; own_owner := u; own_offers := offers |}
      {| own_version := v + 1; own_owner := to; own_offers := offers |}
| own_offer v u offers id to :
    ownership_step (Offer id to)
      {| own_version := v; own_owner := u; own_offers := offers |}
      {| own_version := v; own_owner := u; own_offers := {[ id := (to, v) ]} |}
| own_close v u offers id :
    ownership_step (Close id)
      {| own_version := v; own_owner := u; own_offers := offers |}
      {| own_version := v; own_owner := u; own_offers := delete id offers |}
| own_accept v u offers id to :
    offers !! id = Some (to, v) ->
    ownership_step (Accept id)
      {| own_version := v; own_owner := u; own_offers := offers |}
      {| own_version := v + 1; own_owner := to; own_offers := delete id offers |}.

Definition pending (pid : string) (t : OwnerTransfer) : Prop :=
  ot_ProjectID t = pid /\ ot_Status t = "pending".

#[export] Instance pending_dec (pid : string) (t : OwnerTransfer) : Decision (pending pid t).
Proof. unfold pending. apply _. Defined.

Definition offers_of (w : tables) (pid : string) : gmap string (string * Z) :=
  (fun t => (ot_ToUserID t, ot_ExpectedProjectVersion t)) <$> filter (fun it => pending pid it.2) (tb_transfers w).

(** The abstraction relation: the offers are those of the current owner, or
    stale. *)
Record abstracts (pid : string) (w : tables) (a : ownership) : Prop := {
  abs_row : exists row, tb_projects w !! pid = Some row /\ row_ProjectVersion row = own_version a;
  abs_version : 0 <= own_version a;
  abs_owner : well_owned w pid (own_owner a);
  abs_offers : own_offers a = offers_of w pid;
  abs_from id t : tb_transfers w !! id = Some t -> pending pid t ->
    ot_ExpectedProjectVersion t <= own_version a
    /\ (ot_ExpectedProjectVersion t = own_version a -> ot_FromUserID t = own_owner a)
}.

Lemma abstracts_eq pid w w' a : membership_eq w w' -> abstracts pid w a -> abstracts pid w' a.
Proof.
  intros [E1 E2 E3 E4 E5 E6] [A1 A2 [O1 [O2 O3]] A4 A5].
  split; [by rewrite E1|done| |unfold offers_of; by rewrite E4|by rewrite E4].
  unfold well_owned, owns, seat_ok in *. rewrite E2, E3. done.
Qed.

(** *** Edits: the members change, the owner does not *)

(** What an edit of a project's members keeps, seen from project [pid']. *)
Record edited (pid : string) (w w' : tables) : Prop := {
  ed_row : exists row row', tb_projects w !! pid = Some row
      /\ tb_projects w' = <[pid := row']> (tb_projects w)
      /\ row_ProjectVersion row' = row_ProjectVersion row +i 1;
  ed_transfers : tb_transfers w' = tb_transfers w;
  ed_others pid' v : pid' <> pid ->
    tb_members w' !! (pid', v) = tb_members w !! (pid', v)
    /\ tb_permissions w' !! (pid', v) = tb_permissions w !! (pid', v)
}.

Lemma well_owned_others pid' u w w' :
  (forall v, tb_members w' !! (pid', v) = tb_members w !! (pid', v)
             /\ tb_permissions w' !! (pid', v) = tb_permissions w !! (pid', v)) ->
  well_owned w pid' u -> well_owned w' pid' u.
Proof.
  intros E (H1 & H2 & H3). unfold well_owned, owns, seat_ok in *. split; [|split].
  - by rewrite (proj1 (E u)).
  - intros row. rewrite (proj2 (E u)). apply H2.
  - intros v. rewrite (proj1 (E v)). apply H3.
Qed.

Lemma next_version v : 0 <= v < max_int64 -> v +i 1 = v + 1.
Proof. intros B. apply i64_id. unfold int64_range, min_int64, max_int64 in *. lia. Qed.

Definition room (w : tables) : Prop :=
  forall pid row, tb_projects w !! pid = Some row -> row_ProjectVersion row < max_int64.

(** The abstract state after an edit that leaves the project to [u]; seen from
    another project it is no step at all. *)
Definition after_edit (pid pid' u : string) (a : ownership) : ownership :=
  if decide (pid' = pid)
  then {| own_version := own_version a + 1; own_owner := u; own_offers := own_offers a |} else a.

Lemma edited_simulates pid pid' w w' a u :
  edited pid w w' -> room w -> abstracts pid' w a -> (pid' = pid -> well_owned w' pid u) ->
  abstracts pid' w' (after_edit pid pid' u a).
Proof.
  intros [(row & row' & Hrow & Hrow' & Hv) Et Eo] R A Ho. destruct A as [(r & Hr & Hrv) A2 A3 A4 A5].
  unfold after_edit. destruct (decide (pid' = pid)) as [->|N].
  - specialize (Ho eq_refl). assert (r = row) as -> by congruence.
    assert (row_ProjectVersion row' = own_version a + 1) as Hv'.
    { rewrite Hv, Hrv. apply next_version. specialize (R _ _ Hrow). lia. }
    split; cbn; [|lia|done|by unfold offers_of in *; rewrite Et|].
    + exists row'. rewrite Hrow'. by rewrite lookup_insert_eq.
    + rewrite Et. intros id t Ht P. destruct (A5 id t Ht P). lia.
  - split; [|done| |unfold offers_of in *; by rewrite Et|by rewrite Et].
    + exists r. rewrite Hrow'. by rewrite lookup_insert_ne.
    + eapply well_owned_others; [|done]. intros v. by apply Eo.
Qed.

(** ** The owner in a list of members *)

Record owner_only (members : list Member) (u : string) : Prop := {
  oo_seat : exists m, m ∈ members /\ m_UserID m = u /\ m_Role m = "owner" /\ active_status m = true;
  oo_alone m : m ∈ members -> m_Role m = "owner" -> m_UserID m = u
}.

Lemma active_status_spec m : active_status m = true <-> m_Status m = "" \/ m_Status m = "active".
Proof. unfold active_status. by rewrite orb_true_iff, !String.eqb_eq. Qed.

Lemma owner_only_map members u f :
  (forall m, m ∈ members -> m_Role m = "owner" -> f m = m) ->
  (forall m, m ∈ members -> m_Role m <> "owner" -> m_Role (f m) <> "owner") ->
  owner_only members u -> owner_only (f <$> members) u.
Proof.
  intros Fo Fn [(m & Hin & Hu & Hr & Ha) Alone]. split.
  - exists m. split; [|done]. apply list_elem_of_fmap. exists m. by rewrite Fo.
  - intros x Hx Hxr. apply list_elem_of_fmap in Hx as (y & -> & Hy).
    destruct (decide (m_Role y = "owner")) as [E|E]; [rewrite Fo in * by done; by apply Alone|].
    by apply Fn in E.
Qed.

Lemma owner_only_map_member members u v f :
  (forall m, m ∈ members -> m_UserID m = v -> m_Role m <> "owner" /\ m_Role (f m) <> "owner") ->
  owner_only members u -> owner_only (map_member members v f) u.
Proof.
  intros F. apply owner_only_map; intros m Hin Hr; destruct (String.eqb_spec (m_UserID m) v) as [E|E]; try done;
    by destruct (F m Hin E).
Qed.

Lemma owner_only_app members others u :
  (forall m, m ∈ others -> m_Role m <> "owner") -> owner_only members u -> owner_only (members ++ others) u.
Proof.
  intros F [(m & Hin & Hm) Alone]. split.
  - exists m. split; [apply elem_of_app; by left|done].
  - intros x Hx Hr. apply elem_of_app in Hx as [Hx|Hx]; [by apply Alone|]. by apply F in Hx.
Qed.

Lemma owner_only_perm members members' u :
  members ≡ₚ members' -> owner_only members u -> owner_only members' u.
Proof. intros P [S A]. split; [by setoid_rewrite <- P|]. intros m. rewrite <- P. apply A. Qed.

Lemma owner_only_upsert members u m :
  m_Role m <> "owner" -> (forall x, x ∈ members -> m_UserID x = m_UserID m -> m_Role x <> "owner") ->
  owner_only members u -> owner_only (upsert_member members m) u.
Proof.
  intros Hm Hx Ho. unfold upsert_member. destruct (existsb _ _).
  - apply owner_only_map_member; [|done]. intros x Hin E. split; [by apply Hx|done].
  - apply owner_only_app; [|done]. by intros x ->%list_elem_of_singleton.
Qed.

Lemma accept_members_ok members user a members' found :
  accept_members members user a = Ok (members', found) ->
  members' = map_member members user (fun _ => a <| m_Status := "active" |>)
  /\ (forall m, m ∈ members -> m_UserID m = user -> m_Status m = "invited")
  /\ (found = true -> exists m, m ∈ members /\ m_UserID m = user).
Proof.
  revert members' found. induction members as [|m members IH]; cbn; intros members' found F.
  { injection F as <- <-. repeat split; [|done]. by intros m Hm; apply not_elem_of_nil in Hm. }
  destruct (String.eqb_spec (m_UserID m) user) as [E|E].
  - destruct (String.eqb_spec (m_Status m) "invited") as [Es|Es]; [|discriminate]. cbn in F.
    apply res_bind_ok in F as ([rest f] & Hrest & F). injection F as <- <-.
    destruct (IH _ _ Hrest) as (-> & Hinv & _). split; [done|]. split.
    + intros x Hx Hu. apply elem_of_cons in Hx as [->|Hx]; [done|by apply Hinv].
    + intros _. exists m. split; [by left|done].
  - apply res_bind_ok in F as ([rest f] & Hrest & F). injection F as <- <-.
    destruct (IH _ _ Hrest) as (-> & Hinv & Hf). split; [done|]. split.
    + intros x Hx Hu. apply elem_of_cons in Hx as [->|Hx]; [done|by apply Hinv].
    + intros Ef. destruct (Hf Ef) as (x & Hx & Hu). exists x. split; [by right|done].
Qed.

Section Writes.
Variable db : Database.
Context `{!DatabaseLaws db}.

Lemma shows_owner w tenant pid p u :
  shows db w tenant pid p -> well_owned w pid u -> owner_only (pr_Members p) u.
Proof.
  intros Sh (Ho & Hs & Alone). split.
  - assert (exists m, member_at w pid u = Some m) as [m Hm] by (unfold member_at; rewrite Ho; by eexists).
    pose proof (member_at_id _ _ _ _ Hm) as E. pose proof (member_at_role _ _ _ _ Hm) as Er.
    exists m. split; [by apply (shows_member db w tenant pid p m Sh); rewrite E|]. split; [done|].
    split; [unfold owns in Ho; congruence|].
    unfold member_at in Hm. rewrite Ho in Hm. injection Hm as <-. apply active_status_spec.
    destruct (tb_permissions w !! (pid, u)) as [row|] eqn:Ep; cbn; [by apply Hs|by left].
  - intros m Hin Hr. apply Alone. unfold owns. rewrite <- Hr.
    apply member_at_role. by apply (shows_member db w tenant pid p m Sh).
Qed.

Lemma replaced_well_owned pid members w w' u :
  replaced pid members w w' -> owner_only members u -> well_owned w' pid u.
Proof.
  intros [Nd Hm Hp _] [(m & Hin & Hu & Hr & Ha) Alone].
  assert (find_member members u = Some m) as Hf by (by apply find_member_unique).
  split; [|split].
  - unfold owns. by rewrite Hm, Hf, <- Hr.
  - intros row. rewrite Hp, Hf. intros [= <-]. cbn. unfold stored_status.
    apply active_status_spec in Ha as [-> | ->]; by right.
  - intros v Hv. unfold owns in Hv. rewrite Hm in Hv.
    destruct (find_member members v) as [x|] eqn:E; [|discriminate].
    apply find_member_some in E as [E <-]. injection Hv as Hv. by apply Alone.
Qed.

Lemma save_project_ok actor pid p next w w' v :
  pr_ID p = pid -> pr_ProjectVersion next = pr_ProjectVersion p +i 1 ->
  save_project db actor pid p next w = (w', Ok v) ->
  edited pid w w' /\ replaced pid (pr_Members next) w w'
  /\ tb_tenant_members w' = tb_tenant_members w
  /\ (forall p' kind id, provenance_kind kind = false -> tb_records w' !! (p', kind, id) = tb_records w !! (p', kind, id)).
Proof.
  intros Ep Ev F. unfold save_project in F. apply bind_ok in F as (w1 & v1 & F1 & F2).
  pose proof (UpdateProject_ok db _ _ _ _ _ _ F1) as (row & Hrow & _ & Hv & _ & row' & Hrow' & _ & Hv' & _).
  assert (forall V (I : tables -> V), (forall w t, I (w <| tb_projects := t |>) = I w) ->
    keeps I (db_persist db p next) -> I w1 = I w) as Keep1.
  { intros V I H1 H2. eapply keeps_run; [|exact F1]. by apply UpdateProject_keeps. }
  assert (forall V (I : tables -> V), (forall w t, I (w <| tb_members := t |>) = I w) ->
    (forall w t, I (w <| tb_permissions := t |>) = I w) -> I w' = I w1) as Keep2.
  { intros V I H1 H2. eapply keeps_run; [|exact F2]. by apply ReplaceMembers_keeps. }
  apply ReplaceMembers_ok in F2 as [Nd Hm Hp Ho].
  assert (tb_members w1 = tb_members w) as Em by (apply Keep1; [done|apply persist_members]).
  assert (tb_permissions w1 = tb_permissions w) as Epm by (apply Keep1; [done|apply persist_permissions]).
  split; [|split; [|split]].
  - split.
    + exists row, row'. rewrite <- Ep. split; [done|].
      split; [by transitivity (tb_projects w1); [apply (Keep2 _ tb_projects)|]|]. by rewrite Hv', Ev, Hv.
    + transitivity (tb_transfers w1); [by apply (Keep2 _ tb_transfers)|]. apply Keep1; [done|apply persist_transfers].
    + intros pid' x N. destruct (Ho pid' x N) as [-> ->]. by rewrite Em, Epm.
  - split; [done..|]. intros pid' x N. destruct (Ho pid' x N) as [-> ->]. by rewrite Em, Epm.
  - transitivity (tb_tenant_members w1); [by apply (Keep2 _ tb_tenant_members)|]. apply Keep1; [done|apply persist_tenant_members].
  - intros p' kind id N. transitivity (tb_records w1 !! (p', kind, id)); [by apply (Keep2 _ (fun w => tb_records w !! (p', kind, id)))|].
    apply (Keep1 _ (fun w => tb_records w !! (p', kind, id))); [done|by apply persist_records].
Qed.
End Writes.

(** ** Reading *)

#[export] Instance policy_reads db : ReadPorts (policy_tx db).
Proof.
  split; cbn; intros; auto with effects. injection H as <-. auto with effects.
Qed.

Lemma authorized_shows db `{!DatabaseLaws db} request w p :
  authorized db request w p ->
  shows db w (ac_TenantID (rq_Actor request)) (rq_ProjectID request) p.
Proof.
  intros (wa & E & F). apply (authorize_ok (policy_tx db)) in F as (_ & _ & F & _). cbn in F.
  apply Gorm_Project_ok in F as [_ F]. destruct E as [E1 E2 E3 _ _ _].
  unfold shows, members_of in *. by rewrite E1, E2, E3.
Qed.

(** The tables of membership without the records. *)
Record seats_eq (w w' : tables) : Prop := {
  seq_projects : tb_projects w' = tb_projects w;
  seq_members : tb_members w' = tb_members w;
  seq_permissions : tb_permissions w' = tb_permissions w;
  seq_transfers : tb_transfers w' = tb_transfers w
}.

Lemma membership_seats w w' : membership_eq w w' -> seats_eq w w'.
Proof. intros [H1 H2 H3 H4 H5 H6]. by split. Qed.

Lemma edited_compose pid w w0 w1 w2 :
  seats_eq w w0 -> edited pid w0 w1 -> seats_eq w1 w2 -> edited pid w w2.
Proof.
  intros [E1 E2 E3 E4] [(row & row' & Hr & Hr' & Hv) Ht Ho] [K1 K2 K3 K4]. split.
  - exists row, row'. rewrite <- E1, K1. done.
  - by rewrite K4, Ht.
  - intros pid' v N. destruct (Ho pid' v N) as [H1 H2]. by rewrite K2, K3, H1, H2, E2, E3.
Qed.

Lemma well_owned_seats pid w w' u : seats_eq w w' -> well_owned w pid u -> well_owned w' pid u.
Proof. intros [E1 E2 E3 E4]. unfold well_owned, owns, seat_ok. by rewrite E2, E3. Qed.

Lemma put_seats db {P} (marshal : P -> res error string) pid kind id expected value w w' r :
  PutProjectRecord db marshal pid kind id expected value w = (w', r) -> seats_eq w w'.
Proof.
  intros F.
  assert (forall V (I : tables -> V), (forall w t, I (w <| tb_records := t |>) = I w) -> I w' = I w) as K.
  { intros V I HI. eapply keeps_run; [|exact F]. apply PutProjectRecord_keeps. intros. apply HI. }
  split; [by apply (K _ tb_projects)|by apply (K _ tb_members)|by apply (K _ tb_permissions)|
          by apply (K _ tb_transfers)].
Qed.

Lemma audit_seats db id now actor pid action target reason w w' r :
  recordProjectAuditEvent db id now actor pid action target reason w = (w', r) ->
  seats_eq w w' /\ tb_records w' = tb_records w.
Proof.
  unfold recordProjectAuditEvent, RecordAudit, exec, statement. intros F.
  destruct (db_fault _ _ _); injection F as <- _; by split; [split|].
Qed.

Lemma record_audit_seats db event w w' r :
  RecordAudit db event w = (w', r) -> seats_eq w w' /\ tb_records w' = tb_records w.
Proof.
  unfold RecordAudit, exec, statement. intros F.
  destruct (db_fault _ _ _); injection F as <- _; by split; [split|].
Qed.

(** Walk one step of a write, a read leaving the store where it is. *)
Ltac step F := let w1 := fresh "w" in let x := fresh "x" in let Fx := fresh "F" in
  apply bind_ok in F as (w1 & x & Fx & F).

Ltac read_step F :=
  let w1 := fresh "w" in let x := fresh "x" in let Fx := fresh "R" in let E := fresh "E" in
  apply bind_ok in F as (w1 & x & Fx & F);
  assert (w1 = _) as E by (eapply reads_ok; [exact Fx|auto with effects]); subst w1.

Section Operations.
Variable db : Database.
Variable ports : Ports.
Variable codec : Codec.
Variable oracle : Oracle.
Context `{!DatabaseLaws db, !PortsLaws db ports, !OracleLaws oracle}.

Lemma verify_scope_reads p scope : reads (verifyMemberResourceScope ports p scope).
Proof.
  unfold verifyMemberResourceScope. destruct (cut colon scope) as [[kind id] found].
  destruct (_ || _); [auto with effects|]. destruct (kind =? "template")%string.
  - destruct (pr_TemplateCopy p); auto with effects.
  - apply keeps_bind; [apply resource_reads|]. auto with effects.
Qed.
#[local] Hint Resolve verify_scope_reads : effects.

Lemma validate_scopes_reads p scopes seen : reads (validate_scopes db ports p seen scopes).
Proof.
  revert seen. induction scopes as [|scope scopes IH]; cbn; intros seen; [auto with effects|].
  apply keeps_bind; [auto with effects|intros _]. apply keeps_bind; [|by intros _].
  destruct (resource_scope scope); [auto with effects|]. apply keeps_bind; auto with effects.
Qed.

Lemma validateInvitation_reads p m : reads (validateInvitation db ports oracle p m).
Proof.
  unfold validateInvitation. apply keeps_bind; [auto with effects|intros _].
  apply keeps_bind; [auto with effects|intros _]. apply keeps_each. intros [role scopes].
  apply keeps_bind; [auto with effects|intros _]. apply validate_scopes_reads.
Qed.
#[local] Hint Resolve validateInvitation_reads : effects.

Lemma user_active_reads actor u : reads (user_active db actor u).
Proof. apply ActiveMember_reads. Qed.
#[local] Hint Resolve user_active_reads : effects.

Lemma get_invitation_reads pid id : reads (get_invitation db codec pid id).
Proof. apply GetProjectRecord_reads. Qed.
#[local] Hint Resolve get_invitation_reads : effects.

(** Whoever passes the validation is not an owner. *)
Lemma validateInvitation_role p m w w' u :
  validateInvitation db ports oracle p m w = (w', Ok u) -> m_Role m <> "owner".
Proof.
  unfold validateInvitation. intros F. step F. apply refuse_if_ok in F0 as [F0 _].
  split_bools. done.
Qed.

(** The tail every edit ends with: save, audit, answer. *)
Lemma edit_tail actor pid p next k action target reason (o : OperationOutcome) w w' out :
  pr_ID p = pid -> pr_ProjectVersion next = pr_ProjectVersion p +i 1 ->
  (_ ← save_project db actor pid p next; _ ← audit db oracle k actor pid action target reason; mret o : T _)
    w = (w', Ok out) ->
  edited pid w w' /\ exists w1, replaced pid (pr_Members next) w w1 /\ seats_eq w1 w'.
Proof.
  intros Ep Ev F. step F. step F. injection F as <- _.
  apply (save_project_ok db _ _ _ _ _ _ _ Ep Ev) in F0 as (Hed & Hrep & _ & _).
  apply audit_seats in F1 as [Hs _].
  split; [|by eexists]. eapply edited_compose; [|exact Hed|exact Hs]. by split.
Qed.

Lemma edit_tail_owner actor pid p next k action target reason (o : OperationOutcome) w w' out u :
  pr_ID p = pid -> pr_ProjectVersion next = pr_ProjectVersion p +i 1 ->
  owner_only (pr_Members next) u ->
  (_ ← save_project db actor pid p next; _ ← audit db oracle k actor pid action target reason; mret o : T _)
    w = (w', Ok out) ->
  edited pid w w' /\ well_owned w' pid u.
Proof.
  intros Ep Ev Ho F. apply (edit_tail _ _ _ _ _ _ _ _ _ _ _ _ Ep Ev) in F as (Hed & w1 & Hrep & Hs).
  split; [done|]. eapply well_owned_seats; [exact Hs|]. by eapply replaced_well_owned.
Qed.

(** *** Every edit keeps the owner *)

Lemma not_the_owner p u user m : owner_only (pr_Members p) u -> NoDup (m_UserID <$> pr_Members p) ->
  find_member (pr_Members p) user = Some m -> governanceRole m <> "owner" ->
  forall x, x ∈ pr_Members p -> m_UserID x = user -> m_Role x <> "owner".
Proof.
  intros Ho Nd Hm Hg x Hx Hu Hr. rewrite (find_member_unique _ _ x Nd Hx Hu) in Hm.
  injection Hm as <-. by apply Hg, governanceRole_owner.
Qed.

(** A seat that is not active is not the owner's. *)
Lemma inactive_not_owner p u user : owner_only (pr_Members p) u -> NoDup (m_UserID <$> pr_Members p) ->
  (forall m, find_member (pr_Members p) user = Some m -> active_status m = false) ->
  forall x, x ∈ pr_Members p -> m_UserID x = user -> m_Role x <> "owner".
Proof.
  intros [(m & Hin & Hu & Hr & Ha) Alone] Nd Hi x Hx Hxu Hxr.
  specialize (Hi x (find_member_unique _ _ x Nd Hx Hxu)).
  assert (x = m) as ->; [|congruence].
  pose proof (find_member_unique _ _ m Nd Hin Hu) as E1.
  pose proof (find_member_unique _ _ x Nd Hx (Alone x Hx Hxr)) as E2. congruence.
Qed.

Lemma advance_version p members : pr_ProjectVersion (advance p members) = pr_ProjectVersion p +i 1.
Proof. done. Qed.

Definition keeps_owner (pid : string) (write : Project -> T OperationOutcome) : Prop :=
  forall w w' tenant p o u, shows db w tenant pid p -> well_owned w pid u ->
    write p w = (w', Ok o) -> edited pid w w' /\ well_owned w' pid u.

Lemma state_keeps_owner actor pid user input :
  keeps_owner pid (state_write db oracle actor pid user input).
Proof.
  intros w w' tenant p o u Sh Wo F. pose proof (shows_owner db _ _ _ _ _ Sh Wo) as Ho.
  unfold state_write in F. read_step F. unfold projectMember in F.
  destruct (find_member (pr_Members p) user) as [m|] eqn:Em; [|by step F; apply refuse_if_ok in F0 as []].
  step F. apply refuse_if_ok in F0 as [G ->]. cbn [negb orb] in G. apply String.eqb_neq in G.
  apply bind_ok in F as (w1 & m' & F0 & F).
  assert (m_Role m' = m_Role m /\ w1 = w) as [Er ->].
  { unfold change_state in F0. repeat destruct (_ =? _)%string; cbn [orb] in F0;
      repeat (read_step F0); by injection F0 as <- <-. }
  eapply edit_tail_owner; [by destruct Sh|apply advance_version| |exact F]. cbn [pr_Members advance].
  assert (forall x, x ∈ pr_Members p -> m_UserID x = user -> m_Role x <> "owner") as Nx
    by (eapply not_the_owner; [exact Ho|by eapply shows_keyed|done|done]).
  apply owner_only_map_member; [|done]. intros y Hy Hu. split; [by apply Nx|]. rewrite Er.
  apply find_member_some in Em as [Hm Hmu]. by apply Nx.
Qed.

Lemma assignment_keeps_owner actor pid user input :
  keeps_owner pid (assignment_write db ports oracle actor pid user input).
Proof.
  intros w w' tenant p o u Sh Wo F. pose proof (shows_owner db _ _ _ _ _ Sh Wo) as Ho.
  unfold assignment_write in F. read_step F. unfold projectMember in F.
  destruct (find_member (pr_Members p) user) as [m|] eqn:Em; [|by step F; apply refuse_if_ok in F0 as []].
  step F. apply refuse_if_ok in F0 as [G ->]. cbn [negb orb] in G.
  apply orb_false_iff in G as [G _]. apply String.eqb_neq in G.
  do 3 read_step F.
  eapply edit_tail_owner; [by destruct Sh|apply advance_version| |exact F]. cbn [pr_Members advance].
  apply owner_only_map_member; [|done]. intros y Hy Hu. split; [|done].
  eapply not_the_owner; [exact Ho|by eapply shows_keyed|done|done|done|done].
Qed.

Lemma invite_keeps_owner actor pid input :
  keeps_owner pid (invite_write db ports codec oracle actor pid input).
Proof.
  intros w w' tenant p o u Sh Wo F. pose proof (shows_owner db _ _ _ _ _ Sh Wo) as Ho.
  unfold invite_write in F. do 5 read_step F. apply bind_ok in F as (w0 & version & F0 & F).
  assert (w0 = w) as ->.
  { destruct (negb _); [|by injection F0 as <- _].
    apply bind_ok in F0 as (w2 & [old v] & F1 & F0).
    assert (w2 = w) as -> by (eapply reads_ok; [exact F1|auto with effects]).
    read_step F0. by injection F0 as <- _. }
  unfold projectMember in F. destruct (find_member (pr_Members p) _) as [m|] eqn:Em.
  all: step F; apply refuse_if_ok in F1 as [G ->]; cbn [andb] in G.
  all: step F; pose proof (put_seats _ _ _ _ _ _ _ _ _ _ F1) as Hs.
  all: apply (edit_tail_owner _ _ _ _ _ _ _ _ _ _ _ _ u) in F; [|by destruct Sh|apply advance_version|].
  1, 3: destruct F as [Hed Hw]; split; [eapply edited_compose; [exact Hs|exact Hed|by split]|done].
  all: cbn [pr_Members advance]; apply owner_only_upsert; [done| |done]; cbn [m_UserID set_field].
  all: eapply inactive_not_owner; [exact Ho|by eapply shows_keyed|].
  all: intros y Hy; change (find_member (pr_Members p) (m_UserID (ii_Assignment input)) = Some y) in Hy.
  all: rewrite Em in Hy; try discriminate. injection Hy as <-. unfold active_status.
  apply andb_false_iff in G as [G|G]; apply negb_false_iff, String.eqb_eq in G; by rewrite G.
Qed.

Lemma accept_keeps_owner actor pid id input w w' o u :
  well_owned w pid u -> accept_write db ports codec oracle actor pid id input w = (w', Ok o) ->
  edited pid w w' /\ well_owned w' pid u.
Proof.
  intros Wo F. unfold accept_write in F. apply bind_ok in F as (w0 & p & F0 & F).
  apply Gorm_Project_ok in F0 as [-> Sh].
  pose proof (shows_owner db _ _ _ _ _ Sh Wo) as Ho.
  read_step F. apply bind_ok in F as (w1 & [inv version] & F1 & F).
  assert (w1 = w) as -> by (eapply reads_ok; [exact F1|auto with effects]).
  read_step F. apply bind_ok in F as (w0 & v & F0 & F).
  pose proof (validateInvitation_role _ _ _ _ _ F0) as Hr.
  assert (w0 = w) as -> by (eapply reads_ok; [exact F0|auto with effects]).
  apply bind_ok in F as (w1 & [members found] & F2 & F). injection F2 as <- F2.
  apply accept_members_ok in F2 as (-> & Hinv & _). read_step F.
  step F. pose proof (put_seats _ _ _ _ _ _ _ _ _ _ F2) as Hs.
  apply (edit_tail_owner _ _ _ _ _ _ _ _ _ _ _ _ u) in F; [|by destruct Sh|apply advance_version|].
  - destruct F as [Hed Hw]; split; [eapply edited_compose; [exact Hs|exact Hed|by split]|done].
  - cbn [pr_Members advance]. apply owner_only_map_member; [|done]. intros z Hz Hu. split; [|done].
    eapply inactive_not_owner; [exact Ho|by eapply shows_keyed| |done|done].
    intros y Hy. apply find_member_some in Hy as [Hy Hyu].
    specialize (Hinv y Hy Hyu). unfold active_status. by rewrite Hinv.
Qed.

Lemma suspend_keeps_owner tenant pid user p w w' v u :
  shows db w tenant pid p -> well_owned w pid u ->
  suspend_in db oracle tenant user p w = (w', Ok v) ->
  (w' = w \/ edited pid w w') /\ well_owned w' pid u.
Proof.
  intros Sh Wo F. pose proof (shows_owner db _ _ _ _ _ Sh Wo) as Ho.
  unfold suspend_in, projectMember in F.
  assert (pr_ID p = pid) as Ep by (by destruct Sh). rewrite Ep in F.
  set (next := advance _ _) in F.
  assert (w' = w /\ well_owned w' pid u \/
          owner_only (pr_Members next) u /\
          (_ ← UpdateProject db tenant p next; _ ← ReplaceMembers db pid (pr_Members next);
           audit db oracle 0 (plain_actor tenant user) pid "member.tenant_suspended" user "tenant_membership_changed"
           : T unit) w = (w', Ok v)) as [[-> H]|[Hn G]].
  { destruct (find_member (pr_Members p) user) as [m|] eqn:Em.
    - destruct (_ || _) eqn:G; [injection F as <- _; by left|]. right. split; [|exact F].
      apply orb_false_iff in G as [G _]. apply String.eqb_neq in G.
      apply owner_only_map_member; [|done]. intros x Hx Hu.
      assert (m_Role x <> "owner"); [|done].
      eapply not_the_owner; [exact Ho|by eapply shows_keyed|done|done|done|done].
    - destruct (_ || _) eqn:G; [injection F as <- _; by left|]. right. split; [|exact F].
      apply owner_only_map_member; [|done]. intros x Hx Hu.
      assert (m_Role x <> "owner"); [|done].
      eapply inactive_not_owner; [exact Ho|by eapply shows_keyed|by rewrite Em|done|done]. }
  { split; [by left|done]. }
  step G. step G.
  assert (save_project db (plain_actor tenant user) pid p next w = (w1, Ok x0)) as S.
  { unfold save_project. cbn [ac_TenantID plain_actor]. by rewrite (bind_run _ _ _ _ _ F0). }
  apply (save_project_ok db _ _ _ _ _ _ _ Ep (advance_version _ _)) in S as (Hed & Hrep & _ & _).
  apply audit_seats in G as [Hs _].
  split; [right; eapply edited_compose; [|exact Hed|exact Hs]; by split|].
  eapply well_owned_seats; [exact Hs|]. by eapply replaced_well_owned.
Qed.

(** *** Saving the members at once *)

Lemma permission_members_role actor chapters assignments seen w w' entries :
  permission_members db actor chapters seen assignments w = (w', Ok entries) ->
  w' = w /\ Forall (fun m => m_Role m = "collaborator") entries.
Proof.
  revert seen w' entries. induction assignments as [|m assignments IH]; cbn; intros seen w' entries F.
  { injection F as <- <-. by split. }
  do 6 read_step F. apply bind_ok in F as (w0 & rest & F0 & F). apply IH in F0 as [-> Hrest].
  injection F as <- <-. by split; [|constructor].
Qed.

Lemma permissions_keeps_owner actor pid input assignments :
  keeps_owner pid (permissions_write db ports oracle actor pid input assignments).
Proof.
  intros w w' tenant p o u Sh Wo F. pose proof (shows_owner db _ _ _ _ _ Sh Wo) as Ho.
  unfold permissions_write in F. do 3 read_step F.
  apply bind_ok in F as (w0 & chapters & F0 & F).
  assert (w0 = w) as -> by (eapply reads_ok; [exact F0|apply chapters_reads]).
  apply bind_ok in F as (w0 & entries & F1 & F). apply permission_members_role in F1 as [-> He].
  step F. step F. injection F as <- _.
  apply (save_project_ok db _ _ _ _ _ _ _ (proj1 Sh) (advance_version _ _)) in F1 as (Hed & Hrep & _ & _).
  apply record_audit_seats in F2 as [Hs _].
  split; [eapply edited_compose; [|exact Hed|exact Hs]; by split|].
  eapply well_owned_seats; [exact Hs|]. eapply replaced_well_owned; [exact Hrep|].
  cbn [pr_Members advance]. eapply owner_only_perm; [symmetry; apply merge_sort_Permutation|].
  apply owner_only_app.
  { intros m Hm. rewrite Forall_forall in He. by rewrite (He m Hm). }
  destruct Ho as [(m & Hin & Hu & Hr & Ha) Alone]. split.
  - exists (owner_entry m). split; [|done]. apply list_elem_of_fmap. exists m. split; [done|].
    apply list_elem_of_In, filter_In. split; [by apply list_elem_of_In|]. by rewrite Hr.
  - intros y Hy _. apply list_elem_of_fmap in Hy as (z & -> & Hz).
    apply list_elem_of_In, filter_In in Hz as [Hz Hzr]. apply String.eqb_eq in Hzr.
    exact (Alone z (proj2 (list_elem_of_In _ _) Hz) Hzr).
Qed.

(** Replacing the collaborators does not touch an owner's rows. *)
Record owners_kept (pid : string) (w w' : tables) : Prop := {
  ok_owns v : owns w' pid v <-> owns w pid v;
  ok_seats v : owns w pid v -> tb_permissions w' !! (pid, v) = tb_permissions w !! (pid, v);
  ok_projects : tb_projects w' = tb_projects w;
  ok_transfers : tb_transfers w' = tb_transfers w;
  ok_others pid' v : pid' <> pid -> tb_members w' !! (pid', v) = tb_members w !! (pid', v)
    /\ tb_permissions w' !! (pid', v) = tb_permissions w !! (pid', v)
}.

Lemma owners_kept_trans pid a b c : owners_kept pid a b -> owners_kept pid b c -> owners_kept pid a c.
Proof.
  intros [A1 A2 A3 A4 A5] [B1 B2 B3 B4 B5]. split; [| |congruence..|].
  - intros v. by rewrite B1.
  - intros v Hv. rewrite B2 by (by apply A1). by apply A2.
  - intros pid' v N. destruct (A5 pid' v N) as [<- <-]. by apply B5.
Qed.

Lemma insert_collaborator_kept pid id w w' u :
  insert_collaborator db pid id w = (w', Ok u) -> owners_kept pid w w'.
Proof.
  unfold insert_collaborator, insert_member, insert_permission. intros F. step F.
  apply statement_ok in F0. apply map_error_ok, statement_ok in F.
  destruct (tb_members w !! (pid, id)) eqn:E; [discriminate|]. injection F0 as <- _.
  cbn [tb_permissions set_field] in F.
  destruct (tb_permissions _ !! _) eqn:E'; [discriminate|]. injection F as <- _.
  split; unfold owns; cbn; [| |done..|].
  - intros v. destruct (decide (v = id)) as [->|N].
    + rewrite lookup_insert_eq, E. by split.
    + by rewrite lookup_insert_ne by congruence.
  - intros v Hv. rewrite lookup_insert_ne; [done|]. intros [= <-]. congruence.
  - intros pid' v N. by rewrite !lookup_insert_ne by congruence.
Qed.

Lemma ReplaceCollaborators_kept pid ids w w' u :
  ReplaceCollaborators db pid ids w = (w', Ok u) -> owners_kept pid w w'.
Proof.
  unfold ReplaceCollaborators. intros F. step F. apply statement_ok in F0. injection F0 as <- _.
  match type of F with each _ _ ?v = _ => set (w1 := v) in F end.
  apply (owners_kept_trans pid w w1).
  - subst w1. split; unfold owns; cbn; [|done..|].
    + intros v. rewrite map_lookup_filter. destruct (tb_members w !! (pid, v)) as [role|]; [|done]. cbn.
      destruct (decide (role = "owner")) as [->|N]; [by rewrite option_guard_True by (by intros [_ ?])|].
      split; [|congruence]. intros G. by apply bind_Some in G as (? & ? & ?).
    + intros pid' v N. split; [|done]. rewrite map_lookup_filter.
      destruct (tb_members w !! (pid', v)) as [role|]; [|done]. cbn.
      by rewrite option_guard_True by (by intros [? _]).
  - clearbody w1. revert w1 F.
    induction ids as [|id ids IH]; cbn; intros w1 F; [by injection F as <- _; split|].
    step F. eapply owners_kept_trans; [by eapply insert_collaborator_kept|by apply IH].
Qed.

Lemma collaborators_keeps_owner actor pid input ids w w' tenant p o u :
  shows db w tenant pid p -> well_owned w pid u ->
  collaborators_write db oracle actor pid input ids p w = (w', Ok o) ->
  (w' = w \/ edited pid w w') /\ well_owned w' pid u.
Proof.
  intros Sh Wo F. unfold collaborators_write in F. read_step F.
  apply bind_ok in F as (w0 & y & F0 & F).
  assert (w0 = w) as ->.
  { eapply reads_ok; [exact F0|]. apply keeps_each. intros id. apply keeps_bind; auto with effects. }
  destruct (bool_decide _); [injection F as <- _; by split; [left|]|].
  set (next := p <| pr_ProjectVersion := _ |>) in F. do 3 step F. injection F as <- _.
  pose proof (UpdateProject_ok db _ _ _ _ _ _ F1) as (row & Hrow & _ & Hv & _ & row' & Hrow' & _ & Hv' & _).
  assert (forall V (I : tables -> V), (forall w t, I (w <| tb_projects := t |>) = I w) ->
    keeps I (db_persist db p next) -> I w0 = I w) as Keep1.
  { intros V I H1 H2. eapply keeps_run; [|exact F1]. by apply UpdateProject_keeps. }
  assert (tb_members w0 = tb_members w) as Em by (apply (Keep1 _ tb_members); [done|apply persist_members]).
  assert (tb_permissions w0 = tb_permissions w) as Ep
    by (apply (Keep1 _ tb_permissions); [done|apply persist_permissions]).
  assert (tb_transfers w0 = tb_transfers w) as Et
    by (apply (Keep1 _ tb_transfers); [done|apply persist_transfers]).
  apply ReplaceCollaborators_kept in F2 as [K1 K2 K3 K4 K5].
  apply record_audit_seats in F3 as [[S1 S2 S3 S4] _].
  assert (pr_ID p = pid) as Epid by (by destruct Sh).
  split.
  - right. split.
    + exists row, row'. rewrite <- Epid, S1, K3. split; [done|]. split; [done|]. rewrite Hv', Hv. done.
    + by rewrite S4, K4.
    + intros pid' v N. destruct (K5 pid' v N) as [E1 E2]. by rewrite S2, S3, E1, E2, Em, Ep.
  - destruct Wo as (W1 & W2 & W3). unfold well_owned, owns, seat_ok in *. rewrite S2, S3.
    setoid_rewrite K1. rewrite Em. split; [done|]. split; [|done].
    intros r. rewrite K2 by (by rewrite Em). rewrite Ep. apply W2.
Qed.

(** *** Moving the ownership *)

Lemma last_member_ok cond members m :
  last_member cond members = Some m -> m ∈ members /\ cond m = true.
Proof.
  unfold last_member.
  assert (forall found, foldl (fun found m => if cond m then Some m else found) found members = Some m ->
    (m ∈ members /\ cond m = true) \/ found = Some m) as G.
  { induction members as [|x members IH]; cbn; intros found F; [by right|].
    apply IH in F as [[Hin Hc]|F]; [left; by split; [right|]|].
    destruct (cond x) eqn:E; [injection F as <-; left; by split; [left|]|by right]. }
  intros F. by apply G in F as [F|F].
Qed.

Lemma transfer_moves_owner actor pid input p w w' tenant o u :
  shows db w tenant pid p -> well_owned w pid u -> seat_ok w pid (ti_NewOwnerUserID input) ->
  transfer_write db oracle actor pid input p w = (w', Ok o) ->
  edited pid w w' /\ well_owned w' pid (ti_NewOwnerUserID input).
Proof.
  intros Sh Wo Seat F. pose proof (shows_owner db _ _ _ _ _ Sh Wo) as Ho.
  unfold transfer_write in F. read_step F.
  destruct (last_member _ (pr_Members p)) as [owner|] eqn:Eo; [|discriminate].
  destruct (last_member (fun m => (m_UserID m =? _)%string) _) as [recipient|] eqn:Er; [|discriminate].
  apply last_member_ok in Eo as [Ho1 Ho2]. apply String.eqb_eq in Ho2.
  apply last_member_ok in Er as [Hr1 Hr2]. apply String.eqb_eq in Hr2.
  step F. apply refuse_if_ok in F0 as [G ->]. apply orb_false_iff in G as [G1 G2]. split_bools.
  do 2 read_step F. step F. step F. injection F as <- _.
  apply (save_project_ok db _ _ _ _ _ _ _ (proj1 Sh) (advance_version _ _)) in F0 as (Hed & Hrep & _ & _).
  apply record_audit_seats in F1 as [Hs _].
  split; [eapply edited_compose; [|exact Hed|exact Hs]; by split|].
  eapply well_owned_seats; [exact Hs|]. eapply replaced_well_owned; [exact Hrep|].
  cbn [pr_Members advance]. rewrite Hr2.
  assert (ac_UserID actor <> ti_NewOwnerUserID input) as Ne.
  { intros E. assert (recipient = owner) as ->; [|done].
    pose proof (shows_keyed db _ _ _ _ Sh) as Nd.
    pose proof (find_member_unique _ _ _ Nd Hr1 Hr2) as E1.
    pose proof (find_member_unique _ _ _ Nd Ho1 (eq_trans G1 E)) as E2. congruence. }
  split.
  - exists (set_owner_role recipient "owner" "owner"). split; [|split; [done|split; [done|]]].
    + apply list_elem_of_fmap. exists recipient. split; [|done]. unfold swap_owner.
      destruct (String.eqb_spec (m_UserID recipient) (ac_UserID actor)); [congruence|].
      by rewrite Hr2, String.eqb_refl.
    + apply (shows_member db _ _ _ _ recipient Sh) in Hr1. unfold member_at in Hr1.
      apply active_status_spec. cbn.
      destruct (tb_members w !! (pid, m_UserID recipient)) as [role|]; [|discriminate].
      injection Hr1 as Hr1. rewrite <- Hr1, Hr2. unfold member_view.
      destruct (tb_permissions w !! (pid, ti_NewOwnerUserID input)) as [row|] eqn:Ep; [|by destruct (_ =? _)%string; left].
      destruct (Seat row Ep); destruct (role =? "owner")%string; cbn; auto.
  - intros m Hm Hmr. apply list_elem_of_fmap in Hm as (y & -> & Hy). unfold swap_owner in *.
    destruct (String.eqb_spec (m_UserID y) (ac_UserID actor)); [discriminate|].
    destruct (String.eqb_spec (m_UserID y) (ti_NewOwnerUserID input)); [done|].
    exfalso. apply n. rewrite <- G1. destruct Ho as [_ Alone]. rewrite (Alone y Hy Hmr).
    symmetry. by apply Alone.
Qed.

(** *** Offers *)

Definition offer_of (pid : string) (t : OwnerTransfer) : option (string * Z) :=
  if decide (pending pid t) then Some (ot_ToUserID t, ot_ExpectedProjectVersion t) else None.

Lemma offers_of_lookup w pid id : offers_of w pid !! id = tb_transfers w !! id ≫= offer_of pid.
Proof.
  unfold offers_of, offer_of. rewrite lookup_fmap, map_lookup_filter.
  destruct (tb_transfers w !! id) as [t|]; [|done]. cbn.
  destruct (decide (pending pid t)); [by rewrite option_guard_True|by rewrite option_guard_False].
Qed.

(** A pending transfer of [pid] is closed: status changed, nothing else. *)
Lemma close_transfer w w' pid id t t' a :
  tb_transfers w !! id = Some t -> ot_ProjectID t = pid -> ot_ProjectID t' = pid -> ot_Status t' <> "pending" ->
  tb_transfers w' = <[id := t']> (tb_transfers w) ->
  tb_projects w' = tb_projects w -> tb_members w' = tb_members w -> tb_permissions w' = tb_permissions w ->
  abstracts pid w a ->
  abstracts pid w' {| own_version := own_version a; own_owner := own_owner a;
                      own_offers := delete id (own_offers a) |}.
Proof.
  intros Ht Hp Hp' Hs Et Epr Em Epe [A1 A2 [O1 [O2 O3]] A4 A5].
  split; cbn; [by rewrite Epr|done| | |].
  - unfold well_owned, owns, seat_ok in *. by rewrite Em, Epe.
  - apply map_eq. intros i. rewrite offers_of_lookup, Et, A4.
    destruct (decide (i = id)) as [->|N].
    + rewrite lookup_delete_eq, lookup_insert_eq. cbn. unfold offer_of.
      by rewrite decide_False by (by intros [_ ?]).
    + by rewrite lookup_delete_ne, lookup_insert_ne, offers_of_lookup by congruence.
  - intros i x Hx P. rewrite Et in Hx. destruct (decide (i = id)) as [->|N].
    + rewrite lookup_insert_eq in Hx. injection Hx as <-. by destruct P.
    + rewrite lookup_insert_ne in Hx by congruence. by eapply A5.
Qed.

Lemma close_transfer_other w w' pid pid' id t t' a :
  pid' <> pid -> tb_transfers w !! id = Some t -> ot_ProjectID t = pid -> ot_ProjectID t' = pid ->
  tb_transfers w' = <[id := t']> (tb_transfers w) ->
  tb_projects w' = tb_projects w -> tb_members w' = tb_members w -> tb_permissions w' = tb_permissions w ->
  abstracts pid' w a -> abstracts pid' w' a.
Proof.
  intros N Ht Hp Hp' Et Epr Em Epe [A1 A2 [O1 [O2 O3]] A4 A5].
  assert (forall i, tb_transfers w' !! i ≫= offer_of pid' = tb_transfers w !! i ≫= offer_of pid') as Same.
  { intros i. rewrite Et. destruct (decide (i = id)) as [->|Ni]; [|by rewrite lookup_insert_ne by congruence].
    rewrite lookup_insert_eq, Ht. cbn. unfold offer_of.
    by rewrite !decide_False by (intros [? _]; congruence). }
  split; [by rewrite Epr|done| | |].
  - unfold well_owned, owns, seat_ok in *. by rewrite Em, Epe.
  - apply map_eq. intros i. by rewrite offers_of_lookup, Same, A4, offers_of_lookup.
  - intros i x Hx P. rewrite Et in Hx. destruct (decide (i = id)) as [->|Ni].
    + rewrite lookup_insert_eq in Hx. injection Hx as <-. destruct P. congruence.
    + rewrite lookup_insert_ne in Hx by congruence. by eapply A5.
Qed.

Lemma reject_closes actor pid id input p w w' o a pid' :
  abstracts pid' w a -> reject_write db oracle actor pid id input p w = (w', Ok o) ->
  exists a', abstracts pid' w' a' /\ (pid' <> pid -> a' = a) /\ (pid' = pid -> ownership_step (Close id) a a').
Proof.
  intros A F. unfold reject_write in F. read_step F.
  apply bind_ok in F as (w0 & item & F0 & F).
  assert (w0 = w) as -> by (eapply reads_ok; [exact F0|auto with effects]).
  do 2 read_step F. step F. step F. injection F as <- _.
  apply update_affected in F1 as (t & Ht & Hc & ->). split_bools.
  apply audit_seats in F2 as [[S1 S2 S3 S4] _]. cbn in S1, S2, S3, S4.
  destruct (decide (pid' = pid)) as [->|N].
  - exists {| own_version := own_version a; own_owner := own_owner a; own_offers := delete id (own_offers a) |}.
    split; [|split; [done|]].
    + eapply close_transfer; [exact Ht| | | |exact S4|done..]; done.
    + intros _. destruct a. constructor.
  - exists a. split; [|done]. eapply close_transfer_other; [exact N|exact Ht| | |exact S4|done..]; done.
Qed.

Lemma abstracts_seats pid w w' a : seats_eq w w' -> abstracts pid w a -> abstracts pid w' a.
Proof.
  intros [E1 E2 E3 E4] [A1 A2 [O1 [O2 O3]] A4 A5].
  split; [by rewrite E1|done| |unfold offers_of; by rewrite E4|by rewrite E4].
  unfold well_owned, owns, seat_ok in *. by rewrite E2, E3.
Qed.

Lemma seats_eq_trans a b c : seats_eq a b -> seats_eq b c -> seats_eq a c.
Proof. intros [] []. split; congruence. Qed.

Lemma InsertOwnerTransfer_ok now t w w' u :
  InsertOwnerTransfer db now t w = (w', Ok u) -> ot_Status t = "pending" ->
  exists f : OwnerTransfer -> OwnerTransfer,
    (forall x, ot_ProjectID (f x) = ot_ProjectID x /\ ot_ToUserID (f x) = ot_ToUserID x
       /\ ot_ExpectedProjectVersion (f x) = ot_ExpectedProjectVersion x /\ ot_FromUserID (f x) = ot_FromUserID x
       /\ (ot_ProjectID x <> ot_ProjectID t -> f x = x)
       /\ (ot_Status (f x) = "pending" -> ot_Status x = "pending"))
    /\ tb_transfers w !! ot_ID t = None
    /\ (forall i x, tb_transfers w !! i = Some x -> ot_ProjectID x = ot_ProjectID t -> ot_Status (f x) <> "pending")
    /\ w' = w <| tb_transfers := <[ot_ID t := t <| ot_AcceptedAt := None |>]> (f <$> tb_transfers w) |>.
Proof.
  unfold InsertOwnerTransfer. intros F Hp. step F. apply statement_ok in F0. injection F0 as <- _.
  apply statement_ok in F. cbn [tb_transfers set_field] in F.
  match type of F with context [?g <$> tb_transfers w] => set (f := g) in F end.
  destruct (is_nil _ && _) eqn:G; [|discriminate]. injection F as <- _.
  apply andb_true_iff in G as [G1 G2]. rewrite Hp, String.eqb_refl in G2. cbn [andb] in G2.
  apply negb_true_iff in G2.
  exists f. split; [|split; [|split; [|done]]].
  - intros y. subst f. cbn.
    destruct ((ot_ProjectID y =? ot_ProjectID t)%string) eqn:E; cbn [andb];
      [|by repeat split].
    apply String.eqb_eq in E. destruct (_ && _); by repeat split.
  - rewrite lookup_fmap in G1. by destruct (tb_transfers w !! ot_ID t).
  - intros i y Hy Hpy Hs. assert (existsb (fun row => (ot_ProjectID row =? ot_ProjectID t)%string
       && (ot_Status row =? "pending")%string) (map_to_list (f <$> tb_transfers w)).*2 = true); [|congruence].
    apply existsb_exists. exists (f y). split.
    + apply list_elem_of_In, list_elem_of_fmap. exists (i, f y). split; [done|].
      apply elem_of_map_to_list. by rewrite lookup_fmap, Hy.
    + rewrite Hs. assert (ot_ProjectID (f y) = ot_ProjectID t) as ->; [|by rewrite !String.eqb_refl].
      subst f. cbn. by destruct (_ && _).
Qed.

Lemma projectOwnerUser_only p u v :
  owner_only (pr_Members p) u -> projectOwnerUser p = Some v -> v = u.
Proof.
  intros Ho Hv. apply projectOwnerUser_spec, projectOwner_spec in Hv as (m & Hin & <- & Hr).
  destruct Ho as [_ Alone]. by apply Alone.
Qed.

Lemma policy_authority_reads p tenant : reads (OwnerAuthorityOf (policy_tx db) p tenant).
Proof. apply (owner_authority_reads (policy_tx db)). Qed.
#[local] Hint Resolve policy_authority_reads : effects.

Lemma policy_role_reads actor : reads (currentTenantRole (policy_tx db) actor).
Proof. apply (currentTenantRole_reads (policy_tx db)). Qed.
#[local] Hint Resolve policy_role_reads : effects.

Lemma or_false_reads m : reads m -> reads (or_false m).
Proof. intros R. apply keeps_bind; [by apply keeps_attempt|]. intros. apply keeps_ret. Qed.
#[local] Hint Resolve or_false_reads : effects.

Lemma request_offers actor pid input w w' o a pid' :
  abstracts pid' w a ->
  request_write db ports codec oracle actor pid input w = (w', Ok o) ->
  exists a', abstracts pid' w' a' /\ (pid' <> pid -> a' = a)
    /\ (pid' = pid -> ownership_step (Offer (or_uuid oracle 0) (oi_ToUserID input)) a a').
Proof.
  intros A F. unfold request_write in F. apply bind_ok in F as (w0 & p & F0 & F).
  apply Gorm_Project_ok in F0 as [-> Sh].
  destruct (projectOwnerUser p) as [currentOwner|] eqn:Eo; [|discriminate].
  do 9 read_step F. step F. apply InsertOwnerTransfer_ok in F0 as (f & Hf & Hfree & Hclosed & ->); [|done].
  cbn [ot_ID ot_ProjectID] in Hf, Hfree, Hclosed.
  match type of F with _ ?v = _ => set (w1 := v) in F end.
  assert (seats_eq w1 w') as Hs.
  { step F. injection F as <- _. destruct (po_RequiresActivationRead ports); [|by injection F0 as <- _; split].
    unfold recordOwnerTransferOrigin in F0. step F0. apply audit_seats in F0 as [F0 _].
    eapply seats_eq_trans; [by eapply put_seats|done]. }
  clear F. destruct A as [(r & Hr & Hv) A2 A3 A4 A5].
  assert (forall i t, tb_transfers w1 !! i = Some t ->
    (i = or_uuid oracle 0 /\ ot_ProjectID t = pid /\ ot_ToUserID t = oi_ToUserID input
       /\ ot_ExpectedProjectVersion t = pr_ProjectVersion p /\ ot_FromUserID t = currentOwner /\ ot_Status t = "pending")
    \/ i <> or_uuid oracle 0 /\ exists x, tb_transfers w !! i = Some x /\ t = f x) as Look.
  { intros i t Ht. subst w1. cbn in Ht. destruct (decide (i = or_uuid oracle 0)) as [->|N].
    - rewrite lookup_insert_eq in Ht. injection Ht as <-. by left.
    - rewrite lookup_insert_ne, lookup_fmap in Ht by congruence. right. split; [done|].
      destruct (tb_transfers w !! i) as [y|]; [|discriminate]. injection Ht as <-. by exists y. }
  assert (tb_transfers w1 !! or_uuid oracle 0 ≫= offer_of pid' =
          if decide (pid' = pid) then Some (oi_ToUserID input, pr_ProjectVersion p) else None) as New.
  { subst w1. cbn. rewrite lookup_insert_eq. cbn. unfold offer_of, pending. cbn.
    destruct (decide (pid' = pid)) as [->|N]; [by rewrite decide_True|].
    by rewrite decide_False by (intros [? _]; congruence). }
  destruct (decide (pid' = pid)) as [->|N].
  - assert (pr_ProjectVersion p = own_version a) as Ev.
    { destruct Sh as (_ & (r' & Hr' & _ & Hv' & _) & _). congruence. }
    exists {| own_version := own_version a; own_owner := own_owner a;
              own_offers := {[ or_uuid oracle 0 := (oi_ToUserID input, own_version a) ]} |}.
    split; [|split; [done|intros _; destruct a; constructor]].
    apply (abstracts_seats _ w1); [done|]. split; cbn; [by exists r|done|done| |].
    + apply map_eq. intros i. rewrite offers_of_lookup.
      destruct (decide (i = or_uuid oracle 0)) as [->|Ni]; [by rewrite lookup_singleton_eq, New, Ev|].
      rewrite lookup_singleton_ne by congruence.
      destruct (tb_transfers w1 !! i) as [t|] eqn:Et; [|done].
      destruct (Look _ _ Et) as [[? _]|[_ (y & Hy & ->)]]; [done|].
      cbn. unfold offer_of. rewrite decide_False; [done|]. intros [Hp Hst].
      destruct (Hf y) as (E1 & _). rewrite E1 in Hp. by apply (Hclosed i y Hy Hp).
    + intros i t Ht P. destruct (Look _ _ Ht) as [(_ & _ & _ & He & Hfr & _)|[_ (y & Hy & ->)]].
      * split; [lia|]. intros _. rewrite Hfr. eapply projectOwnerUser_only; [|exact Eo].
        by eapply shows_owner.
      * destruct P as [Hp Hst]. destruct (Hf y) as (E1 & _). rewrite E1 in Hp.
        by destruct (Hclosed i y Hy Hp).
  - exists a. split; [|done]. apply (abstracts_seats _ w1); [done|].
    split; [by exists r|done|done| |].
    + rewrite A4. apply map_eq. intros i. rewrite !offers_of_lookup.
      destruct (decide (i = or_uuid oracle 0)) as [->|Ni]; [by rewrite New, Hfree|].
      subst w1. cbn. rewrite lookup_insert_ne, lookup_fmap by congruence.
      destruct (tb_transfers w !! i) as [y|] eqn:Ey; [|done]. cbn. unfold offer_of.
      destruct (Hf y) as (E1 & E2 & E3 & E4 & E5 & E6).
      destruct (decide (ot_ProjectID y = pid)) as [Ep|Np].
      * by rewrite !decide_False by (intros [? _]; congruence).
      * by rewrite E5.
    + intros i t Ht P. destruct (Look _ _ Ht) as [(_ & Hp & _)|[_ (y & Hy & ->)]].
      * destruct P as [P _]. congruence.
      * destruct (Hf y) as (E1 & E2 & E3 & E4 & E5 & E6). destruct P as [P1 P2]. rewrite E3, E4.
        apply (A5 i y Hy). split; [congruence|by apply E6].
Qed.

(** A grant touches no seat. *)
Lemma grant_seats actor pid input p w w' r :
  grant_write db ports codec oracle actor pid input p w = (w', r) -> seats_eq w w'.
Proof.
  assert (forall V (I : tables -> V), (forall w t, I (w <| tb_records := t |>) = I w) ->
    (forall w t, I (w <| tb_audit := t |>) = I w) ->
    keeps I (grant_write db ports codec oracle actor pid input p)) as K.
  { intros V I Hr Ha.
    assert (forall A (m : T A), reads m -> keeps I m) as Read by (intros A m R v; by rewrite (reads_run m v R)).
    unfold grant_write. apply keeps_bind; [apply keeps_refuse_if|intros _].
    apply keeps_bind; [apply Read, (api_key_reads (db := db))|intros has].
    apply keeps_bind; [apply keeps_refuse_if|intros _].
    apply keeps_bind; [destruct (kg_Active input); [apply Read, (native_key_reads (db := db))|apply keeps_ret]|intros _].
    apply keeps_bind; [apply Read, keeps_attempt, GetProjectRecord_reads|intros old].
    apply keeps_bind; [destruct old as [[? ?]|e]; [|destruct (bool_decide _)]; auto with effects|intros version].
    apply keeps_bind; [apply PutProjectRecord_keeps; intros; apply Hr|intros _].
    apply keeps_bind; [by apply audit_keeps|intros _]. apply keeps_ret. }
  intros F. split; [apply (keeps_run tb_projects _ _ _ _ (K _ tb_projects ltac:(done) ltac:(done)) F)
    |apply (keeps_run tb_members _ _ _ _ (K _ tb_members ltac:(done) ltac:(done)) F)
    |apply (keeps_run tb_permissions _ _ _ _ (K _ tb_permissions ltac:(done) ltac:(done)) F)
    |apply (keeps_run tb_transfers _ _ _ _ (K _ tb_transfers ltac:(done) ltac:(done)) F)].
Qed.

Lemma RequireHuman_reads {X} (ctx : Context X) : reads (RequireHuman ctx).
Proof. intros w. unfold RequireHuman, returned. by destruct (RequireHumanDecision _ _). Qed.

Lemma verify_origin_reads {X} (ctx : Context X) actor p transfer :
  reads (verifyOwnerTransferOrigin db codec ctx actor p transfer).
Proof.
  unfold verifyOwnerTransferOrigin. apply keeps_bind; [apply RequireHuman_reads|intros _].
  apply keeps_bind; [apply keeps_map_error, GetProjectRecord_reads|intros [origin v]].
  apply keeps_bind; [destruct (_ || _); [apply (available_reads (policy_tx db))|apply keeps_ret]|intros available].
  apply keeps_bind; [destruct (oo_Recovery origin)|intros _].
  - apply keeps_bind; [auto with effects|intros _]. apply keeps_bind; auto with effects.
  - auto with effects.
  - apply keeps_bind; auto with effects.
Qed.
#[local] Hint Resolve verify_origin_reads : effects.

(** The seat of a recipient whose assignment is active. *)
Lemma active_assignment_seat w tenant pid p user :
  shows db w tenant pid p -> inactive_assignment p user = false -> seat_ok w pid user.
Proof.
  unfold inactive_assignment, projectMember. intros Sh.
  rewrite (shows_find db w tenant pid p user Sh). unfold member_at.
  destruct (tb_members w !! (pid, user)) as [role|]; [|done]. cbn. intros G row Hrow.
  rewrite status_gate in G. apply negb_false_iff, active_status_spec in G.
  rewrite Hrow in G. unfold member_view in G. by destruct (role =? "owner")%string.
Qed.

(** What an acceptance does to the tables. *)
Record accepted (pid tid user : string) (t : OwnerTransfer) (w w' : tables) : Prop := {
  ac_row : exists row row', tb_projects w !! pid = Some row
      /\ tb_projects w' = <[pid := row']> (tb_projects w)
      /\ row_ProjectVersion row = ot_ExpectedProjectVersion t
      /\ row_ProjectVersion row' = row_ProjectVersion row +i 1;
  ac_transfer : exists t', ot_Status t' = "accepted" /\ ot_ProjectID t' = ot_ProjectID t
      /\ tb_transfers w' = <[tid := t']> (tb_transfers w);
  ac_owner : tb_members w' !! (pid, user) = Some "owner";
  ac_from : ot_FromUserID t <> user -> tb_members w' !! (pid, ot_FromUserID t) = Some "collaborator";
  ac_members key : key <> (pid, user) -> key <> (pid, ot_FromUserID t) ->
    tb_members w' !! key = tb_members w !! key;
  ac_permissions key : key.1 <> pid -> tb_permissions w' !! key = tb_permissions w !! key;
  ac_status : mp_Status <$> tb_permissions w' !! (pid, user) = mp_Status <$> tb_permissions w !! (pid, user)
}.

(** The writes of an acceptance, after its checks. *)
Lemma accept_tail_effect actor pid tid p t tenant w w1 w2 w3 w4 w5 u1 u2 u3 u4 u5 at_ :
  shows db w tenant pid p -> tb_transfers w !! tid = Some t ->
  ot_ExpectedProjectVersion t = pr_ProjectVersion p ->
  EnsureMember db pid (ac_UserID actor) "collaborator" w = (w1, Ok u1) ->
  UpdateProject db (ac_TenantID actor) p (p <| pr_ProjectVersion := pr_ProjectVersion p +i 1 |>) w1 = (w2, Ok u2) ->
  SetMemberRole db pid (ot_FromUserID t) "collaborator" w2 = (w3, Ok u3) ->
  SetMemberRole db pid (ac_UserID actor) "owner" w3 = (w4, Ok u4) ->
  AcceptOwnerTransfer db pid tid (ot_ExpectedProjectVersion t) at_ w4 = (w5, Ok u5) ->
  accepted pid tid (ac_UserID actor) t w w5.
Proof.
  intros Sh Ht Hv F1 F2 F3 F4 F5.
  apply SetMemberRole_ok in F3 as [_ M3 St3 O3 P3 T3]. apply SetMemberRole_ok in F4 as [_ M4 St4 O4 P4 T4].
  apply update_affected in F5 as (t5 & Ht5 & _ & ->).
  pose proof (UpdateProject_ok db _ _ _ _ _ _ F2) as (row & Hrow & _ & Hrv & _ & row' & Hrow' & _ & Hv' & _).
  assert (forall V (I : tables -> V), (forall w t, I (w <| tb_projects := t |>) = I w) ->
    keeps I (db_persist db p (p <| pr_ProjectVersion := pr_ProjectVersion p +i 1 |>)) -> I w2 = I w1) as Keep.
  { intros V I H1 H2. eapply keeps_run; [|exact F2]. by apply UpdateProject_keeps. }
  assert (tb_members w2 = tb_members w1) as M2 by (apply (Keep _ tb_members); [done|apply persist_members]).
  assert (tb_permissions w2 = tb_permissions w1) as Pm2
    by (apply (Keep _ tb_permissions); [done|apply persist_permissions]).
  assert (tb_transfers w2 = tb_transfers w1) as T2
    by (apply (Keep _ tb_transfers); [done|apply persist_transfers]).
  assert (tb_permissions w1 = tb_permissions w /\ tb_projects w1 = tb_projects w /\ tb_transfers w1 = tb_transfers w
    /\ (forall key, key <> (pid, ac_UserID actor) -> tb_members w1 !! key = tb_members w !! key)) as (Pm1 & Pr1 & T1 & M1).
  { apply EnsureMember_ok in F1 as [[-> _]|[_ ->]]; [done|].
    repeat split. intros key N. cbn. by rewrite lookup_insert_ne by congruence. }
  assert (pr_ID p = pid) as Epid by (by destruct Sh). rewrite Epid, Pr1 in *.
  assert (tb_transfers w4 = tb_transfers w) as T by congruence.
  assert (t5 = t) as -> by congruence.
  split; cbn.
  - exists row, row'. split; [done|]. split; [by rewrite <- Hrow', <- P3, <- P4|].
    split; [congruence|]. rewrite Hv'. cbn. by rewrite Hrv.
  - exists (t <| ot_Status := "accepted" |> <| ot_AcceptedAt := Some at_ |>).
    split; [done|]. split; [done|]. by rewrite <- T.
  - change (tb_members w4 !! (pid, ac_UserID actor) = Some "owner"). by rewrite M4, lookup_insert_eq.
  - intros N. change (tb_members w4 !! (pid, ot_FromUserID t) = Some "collaborator").
    by rewrite M4, M3, lookup_insert_ne, lookup_insert_eq by congruence.
  - intros key N1 N2. change (tb_members w4 !! key = tb_members w !! key).
    by rewrite M4, M3, !lookup_insert_ne, M2, M1 by congruence.
  - intros key N. change (tb_permissions w4 !! key = tb_permissions w !! key).
    by rewrite O4, O3, Pm2, Pm1 by (intros ->; done).
  - change (mp_Status <$> tb_permissions w4 !! (pid, ac_UserID actor)
            = mp_Status <$> tb_permissions w !! (pid, ac_UserID actor)).
    rewrite St4, <- Pm1, <- Pm2.
    destruct (decide (ac_UserID actor = ot_FromUserID t)) as [->|N]; [done|].
    by rewrite O3 by congruence.
Qed.

Lemma accepted_simulates pid tid user t w w' a pid' :
  accepted pid tid user t w w' -> abstracts pid' w a -> room w ->
  tb_transfers w !! tid = Some t -> ot_ProjectID t = pid -> ot_Status t = "pending" ->
  ot_ToUserID t = user -> seat_ok w pid user ->
  exists a', abstracts pid' w' a' /\ (pid' <> pid -> a' = a)
    /\ (pid' = pid -> ownership_step (Accept tid) a a' /\ own_owner a' = user).
Proof.
  intros [(row & row' & Hrow & Hrow' & He & Hv) (t' & Hs & Hp' & T6) Mo Mf Mm Pm St]
    [(r & Hr & Hrv) A2 A3 A4 A5] Room Ht Hp Hpend Hto Seat.
  assert (forall i, i <> tid -> tb_transfers w' !! i = tb_transfers w !! i) as Others
    by (intros i Ni; by rewrite T6, lookup_insert_ne by congruence).
  assert (tb_transfers w' !! tid = Some t') as New by (by rewrite T6, lookup_insert_eq).
  assert (tb_transfers w' !! tid ≫= offer_of pid' = None) as Closed.
  { rewrite New. cbn. unfold offer_of. rewrite decide_False; [done|]. intros [_ E]. congruence. }
  destruct (decide (pid' = pid)) as [->|N].
  - assert (r = row) as -> by congruence.
    destruct (A5 tid t Ht) as [_ Hfrom]; [done|]. specialize (Hfrom ltac:(congruence)).
    exists {| own_version := own_version a + 1; own_owner := user; own_offers := delete tid (own_offers a) |}.
    split; [|split; [done|intros _; split; [|done]]].
    + split; cbn; [|lia| | |].
      * exists row'. rewrite Hrow', lookup_insert_eq. split; [done|].
        rewrite Hv, Hrv. apply next_version. specialize (Room _ _ Hrow). lia.
      * split; [done|]. split.
        -- intros rw Hrw. rewrite Hrw in St. cbn in St.
           destruct (tb_permissions w !! (pid, user)) as [rw0|] eqn:Erw; [|discriminate].
           injection St as ->. by apply Seat.
        -- intros v Hv6. unfold owns in Hv6. destruct (decide (v = user)) as [->|Nv]; [done|]. exfalso.
           destruct (decide (v = ot_FromUserID t)) as [->|Nv']; [rewrite Mf in Hv6 by done; discriminate|].
           rewrite Mm in Hv6 by congruence. apply Nv'. rewrite Hfrom. by apply A3.
      * apply map_eq. intros i. rewrite offers_of_lookup, A4.
        destruct (decide (i = tid)) as [->|Ni]; [by rewrite Closed, lookup_delete_eq|].
        by rewrite lookup_delete_ne, offers_of_lookup, Others by congruence.
      * intros i y Hy P. destruct (decide (i = tid)) as [->|Ni].
        -- rewrite New in Hy. injection Hy as <-. destruct P. congruence.
        -- rewrite Others in Hy by done. destruct (A5 i y Hy P). lia.
    + assert (own_offers a !! tid = Some (user, own_version a)) as Ho.
      { rewrite A4, offers_of_lookup, Ht. cbn. unfold offer_of. rewrite decide_True by done. congruence. }
      destruct a as [v ow offers]. cbn in *. by constructor.
  - exists a. split; [|done]. split; [exists r; by rewrite Hrow', lookup_insert_ne by congruence|done| | |].
    + eapply well_owned_others; [|exact A3]. intros v. by rewrite Mm, Pm by (cbn; congruence).
    + apply map_eq. intros i. rewrite A4, !offers_of_lookup.
      destruct (decide (i = tid)) as [->|Ni]; [|by rewrite Others].
      rewrite Closed, Ht. cbn. unfold offer_of. rewrite decide_False; [done|]. intros [E _]. congruence.
    + intros i y Hy P. destruct (decide (i = tid)) as [->|Ni].
      * rewrite New in Hy. injection Hy as <-. destruct P. congruence.
      * rewrite Others in Hy by done. by eapply A5.
Qed.

Lemma accept_moves_owner {X} (ctx : Context X) actor pid tid w w' o a pid' :
  abstracts pid' w a -> room w ->
  po_RequiresActivationRead ports = true \/ seat_ok w pid (ac_UserID actor) ->
  accept_transfer_write db ports codec oracle ctx actor pid tid w = (w', Ok o) ->
  exists a', abstracts pid' w' a' /\ (pid' <> pid -> a' = a)
    /\ (pid' = pid -> ownership_step (Accept tid) a a' /\ own_owner a' = ac_UserID actor).
Proof.
  intros A Room Seat F. unfold accept_transfer_write in F. read_step F.
  apply bind_ok in F as (w0 & p & F0 & F). apply Gorm_Project_ok in F0 as [-> Sh].
  read_step F. apply bind_ok in F as (w0 & t & F0 & F).
  assert (w0 = w) as -> by (eapply reads_ok; [exact F0|auto with effects]).
  apply map_error_ok, map_error_ok, take_ok in F0 as [_ Ht].
  do 2 read_step F. apply bind_ok in F as (w0 & y3 & F1 & F). apply refuse_if_ok in F1 as [Gs ->].
  read_step F. apply bind_ok in F as (w0 & y5 & F1 & F).
  assert (w0 = w) as ->
    by (eapply reads_ok; [exact F1|]; destruct (po_RequiresActivationRead ports); auto with effects).
  clear F1. do 2 read_step F.
  apply refuse_if_ok in R1 as [R1 _]. apply refuse_if_ok in R3 as [R3 _]. split_bools.
  assert (seat_ok w pid (ac_UserID actor)) as Seat'.
  { destruct Seat as [Es|?]; [|done]. rewrite Es in Gs. by eapply active_assignment_seat. }
  destruct (tb_transfers w !! tid) as [t'|] eqn:Et; [|discriminate].
  destruct (ot_ProjectID t' =? pid)%string eqn:Ep; [|discriminate]. injection Ht as ->.
  apply String.eqb_eq in Ep.
  apply bind_ok in F as (w1 & y1 & F1 & F). apply bind_ok in F as (w2 & y2 & F2 & F).
  apply bind_ok in F as (w3 & y4 & F3 & F). apply bind_ok in F as (w4 & y6 & F4 & F).
  apply bind_ok in F as (w5 & y7 & F5 & F). apply bind_ok in F as (w6 & y8 & F6 & F). injection F as <- _.
  assert (seats_eq w5 w6) as S56
    by (destruct (po_RequiresActivationRead ports); [by apply audit_seats in F6 as [F6 _]|by injection F6 as <- _; split]).
  pose proof (accept_tail_effect _ _ _ _ _ _ _ _ _ _ _ _ _ _ _ _ _ _ Sh Et R3 F1 F2 F3 F4 F5) as Acc.
  destruct (accepted_simulates _ _ _ _ _ _ a pid' Acc A Room Et) as (a' & Ha & Hx); [done..|].
  exists a'. split; [by eapply abstracts_seats|done].
Qed.
End Operations.
