(* ===== verification/MembershipSimulation.v ===== *)
(** The member and owner operations as the calls of one machine, and the
    simulation: whatever a call answers, the ownership of every project moves
    by one step of the abstract machine of [MembershipLaws], or not at all. *)

From stdpp Require Import sorting.
From S2P Require Import Prelude Effects OperationCore OperationStore Workspace Permission PermissionTheorems MemberStore MemberLaws Membership MembershipLaws.

(** ** The calls *)

Inductive member_call :=
| CallInvite (actor : Actor) (pid key : string) (input : InviteMemberInput)
| CallAccept (actor : Actor) (pid id key : string) (input : AcceptMemberInput)
| CallState (actor : Actor) (pid user key : string) (input : MemberLifecycleInput)
| CallAssignment (actor : Actor) (pid user key : string) (input : MemberAssignmentInput)
| CallSaveMembers (actor : Actor) (pid key : string) (input : SaveMembersInput)
| CallTransferOwner (actor : Actor) (pid key : string) (input : TransferOwnerInput)
| CallRequestTransfer (actor : Actor) (pid key : string) (input : OwnerTransferInput)
| CallAcceptTransfer (actor : Actor) (pid tid key : string)
| CallRejectTransfer (actor : Actor) (pid tid key : string) (input : OwnerTransferDecisionInput)
| CallGrant (actor : Actor) (pid key : string) (input : ProjectAPIKeyGrant)
| CallTenantSuspension (tenant : Z) (user pid : string).

(** [Repository.Transaction]: all or nothing. *)
Definition atomically {A} (m : T A) : T A := fun w =>
  match m w with (w', Ok a) => (w', Ok a) | (_, Err e) => (w, Err e) end.

Section Calls.
Variable db : Database.
Variable ports : Ports.
Variable codec : Codec.
Variable oracle : Oracle.
Context {X : Type} (ctx : Context X).

Definition perform (call : member_call) : T unit :=
  match call with
  | CallInvite actor pid key input =>
      _ ← InviteProjectMember db ports codec oracle actor pid key input; mret tt
  | CallAccept actor pid id key input =>
      _ ← AcceptProjectInvitation db ports codec oracle actor pid id key input; mret tt
  | CallState actor pid user key input =>
      _ ← ChangeMemberState db ports oracle actor pid user key input; mret tt
  | CallAssignment actor pid user key input =>
      _ ← SetMemberAssignment db ports oracle actor pid user key input; mret tt
  | CallSaveMembers actor pid key input =>
      _ ← SaveMembers db ports oracle actor pid key input; mret tt
  | CallTransferOwner actor pid key input =>
      _ ← TransferOwner db ports oracle actor pid key input; mret tt
  | CallRequestTransfer actor pid key input =>
      _ ← RequestOwnerTransfer db ports codec oracle actor pid key input; mret tt
  | CallAcceptTransfer actor pid tid key =>
      _ ← Membership_AcceptOwnerTransfer db ports codec oracle ctx actor pid tid key; mret tt
  | CallRejectTransfer actor pid tid key input =>
      _ ← RejectOwnerTransfer db ports oracle actor pid tid key input; mret tt
  | CallGrant actor pid key input =>
      _ ← SaveProjectAPIKeyGrant db ports codec oracle actor pid key input; mret tt
  | CallTenantSuspension tenant user pid =>
      atomically (p ← Gorm_Project db tenant pid; suspend_in db oracle tenant user p)
  end.

Definition call_project (call : member_call) : string :=
  match call with
  | CallInvite _ pid _ _ | CallAccept _ pid _ _ _ | CallState _ pid _ _ _ | CallAssignment _ pid _ _ _
  | CallSaveMembers _ pid _ _ | CallTransferOwner _ pid _ _ | CallRequestTransfer _ pid _ _
  | CallAcceptTransfer _ pid _ _ | CallRejectTransfer _ pid _ _ _ | CallGrant _ pid _ _ | CallTenantSuspension _ _ pid => pid
  end.

(** The abstract step a call may take. *)
Definition call_act (call : member_call) : ownership_act :=
  match call with
  | CallTransferOwner _ _ _ input => HandOver (ti_NewOwnerUserID input)
  | CallRequestTransfer _ _ _ input => Offer (or_uuid oracle 0) (TrimSpace (oi_ToUserID input))
  | CallAcceptTransfer _ _ tid _ => Accept tid
  | CallRejectTransfer _ _ tid _ _ => Close tid
  | _ => Edit
  end.

(** What two calls must be asked that the code does not check: that the
    recipient of the ownership has no suspended, invited or removed seat. *)
Definition careful (w : tables) (call : member_call) : Prop :=
  match call with
  | CallTransferOwner _ pid _ input => seat_ok w pid (ti_NewOwnerUserID input)
  | CallAcceptTransfer actor pid _ _ =>
      po_RequiresActivationRead ports = true \/ seat_ok w pid (ac_UserID actor)
  | _ => True
  end.

Context `{!DatabaseLaws db, !PortsLaws db ports, !OracleLaws oracle}.

(** A computation moves the abstract state of [pid'] by [Q] or not at all,
    from any store where [P] holds. *)
Definition moves {A} (pid' : string) (P : tables -> Prop) (Q : ownership -> ownership -> Prop) (m : T A) : Prop :=
  forall w w' r a, room w -> P w -> abstracts pid' w a -> m w = (w', r) ->
  exists a', abstracts pid' w' a' /\ (a' = a \/ Q a a').

Definition stable (P : tables -> Prop) : Prop := forall w w', membership_eq w w' -> P w -> P w'.

Lemma room_stable : stable room.
Proof. intros w w' [E _ _ _ _ _] R pid row. rewrite E. apply R. Qed.

Lemma careful_stable call : stable (fun w => careful w call).
Proof.
  intros w w' [_ _ E _ _ _] C. destruct call; try done; unfold careful, seat_ok in *; by rewrite E.
Qed.

Lemma moves_quiet {A} pid' P Q (m : T A) : quiet m -> moves pid' P Q m.
Proof.
  intros K w w' r a R HP Ha F. exists a. split; [|by left].
  eapply abstracts_eq; [|exact Ha]. specialize (K w). by rewrite F in K.
Qed.

Lemma moves_bind_l {A B} pid' P Q (m : T A) (k : A -> T B) :
  stable P -> quiet m -> (forall x, moves pid' P Q (k x)) -> moves pid' P Q (m ≫= k).
Proof.
  intros S K H w w' r a R HP Ha F. specialize (K w). unfold mbind, M_bind in F.
  destruct (m w) as [w1 [x|e]]; cbn in K.
  - eapply H; [by eapply room_stable|by eapply S|by eapply abstracts_eq|exact F].
  - injection F as <- _. exists a. split; [by eapply abstracts_eq|by left].
Qed.

Lemma moves_bind_r {A B} pid' P Q (m : T A) (k : A -> T B) :
  moves pid' P Q m -> (forall x, quiet (k x)) -> moves pid' P Q (m ≫= k).
Proof.
  intros H K w w' r a R HP Ha F. unfold mbind, M_bind in F.
  destruct (m w) as [w1 [x|e]] eqn:E; destruct (H w w1 _ a R HP Ha E) as (a' & Ha' & HQ); exists a'.
  - split; [|done]. specialize (K x w1). rewrite F in K. by eapply abstracts_eq.
  - injection F as <- _. by split.
Qed.

Lemma quiet_ret {A} (x : A) : quiet (mret x : T A).
Proof. by intros w. Qed.

Lemma quiet_fail {A} e : quiet (fail e : T A).
Proof. by intros w. Qed.

(** The write of a run, on the project the run authorized. *)
Lemma moves_run pid' P Q actor spec write :
  rq_Actor (sp_Request spec) = actor -> stable P ->
  (forall w w' p o a, room w -> P w -> abstracts pid' w a -> write p w = (w', Ok o) ->
     (if (rq_ProjectID (sp_Request spec) =? "")%string then p = zero_project
      else authorized db (sp_Request spec) w p) ->
     exists a', abstracts pid' w' a' /\ (a' = a \/ Q a a')) ->
  moves pid' P Q (po_Run ports actor spec write).
Proof.
  intros Act S H w w' r a R HP Ha F.
  assert (membership_eq w w' \/ committed db spec write w w') as [E|(w0 & w1 & p & o & E1 & Hw & E2 & Hp)].
  { destruct r as [[[body status] replayed]|e]; [|by eapply run_err].
    pose proof (run_ok _ _ _ _ _ _ _ _ Act F) as G. destruct replayed; [by left|by right]. }
  - exists a. split; [by eapply abstracts_eq|by left].
  - destruct (H w0 w1 p o a) as (a' & Ha' & HQ);
      [by eapply room_stable|by eapply S|by eapply abstracts_eq|done|done|].
    exists a'. split; [by eapply abstracts_eq|done].
Qed.

Definition edits (pid pid' : string) (a a' : ownership) : Prop := pid' = pid /\ ownership_step Edit a a'.

Lemma after_edit_cases pid pid' a :
  after_edit pid pid' (own_owner a) a = a \/ edits pid pid' a (after_edit pid pid' (own_owner a) a).
Proof.
  unfold after_edit, edits. destruct (decide (pid' = pid)); [|by left].
  right. split; [done|]. destruct a. constructor.
Qed.

(** An edit, or no change at all, that leaves the project to its owner. *)
Lemma edit_moves pid pid' w w' a :
  room w -> abstracts pid' w a -> (w' = w \/ edited pid w w') ->
  (pid' = pid -> well_owned w' pid (own_owner a)) ->
  exists a', abstracts pid' w' a' /\ (a' = a \/ edits pid pid' a a').
Proof.
  intros R A [->|Hed] Ho; [exists a; by split; [|left]|].
  exists (after_edit pid pid' (own_owner a) a). split; [by eapply edited_simulates|apply after_edit_cases].
Qed.

Definition owned (pid : string) (w : tables) : Prop := exists u, well_owned w pid u.

Lemma owned_stable pid : stable (owned pid).
Proof.
  intros w w' E [u Hu]. exists u. eapply well_owned_seats; [by apply membership_seats|done].
Qed.

(** What an edit does on a project that has its owner. *)
Definition edits_project (pid : string) (w w' : tables) : Prop :=
  forall u, well_owned w pid u -> (w' = w \/ edited pid w w') /\ well_owned w' pid u.

Lemma edits_project_moves pid pid' w w' a :
  room w -> owned pid w -> abstracts pid' w a -> edits_project pid w w' ->
  exists a', abstracts pid' w' a' /\ (a' = a \/ edits pid pid' a a').
Proof.
  intros R [u Hu] A K. apply edit_moves with (w := w) (pid := pid); [done|done|by apply (K u)|].
  intros ->. destruct A as [_ _ Wo _ _]. by apply K.
Qed.

(** The writes of a managed operation: on the zero project they are refused
    by the version check, on an authorized one they keep the owner. *)
Lemma moves_managed pid' actor pid (name target key : string) body write :
  (forall w w' o, write zero_project w <> (w', Ok o)) ->
  (forall w w' tenant p o, shows db w tenant pid p -> write p w = (w', Ok o) -> edits_project pid w w') ->
  moves pid' (owned pid) (edits pid pid')
    (po_Run ports actor {| sp_Name := name; sp_Target := target; sp_Key := key; sp_Body := body;
                           sp_Request := project_request actor pid "manage" |} write).
Proof.
  intros Z K. apply moves_run; [done|apply owned_stable|]. intros w w' p o a R O A Hw Hp. cbn in Hp.
  destruct (pid =? "")%string; [subst p; by apply Z in Hw|].
  apply (authorized_shows db) in Hp. cbn in Hp. eapply edits_project_moves; [done..|by eapply K].
Qed.

Lemma version_refused (expected : Z) {A} (k : unit -> T A) w w' o :
  1 <= expected ->
  (refuse_if (negb (pr_ProjectVersion zero_project =? expected)) ErrVersionConflict ≫= k) w <> (w', Ok o).
Proof.
  intros B F. apply bind_ok in F as (w1 & u & F & _). apply refuse_if_ok in F as [F _].
  apply negb_false_iff, Z.eqb_eq in F. cbn in F. lia.
Qed.

Lemma quiet_unit {A} (m : T A) pid' P Q : moves pid' P Q m -> moves pid' P Q (_ ← m; mret tt).
Proof. intros H. apply moves_bind_r; [done|]. intros x. apply quiet_ret. Qed.

(** A handler's own checks come first. *)
Lemma moves_when {A} pid' P Q (c : bool) e (m : T A) :
  (c = false -> moves pid' P Q m) -> moves pid' P Q (if c then fail e else m).
Proof. intros H. destruct c; [apply moves_quiet, quiet_fail|by apply H]. Qed.

Ltac positive_version G :=
  repeat match type of G with _ || _ = false => apply orb_false_iff in G as [G _] end;
  apply Z.ltb_ge in G.

Lemma invite_moves pid' actor pid key input :
  moves pid' (owned pid) (edits pid pid') (InviteProjectMember db ports codec oracle actor pid key input).
Proof.
  apply moves_when. intros G. positive_version G. apply moves_managed.
  - intros w w' o. by apply version_refused.
  - intros w w' tenant p o Sh F u Wo.
    destruct (invite_keeps_owner db ports codec oracle actor pid input w w' tenant p o u Sh Wo F). auto.
Qed.

Lemma state_moves pid' actor pid user key input :
  moves pid' (owned pid) (edits pid pid') (ChangeMemberState db ports oracle actor pid user key input).
Proof.
  apply moves_when. intros G. positive_version G. apply moves_managed.
  - intros w w' o. by apply version_refused.
  - intros w w' tenant p o Sh F u Wo.
    destruct (state_keeps_owner db oracle actor pid user input w w' tenant p o u Sh Wo F). auto.
Qed.

Lemma assignment_moves pid' actor pid user key input :
  moves pid' (owned pid) (edits pid pid') (SetMemberAssignment db ports oracle actor pid user key input).
Proof.
  apply moves_when. intros G. apply orb_false_iff in G as [G _]. apply orb_false_iff in G as [_ G].
  apply Z.ltb_ge in G. apply moves_managed.
  - intros w w' o. by apply version_refused.
  - intros w w' tenant p o Sh F u Wo.
    destruct (assignment_keeps_owner db ports oracle actor pid user input w w' tenant p o u Sh Wo F). auto.
Qed.

Lemma announce_quiet actor pid details outcome : quiet (announce ports actor pid details outcome).
Proof.
  intros w. unfold announce. destruct outcome as [[body status] [|]]; [done|].
  pose proof (event_quiet (db := db) (ports := ports)) as K.
  unfold mbind, M_bind, ignore_error. cbn. apply K.
Qed.

Lemma save_moves pid' actor pid key input :
  moves pid' (owned pid) (edits pid pid') (SaveMembers db ports oracle actor pid key input).
Proof.
  apply moves_when. intros _. destruct (si_Members input) as [assignments|].
  - apply moves_when. intros _. apply moves_when. intros G. positive_version G.
    apply moves_bind_r; [|intros; apply announce_quiet]. apply moves_managed.
    + intros w w' o. by apply version_refused.
    + intros w w' tenant p o Sh F u Wo.
      destruct (permissions_keeps_owner db ports oracle actor pid input assignments w w' tenant p o u Sh Wo F). auto.
  - destruct (si_CollaboratorUserIDs input) as [requested|]; [|apply moves_quiet, quiet_fail].
    apply moves_when. intros G. positive_version G. do 2 (apply moves_when; intros _). apply moves_managed.
    + intros w w' o. by apply version_refused.
    + intros w w' tenant p o Sh F u Wo. by eapply collaborators_keeps_owner.
Qed.

Lemma accept_moves pid' actor pid id key input :
  moves pid' (owned pid) (edits pid pid') (AcceptProjectInvitation db ports codec oracle actor pid id key input).
Proof.
  apply moves_when. intros _. apply moves_bind_l; [apply owned_stable|apply (read_quiet (db := db))|intros _].
  apply moves_run; [done|apply owned_stable|]. intros w w' p o a R O A Hw _.
  eapply edits_project_moves; [done..|]. intros u Wo.
  destruct (accept_keeps_owner db ports codec oracle actor pid id input w w' o u Wo Hw). auto.
Qed.

Lemma suspension_moves pid' tenant user pid :
  moves pid' (owned pid) (edits pid pid')
    (atomically (p ← Gorm_Project db tenant pid; suspend_in db oracle tenant user p)).
Proof.
  intros w w' r a R O A F. unfold atomically in F.
  destruct ((p ← Gorm_Project db tenant pid; suspend_in db oracle tenant user p) w) as [w1 [v|e]] eqn:E;
    injection F as <- <-; [|exists a; by split; [|left]].
  apply bind_ok in E as (w2 & p & E1 & E). apply Gorm_Project_ok in E1 as [-> Sh].
  eapply edits_project_moves; [done..|]. intros u Wo. by eapply suspend_keeps_owner.
Qed.

Definition acts (act : ownership_act) (pid pid' : string) (a a' : ownership) : Prop :=
  pid' = pid /\ ownership_step act a a'.

Lemma seat_stable pid u : stable (fun w => owned pid w /\ seat_ok w pid u).
Proof.
  intros w w' E [O S]. split; [by eapply owned_stable|]. destruct E as [_ _ E _ _ _].
  unfold seat_ok in *. by rewrite E.
Qed.

Lemma quiet_freeze actor pid : quiet (po_OwnerFreezeRefusal ports actor pid).
Proof. apply (freeze_quiet (db := db)). Qed.

Lemma transfer_moves pid' actor pid key input :
  moves pid' (fun w => owned pid w /\ seat_ok w pid (ti_NewOwnerUserID input))
    (acts (HandOver (ti_NewOwnerUserID input)) pid pid') (TransferOwner db ports oracle actor pid key input).
Proof.
  apply moves_when. intros _. apply moves_when. intros G. positive_version G.
  apply moves_bind_l; [apply seat_stable|apply quiet_freeze|intros _].
  apply moves_bind_r; [|intros; apply announce_quiet].
  apply moves_run; [done|apply seat_stable|]. intros w w' p o a R [[u Wo] Seat] A Hw Hp. cbn in Hp.
  destruct (pid =? "")%string; [subst p; by apply version_refused in Hw|].
  apply (authorized_shows db) in Hp. cbn in Hp.
  destruct (transfer_moves_owner db oracle actor pid input p w w' _ o u Hp Wo Seat Hw) as [Hed Wo'].
  exists (after_edit pid pid' (ti_NewOwnerUserID input) a).
  split; [by eapply edited_simulates|]. unfold after_edit, acts.
  destruct (decide (pid' = pid)) as [->|N]; [|by left]. right. split; [done|].
  destruct a. constructor.
Qed.

Lemma request_moves pid' actor pid key input :
  moves pid' (fun _ => True) (acts (Offer (or_uuid oracle 0) (TrimSpace (oi_ToUserID input))) pid pid')
    (RequestOwnerTransfer db ports codec oracle actor pid key input).
Proof.
  apply moves_when. intros _. apply moves_bind_l; [done|apply quiet_freeze|intros _].
  apply moves_run; [done|done|]. intros w w' p o a R _ A Hw _.
  destruct (request_offers db ports codec oracle _ _ _ _ _ _ _ _ A Hw) as (a' & A' & H1 & H2).
  exists a'. split; [done|]. destruct (decide (pid' = pid)) as [E|N]; [right|left; auto].
  split; [done|by apply H2].
Qed.

Lemma accept_transfer_moves pid' actor pid tid key :
  moves pid' (fun w => careful w (CallAcceptTransfer actor pid tid key)) (acts (Accept tid) pid pid')
    (Membership_AcceptOwnerTransfer db ports codec oracle ctx actor pid tid key).
Proof.
  apply moves_bind_l; [apply careful_stable| |intros _].
  { destruct (po_RequiresActivationRead ports); [|apply quiet_ret].
    intros w. unfold mbind, M_bind. rewrite (reads_run _ w (RequireHuman_reads ctx)).
    destruct ((RequireHuman ctx w).2); [|done]. apply (authorize_quiet (db := db)). }
  apply moves_run; [done|apply careful_stable|]. intros w w' p o a R C A Hw _.
  destruct (accept_moves_owner db ports codec oracle ctx _ _ _ _ _ _ _ _ A R C Hw) as (a' & A' & H1 & H2).
  exists a'. split; [done|]. destruct (decide (pid' = pid)) as [E|N]; [right|left; auto].
  split; [done|by apply H2].
Qed.

Lemma reject_moves pid' actor pid tid key input :
  moves pid' (fun _ => True) (acts (Close tid) pid pid')
    (RejectOwnerTransfer db ports oracle actor pid tid key input).
Proof.
  apply moves_when. intros _. apply moves_run; [done|done|]. intros w w' p o a R _ A Hw _.
  destruct (reject_closes db oracle _ _ _ _ _ _ _ _ _ _ A Hw) as (a' & A' & H1 & H2).
  exists a'. split; [done|]. destruct (decide (pid' = pid)) as [E|N]; [right|left; auto].
  split; [done|by apply H2].
Qed.

Lemma grant_moves pid' actor pid key input Q :
  moves pid' (fun _ => True) Q (SaveProjectAPIKeyGrant db ports codec oracle actor pid key input).
Proof.
  do 2 (apply moves_when; intros _). apply moves_run; [done|done|]. intros w w' p o a _ _ A Hw _.
  exists a. split; [|by left]. eapply abstracts_seats; [by eapply (grant_seats db ports codec oracle)|done].
Qed.

Lemma perform_moves pid' call :
  moves pid' (fun w => owned (call_project call) w /\ careful w call)
    (acts (call_act call) (call_project call) pid') (perform call).
Proof.
  intros w w' r a R [O C] A F. revert w w' r a R A F O C.
  destruct call; cbn [perform call_project call_act careful]; intros w w' r a R A F O C.
  - by eapply (quiet_unit _ _ _ _ (invite_moves pid' actor pid key input)).
  - by eapply (quiet_unit _ _ _ _ (accept_moves pid' actor pid id key input)).
  - by eapply (quiet_unit _ _ _ _ (state_moves pid' actor pid user key input)).
  - by eapply (quiet_unit _ _ _ _ (assignment_moves pid' actor pid user key input)).
  - by eapply (quiet_unit _ _ _ _ (save_moves pid' actor pid key input)).
  - by eapply (quiet_unit _ _ _ _ (transfer_moves pid' actor pid key input)).
  - by eapply (quiet_unit _ _ _ _ (request_moves pid' actor pid key input)).
  - by eapply (quiet_unit _ _ _ _ (accept_transfer_moves pid' actor pid tid key)).
  - by eapply (quiet_unit _ _ _ _ (reject_moves pid' actor pid tid key input)).
  - by eapply (quiet_unit _ _ _ _ (grant_moves pid' actor pid key input _)).
  - by eapply (suspension_moves pid' tenant user pid).
Qed.

(** *** Histories *)

(** The workspace holds the projects [ps], each with its abstract state. *)
Definition sound (ps : list string) (w : tables) : Prop :=
  forall pid, pid ∈ ps -> exists a, abstracts pid w a.

(** One call on one of the projects, answered in whatever way. *)
Definition member_step (ps : list string) (w w' : tables) : Prop :=
  exists call r, call_project call ∈ ps /\ careful w call /\ room w /\ perform call w = (w', r).

Lemma step_sound ps w w' : member_step ps w w' -> sound ps w -> sound ps w'.
Proof.
  intros (call & r & Hin & C & R & F) S pid Hpid. destruct (S pid Hpid) as [a A].
  destruct (S _ Hin) as [a0 [_ _ Wo _ _]].
  destruct (perform_moves pid call w w' r a R) as (a' & A' & _); [|done|done|by exists a'].
  split; [by eexists|done].
Qed.
End Calls.
