(* ===== verification/MembershipDemo.v ===== *)
(** A concrete workspace for the member and owner operations: a database that
    adds no faults, ports that authorize, run and roll back directly, and a
    project with an owner, an admin, an author and a removed member.  It
    satisfies the laws the theorems assume. *)

From stdpp Require Import sorting pretty countable.
From Stdlib Require Import Ascii String.
From S2P Require Import Prelude Effects OperationCore OperationStore Workspace Permission PermissionTheorems MemberStore MemberLaws Membership MembershipLaws MembershipSimulation.

Definition demo_db : Database := {|
  db_fault := fun _ _ => None;
  db_order := fun l => l;
  db_project_order := fun l => l;
  db_record_order := fun l => l;
  db_transfer_order := fun l => l;
  db_spec := fun _ => Ok (∅, ∅);
  db_template := fun _ _ => Ok None;
  db_persist := fun _ _ => mret tt;
  db_spec_json := fun _ => Ok ("{}", "{}")
|}.

#[export] Instance demo_db_laws : DatabaseLaws demo_db.
Proof. split; by intros. Qed.

(** A run without replays: authorize, write, and roll back on an error. *)
Definition demo_run (actor : Actor) (spec : OperationSpec) (write : Project -> T OperationOutcome)
  : T (string * Z * bool) :=
  atomically (
    project ← (if (rq_ProjectID (sp_Request spec) =? "")%string
               then _ ← authorizeCurrentTenant (policy_tx demo_db) (sp_Request spec); mret zero_project
               else authorizeCurrentProject (policy_tx demo_db) (sp_Request spec));
    outcome ← write project;
    mret ("", oc_Status outcome, false)).

Definition demo_ports (activation : bool) : Ports := {|
  po_Run := demo_run;
  po_ReadTransaction := fun m w => (w, (m w).2);
  po_AuthorizeTenant := authorizeCurrentTenant (policy_tx demo_db);
  po_AuthorizeProject := authorizeCurrentProject (policy_tx demo_db);
  po_Rollback := false;
  po_RequiresActivationRead := activation;
  po_RecordAuditEvent := fun _ => mret tt;
  po_Authorize := fun actor pid cap =>
    _ ← authorizeCurrentProject (policy_tx demo_db)
          {| rq_Actor := actor; rq_ProjectID := pid; rq_Action := cap; rq_Resource := "" |};
    mret tt;
  po_OwnerFreezeRefusal := ownerFreezeRefusal (policy_tx demo_db);
  po_ResourceExists := fun _ _ _ => mret true;
  po_Chapters := fun _ => mret [];
  po_HasAPIKey := fun _ key => mret (key =? 1);
  po_VerifyMachineNativeKey := fun _ _ => mret tt
|}.

#[export] Instance demo_ports_laws activation : PortsLaws demo_db (demo_ports activation).
Proof.
  assert (forall actor spec write w w' r, demo_run actor spec write w = (w', r) ->
            match r with
            | Ok (_, _, replayed) => replayed = false /\ committed demo_db spec write w w'
            | Err _ => w' = w
            end) as Run.
  { intros actor spec write w w' r F. unfold demo_run, atomically in F.
    match type of F with match ?m with _ => _ end = _ => destruct m as [w1 [x|e]] eqn:E end;
      injection F as <- <-; [|done].
    apply bind_ok in E as (w0 & p & E0 & E). apply bind_ok in E as (w2 & o & Ew & E).
    injection E as <- <-. split; [done|].
    assert (w0 = w) as ->.
    { apply (reads_ok _ _ _ _ E0). destruct (_ =? "")%string.
      - apply keeps_bind; [|intros; apply keeps_ret].
        apply (authorizeCurrentTenant_reads (policy_tx demo_db)).
      - apply (authorizeCurrentProject_reads (policy_tx demo_db)). }
    exists w, w2, p, o. split; [done|]. split; [done|]. split; [done|].
    destruct (_ =? "")%string; [|by exists w]. apply bind_ok in E0 as (? & ? & _ & E0). by injection E0 as _ <-. }
  split; cbn.
  - intros actor spec write w w' body status replayed _ F. destruct (Run _ _ _ _ _ _ F) as [-> C]. exact C.
  - intros actor spec write w w' e _ F. left. by rewrite (Run _ _ _ _ _ _ F).
  - by intros m w.
  - by intros e w.
  - intros actor pid cap. apply reads_quiet. apply keeps_bind; [|intros; apply keeps_ret].
    apply (authorizeCurrentProject_reads (policy_tx demo_db)).
  - intros actor pid. apply reads_quiet, (ownerFreezeRefusal_reads (policy_tx demo_db)).
  - by intros.
  - by intros.
  - by intros.
  - by intros.
Qed.

Definition demo_oracle (tag : string) : Oracle := {|
  or_now := fun k => 1000 + Z.of_nat k;
  or_uuid := fun k => tag +:+ "-" +:+ pretty k;
  or_range := map_to_list
|}.

#[export] Instance demo_oracle_laws tag : OracleLaws (demo_oracle tag).
Proof. by split. Qed.

(** *** A codec: the binary digits of an injective encoding *)

Fixpoint digits (p : positive) : string :=
  match p with
  | xH => "1"
  | xO p => String "0"%char (digits p)
  | xI p => String "1"%char (digits p)
  end.

Fixpoint of_digits (s : string) : positive :=
  match s with
  | String a (String _ _ as s') => if (a =? "0")%char then xO (of_digits s') else xI (of_digits s')
  | _ => xH
  end.

Lemma of_digits_digits p : of_digits (digits p) = p.
Proof. induction p as [p IH|p IH|]; cbn; [..|done]; destruct (digits p) eqn:E; by destruct p; rewrite ?IH. Qed.

#[export] Instance member_eq_dec : EqDecision Member.
Proof. solve_decision. Defined.
#[export] Instance member_countable : Countable Member.
Proof.
  refine (inj_countable'
    (fun m => (m_UserID m, m_Role m, m_GovernanceRole m, m_FunctionRoles m, m_FunctionScopes m, m_Status m))
    (fun '(u, r, g, fr, fs, st) => {| m_UserID := u; m_Role := r; m_GovernanceRole := g; m_FunctionRoles := fr;
                                      m_FunctionScopes := fs; m_Status := st |}) _).
  by intros [].
Defined.

#[export] Instance invitation_eq_dec : EqDecision MemberInvitation.
Proof. solve_decision. Defined.
#[export] Instance invitation_countable : Countable MemberInvitation.
Proof.
  refine (inj_countable'
    (fun i => (mi_ID i, mi_ProjectID i, mi_UserID i, mi_Version i, mi_Assignment i, mi_Status i, mi_Inviter i,
               mi_Reason i, mi_ExpiresAt i, mi_CreatedAt i, mi_AcceptedAt i))
    (fun '(a, b, c, d, e, f, g, h, i, j, k) =>
       {| mi_ID := a; mi_ProjectID := b; mi_UserID := c; mi_Version := d; mi_Assignment := e; mi_Status := f;
          mi_Inviter := g; mi_Reason := h; mi_ExpiresAt := i; mi_CreatedAt := j; mi_AcceptedAt := k |}) _).
  by intros [].
Defined.

#[export] Instance origin_eq_dec : EqDecision ownerTransferOrigin.
Proof. solve_decision. Defined.
#[export] Instance origin_countable : Countable ownerTransferOrigin.
Proof.
  refine (inj_countable' (fun o => (oo_RequesterID o, oo_Recovery o))
            (fun '(a, b) => {| oo_RequesterID := a; oo_Recovery := b |}) _).
  by intros [].
Defined.

#[export] Instance grant_eq_dec : EqDecision ProjectAPIKeyGrant.
Proof. solve_decision. Defined.
#[export] Instance grant_countable : Countable ProjectAPIKeyGrant.
Proof.
  refine (inj_countable'
    (fun g => (kg_KeyID g, kg_Capabilities g, kg_ExpectedProjectVersion g, kg_Reason g, kg_Active g,
               kg_CreatedBy g, kg_UpdatedAt g))
    (fun '(a, b, c, d, e, f, g) =>
       {| kg_KeyID := a; kg_Capabilities := b; kg_ExpectedProjectVersion := c; kg_Reason := d; kg_Active := e;
          kg_CreatedBy := f; kg_UpdatedAt := g |}) _).
  by intros [].
Defined.

Definition write_digits {A} `{Countable A} (a : A) : res error string := Ok (digits (encode a)).
Definition read_digits {A} `{Countable A} (s : string) : res error A :=
  match decode (of_digits s) with Some a => Ok a | None => Err (Sentinel "malformed") end.

Lemma read_write_digits {A} `{Countable A} (a : A) raw : write_digits a = Ok raw -> read_digits raw = Ok a.
Proof. intros [= <-]. unfold read_digits. by rewrite of_digits_digits, decode_encode. Qed.

Definition demo_codec : Codec := {|
  co_invitation := write_digits;
  co_read_invitation := read_digits;
  co_origin := write_digits;
  co_read_origin := read_digits;
  co_grant := write_digits;
  co_read_grant := read_digits;
  co_ValueHash := fun key => pretty key
|}.

(** *** A project: ann owns it, cat administers it, dan writes, ben was removed *)

Definition demo_project_row : projectRow := {|
  row_TenantID := 7; row_Name := "demo"; row_Status := "active"; row_ProjectVersion := 3; row_SpecRevision := 1;
  row_CurrentContextRevision := 1; row_DeliveryStatus := ""; row_BaselineConfirmationID := "";
  row_SpecJSON := "{}"; row_SpecMetadataJSON := "{}"; row_TemplateID := ""; row_TemplateVersion := "";
  row_TemplateCopyVersion := 0; row_DiscardedAt := None
|}.

Definition demo_permission (governance : string) (functions : list string) (status : string) : memberPermissionRow :=
  {| mp_GovernanceRole := governance; mp_FunctionRoles := functions; mp_FunctionScopes := ∅; mp_Status := status |}.

Definition demo_tenant (role : TenantRole) : tenantMemberRow := {| tm_Role := role; tm_Status := "active" |}.

Definition demo_tables : tables := {|
  tb_projects := {[ "p-1" := demo_project_row ]};
  tb_tenant_members := list_to_map
    [((7, "ann"), demo_tenant TenantRoleOwner); ((7, "ben"), demo_tenant TenantRoleContributor);
     ((7, "cat"), demo_tenant TenantRoleAdmin); ((7, "dan"), demo_tenant TenantRoleContributor);
     ((7, "eve"), demo_tenant TenantRoleContributor)];
  tb_members := list_to_map
    [(("p-1", "ann"), "owner"); (("p-1", "ben"), "collaborator"); (("p-1", "cat"), "collaborator");
     (("p-1", "dan"), "collaborator")];
  tb_permissions := list_to_map
    [(("p-1", "ann"), demo_permission "owner" [] "active");
     (("p-1", "ben"), demo_permission "member" [] "removed");
     (("p-1", "cat"), demo_permission "admin" [] "active");
     (("p-1", "dan"), demo_permission "member" ["author"] "active")];
  tb_transfers := ∅;
  tb_records := ∅;
  tb_chapters := {[ ("p-1", "ch-1") := tt ]};
  tb_operations := ∅;
  tb_audit := []
|}.

Definition demo_actor (u : string) : Actor := plain_actor 7 u.

Lemma demo_room : room demo_tables.
Proof.
  intros pid row F. change (({[ "p-1" := demo_project_row ]} : gmap string projectRow) !! pid = Some row) in F.
  by apply lookup_singleton_Some in F as [_ <-].
Qed.

Lemma demo_owned : well_owned demo_tables "p-1" "ann".
Proof.
  split; [reflexivity|]. split; [intros row [= <-]; by right|].
  intros v F. unfold owns, demo_tables, tb_members in F.
  apply elem_of_list_to_map in F; [|apply (bool_decide_unpack _); exact I].
  repeat (apply elem_of_cons in F as [F|F]; [congruence|]). by apply not_elem_of_nil in F.
Qed.

Definition demo_ownership : ownership := {| own_version := 3; own_owner := "ann"; own_offers := ∅ |}.

Lemma demo_abstracts : abstracts "p-1" demo_tables demo_ownership.
Proof. split; [by exists demo_project_row|done|apply demo_owned|done|done]. Qed.
