(* ===== verification/MembershipTheorems.v ===== *)
(** What the member and owner operations promise, and where they fall short:
    ownership is refined by the abstract machine, a project keeps exactly one
    owner, member states move along a fixed table, an accepted invitation is
    final; a saved collaborator cannot be saved again, and ownership can be
    lost. *)

From stdpp Require Import sorting.
From S2P Require Import Prelude Effects OperationCore OperationStore Workspace Permission PermissionTheorems MemberStore MemberLaws Membership MembershipLaws MembershipSimulation MembershipDemo.

(** ** Member states *)

(** The table of [ChangeMemberState]: action, status before, status after. *)
Inductive status_change : string -> string -> string -> Prop :=
| sc_suspend old : old = "" \/ old = "active" -> status_change "suspend" old "suspended"
| sc_remove old : old <> "removed" -> status_change "remove" old "removed"
| sc_restore : status_change "restore" "suspended" "active"
| sc_restore_tenant : status_change "restore_tenant" "suspended_by_tenant" "active".

Lemma status_change_stored action old new : status_change action old new -> new <> "".
Proof. by intros []. Qed.

Lemma as_stored_status m : m_Status m <> "" -> m_Status (as_stored m) = m_Status m.
Proof.
  intros N. unfold as_stored, member_view, permission_row, stored_status. cbn.
  apply String.eqb_neq in N. rewrite N. by destruct (m_Role m =? "owner")%string.
Qed.

Lemma member_at_eq w w' pid u : seats_eq w w' -> member_at w' pid u = member_at w pid u.
Proof. intros [_ E1 E2 _]. unfold member_at. by rewrite E1, E2. Qed.

(** *** What one state change does *)

Record state_changed (pid user action : string) (w w' : tables) : Prop := {
  st_edit : edited pid w w';
  st_member : exists old new, member_at w pid user = Some old /\ member_at w' pid user = Some new
    /\ status_change action (m_Status old) (m_Status new)
    /\ m_Role old <> "owner" /\ m_Role new = m_Role old;
  st_others v : v <> user -> member_at w' pid v = as_stored <$> member_at w pid v
}.

Lemma find_map_member members u m' v :
  m_UserID m' = u ->
  find_member (map_member members u (fun _ => m')) v
  = if decide (v = u) then (fun _ => m') <$> find_member members u else find_member members v.
Proof.
  intros E. induction members as [|x members IH]; [by destruct (decide (v = u))|].
  change (map_member (x :: members) u (fun _ => m'))
    with ((if (m_UserID x =? u)%string then m' else x) :: map_member members u (fun _ => m')).
  rewrite !find_member_cons, IH.
  destruct (String.eqb_spec (m_UserID x) u) as [Ex|Ex]; repeat case_decide; simplify_eq/=; done.
Qed.

Section Members.
Variable db : Database.
Variable ports : Ports.
Variable codec : Codec.
Variable oracle : Oracle.
Context `{!DatabaseLaws db, !PortsLaws db ports, !OracleLaws oracle}.

#[local] Hint Resolve user_active_reads : effects.

Lemma change_state_ok actor user action m w w' m' :
  contains lifecycle_actions action = true ->
  change_state db actor user action m w = (w', Ok m') ->
  w' = w /\ m_UserID m' = m_UserID m /\ m_Role m' = m_Role m
  /\ status_change action (m_Status m) (m_Status m').
Proof.
  intros Hin F. apply contains_spec in Hin. unfold lifecycle_actions in Hin.
  repeat (apply elem_of_cons in Hin as [->|Hin]); [..|by apply not_elem_of_nil in Hin];
    unfold change_state in F; cbn -[user_active] in F; step F;
    apply refuse_if_ok in F0 as [G ->].
  - injection F as <- <-. repeat split; [done..|]. constructor.
    apply andb_false_iff in G as [G|G]; apply negb_false_iff, String.eqb_eq in G; auto.
  - injection F as <- <-. repeat split; [done..|]. constructor. by apply String.eqb_neq.
  - do 2 read_step F. injection F as <- <-. repeat split; [done..|]. rewrite orb_false_r in G. split_bools. cbn. rewrite G. constructor.
  - do 2 read_step F. injection F as <- <-. repeat split; [done..|]. split_bools. cbn. rewrite G. constructor.
Qed.

Lemma state_write_changes actor pid user input w w' tenant p o :
  contains lifecycle_actions (li_Action input) = true -> shows db w tenant pid p ->
  state_write db oracle actor pid user input p w = (w', Ok o) ->
  state_changed pid user (li_Action input) w w'.
Proof.
  intros Hin Sh F. unfold state_write in F. read_step F. unfold projectMember in F.
  destruct (find_member (pr_Members p) user) as [m|] eqn:Em; [|by step F; apply refuse_if_ok in F0 as []].
  step F. apply refuse_if_ok in F0 as [G ->]. cbn [negb orb] in G. apply String.eqb_neq in G.
  apply bind_ok in F as (w1 & m' & F0 & F).
  apply (change_state_ok _ _ _ _ _ _ _ Hin) in F0 as (-> & Eu & Er & Hc).
  apply edit_tail in F as (Hed & w2 & Hrep & Hs); [|done|by destruct Sh|apply advance_version].
  pose proof (find_member_some _ _ _ Em) as [Hm Hu].
  assert (forall v, member_at w' pid v
    = as_stored <$> (if decide (v = user) then Some m' else find_member (pr_Members p) v)) as At.
  { intros v. rewrite (member_at_eq _ _ _ _ Hs), (replaced_member_at _ _ _ _ _ Hrep).
    change (pr_Members (advance p ?l)) with l. by rewrite find_map_member, Em by congruence. }
  split; [done| |].
  - exists m, (as_stored m'). rewrite <- (shows_find db w tenant pid p user Sh), At, decide_True by done.
    split; [done|]. split; [done|]. rewrite as_stored_status by by eapply status_change_stored.
    split; [done|]. split; [|unfold as_stored; by rewrite member_view_role].
    intros E. by apply G, governanceRole_owner.
  - intros v Hv. rewrite At, decide_False by done. by rewrite (shows_find db w tenant pid p v Sh).
Qed.
End Members.

(** ** The record of an invitation *)

Section Final.
Variable db : Database.
Variable ports : Ports.
Variable codec : Codec.
Variable oracle : Oracle.
Context {X : Type} (ctx : Context X).
Context `{!DatabaseLaws db, !PortsLaws db ports, !OracleLaws oracle}.
(** An invitation of the project, and its row. *)
Variables pid id : string.
Variable row : projectRecordRow.
Hypothesis Accepted : exists inv, co_read_invitation codec (pr_PayloadJSON row) = Ok inv
                                  /\ mi_Status inv = "accepted".

Definition record_of (w : tables) : option projectRecordRow := tb_records w !! (pid, "invitation", id).
Definition holds_row (w : tables) : Prop := record_of w = Some row.

(** Whatever the computation answers, the row is still there. *)
Definition preserves {A} (m : T A) : Prop := forall w w' r, holds_row w -> m w = (w', r) -> holds_row w'.

Lemma preserves_keeps {A} (m : T A) : keeps record_of m -> preserves m.
Proof. intros K w w' r Hw F. unfold holds_row. by rewrite (keeps_run _ _ _ _ _ K F). Qed.

Lemma record_quiet w w' : membership_eq w w' -> record_of w' = record_of w.
Proof. intros [_ _ _ _ _ E]. by apply E. Qed.

Lemma preserves_quiet {A} (m : T A) : quiet m -> preserves m.
Proof. intros K. apply preserves_keeps. intros w. by apply record_quiet. Qed.

Lemma preserves_bind {A B} (m : T A) (k : A -> T B) :
  preserves m -> (forall x, preserves (k x)) -> preserves (m ≫= k).
Proof.
  intros Hm Hk w w' r Hw F. unfold mbind, M_bind in F. destruct (m w) as [w1 [x|e]] eqn:E.
  - eapply Hk; [by eapply Hm|exact F].
  - injection F as <- _. by eapply Hm.
Qed.

Lemma preserves_when {A} (c : bool) e (m : T A) : preserves m -> preserves (if c then fail e else m).
Proof. destruct c; [|done]. intros _. apply preserves_keeps, keeps_fail. Qed.

Lemma preserves_run actor spec write :
  rq_Actor (sp_Request spec) = actor -> (forall p, preserves (write p)) -> preserves (po_Run ports actor spec write).
Proof.
  intros Act H w w' r Hw F.
  assert (membership_eq w w' \/ committed db spec write w w') as [E|(w0 & w1 & p & o & E1 & Fw & E2 & _)].
  { destruct r as [[[body status] replayed]|e]; [|by eapply run_err].
    pose proof (run_ok _ _ _ _ _ _ _ _ Act F) as G. destruct replayed; [by left|by right]. }
  - unfold holds_row. by rewrite (record_quiet _ _ E).
  - unfold holds_row. rewrite (record_quiet _ _ E2). eapply H; [|exact Fw].
    unfold holds_row. by rewrite (record_quiet _ _ E1).
Qed.

(** *** Frames of the writes *)

Lemma save_project_record actor pid' p next : keeps record_of (save_project db actor pid' p next).
Proof.
  unfold save_project. apply keeps_bind; [|intros _; by apply ReplaceMembers_keeps].
  apply UpdateProject_keeps; [done|]. by apply persist_records.
Qed.

Lemma audit_record k actor pid' action target reason : keeps record_of (audit db oracle k actor pid' action target reason).
Proof. by apply audit_keeps. Qed.

Lemma record_audit_record event : keeps record_of (RecordAudit db event).
Proof. by apply keeps_exec. Qed.

Lemma reads_record {A} (m : T A) : reads m -> keeps record_of m.
Proof. intros R w. by rewrite (reads_run m w R). Qed.

Lemma put_other {P} (marshal : P -> res error string) pid' kind id' expected value :
  (pid', kind, id') <> (pid, "invitation", id) -> keeps record_of (PutProjectRecord db marshal pid' kind id' expected value).
Proof.
  intros N. apply PutProjectRecord_keeps. intros w key r ->. unfold record_of. cbn. by rewrite lookup_insert_ne.
Qed.

Lemma put_new {P} (marshal : P -> res error string) pid' kind id' value :
  preserves (PutProjectRecord db marshal pid' kind id' 0 value).
Proof.
  destruct (decide ((pid', kind, id') = (pid, "invitation", id))) as [[= -> -> ->]|N];
    [|by apply preserves_keeps, put_other].
  intros w w' r Hw F. unfold PutProjectRecord, mbind, M_bind, of_res in F.
  destruct (marshal value) as [raw|e]; [|by injection F as <- _]. cbn in F. unfold statement in F.
  destruct (db_fault db _ w); [by injection F as <- _|].
  unfold holds_row, record_of in Hw. rewrite Hw in F. by injection F as <- _.
Qed.

Lemma get_invitation_ok pid' id' w w' inv v :
  get_invitation db codec pid' id' w = (w', Ok (inv, v)) ->
  w' = w /\ exists r, tb_records w !! (pid', "invitation", id') = Some r
                      /\ co_read_invitation codec (pr_PayloadJSON r) = Ok inv.
Proof.
  unfold get_invitation, GetProjectRecord. intros F. step F. apply map_error_ok, take_ok in F0 as [-> F0].
  apply bind_ok in F as (w1 & value & F1 & F). injection F1 as <- F1. injection F as <- <- <-. eauto.
Qed.

(** An invitation whose status is still [invited] is another one. *)
Lemma invited_elsewhere pid' id' w inv v :
  holds_row w -> get_invitation db codec pid' id' w = (w, Ok (inv, v)) -> mi_Status inv = "invited" ->
  (pid', "invitation", id') <> (pid, "invitation", id).
Proof.
  intros Hw F Hs [= -> ->]. apply get_invitation_ok in F as (_ & r & Hr & Hd).
  unfold holds_row, record_of in Hw. assert (r = row) as -> by congruence.
  destruct Accepted as (inv' & Hd' & Hs'). congruence.
Qed.

#[local] Hint Resolve save_project_record audit_record record_audit_record reads_record : effects.
#[local] Hint Resolve user_active_reads validateInvitation_reads policy_authority_reads policy_role_reads
  or_false_reads verify_origin_reads get_invitation_reads : effects.

Lemma state_record actor pid' user input p : keeps record_of (state_write db oracle actor pid' user input p).
Proof. unfold state_write, change_state. keep_frame. Qed.

Lemma assignment_record actor pid' user input p :
  keeps record_of (assignment_write db ports oracle actor pid' user input p).
Proof. unfold assignment_write. keep_frame. Qed.

Lemma each_record {A} (l : list A) f : (forall a, keeps record_of (f a)) -> keeps record_of (each l f).
Proof. apply keeps_each. Qed.

Lemma collaborators_record actor pid' input ids p :
  keeps record_of (collaborators_write db oracle actor pid' input ids p).
Proof.
  unfold collaborators_write. apply keeps_bind; [auto with effects|intros _].
  apply keeps_bind; [apply each_record; intros u; keep_frame|intros _]. case_match; [auto with effects|].
  apply keeps_bind; [apply UpdateProject_keeps; [done|by apply persist_records]|intros _].
  apply keeps_bind; [|keep_frame]. apply keeps_bind; [by apply keeps_exec|intros _].
  apply each_record. intros u. apply keeps_bind; [|intros _; apply keeps_map_error]; apply keeps_statement; intros w;
    by destruct (_ !! _).
Qed.

Lemma permission_members_record actor chapters seen input :
  keeps record_of (permission_members db actor chapters seen input).
Proof. revert seen. induction input as [|m input IH]; intros seen; cbn; keep_frame. Qed.

Lemma permissions_record actor pid' input assignments p :
  keeps record_of (permissions_write db ports oracle actor pid' input assignments p).
Proof.
  pose proof permission_members_record. unfold permissions_write. keep_frame.
  apply reads_record. apply (chapters_reads (db := db)).
Qed.

Lemma transfer_record actor pid' input p : keeps record_of (transfer_write db oracle actor pid' input p).
Proof. unfold transfer_write. keep_frame. Qed.

Lemma update_record {A} `{Countable K} name (get : tables -> gmap K A) put key cond set :
  (forall w t, record_of (put w t) = record_of w) -> keeps record_of (affected (update db name get put key cond set)).
Proof. intros E. by apply keeps_affected, keeps_update. Qed.

Lemma insert_transfer_record now t : keeps record_of (InsertOwnerTransfer db now t).
Proof.
  apply keeps_bind; [by apply keeps_exec|intros _]. apply keeps_statement. intros w. by destruct (_ && _).
Qed.

Lemma request_record actor pid' input : keeps record_of (request_write db ports codec oracle actor pid' input).
Proof.
  pose proof insert_transfer_record. unfold request_write, recordOwnerTransferOrigin, put_origin. keep_frame.
  apply put_other. congruence.
Qed.

Lemma accept_transfer_record actor pid' tid :
  keeps record_of (accept_transfer_write db ports codec oracle ctx actor pid' tid).
Proof.
  unfold accept_transfer_write. keep_frame.
  all: first [by apply update_record | by apply EnsureMember_keeps | by apply SetMemberRole_keeps
    | apply UpdateProject_keeps; [done|by apply persist_records]].
Qed.

Lemma reject_record actor pid' tid input p : keeps record_of (reject_write db oracle actor pid' tid input p).
Proof. unfold reject_write. keep_frame. by apply update_record. Qed.

Lemma grant_record actor pid' input p : keeps record_of (grant_write db ports codec oracle actor pid' input p).
Proof.
  pose proof (api_key_reads (db := db) (ports := ports)). pose proof (native_key_reads (db := db) (ports := ports)).
  unfold grant_write. keep_frame. apply put_other. congruence.
Qed.

Lemma suspend_record tenant user p : keeps record_of (suspend_in db oracle tenant user p).
Proof.
  unfold suspend_in. destruct (projectMember p user) as [m found]. case_match; [apply keeps_ret|].
  apply keeps_bind; [apply UpdateProject_keeps; [done|by apply persist_records]|intros _].
  apply keeps_bind; [by apply ReplaceMembers_keeps|intros _]. apply audit_record.
Qed.

(** *** The two writes that touch invitations *)

Lemma preserves_read {A B} (m : T A) (k : A -> T B) :
  reads m -> (forall w x, holds_row w -> m w = (w, Ok x) -> preserves (k x)) -> preserves (m ≫= k).
Proof.
  intros R H w w' r Hw F. unfold mbind, M_bind in F. destruct (m w) as [w1 [x|e]] eqn:E;
    pose proof (reads_ok _ _ _ _ E R) as ->; [|by injection F as <- _]. by eapply H.
Qed.

Lemma save_and_audit actor pid' p next k action target reason (o : OperationOutcome) :
  preserves (_ ← save_project db actor pid' p next; _ ← audit db oracle k actor pid' action target reason; mret o).
Proof. apply preserves_keeps. keep_frame. Qed.

Lemma invite_preserves actor pid' input p : preserves (invite_write db ports codec oracle actor pid' input p).
Proof.
  unfold invite_write. do 5 (apply preserves_bind; [apply preserves_keeps; auto with effects|intros ?]).
  apply preserves_read; [keep_frame|]. intros w version Hw F.
  destruct (projectMember p _) as [existing found].
  apply preserves_bind; [apply preserves_keeps; auto with effects|intros _].
  apply preserves_bind; [|intros _; apply save_and_audit]. unfold put_invitation.
  destruct (ii_InvitationID input =? "")%string; cbn [negb] in F; [injection F as <-; apply put_new|].
  apply preserves_keeps, put_other. apply bind_ok in F as (w1 & [inv v] & R & F).
  pose proof (reads_ok _ _ _ _ R (get_invitation_reads db codec _ _)) as ->.
  apply bind_ok in F as (w1 & u & G & _). apply refuse_if_ok in G as [G _]. apply orb_false_iff in G as [_ G]. apply negb_false_iff, String.eqb_eq in G.
  by eapply invited_elsewhere.
Qed.

Lemma accept_preserves actor pid' id' input : preserves (accept_write db ports codec oracle actor pid' id' input).
Proof.
  unfold accept_write. apply preserves_read; [auto with effects|intros _ p _ _].
  apply preserves_bind; [apply preserves_keeps; auto with effects|intros _].
  apply preserves_read; [auto with effects|]. intros w [inv version] Hw F.
  apply preserves_read; [auto with effects|]. intros w1 u Hw1 G. apply refuse_if_ok in G as [G _].
  apply orb_false_iff in G as [G _]. apply orb_false_iff in G as [_ G]. apply negb_false_iff, String.eqb_eq in G.
  apply preserves_bind; [apply preserves_keeps; auto with effects|intros _].
  apply preserves_bind; [apply preserves_keeps; auto with effects|intros [members found]].
  apply preserves_bind; [apply preserves_keeps; auto with effects|intros _].
  apply preserves_bind; [|intros _; apply save_and_audit].
  apply preserves_keeps, put_other. exact (invited_elsewhere _ _ _ _ _ Hw F G).
Qed.

(** *** The calls *)

Lemma atomically_record {A} (m : T A) : keeps record_of m -> keeps record_of (atomically m).
Proof. intros K w. specialize (K w). unfold atomically. by destruct (m w) as [w1 [a|e]]. Qed.

Lemma preserves_announce actor pid' details outcome : preserves (announce ports actor pid' details outcome).
Proof. apply preserves_quiet. by apply (announce_quiet db). Qed.

Lemma preserves_freeze actor pid' : preserves (po_OwnerFreezeRefusal ports actor pid').
Proof. apply preserves_quiet. by apply (quiet_freeze db). Qed.

Lemma preserves_save actor pid' key input : preserves (SaveMembers db ports oracle actor pid' key input).
Proof.
  unfold SaveMembers, saveMemberPermissions.
  repeat (apply preserves_when || case_match); try solve [apply preserves_keeps; auto with effects].
  - apply preserves_bind; [|intros; apply preserves_announce].
    apply preserves_run; [done|]. intros p. apply preserves_keeps, permissions_record.
  - apply preserves_run; [done|]. intros p. apply preserves_keeps, collaborators_record.
Qed.

Lemma preserves_transfer actor pid' key input : preserves (TransferOwner db ports oracle actor pid' key input).
Proof.
  unfold TransferOwner. do 2 apply preserves_when.
  apply preserves_bind; [apply preserves_freeze|intros _].
  apply preserves_bind; [|intros; apply preserves_announce].
  apply preserves_run; [done|]. intros p. apply preserves_keeps, transfer_record.
Qed.

Lemma preserves_request actor pid' key input :
  preserves (RequestOwnerTransfer db ports codec oracle actor pid' key input).
Proof.
  apply preserves_when. apply preserves_bind; [apply preserves_freeze|intros _].
  apply preserves_run; [done|]. intros p. apply preserves_keeps, request_record.
Qed.

Lemma preserves_accept_transfer actor pid' tid key :
  preserves (Membership_AcceptOwnerTransfer db ports codec oracle ctx actor pid' tid key).
Proof.
  apply preserves_bind; [|intros _; apply preserves_run; [done|intros p; apply preserves_keeps, accept_transfer_record]].
  case_match; [|apply preserves_keeps; auto with effects].
  apply preserves_bind; [apply preserves_keeps; pose proof (RequireHuman_reads ctx); auto with effects|intros _].
  apply preserves_quiet. apply (authorize_quiet (db := db)).
Qed.

Lemma perform_preserves call : preserves (perform db ports codec oracle ctx call).
Proof.
  assert (forall A (m : T A), preserves m -> preserves (_ ← m; mret tt)) as Unit.
  { intros A m H. apply preserves_bind; [done|]. intros _. apply preserves_keeps, keeps_ret. }
  destruct call; cbn [perform]; try apply Unit.
  - apply preserves_when, preserves_run; [done|]. intros p. apply invite_preserves.
  - apply preserves_when. apply preserves_bind; [apply preserves_quiet, (read_quiet (db := db))|intros _].
    apply preserves_run; [done|]. intros p. apply accept_preserves.
  - apply preserves_when, preserves_run; [done|]. intros p. apply preserves_keeps, state_record.
  - apply preserves_when, preserves_run; [done|]. intros p. apply preserves_keeps, assignment_record.
  - apply preserves_save.
  - apply preserves_transfer.
  - apply preserves_request.
  - apply preserves_accept_transfer.
  - apply preserves_when, preserves_run; [done|]. intros p. apply preserves_keeps, reject_record.
  - do 2 apply preserves_when. apply preserves_run; [done|]. intros p. apply preserves_keeps, grant_record.
  - apply preserves_keeps, atomically_record. pose proof suspend_record. keep_frame.
Qed.
End Final.

(** ** Saving collaborators *)

Section Collaborators.
Variable db : Database.
Variable ports : Ports.
Variable codec : Codec.
Variable oracle : Oracle.
Context `{!DatabaseLaws db, !PortsLaws db ports, !OracleLaws oracle}.

#[local] Hint Resolve user_active_reads : effects.

(** The permission row [ReplaceCollaborators] stores. *)
Definition collaborator_row : memberPermissionRow :=
  {| mp_GovernanceRole := "member"; mp_FunctionRoles := ["author"]; mp_FunctionScopes := ∅;
     mp_Status := "active" |}.

(** Nobody of [ids] had a permission row, everybody has one now. *)
Definition first_time (pid : string) (ids : list string) (w w' : tables) : Prop :=
  forall id, id ∈ ids -> tb_permissions w !! (pid, id) = None
                         /\ tb_permissions w' !! (pid, id) = Some collaborator_row.

Lemma insert_collaborators_ok pid ids w w' u :
  each ids (insert_collaborator db pid) w = (w', Ok u) ->
  first_time pid ids w w'
  /\ forall key row, tb_permissions w !! key = Some row -> tb_permissions w' !! key = Some row.
Proof.
  revert w. induction ids as [|id ids IH]; cbn; intros w F.
  { injection F as <- _. split; [|done]. by intros x Hx%not_elem_of_nil. }
  step F. apply bind_ok in F0 as (w1 & u1 & F1 & F2). unfold insert_member in F1. apply statement_ok in F1.
  apply map_error_ok, statement_ok in F2.
  destruct (tb_members w !! (pid, id)); [discriminate|]. injection F1 as <- _.
  cbn [tb_permissions set_field] in F2. destruct (tb_permissions w !! (pid, id)) as [old|] eqn:E; [discriminate|].
  injection F2 as <- _.
  destruct (IH _ F) as [Fresh Kept]. cbn [tb_permissions set_field] in Fresh, Kept. split.
  - intros v Hv. apply elem_of_cons in Hv as [->|Hv].
    + split; [done|]. apply Kept. by rewrite lookup_insert_eq.
    + destruct (Fresh v Hv) as [E1 E2]. split; [|done].
      destruct (decide (v = id)) as [->|N]; [done|]. etransitivity; [|exact E1]. symmetry. apply lookup_insert_ne. congruence.
  - intros key row Hk. apply Kept. rewrite lookup_insert_ne; [done|]. intros <-. congruence.
Qed.

Lemma collaborators_write_first_time actor pid input ids p w w' o :
  collaborators_write db oracle actor pid input ids p w = (w', Ok o) ->
  w' = w \/ first_time pid ids w w'.
Proof.
  unfold collaborators_write. intros F. read_step F.
  apply bind_ok in F as (w0 & y & F0 & F).
  assert (w0 = w) as ->.
  { eapply reads_ok; [exact F0|]. apply keeps_each. intros id. apply keeps_bind; auto with effects. }
  destruct (bool_decide _); [injection F as <- _; by left|]. right.
  step F. step F. step F. injection F as <- _.
  apply (keeps_run tb_permissions) in F1; [|apply UpdateProject_keeps; [done|apply persist_permissions]].
  unfold ReplaceCollaborators in F2. apply bind_ok in F2 as (w3 & u3 & F2 & F4). apply statement_ok in F2.
  injection F2 as <- _. apply insert_collaborators_ok in F4 as [Fresh _].
  apply record_audit_seats in F3 as [[_ _ E _] _]. intros id Hid. destruct (Fresh id Hid) as [E1 E2].
  split; [|by rewrite E]. exact (eq_trans (f_equal (lookup (pid, id)) (eq_sym F1)) E1).
Qed.
End Collaborators.

(** ** The claims *)

Section Claims.
Variable db : Database.
Variable ports : Ports.
Variable codec : Codec.
Variable oracle : Oracle.
Context {X : Type} (ctx : Context X).
Context `{!DatabaseLaws db, !PortsLaws db ports, !OracleLaws oracle}.



(** A state change that ran follows the fixed table of actions, on a
    member who is not the owner and whose role it keeps; it advances the
    project's version by one and leaves every other member as stored. *)
Theorem member_states_follow_table actor pid user key input w w' body status
  (Ran : ChangeMemberState db ports oracle actor pid user key input w = (w', Ok (body, status, false))) :
  state_changed pid user (li_Action input) w w'.
Proof.
  unfold ChangeMemberState in Ran. destruct (_ || _) eqn:G; [discriminate|].
  apply orb_false_iff in G as [G Ha]. apply negb_false_iff in Ha. apply orb_false_iff in G as [G _].
  apply Z.ltb_ge in G.
  apply (run_ok (db := db)) in Ran; [|done]. destruct Ran as (w0 & w1 & p & o & E0 & Fw & E1 & Hp). cbn in Hp.
  destruct (pid =? "")%string; [subst p; by apply version_refused in Fw|].
  apply (authorized_shows db) in Hp. cbn in Hp.
  apply (state_write_changes db oracle _ _ _ _ _ _ _ _ _ Ha Hp) in Fw as [Hed (old & new & Ho & Hn & Hc) Others].
  apply membership_seats in E0, E1. split.
  - by eapply edited_compose.
  - exists old, new. by rewrite <- (member_at_eq _ _ _ _ E0), (member_at_eq _ _ _ _ E1).
  - intros v Hv. by rewrite (member_at_eq _ _ _ _ E1), Others, (member_at_eq _ _ _ _ E0).
Qed.

(** An accepted invitation is final: whatever calls follow, whatever
    they answer, its record is never written again, so it stays accepted, is
    never offered again and never accepted a second time. *)
Theorem accepted_invitation_final pid id row inv w w'
  (Stored : tb_records w !! (pid, "invitation", id) = Some row)
  (Decoded : co_read_invitation codec (pr_PayloadJSON row) = Ok inv)
  (Accepted : mi_Status inv = "accepted")
  (History : rtc (fun w w' => exists call r, perform db ports codec oracle ctx call w = (w', r)) w w') :
  tb_records w' !! (pid, "invitation", id) = Some row.
Proof.
  induction History as [|w w1 w2 (call & r & F) _ IH]; [done|]. apply IH.
  eapply (perform_preserves db ports codec oracle ctx pid id row); [by exists inv|exact Stored|exact F].
Qed.

(** The collaborator list of a project can name a user at most once in
    its life: a save that changed the list named only users without a stored
    permission row, and left a row behind for each of them, so a later list
    that keeps one of them, or names one of them again, never succeeds unless
    it changes nothing. *)
Theorem collaborators_saved_once actor pid key input ids w w' body status
  (Ids : si_CollaboratorUserIDs input = Some ids) (NoMembers : si_Members input = None)
  (Ran : SaveMembers db ports oracle actor pid key input w = (w', Ok (body, status, false))) :
  membership_eq w w' \/ first_time pid ids w w'.
Proof.
  unfold SaveMembers in Ran. rewrite Ids, NoMembers in Ran. destruct (po_RequiresActivationRead ports); [discriminate|].
  do 3 (destruct (_ : bool); [discriminate|]).
  apply (run_ok (db := db)) in Ran; [|done]. destruct Ran as (w0 & w1 & p & o & E0 & Fw & E1 & _).
  apply (collaborators_write_first_time db oracle) in Fw as [->|Fresh]; [left; by transitivity w0|right].
  destruct E0 as [_ _ P0 _ _ _]. destruct E1 as [_ _ P1 _ _ _]. intros id Hid.
  destruct (Fresh id) as [F0 F1]; [by rewrite (merge_sort_Permutation string_le ids)|].
  split; [by rewrite <- P0|by rewrite P1].
Qed.
End Claims.

(** ** A concrete workspace *)

Module Demo.
Definition ctx : Context unit :=
  {| ctx_APIKeyScope := false; ctx_Principal := None; ctx_UserID := Some "ann"; ctx_prepared := tt |}.

Definition call (c : member_call) : T unit :=
  perform demo_db (demo_ports false) demo_codec (demo_oracle "a") ctx c.

Definition hand_to (u : string) : member_call :=
  CallTransferOwner (demo_actor "ann") "p-1" "key-0001"
    {| ti_ExpectedProjectVersion := 3; ti_NewOwnerUserID := u |}.

Definition assignment (u : string) : Member :=
  {| m_UserID := u; m_Role := ""; m_GovernanceRole := "member"; m_FunctionRoles := []; m_FunctionScopes := ∅;
     m_Status := "" |}.

Definition invite (u : string) (version : Z) (id : string) (expected : Z) : member_call :=
  CallInvite (demo_actor "cat") "p-1" "key-0002"
    {| ii_ExpectedProjectVersion := version; ii_Assignment := assignment u; ii_Reason := "back";
       ii_InvitationID := id; ii_ExpectedInvitationVersion := expected |}.

Definition suspend : MemberLifecycleInput :=
  {| li_ExpectedProjectVersion := 3; li_Action := "suspend"; li_Reason := "leave" |}.

Definition save (ids : list string) : SaveMembersInput :=
  {| si_ExpectedProjectVersion := 3; si_CollaboratorUserIDs := Some ids; si_Members := None |}.

Definition invitation : MemberInvitation :=
  {| mi_ID := "i-1"; mi_ProjectID := "p-1"; mi_UserID := "dan"; mi_Version := 1;
     mi_Assignment := assignment "dan"; mi_Status := "accepted"; mi_Inviter := "ann"; mi_Reason := "start";
     mi_ExpiresAt := 5000; mi_CreatedAt := 10; mi_AcceptedAt := Some 20 |}.

Definition accepted_row : projectRecordRow :=
  {| pr_Version := 2; pr_PayloadJSON := digits (encode invitation) |}.

Definition invited_tables : tables :=
  demo_tables <| tb_records := {[ ("p-1", "invitation", "i-1") := accepted_row ]} |>.

Lemma ran {A} (m : T A) w a : (m w).2 = Ok a -> m w = ((m w).1, Ok a).
Proof. intros <-. by destruct (m w). Qed.

Lemma careful_cat : careful (demo_ports false) demo_tables (hand_to "cat").
Proof. intros row [= <-]. by right. Qed.
End Demo.

(** Ownership can be lost altogether: nothing stops the owner from
    handing the project to a removed member, and nothing stops an admin from
    inviting that member again, which makes the owner a collaborator.  After
    these two successful calls the project has no owner. *)
Theorem ownership_can_be_lost :
  exists w1 w2, Demo.call (Demo.hand_to "ben") demo_tables = (w1, Ok tt)
    /\ tb_members w1 !! ("p-1", "ben") = Some "owner"
    /\ Demo.call (Demo.invite "ben" 4 "" 0) w1 = (w2, Ok tt)
    /\ forall u, tb_members w2 !! ("p-1", u) <> Some "owner".
Proof.
  set (w1 := (Demo.call (Demo.hand_to "ben") demo_tables).1).
  exists w1, (Demo.call (Demo.invite "ben" 4 "" 0) w1).1.
  split; [apply Demo.ran; vm_compute; reflexivity|]. split; [vm_compute; reflexivity|].
  split; [apply Demo.ran; vm_compute; reflexivity|].
  assert (map_Forall (fun _ role => role <> "owner") (tb_members (Demo.call (Demo.invite "ben" 4 "" 0) w1).1)) as F
    by (apply (bool_decide_unpack _); vm_compute; exact I).
  intros u Hu. exact (F _ _ Hu eq_refl).
Qed.



Lemma member_states_follow_table_witness :
  state_changed "p-1" "dan" "suspend" demo_tables
    (ChangeMemberState demo_db (demo_ports false) (demo_oracle "a") (demo_actor "ann") "p-1" "dan" "key-0003"
       Demo.suspend demo_tables).1.
Proof.
  apply (member_states_follow_table demo_db (demo_ports false) (demo_oracle "a") (demo_actor "ann") "p-1" "dan"
    "key-0003" Demo.suspend demo_tables _ "" 200).
  apply Demo.ran. vm_compute. reflexivity.
Defined.

Lemma accepted_invitation_final_witness :
  tb_records (Demo.call (Demo.invite "dan" 3 "i-1" 2) Demo.invited_tables).1 !! ("p-1", "invitation", "i-1")
  = Some Demo.accepted_row.
Proof.
  apply (accepted_invitation_final demo_db (demo_ports false) demo_codec (demo_oracle "a") Demo.ctx "p-1" "i-1"
    Demo.accepted_row Demo.invitation Demo.invited_tables).
  - reflexivity.
  - apply read_write_digits. reflexivity.
  - reflexivity.
  - apply rtc_once. exists (Demo.invite "dan" 3 "i-1" 2).
    exists (Demo.call (Demo.invite "dan" 3 "i-1" 2) Demo.invited_tables).2. apply surjective_pairing.
Defined.

Lemma collaborators_saved_once_witness :
  membership_eq demo_tables
    (SaveMembers demo_db (demo_ports false) (demo_oracle "a") (demo_actor "ann") "p-1" "key-0004"
       (Demo.save ["eve"]) demo_tables).1
  \/ first_time "p-1" ["eve"] demo_tables
    (SaveMembers demo_db (demo_ports false) (demo_oracle "a") (demo_actor "ann") "p-1" "key-0004"
       (Demo.save ["eve"]) demo_tables).1.
Proof.
  apply (collaborators_saved_once demo_db (demo_ports false) (demo_oracle "a") (demo_actor "ann") "p-1"
    "key-0004" (Demo.save ["eve"]) ["eve"] demo_tables _ "" 200); [done..|].
  apply Demo.ran. vm_compute. reflexivity.
Defined.

(** The first save of a list that keeps an author fails; so does the second
    save of a list that keeps a user. *)
Example kept_collaborator_refused :
  (SaveMembers demo_db (demo_ports false) (demo_oracle "a") (demo_actor "ann") "p-1" "key-0005"
     (Demo.save ["dan"; "eve"]) demo_tables).2 = Err duplicate_key.
Proof. vm_compute. reflexivity. Qed.
