(* ===== verification/OperationRunner.v ===== *)
(** The workspace as the member context sees it: the runner of
    [src/internal/lingdoc/workspacecore/{operation_runner,operation_pipeline}.go],
    which fills the pipeline's seams, and the authorizer, policy and audit of
    [service_facade.go], [workspace_authorizer.go] and [workspace_policy.go].

    [Service] is the aggregate: what it is configured with, the repository's
    transaction, and the parts of the workspace that are modelled only by
    where they are called (provenance, the runtime trace, the source policy).
    The operations of the member context carry no source decoder and no check
    of the project, so those two seams are filled with what a [nil] field of
    [OperationSpec] makes of them. *)

From stdpp Require Import pretty sorting.
From S2P Require Import Prelude Effects OperationCore OperationLaws OperationStore OperationTheorems OperationEffect Workspace Permission PermissionTheorems MemberStore MemberLaws Membership MembershipLaws.

(** ** Errors, modes and controls ([model.go], [runtime_control.go]) *)

Definition ErrIdempotencyConflict : error := Sentinel "idempotency_conflict".
Definition ErrSourceUnavailable : error := Sentinel "source_access_denied".
Definition ErrRuntimePaused : error := Sentinel "runtime scope is paused".

Inductive AuthorizationMode :=
| AuthorizationModeLog | AuthorizationModeEnforce | AuthorizationModeRollback.

#[export] Instance AuthorizationMode_eq_dec : EqDecision AuthorizationMode.
Proof. solve_decision. Defined.

Record RuntimeScope := { rs_Kind : string; rs_Value : string }.

(** The fields the gate reads. *)
Record RuntimeControl := { rc_Scope : RuntimeScope; rc_Status : string }.

Definition validRuntimeMode (mode : string) : bool :=
  contains ["mock"; "real_api_fake_model"; "real"] mode.

Definition effectiveRuntimeMode (mode : string) : string :=
  if validRuntimeMode mode then mode else "real_api_fake_model".

Definition runtimeScopeMatches (scope : RuntimeScope) (actor : Actor) (p : Project) (mode : string) : bool :=
  let kind := rs_Kind scope in
  when (kind =? "tenant")%string return (rs_Value scope =? pretty (ac_TenantID actor))%string;
  when (kind =? "project")%string return (rs_Value scope =? pr_ID p)%string;
  when (kind =? "template_version")%string return (rs_Value scope =? pr_TemplateVersion p)%string;
  when (kind =? "ruleset_hash")%string
  return match pr_TemplateCopy p with
         | Some copy => (rs_Value scope =? tc_RulesetHash copy)%string
         | None => false
         end;
  when (kind =? "runtime_mode")%string return (rs_Value scope =? effectiveRuntimeMode mode)%string;
  false.

(** ** The kinds of output ([typed_contracts.go]) *)

Definition operation_outputs : list (list string * string) :=
  [(["apiKeyProjectGrant"], "api_key_grant");
   (["reassessChangeSet"; "reverseChangeSet"; "createChangeDraft"; "assessChangeSet"; "editChangeDraft"], "change_set");
   (["chapterComment"], "chapter_comment");
   (["chapterReview"], "chapter_review");
   (["createDependencyEdge"; "decideDependencyEdge"], "dependency_edge");
   (["acknowledgeImpactPreflight"], "impact_preflight");
   (["actOnImpactTask"], "impact_task");
   (["inviteMember"; "acceptMemberInvitation"], "invitation");
   (["memberAssignment"; "memberLifecycle"], "project");
   (["runtimeAlertRule"], "runtime_alert_rule");
   (["runtimeAlertRuleAction"], "runtime_alert_rule_action");
   (["runtimeControl"], "runtime_control");
   (["runtimeEvent"], "runtime_event");
   (["stabilizeRevision"], "stabilization");
   (["rejectOwnerTransfer"], "owner_transfer");
   (["trialCreateDecision"; "trialSignDecision"], "trial_decision");
   (["trialRecordSample"; "trialReviewSample"], "trial_sample");
   (["trialCreateWindow"; "trialWindowAction"], "trial_window");
   (["setReviewAnchor"], "working_copy");
   (["createChangeSet"; "applyChangeSet"; "rejectChangeSet"], "change_set");
   (["createDraftCandidate"], "draft_candidate");
   (["validationIssueDisposition"], "issue_disposition");
   (["requestOwnerTransfer"; "acceptOwnerTransfer"], "owner_transfer");
   (["saveChapter"], "chapter");
   (["saveWorkingCopy"; "applySelectedRewrite"; "restoreWorkingCopy"], "working_copy");
   (["commitWorkingCopy"], "committed_chapter")].

Definition operationOutputFor (name : string) : string :=
  match List.find (fun '(names, _) => contains names name) operation_outputs with
  | Some (_, output) => output
  | None => "project"
  end.

(** ** The aggregate *)

Abbreviation St := (tables * Locals Project)%type.

Record Service {X V : Type} := {
  (* GORM, the clock of its retries, and the driver's answers *)
  sv_db : Database;
  sv_transaction : nat -> option bool -> M St error unit -> M St error unit;
  sv_clock : RetryClock;
  (* configuration *)
  sv_mode : AuthorizationMode;
  sv_audit : bool;                                  (* s.audit != nil *)
  sv_requireActivationRead : bool;
  sv_runtimeMode : string;
  (* uuid.NewString and time.Now at a call on this store *)
  sv_stamp : tables -> string * Z;
  (* s.audit.Record, s.sources.Revalidate *)
  sv_sink : AuditEvent -> T unit;
  sv_sources : option (string -> string -> list string -> T unit);
  (* a body that is a CreateChangeSetInput: its ReversesChangeSetID *)
  sv_reverses : V -> string;
  (* whether the context carries the mark of a rollback's switch back *)
  sv_switching : Context X -> bool;
  (* provenance *)
  sv_cached : Context X -> Actor -> AuthorizationRequest -> Identity Actor -> V -> T (Context X * bool);
  sv_prepare : Context X -> Actor -> string -> string -> string -> V -> T (Context X);
  sv_validate : Context X -> Actor -> Project -> string -> T unit;
  sv_pins : Context X -> string -> T unit;
  sv_reverse_sources : Context X -> V -> T unit;
  sv_provenance : Identity Actor -> Result -> V -> T unit;
  sv_projection : Context X -> Actor -> string -> string -> string -> T string;
  (* the runtime trace, its alerts, and the observations of a request *)
  sv_RuntimeControls : Z -> T (list RuntimeControl);
  sv_RecordRuntime : Context X -> Actor -> Project -> string -> string -> T unit;
  sv_ObserveRuntime : Context X -> string -> Actor -> string -> string -> string -> T unit;
  sv_emit : Context X -> T unit;
  sv_EmitAuditFailureAlert : Context X -> Actor -> string -> string -> error -> T unit;
  (* reading what the member context asks for, and the stores of keys *)
  sv_ResourceExists : string -> string -> string -> T bool;
  sv_Chapters : string -> T (list string);
  sv_HasAPIKey : Z -> Z -> T bool;
  sv_VerifyMachineNativeKey : Z -> Z -> T unit
}.
Arguments Service : clear implicits.

Section Aggregate.
Context {X V : Type} `{Digester V}.
Variable s : Service X V.
Abbreviation db := (sv_db s).
Abbreviation tx := (policy_tx (sv_db s)).

(** *** Audit ([service_facade.go]) *)

Definition auditDecision (err : option error) : string :=
  match err with Some _ => "deny" | None => "allow" end.

Definition auditReason (err : option error) : string :=
  match err with Some err => Error err | None => "" end.

Definition auditAuthorizationAction (cap : string) : string :=
  let '(action, _, _) := cut colon cap in "authorization." +:+ action.

Definition auditWriteFailed (cause : error) : error :=
  Wrapped ("audit_write_failed: " +:+ Error cause) cause.

Definition recordAuditEvent (event : AuditEvent) : T unit :=
  if sv_audit s then sv_sink s event else mret tt.

Definition recordAudit (actor : Actor) (pid cap : string) (authErr : option error) : T unit :=
  recordAuditEvent
    {| ae_ID := ""; ae_ProjectID := pid; ae_ActorID := ""; ae_Action := ""; ae_Target := "";
       ae_Details := ∅; ae_CreatedAt := 0; ae_TenantID := ac_TenantID actor;
       ae_UserID := ac_UserID actor; ae_Role := ac_Role actor; ae_Capability := cap;
       ae_Decision := auditDecision authErr; ae_Reason := auditReason authErr |}.

Definition recordAuditInTransaction (actor : Actor) (pid cap : string) (authErr : option error) : T unit :=
  when (pid =? "")%string return mret tt;
  when negb (sv_audit s) return mret tt;
  fun w =>
    let '(id, now) := sv_stamp s w in
    RecordAudit db
      {| ae_ID := id; ae_ProjectID := pid; ae_ActorID := ac_UserID actor;
         ae_Action := auditAuthorizationAction cap; ae_Target := pid;
         ae_Details := {[ "tenant_id" := pretty (ac_TenantID actor); "role" := ac_Role actor;
                          "capability" := cap; "decision" := auditDecision authErr;
                          "reason" := auditReason authErr ]};
         ae_CreatedAt := now; ae_TenantID := ac_TenantID actor; ae_UserID := ac_UserID actor;
         ae_Role := ac_Role actor; ae_Capability := cap;
         ae_Decision := auditDecision authErr; ae_Reason := auditReason authErr |} w.

(** *** Authorization ([service_facade.go], [membership_grants.go]) *)

Definition legacyAuthorizeProject (actor : Actor) (pid cap : string) : T Project :=
  _ ← refuse_if (negb (contains ["read"; "write"; "manage"] cap)) ErrInvalidRequest;
  _ ← refuse_if (negb (validActor actor)) ErrNotFound;
  active ← tx_ActiveMember tx actor;
  _ ← refuse_if (negb active) ErrNotFound;
  p ← tx_Project tx (ac_TenantID actor) pid;
  let mine m := (m_UserID m =? ac_UserID actor)%string in
  _ ← (if is_nil (pr_DiscardedAt p) then mret tt
       else
         _ ← refuse_if (negb (cap =? "read")%string) ErrInvalidState;
         refuse_if (negb (existsb (fun m => mine m && (m_Role m =? "owner")%string) (pr_Members p))) ErrNotFound);
  _ ← refuse_if (negb (existsb (fun m => mine m && (negb (cap =? "manage")%string || (m_Role m =? "owner")%string))
                        (pr_Members p))) ErrNotFound;
  mret p.

(** The policy of the composition root, by the mode it passes. *)
Definition policy_AuthorizeTenant (request : AuthorizationRequest) : T unit :=
  if decide (sv_mode s = AuthorizationModeRollback) then legacyAuthorizeTenant tx (rq_Actor request)
  else authorizeCurrentTenant tx request.

Definition policy_AuthorizeProject (request : AuthorizationRequest) : T Project :=
  if decide (sv_mode s = AuthorizationModeRollback)
  then legacyAuthorizeProject (rq_Actor request) (rq_ProjectID request) (capability request)
  else authorizeCurrentProject tx request.

(** With a key's scope in the context the function reads the key and its
    grant, and refuses on every path. *)
Definition authorizeAPIKeyProject (ctx : Context X) : option error :=
  when ctx_APIKeyScope ctx return Some ErrNotFound;
  match RequireHumanDecision ctx ErrHumanDecisionRequired with
  | Some _ => Some ErrNotFound
  | None => None
  end.

(** [verdict], followed in log mode by the shadow event. *)
Definition shadowed {A} (request : AuthorizationRequest) (verdict : T A) : T A :=
  answer ← attempt verdict;
  let err := match answer with Ok _ => None | Err err => Some err end in
  _ ← (if decide (sv_mode s = AuthorizationModeLog)
       then ignore_error (recordAudit (rq_Actor request) (rq_ProjectID request)
                            ("shadow:" +:+ capability request) err)
       else mret tt);
  match answer with Ok a => mret a | Err err => fail err end.

Definition service_authorizeTenant (ctx : Context X) (request : AuthorizationRequest) : T unit :=
  _ ← refuse_if (negb (validAuthorizationAction (rq_Action request))) ErrInvalidRequest;
  _ ← returned (authorizeAPIKeyProject ctx);
  shadowed request (policy_AuthorizeTenant request).

Definition service_authorizeProject (ctx : Context X) (request : AuthorizationRequest) : T Project :=
  _ ← refuse_if (negb (validAuthorizationAction (rq_Action request))) ErrInvalidRequest;
  _ ← returned (authorizeAPIKeyProject ctx);
  shadowed request (policy_AuthorizeProject request).

(** *** Transactions outside the pipeline *)

Definition transaction (options : TransactionOptions) (body : T unit) : T unit := fun w =>
  let '(s', r) := GORMRepository_Transaction (sv_transaction s) (sv_clock s) options
                    (on_store body) (w, initial_locals zero_project) in
  (s'.1, r).

Definition read_only : TransactionOptions :=
  {| to_ReadOnly := true; to_RetryLocks := false; to_RepeatableRead := false |}.

(** [readWithAudit] with [recordReadAudit]: the audit row has a transaction
    of its own, and its failure is only an alert. *)
Definition readWithAudit (ctx : Context X) (actor : Actor) (pid cap : string)
  (options : TransactionOptions) (body : T unit) : T unit :=
  answer ← attempt (transaction options body);
  let err := match answer with Ok _ => None | Err err => Some err end in
  recorded ← attempt
    (if sv_audit s
     then transaction {| to_ReadOnly := false; to_RetryLocks := false; to_RepeatableRead := false |}
            (recordAuditInTransaction actor pid cap err)
     else mret tt);
  _ ← match recorded with
      | Ok _ => mret tt
      | Err auditErr => ignore_error (sv_EmitAuditFailureAlert s ctx actor pid cap auditErr)
      end;
  returned err.

(** [defer emit()] *)
Definition observed {A} (ctx : Context X) (m : T A) : T A := fun w =>
  let '(w, r) := m w in ((sv_emit s ctx w).1, r).

Definition Service_Authorize (ctx : Context X) (actor : Actor) (pid cap : string) : T unit :=
  match authorizationRequestFromCapability actor pid cap with
  | Err err => fail err
  | Ok request =>
      observed ctx
        (readWithAudit ctx actor pid (capability request)
           {| to_ReadOnly := false; to_RetryLocks := false; to_RepeatableRead := true |}
           (_ ← service_authorizeProject ctx request; mret tt))
  end.

Definition OwnerFreezeRefusal (actor : Actor) (pid : string) : T unit :=
  transaction read_only (ownerFreezeRefusal tx actor pid).

(** *** The seams ([operation_pipeline.go], [operation_provenance.go],
    [provenance_service.go], [change_inverse_lineage.go], [runtime_control.go]) *)

(** The operations table of the workspace. *)
Definition on_operations {A} (m : M (store tables) error A) : T A := fun w =>
  let '(s', r) := m {| st_operations := tb_operations w; st_tables := w |} in
  ((st_tables s') <| tb_operations := st_operations s' |>, r).

Definition operations_fault (name : string) (w : store tables) : option error := db_fault db name (st_tables w).

Definition workspace_ledger : LedgerOps Actor tables :=
  let ledger := operationLedger (operations_fault "select lingdoc_operations")
                  (operations_fault "insert lingdoc_operations") duplicate_key in
  {| Lookup := fun id => on_operations (Lookup ledger id);
     Save := fun id result => on_operations (Save ledger id result) |}.

Definition pipelineAuthorizationRequest (request : Authorization Actor) : AuthorizationRequest :=
  {| rq_Actor := au_Actor request; rq_ProjectID := au_ProjectID request;
     rq_Action := au_Action request; rq_Resource := au_Resource request |}.

Definition projectBasis (p : Project) : string :=
  pretty (pr_ProjectVersion p) +:+ ":" +:+ pretty (pr_SpecRevision p).

Definition checkSources (actor : Actor) (pid : string) (sourceIDs : list string) : T unit :=
  if is_nil (head sourceIDs) then mret tt
  else match sv_sources s with
       | None => fail ErrSourceUnavailable
       | Some revalidate => revalidate pid (ac_UserID actor) (merge_sort string_le sourceIDs)
       end.

Definition requireInverseCaller (ctx : Context X) (body : V) : option error :=
  when negb (sv_reverses s body =? "")%string return RequireHumanDecision ctx ErrHumanDecisionRequired;
  None.

Definition mutableChangeReceipt (op : string) : bool :=
  contains ["createChangeSet"; "createChangeDraft"; "editChangeDraft"; "assessChangeSet"; "reassessChangeSet"] op.

Definition prepareCachedChangeOperation (request : AuthorizationRequest) (ctx : Context X)
  (id : Identity Actor) (body : V) : T (Context X * bool) :=
  if mutableChangeReceipt (id_Operation id) then sv_cached s ctx (rq_Actor request) request id body
  else mret (ctx, false).

Definition prepareProvenanceOperation (pid : string) (ctx : Context X) (id : Identity Actor) (body : V)
  : T (Context X) :=
  if (pid =? "")%string then mret ctx
  else sv_prepare s ctx (id_Actor id) (id_Operation id) (id_Target id) pid body.

Definition storeOperationProvenance (id : Identity Actor) (result : Result) (value : V) : T unit :=
  if mutableChangeReceipt (id_Operation id) then sv_provenance s id result value else mret tt.

Definition RuntimeGate (ctx : Context X) (actor : Actor) (p : Project) (operation mode : string) : T unit :=
  when HasPrefix operation "runtime" || HasPrefix operation "trial"
       || (operation =? "reverseChangeSet")%string return mret tt;
  when (operation =? "applyChangeSet")%string && sv_switching s ctx return mret tt;
  controls ← sv_RuntimeControls s (ac_TenantID actor);
  refuse_if (existsb (fun control => (rc_Status control =? "PAUSED")%string
                                     && runtimeScopeMatches (rc_Scope control) actor p mode) controls)
    ErrRuntimePaused.

Definition workspaceRuntimeGate (actor : Actor) (ctx : Context X) (p : Project) (operation : string) : T unit :=
  when (sv_runtimeMode s =? "")%string return mret tt;
  RuntimeGate ctx actor p operation (sv_runtimeMode s).

Definition requiresGenericCriticalAudit (op : string) : bool :=
  contains ["saveMembers"; "transferOwner"; "requestOwnerTransfer"; "acceptOwnerTransfer";
            "commitWorkingCopy"; "saveChapter"] op.

Definition afterOperationWrite (actor : Actor) (ctx : Context X) (p : Project)
  (pid operation target : string) (status : Z) (value : V) : T unit :=
  when (pid =? "")%string return mret tt;
  current ← Gorm_Project db (ac_TenantID actor) pid;
  _ ← (if requiresGenericCriticalAudit operation
       then fun w => let '(id, now) := sv_stamp s w in
                     recordProjectAuditEvent db id now actor pid ("workspace." +:+ operation) target "" w
       else mret tt);
  when (sv_runtimeMode s =? "")%string return mret tt;
  let outcome := if status =? 409 then "conflict" else if 400 <=? status then "rejected" else "success" in
  sv_RecordRuntime s ctx actor current operation outcome.

Definition observeOperationFailure (actor : Actor) (ctx : Context X) (pid operation : string) (cause : error)
  : T unit :=
  when (sv_runtimeMode s =? "")%string || (pid =? "")%string return mret tt;
  let '(outcome, code) :=
    if errors_Is cause ErrVersionConflict then ("conflict", "version_conflict")
    else if errors_Is cause ErrSourceUnavailable then ("revoked", "source_access_denied")
    else if errors_Is cause ErrNotFound then ("rejected", "access_denied")
    else ("failed", "operation_failed") in
  ignore_error (sv_ObserveRuntime s ctx code actor pid operation outcome).

(** *** The runner *)

(** The request a runner hands to [Run]. *)
Definition pipeline_request (actor : Actor) (op target key : string) (body : V) (request : AuthorizationRequest)
  (write : Project -> T (V * string * Z)) : OperationRequest Actor tables Project V X :=
  let pid := rq_ProjectID request in
  {|
    op_Identity := {| id_Actor := actor; id_Operation := op; id_Target := target; id_Key := key |};
    op_Authorization := {| au_Actor := actor; au_ProjectID := pid; au_Action := rq_Action request;
                           au_Resource := rq_Resource request |};
    op_Body := body;
    op_Output := operationOutputFor op;
    op_SourceSensitive := false;
    op_HumanGate := workspaceHumanGate op;
    op_Errors := {| InvalidRequest := ErrInvalidRequest; IdempotencyConflict := ErrIdempotencyConflict;
                    VersionConflict := ErrVersionConflict; InvalidState := ErrInvalidState;
                    HumanDecisionRequired := ErrHumanDecisionRequired |};
    op_Transaction := workspace_transaction (sv_transaction s) (sv_clock s);
    op_ValidActor := Some validActor;
    op_AuditWriteFailed := auditWriteFailed;
    op_Ledger := mret workspace_ledger;
    op_AuthorizeTenant := fun ctx request => service_authorizeTenant ctx (pipelineAuthorizationRequest request);
    op_AuthorizeProject := fun ctx request => service_authorizeProject ctx (pipelineAuthorizationRequest request);
    op_RecordAudit := fun _ => recordAuditInTransaction actor;
    op_CheckSources := Some (fun _ => checkSources actor);
    op_SourceIDs := Some (fun _ _ => mret []);
    op_PrepareCached := Some (prepareCachedChangeOperation request);
    op_Prepare := Some (prepareProvenanceOperation pid);
    op_RequireInverseCaller := Some requireInverseCaller;
    op_Validate := Some (fun ctx p => sv_validate s ctx actor p op);
    op_CheckProject := None;
    op_StorePins := Some (sv_pins s);
    op_Write := fun _ => write;
    op_StoreReverseSources := Some (sv_reverse_sources s);
    op_StoreProvenance := Some (fun _ => storeOperationProvenance);
    op_Project := fun ctx => sv_projection s ctx actor;
    op_RuntimeGate := Some (workspaceRuntimeGate actor);
    op_AfterWrite := Some (afterOperationWrite actor);
    op_ObserveFailure := Some (observeOperationFailure actor);
    op_Basis := projectBasis
  |}.

Definition run_request {W} (request : OperationRequest Actor W Project V X) (ctx : Context X)
  : M W error (string * Z * bool) :=
  outcome ← map_error snd (Run zero_project request ctx);
  mret (out_Body outcome, out_Status outcome, out_Replayed outcome).
End Aggregate.

Section Core.
Context {X : Type} `{Digester any}.
Variable s : Service X any.

Definition operation_request (actor : Actor) (spec : OperationSpec) (write : Project -> T OperationOutcome)
  : OperationRequest Actor tables Project any X :=
  pipeline_request s actor (sp_Name spec) (sp_Target spec) (sp_Key spec) (sp_Body spec) (sp_Request spec)
    (fun p => outcome ← write p; mret (oc_Value outcome, "", oc_Status outcome)).

Definition runOperationCore (ctx : Context X) (actor : Actor) (spec : OperationSpec)
  (write : Project -> T OperationOutcome) : T (string * Z * bool) :=
  observed s ctx (run_request (operation_request actor spec write) ctx).

(** *** The ports of the member context *)

Definition workspace_ports (ctx : Context X) : Ports := {|
  po_Run := runOperationCore ctx;
  po_ReadTransaction := transaction s read_only;
  po_AuthorizeTenant := service_authorizeTenant s ctx;
  po_AuthorizeProject := service_authorizeProject s ctx;
  po_Rollback := bool_decide (sv_mode s = AuthorizationModeRollback);
  po_RequiresActivationRead := sv_requireActivationRead s;
  po_RecordAuditEvent := recordAuditEvent s;
  po_Authorize := Service_Authorize s ctx;
  po_OwnerFreezeRefusal := OwnerFreezeRefusal s;
  po_ResourceExists := sv_ResourceExists s;
  po_Chapters := sv_Chapters s;
  po_HasAPIKey := sv_HasAPIKey s;
  po_VerifyMachineNativeKey := sv_VerifyMachineNativeKey s
|}.
End Core.

(** ** What the parts outside the model leave alone *)

(** Membership and the stored results of operations; audit, provenance and
    the runtime trace may change. *)
Record undisturbed (w w' : tables) : Prop := {
  und_membership : membership_eq w w';
  und_operations : tb_operations w' = tb_operations w
}.

#[export] Instance undisturbed_preorder : PreOrder undisturbed.
Proof.
  split; [intros w; by split|]. intros a b c [A1 A2] [B1 B2].
  split; [by transitivity b|by rewrite B2, A2].
Qed.

Class ServiceLaws {X V} (s : Service X V) := {
  service_db :: DatabaseLaws (sv_db s);
  service_atomic :: AtomicDB (sv_transaction s);
  service_enforced : sv_mode s <> AuthorizationModeRollback;
  sink_calm e : calm undisturbed (sv_sink s e);
  sources_calm f pid u ids : sv_sources s = Some f -> calm undisturbed (f pid u ids);
  cached_calm ctx a r i b : calm undisturbed (sv_cached s ctx a r i b);
  prepare_calm_ ctx a o t p b : calm undisturbed (sv_prepare s ctx a o t p b);
  validate_calm ctx a p o : calm undisturbed (sv_validate s ctx a p o);
  pins_calm ctx p : calm undisturbed (sv_pins s ctx p);
  reverse_calm ctx v : calm undisturbed (sv_reverse_sources s ctx v);
  provenance_calm i r v : calm undisturbed (sv_provenance s i r v);
  projection_calm ctx a o p b : calm undisturbed (sv_projection s ctx a o p b);
  controls_reads t : reads (sv_RuntimeControls s t);
  record_runtime_calm ctx a p o c : calm undisturbed (sv_RecordRuntime s ctx a p o c);
  observe_runtime_calm ctx c a p o r : calm undisturbed (sv_ObserveRuntime s ctx c a p o r);
  emit_calm ctx : calm undisturbed (sv_emit s ctx);
  alert_calm ctx a p c e : calm undisturbed (sv_EmitAuditFailureAlert s ctx a p c e);
  service_resource_reads pid kind id : reads (sv_ResourceExists s pid kind id);
  service_chapters_reads pid : reads (sv_Chapters s pid);
  service_key_reads tenant key : reads (sv_HasAPIKey s tenant key);
  service_native_reads tenant key : reads (sv_VerifyMachineNativeKey s tenant key)
}.
