(* ===== verification/RunnerLaws.v ===== *)
(** Every seam the workspace's runner fills in, but the business write, leaves
    membership alone and loses no stored result; what the aggregate authorizes
    is what its policy authorized. *)

From stdpp Require Import pretty.
From S2P Require Import Prelude Effects OperationCore OperationLaws OperationStore OperationTheorems OperationEffect Workspace Permission PermissionTheorems MemberStore MemberLaws Membership MembershipLaws OperationRunner.

(** Membership is as before, and no stored result is lost. *)
Record settled (w w' : tables) : Prop := {
  set_membership : membership_eq w w';
  set_operations : tb_operations w ⊆ tb_operations w'
}.

#[export] Instance settled_preorder : PreOrder settled.
Proof.
  split; [intros w; by split|]. intros a b c [A1 A2] [B1 B2]. split; by etransitivity.
Qed.

Create HintDb calm.

Section Seams.
Context {X V : Type} (s : Service X V) `{!ServiceLaws s}.
Abbreviation db := (sv_db s).

(** *** From the promise of a part to the two halves of the store *)

Lemma calm_membership {E A} (m : M tables E A) : calm undisturbed m -> calm membership_eq m.
Proof. intros C w. apply C. Qed.

Lemma calm_settled {E A} (m : M tables E A) : calm undisturbed m -> calm settled m.
Proof. intros C w. destruct (C w) as [C1 C2]. split; [exact C1|by rewrite C2]. Qed.

Lemma calm_operations {E A} (m : M tables E A) : calm undisturbed m -> keeps tb_operations m.
Proof. intros C w. apply (C w). Qed.

#[local] Hint Resolve sink_calm cached_calm prepare_calm_ validate_calm pins_calm reverse_calm
  provenance_calm projection_calm record_runtime_calm observe_runtime_calm emit_calm alert_calm : calm.

Lemma calm_und_ret {E A} (a : A) : calm undisturbed (mret a : M tables E A).
Proof. intros w. by cbn. Qed.
#[local] Hint Resolve calm_und_ret : calm.

Lemma calm_refuse c e : calm undisturbed (refuse_if c e : T unit).
Proof. intros w. by destruct c. Qed.
#[local] Hint Resolve calm_refuse : calm.

Lemma calm_record_audit event : calm undisturbed (RecordAudit db event).
Proof.
  intros w. unfold RecordAudit, exec, statement. by destruct (db_fault _ _ _).
Qed.
#[local] Hint Resolve calm_record_audit : calm.

Lemma recordAuditInTransaction_calm actor pid cap err :
  calm undisturbed (recordAuditInTransaction s actor pid cap err).
Proof.
  unfold recordAuditInTransaction. destruct (_ =? "")%string; [auto with calm|].
  destruct (negb _); [auto with calm|]. intros w. destruct (sv_stamp s w) as [id now]. apply calm_record_audit.
Qed.

Lemma recordAuditEvent_calm event : calm undisturbed (recordAuditEvent s event).
Proof. unfold recordAuditEvent. destruct (sv_audit s); auto with calm. Qed.

(** *** Authorization *)

Lemma legacyAuthorizeProject_reads actor pid cap : reads (legacyAuthorizeProject s actor pid cap).
Proof.
  pose proof (fun a => active_reads (tx := policy_tx db) a).
  pose proof (fun t i => project_reads (tx := policy_tx db) t i).
  unfold legacyAuthorizeProject. keep_frame.
Qed.

Lemma policy_project_reads request : reads (policy_AuthorizeProject s request).
Proof.
  unfold policy_AuthorizeProject. destruct (decide _); [apply legacyAuthorizeProject_reads|].
  apply (authorizeCurrentProject_reads (policy_tx db)).
Qed.

Lemma policy_tenant_reads request : reads (policy_AuthorizeTenant s request).
Proof.
  unfold policy_AuthorizeTenant. destruct (decide _).
  - apply (legacyAuthorizeTenant_reads (policy_tx db)).
  - apply (authorizeCurrentTenant_reads (policy_tx db)).
Qed.

Lemma shadowed_calm {A} request (verdict : T A) : reads verdict -> calm undisturbed (shadowed s request verdict).
Proof.
  intros K. unfold shadowed. apply (calm_bind undisturbed); [by apply (calm_reads undisturbed), keeps_attempt|].
  intros answer. apply (calm_bind undisturbed); [|by intros _ w; destruct answer].
  destruct (decide _); [|auto with calm]. apply calm_ignore, recordAuditEvent_calm.
Qed.

Lemma shadowed_ok {A} request (verdict : T A) w w' a : reads verdict ->
  shadowed s request verdict w = (w', Ok a) -> verdict w = (w, Ok a).
Proof.
  intros K. unfold shadowed. intros (w1 & answer & F & G)%bind_ok.
  unfold attempt in F. rewrite (reads_run _ w K) in F |- *. injection F as <- <-.
  apply bind_ok in G as (w2 & u & _ & G). destruct ((verdict w).2); [|discriminate G]. by injection G as _ ->.
Qed.

Lemma gate_calm (c : bool) e (o : option error) {A} (m : T A) :
  calm undisturbed m -> calm undisturbed (_ ← refuse_if c e; _ ← returned o; m).
Proof.
  intros C. apply (calm_bind undisturbed); [auto with calm|intros _]. apply (calm_bind undisturbed); [by intros w; destruct o|done].
Qed.

Lemma authorizeTenant_calm ctx request : calm undisturbed (service_authorizeTenant s ctx request).
Proof. apply gate_calm, shadowed_calm, policy_tenant_reads. Qed.

Lemma authorizeProject_calm ctx request : calm undisturbed (service_authorizeProject s ctx request).
Proof. apply gate_calm, shadowed_calm, policy_project_reads. Qed.

(** What the aggregate authorizes, the policy authorized. *)
Lemma authorizeProject_ok ctx request w w' p :
  service_authorizeProject s ctx request w = (w', Ok p) ->
  authorizeCurrentProject (policy_tx db) request w = (w, Ok p).
Proof.
  unfold service_authorizeProject. intros (w1 & u & [_ ->]%refuse_if_ok & F)%bind_ok.
  apply bind_ok in F as (w2 & u2 & [_ ->]%returned_run & F).
  apply shadowed_ok in F; [|apply policy_project_reads]. unfold policy_AuthorizeProject in F.
  destruct (decide _) as [E|_]; [by destruct (service_enforced (s := s))|exact F].
Qed.

(** *** The other seams *)

Lemma gate_reads ctx actor p op mode : reads (RuntimeGate s ctx actor p op mode).
Proof. pose proof (controls_reads (s := s)). unfold RuntimeGate. keep_frame. Qed.

Lemma workspaceRuntimeGate_calm actor ctx p op : calm undisturbed (workspaceRuntimeGate s actor ctx p op).
Proof.
  unfold workspaceRuntimeGate. destruct (_ =? "")%string; [auto with calm|].
  apply (calm_reads undisturbed), gate_reads.
Qed.

Lemma afterOperationWrite_calm actor ctx p pid op target status v :
  calm undisturbed (afterOperationWrite s actor ctx p pid op target status v).
Proof.
  unfold afterOperationWrite. destruct (pid =? "")%string; [auto with calm|].
  apply (calm_bind undisturbed); [apply (calm_reads undisturbed), (project_reads (tx := policy_tx db))|intros current].
  apply (calm_bind undisturbed); [|intros _; destruct (_ =? "")%string; auto with calm].
  destruct (requiresGenericCriticalAudit op); [|auto with calm].
  intros w. destruct (sv_stamp s w) as [id now]. apply calm_record_audit.
Qed.

Lemma observeOperationFailure_calm actor ctx pid op cause :
  calm undisturbed (observeOperationFailure s actor ctx pid op cause).
Proof.
  unfold observeOperationFailure. destruct (_ || _); [auto with calm|].
  repeat case_match; simplify_eq; apply calm_ignore; auto with calm.
Qed.

Lemma prepareCached_calm request ctx id body : calm undisturbed (prepareCachedChangeOperation s request ctx id body).
Proof. unfold prepareCachedChangeOperation. case_match; auto with calm. Qed.

Lemma prepareProvenance_calm pid ctx id body : calm undisturbed (prepareProvenanceOperation s pid ctx id body).
Proof. unfold prepareProvenanceOperation. case_match; auto with calm. Qed.

Lemma storeOperationProvenance_calm id r v : calm undisturbed (storeOperationProvenance s id r v).
Proof. unfold storeOperationProvenance. case_match; auto with calm. Qed.

Lemma checkSources_calm actor pid ids : calm undisturbed (checkSources s actor pid ids).
Proof.
  unfold checkSources. case_match; [auto with calm|]. case_match eqn:E; [|by intros w].
  by apply sources_calm.
Qed.

(** *** The ledger of completed operations *)

Lemma on_operations_calm {A} (m : M (store tables) error A) :
  keeps st_tables m -> (forall w, st_operations w ⊆ st_operations (m w).1) -> calm settled (on_operations m).
Proof.
  intros K G w. unfold on_operations. specialize (K {| st_operations := tb_operations w; st_tables := w |}).
  specialize (G {| st_operations := tb_operations w; st_tables := w |}).
  destruct (m _) as [[ops t] r]. cbn in K, G. subst t. by split.
Qed.

Lemma lookup_calm id : calm settled (Lookup (workspace_ledger s) id).
Proof.
  apply on_operations_calm; intros w; cbn; unfold ledger_Lookup, Operation, mbind, M_bind;
    (destruct (operations_fault _ _ _); [done|]; by destruct (_ !! _)).
Qed.

Lemma save_calm id r : calm settled (Save (workspace_ledger s) id r).
Proof.
  apply on_operations_calm; intros w; cbn; unfold ledger_Save, SaveOperation;
    (destruct (operations_fault _ _ _); [done|]; destruct (_ !! _) eqn:E; [done|]); [done|].
  by apply insert_subseteq.
Qed.

(** A seam that is filled in. *)
Local Tactic Notation "filled" uconstr(lem) :=
  let f := fresh in let E := fresh in
  intros f E; injection E as <-; intros; apply calm_settled; apply lem.

Lemma pipeline_calm actor op target key body request write :
  Calm (pipeline_request s actor op target key body request write) settled.
Proof.
  constructor; cbn.
  - apply calm_settled. auto with calm.
  - intros w w' ledger E. injection E as _ <-. apply lookup_calm.
  - intros w w' ledger E. injection E as _ <-. apply save_calm.
  - intros ctx au. apply calm_settled, authorizeTenant_calm.
  - intros ctx au. apply calm_settled, authorizeProject_calm.
  - intros _ p c e. apply calm_settled, recordAuditInTransaction_calm.
  - filled prepareCached_calm.
  - filled prepareProvenance_calm.
  - filled validate_calm.
  - filled pins_calm.
  - filled reverse_calm.
  - filled storeOperationProvenance_calm.
  - intros ctx o p b. apply calm_settled. auto with calm.
  - filled workspaceRuntimeGate_calm.
  - filled afterOperationWrite_calm.
  - filled observeOperationFailure_calm.
  - intros f E. injection E as <-. intros r b w. by cbn.
  - filled checkSources_calm.
Qed.
End Seams.

#[export] Hint Resolve sink_calm cached_calm prepare_calm_ validate_calm pins_calm reverse_calm
  provenance_calm projection_calm record_runtime_calm observe_runtime_calm emit_calm alert_calm
  calm_und_ret calm_refuse calm_record_audit : calm.

(** ** The transactions of the service *)

Section Transactions.
Context {X V : Type} (s : Service X V) `{!ServiceLaws s}.

Lemma transaction_run_body options body w w' r : transaction s options body w = (w', r) ->
  match r with Ok _ => body w = (w', Ok tt) | Err _ => w' = w end.
Proof.
  unfold transaction. destruct (GORMRepository_Transaction _ _ _ _ _) as [[w1 l1] o] eqn:E. cbn.
  intros F. injection F as <- <-. apply (repository_outcome (sv_transaction s) (sv_clock s)) in E as [A _].
  destruct o as [[]|e]; [|exact A]. destruct A as [(l0 & _ & A) _].
  apply on_store_ok in A as [A _]. exact A.
Qed.

Lemma transaction_calm options body : calm undisturbed body -> calm undisturbed (transaction s options body).
Proof.
  intros C w. destruct (transaction s options body w) as [w' r] eqn:E. apply transaction_run_body in E.
  destruct r as [u|e]; [|by subst]. by apply (calm_run undisturbed _ _ _ _ C E).
Qed.

Lemma read_transaction_reads body : reads (transaction s read_only body).
Proof.
  intros w. unfold transaction. destruct (GORMRepository_Transaction _ _ _ _ _) as [[w1 l1] r] eqn:E.
  apply (repository_outcome (sv_transaction s) (sv_clock s)) in E as [A _]. destruct r as [[]|e]; [|exact A].
  by apply A.
Qed.

Lemma readWithAudit_calm ctx actor pid cap options body :
  calm undisturbed body -> calm undisturbed (readWithAudit s ctx actor pid cap options body).
Proof.
  intros C. unfold readWithAudit. apply (calm_bind undisturbed).
  { intros w. unfold attempt. pose proof (transaction_calm options body C w) as K. by destruct (transaction _ _ _ w). }
  intros answer. apply (calm_bind undisturbed).
  - destruct (sv_audit s); [|by intros w]. intros w. unfold attempt.
    pose proof (transaction_calm {| to_ReadOnly := false; to_RetryLocks := false; to_RepeatableRead := false |} _
      (recordAuditInTransaction_calm s actor pid cap match answer with Ok _ => None | Err err => Some err end) w) as K.
    by destruct (transaction _ _ _ w).
  - intros [u|err]; apply (calm_bind undisturbed); [auto with calm| |apply calm_ignore; auto with calm|];
      intros _ w; by destruct answer.
Qed.

Lemma Service_Authorize_calm ctx actor pid cap : calm undisturbed (Service_Authorize s ctx actor pid cap).
Proof.
  unfold Service_Authorize. destruct (authorizationRequestFromCapability _ _ _) as [request|e]; [|by intros w].
  intros w. unfold observed. destruct (readWithAudit _ _ _ _ _ _ _ w) as [w1 r] eqn:E.
  apply (calm_run undisturbed) in E; [|apply readWithAudit_calm, (calm_bind undisturbed);
    [apply (authorizeProject_calm s)|intros; auto with calm]].
  etransitivity; [exact E|]. apply emit_calm.
Qed.
End Transactions.
