(* ===== verification/RunnerTheorems.v ===== *)
(** The workspace keeps the promises the member context relies on: its runner
    discharges the laws of [Ports], so the theorems about member operations
    hold of the operations as they run through the pipeline, and a call that
    is repeated with its key changes nothing. *)

From stdpp Require Import pretty.
From S2P Require Import Prelude Effects OperationCore OperationLaws OperationStore OperationTheorems OperationEffect Workspace Permission PermissionTheorems MemberStore MemberLaws Membership MembershipLaws MembershipSimulation MembershipDemo OperationRunner RunnerLaws.

Section Runner.
Context {X : Type} `{Digester any} (s : Service X any) `{!ServiceLaws s}.
Abbreviation db := (sv_db s).

Lemma runner_calm actor spec write : Calm (operation_request s actor spec write) settled.
Proof. exact (pipeline_calm s _ _ _ _ _ _ _). Qed.

(** *** What one run does *)

#[export] Instance runner_transaction_laws actor spec write ctx :
  TransactionLaws (op_Transaction (operation_request s actor spec write) ctx).
Proof. apply (workspace_transaction_laws (X := X) (sv_transaction s) (sv_clock s) ctx). Qed.

Lemma committed_mono spec write w0 w w' w1 :
  membership_eq w0 w -> membership_eq w' w1 -> committed db spec write w w' -> committed db spec write w0 w1.
Proof.
  intros E0 E1 (wa & wb & p & o & Ea & F & Eb & Hp). exists wa, wb, p, o.
  split; [by transitivity w|]. split; [done|]. split; [by transitivity w'|done].
Qed.

Lemma wrote_committed actor spec write hash status w w' : rq_Actor (sp_Request spec) = actor ->
  wrote zero_project (operation_request s actor spec write) settled hash status w w' -> committed db spec write w w'.
Proof.
  intros Act (_ & _ & ctx & wa & wb & w0 & w1 & p & value & output & E1 & Ea & E2 & Fw & E3).
  cbn in Fw. apply bind_ok in Fw as (w2 & o & Fw & F). injection F as <- _ _ _.
  destruct E1 as [E1 _], E2 as [E2 _], E3 as [E3 _].
  assert (settled wa wb) as [Eab _].
  { apply (calm_run settled _ _ _ _ (authorize_calm zero_project _ settled (CS := runner_calm actor spec write) ctx) Ea). }
  exists w0, w2, p, o. split; [transitivity wa; [done|by transitivity wb]|]. split; [done|]. split; [done|].
  unfold authorize in Ea. cbn in Ea. destruct (_ =? "")%string.
  - apply bind_ok in Ea as (? & ? & _ & Ea). by injection Ea as _ <-.
  - apply on_error_ok, (authorizeProject_ok s) in Ea. exists wa. split; [by transitivity wb|].
    unfold pipelineAuthorizationRequest in Ea. cbn in Ea. rewrite <- Act in Ea. by destruct (sp_Request spec).
Qed.

Definition identity (actor : Actor) (spec : OperationSpec) : Identity Actor :=
  {| id_Actor := actor; id_Operation := sp_Name spec; id_Target := sp_Target spec; id_Key := sp_Key spec |}.

Lemma row_looked_up actor spec write w prev found :
  looked_up (operation_request s actor spec write) settled w prev found ->
  match tb_operations w !! row_key (identity actor spec) with
  | Some row => found = true /\ re_BodyHash prev = or_BodyHash row /\ re_Status prev = or_ResponseCode row
  | None => True
  end.
Proof.
  intros (wz & wz' & ledger & wl & wl' & El & [_ Rl] & Lk). cbn in El. injection El as _ <-.
  destruct (tb_operations w !! _) as [row|] eqn:E; [|done].
  apply (lookup_weaken _ (tb_operations wl)) in E; [|done].
  cbn in Lk. unfold on_operations, ledger_Lookup, Operation, mbind, M_bind in Lk.
  destruct (operations_fault _ _ _); [discriminate Lk|]. cbn in Lk. unfold identity in E. rewrite E in Lk.
  cbn in Lk. by injection Lk as _ <- <-.
Qed.

Lemma row_saved actor spec write hash status w :
  saved (operation_request s actor spec write) settled hash status w ->
  exists row, tb_operations w !! row_key (identity actor spec) = Some row
    /\ or_BodyHash row = hash /\ or_ResponseCode row = status.
Proof.
  intros (wz & wz' & ledger & result & ws & ws' & El & Es & [_ Rs] & Hh & Ht). cbn in El. injection El as _ <-.
  cbn in Es. unfold on_operations, ledger_Save, SaveOperation in Es.
  destruct (operations_fault _ _ _); [discriminate Es|]. cbn in Es.
  destruct (tb_operations ws !! _) eqn:E; [discriminate Es|]. injection Es as <-.
  eexists. split; [eapply lookup_weaken; [|exact Rs]|].
  - cbn. apply lookup_insert_eq.
  - by split.
Qed.

(** A run of the pipeline, and the observations written after it. *)
Lemma runner_run ctx actor spec write w w' r : runOperationCore s ctx actor spec write w = (w', r) ->
  exists w1, settled w1 w' /\
  match r with
  | Ok (_, status, again) =>
      if (again : bool)
      then membership_eq w w1
           /\ exists prev, replayed (operation_request s actor spec write) settled w (ValueHash (sp_Body spec)) prev
                           /\ status = re_Status prev
      else wrote zero_project (operation_request s actor spec write) settled (ValueHash (sp_Body spec)) status w w1
  | Err _ => membership_eq w w1
             \/ exists hash status, wrote zero_project (operation_request s actor spec write) settled hash status w w1
  end.
Proof.
  unfold runOperationCore, observed, run_request, mbind, M_bind, map_error.
  destruct (Run _ _ _ w) as [w1 o] eqn:E. pose proof (runner_calm actor spec write) as C.
  apply (run_effect zero_project (operation_request s actor spec write) settled) in E.
  pose proof (calm_settled _ (emit_calm (s := s) ctx) w1) as Em.
  destruct o as [o|[flag err]]; cbn; intros F; injection F as <- <-; exists w1; (split; [exact Em|]).
  - destruct E as (hash & Hh & E). unfold ValueHash. unfold RequestHash in Hh. cbn in Hh. rewrite Hh. cbn.
    destruct (out_Replayed o); [|exact E]. destruct E as [[E _] (prev & Hp & Es)]. split; [exact E|]. by exists prev.
  - destruct E as [[E _]|E]; [by left|by right].
Qed.

Lemma runner_outcome ctx actor spec write w w' r : rq_Actor (sp_Request spec) = actor ->
  runOperationCore s ctx actor spec write w = (w', r) ->
  match r with
  | Ok (_, _, true) => membership_eq w w'
  | Ok (_, _, false) => committed db spec write w w'
  | Err _ => membership_eq w w' \/ committed db spec write w w'
  end.
Proof.
  intros Act (w1 & [Em _] & E)%runner_run.
  assert (forall hash status, wrote zero_project (operation_request s actor spec write) settled hash status w w1 ->
            committed db spec write w w') as Wr.
  { intros hash status K. eapply committed_mono; [done|exact Em|]. by apply (wrote_committed actor _ _ hash status). }
  destruct r as [[[body status] [|]]|e].
  - transitivity w1; [apply E|exact Em].
  - by eapply Wr.
  - destruct E as [E|(hash & status & E)]; [left; by transitivity w1|right; by eapply Wr].
Qed.

Lemma runner_fresh ctx actor spec write w w' body status :
  runOperationCore s ctx actor spec write w = (w', Ok (body, status, false)) ->
  exists row, tb_operations w' !! row_key (identity actor spec) = Some row
    /\ or_BodyHash row = ValueHash (sp_Body spec) /\ or_ResponseCode row = status.
Proof.
  intros (w1 & [_ Em] & _ & Sv & _)%runner_run. apply row_saved in Sv as (row & Hr & Hs).
  exists row. split; [|exact Hs]. by eapply lookup_weaken.
Qed.

Lemma runner_again ctx actor spec write w w' r row :
  tb_operations w !! row_key (identity actor spec) = Some row ->
  runOperationCore s ctx actor spec write w = (w', r) ->
  membership_eq w w'
  /\ match r with
     | Ok (_, status, again) =>
         again = true /\ status = or_ResponseCode row /\ ValueHash (sp_Body spec) = or_BodyHash row
     | Err _ => True
     end.
Proof.
  intros Row (w1 & [Em _] & E)%runner_run.
  assert (forall hash status, ~ wrote zero_project (operation_request s actor spec write) settled hash status w w1) as No.
  { intros hash status [[prev Un] _]. apply row_looked_up in Un. rewrite Row in Un. by destruct Un. }
  destruct r as [[[body status] [|]]|e].
  - destruct E as (E & prev & [Lk Hh] & ->). apply row_looked_up in Lk. rewrite Row in Lk.
    destruct Lk as (_ & Hb & Hs). split; [by transitivity w1|]. split; [done|]. by rewrite <- Hs, <- Hb.
  - by apply No in E.
  - destruct E as [E|(hash & status & E)]; [|by apply No in E]. split; [by transitivity w1|done].
Qed.

(** *** The other ports *)

#[export] Instance workspace_ports_laws ctx : PortsLaws db (workspace_ports s ctx).
Proof.
  split; cbn.
  - intros actor spec write w w' body status replayed Act F.
    apply runner_outcome in F; [|done]. by destruct replayed.
  - intros actor spec write w w' e Act F. by apply runner_outcome in F.
  - intros m. apply reads_quiet, read_transaction_reads; apply _.
  - intros e. apply calm_membership, (recordAuditEvent_calm s).
  - intros actor pid cap. apply calm_membership, Service_Authorize_calm; apply _.
  - intros actor pid. apply reads_quiet, read_transaction_reads; apply _.
  - apply service_resource_reads.
  - apply service_chapters_reads.
  - apply service_key_reads.
  - apply service_native_reads.
Qed.
End Runner.

(** ** The properties *)

(** C26. The workspace's runner is the one the member context was proved
    against: whatever a run of a member operation answers, a replay leaves
    membership as it was, a first success committed exactly one run of the
    operation's write, on the project its own transaction authorized for the
    caller; and a failure either changed nothing of membership or is that same
    commit whose answer could not be rendered. *)
Theorem runner_commits_authorized_write {X} `{Digester any} (s : Service X any) `{!ServiceLaws s}
  ctx actor spec write w w' r (Caller : rq_Actor (sp_Request spec) = actor)
  (Ran : runOperationCore s ctx actor spec write w = (w', r)) :
  match r with
  | Ok (_, _, true) => membership_eq w w'
  | Ok (_, _, false) => committed (sv_db s) spec write w w'
  | Err _ => membership_eq w w' \/ committed (sv_db s) spec write w w'
  end.
Proof. exact (runner_outcome s ctx actor spec write w w' r Caller Ran). Qed.



(** ** A concrete workspace for the witnesses *)

Module Workshop.
#[export] Instance projectRow_eq_dec : EqDecision projectRow.
Proof. solve_decision. Defined.
#[export] Instance memberPermissionRow_eq_dec : EqDecision memberPermissionRow.
Proof. solve_decision. Defined.
#[export] Instance OwnerTransfer_eq_dec : EqDecision OwnerTransfer.
Proof. solve_decision. Defined.
#[export] Instance projectRecordRow_eq_dec : EqDecision projectRecordRow.
Proof. solve_decision. Defined.
#[export] Instance AuditEvent_eq_dec : EqDecision AuditEvent.
Proof. solve_decision. Defined.
#[export] Instance tenantMemberRow_eq_dec : EqDecision tenantMemberRow.
Proof. solve_decision. Defined.
#[export] Instance tables_eq_dec : EqDecision tables.
Proof. solve_decision. Defined.

(** A database that runs a body once, rolls back on an error, and refuses a
    write in a read-only transaction. *)
Definition transaction (k : nat) (options : option bool) (fn : M St error unit) : M St error unit := fun s =>
  match fn s with
  | (s', Ok _) =>
      if bool_decide (options = Some true) && negb (bool_decide (s'.1 = s.1))
      then ((s.1, s'.2), Err (Sentinel "read-only transaction"))
      else (s', Ok tt)
  | (s', Err e) => ((s.1, s'.2), Err e)
  end.

#[export] Instance transaction_atomic : AtomicDB transaction.
Proof.
  split; unfold transaction.
  - intros k o fn s s'. destruct (fn s) as [s1 [[]|e]]; [|done]. by destruct (_ && _).
  - intros k o fn s s' err. destruct (fn s) as [s1 r] eqn:E. destruct r as [[]|e].
    + destruct (_ && _); [|done]. intros F. injection F as <- <-. split; [done|]. right. by eexists s1, _.
    + intros F. injection F as <- <-. split; [done|]. right. by eexists s1, _.
  - intros k fn s s' r. destruct (fn s) as [s1 [[]|e]]; [|intros F; by injection F as <- _].
    case_bool_decide as G; [|done]. case_bool_decide as D; intros F; by injection F as <- _.
Qed.

#[export] Instance text : Digester any := {|
  json_Marshal := fun v => Ok (match v with
                               | AnyLifecycle input => li_Action input
                               | AnyTransferOwner input => ti_NewOwnerUserID input
                               | _ => "value"
                               end);
  sha256_hex := fun text => text
|}.

Definition service : Service unit any := {|
  sv_db := demo_db; sv_transaction := transaction; sv_clock := calm_clock;
  sv_mode := AuthorizationModeEnforce; sv_audit := true; sv_requireActivationRead := false;
  sv_runtimeMode := "mock";
  sv_stamp := fun w => ("audit-" +:+ pretty (length (tb_audit w)), 1000);
  sv_sink := fun _ => mret tt; sv_sources := None; sv_reverses := fun _ => ""; sv_switching := fun _ => false;
  sv_cached := fun ctx _ _ _ _ => mret (ctx, false); sv_prepare := fun ctx _ _ _ _ _ => mret ctx;
  sv_validate := fun _ _ _ _ => mret tt; sv_pins := fun _ _ => mret tt;
  sv_reverse_sources := fun _ _ => mret tt; sv_provenance := fun _ _ _ => mret tt;
  sv_projection := fun _ _ _ _ body => mret body;
  sv_RuntimeControls := fun _ => mret [{| rc_Scope := {| rs_Kind := "project"; rs_Value := "p-2" |};
                                          rc_Status := "PAUSED" |}];
  sv_RecordRuntime := fun _ _ _ _ _ => mret tt; sv_ObserveRuntime := fun _ _ _ _ _ _ => mret tt;
  sv_emit := fun _ => mret tt; sv_EmitAuditFailureAlert := fun _ _ _ _ _ => mret tt;
  sv_ResourceExists := fun _ _ _ => mret true; sv_Chapters := fun _ => mret [];
  sv_HasAPIKey := fun _ key => mret (key =? 1); sv_VerifyMachineNativeKey := fun _ _ => mret tt
|}.

#[export] Instance service_laws : ServiceLaws service.
Proof. split; try exact _; try done; by intros. Qed.

Definition ctx : Context unit :=
  {| ctx_APIKeyScope := false; ctx_Principal := None; ctx_UserID := Some "ann"; ctx_prepared := tt |}.

Definition suspend : MemberLifecycleInput :=
  {| li_ExpectedProjectVersion := 3; li_Action := "suspend"; li_Reason := "leave" |}.

Definition spec : OperationSpec :=
  {| sp_Name := "memberLifecycle"; sp_Target := "p-1/dan"; sp_Key := "key-0001"; sp_Body := AnyLifecycle suspend;
     sp_Request := project_request (demo_actor "ann") "p-1" "manage" |}.

Definition write : Project -> T OperationOutcome :=
  state_write demo_db (demo_oracle "a") (demo_actor "ann") "p-1" "dan" suspend.

Definition run (w : tables) : tables * res error (string * Z * bool) :=
  runOperationCore service ctx (demo_actor "ann") spec write w.

Definition call : member_call := CallState (demo_actor "ann") "p-1" "dan" "key-0001" suspend.

Example run_answers :
  (run demo_tables).2 = Ok ("value", 200, false) /\ (run (run demo_tables).1).2 = Ok ("value", 200, true).
Proof. vm_compute. split; reflexivity. Qed.
End Workshop.
#[local] Existing Instances Workshop.text Workshop.service_laws.

Lemma answered {A} (m : T A) w a : (m w).2 = a -> m w = ((m w).1, a).
Proof. intros <-. by destruct (m w). Qed.

Lemma runner_commits_authorized_write_witness :
  committed demo_db Workshop.spec Workshop.write demo_tables (Workshop.run demo_tables).1.
Proof.
  apply (runner_commits_authorized_write Workshop.service Workshop.ctx (demo_actor "ann") Workshop.spec Workshop.write
    demo_tables _ (Ok ("value", 200, false)) eq_refl).
  apply answered. exact (proj1 Workshop.run_answers).
Defined.


