(* ===== verification/RoadmapModel.v ===== *)
(** The data of the versioned route roadmap of a project
    ([src/internal/lingdoc/workspacecore/{roadmap_model,semantic_delta,impact_model}.go]),
    the severity of impacts ([impact_severity.go]), and the parsing of numbers
    the storage uses. *)

From stdpp Require Import pretty sorting.
From Stdlib Require Import Ascii String SpecFloat.
From S2P Require Import Prelude Effects OperationCore OperationStore Workspace Permission MemberStore Membership OperationRunner.

(** ** Data ([impact_model.go], [semantic_delta.go], [roadmap_model.go]) *)

Record ObjectVersionRef := { ref_Kind : string; ref_ID : string; ref_Version : string }.

#[export] Instance ref_eq_dec : EqDecision ObjectVersionRef.
Proof. solve_decision. Defined.

Definition object_kinds : list string :=
  ["ProjectSpec"; "ProjectAsset"; "SourceAnchor"; "EvidenceCard"; "ResearchClaim"; "ChapterVersion";
   "TemplateCopy"; "RuleSet"; "RuleBinding"; "RouteNode"; "RouteEdge"; "ResearchRun"; "ComputationReceipt"].

Definition validObjectRef (ref : ObjectVersionRef) : bool :=
  negb (ref_ID ref =? "")%string && negb (ref_Version ref =? "")%string
  && (len (ref_ID ref) <=? 128) && (len (ref_Version ref) <=? 128) && contains object_kinds (ref_Kind ref).

Set Primitive Projections.
Record RouteNode := {
  rn_ID : string;
  rn_ProjectID : string;
  rn_Version : Z;
  rn_Name : string;
  rn_Inputs : list ObjectVersionRef;
  rn_Targets : list ObjectVersionRef;
  rn_Required : bool;
  rn_Status : string;
  rn_ContextRevision : Z;
  rn_ActorID : string;
  rn_Reason : string;
  rn_UpdatedAt : Z
}.

Record RouteEdge := {
  re_ID : string;
  re_ProjectID : string;
  re_Version : Z;
  re_SourceID : string;
  re_TargetID : string;
  re_Relation : string;
  re_EdgeStatus : string;
  re_ContextRevision : Z;
  re_ActorID : string;
  re_Reason : string;
  re_UpdatedAt : Z
}.

(** The fields of the node, with the [Required] the view computes. *)
Record RoadmapNodeView := {
  nv_Node : RouteNode;
  nv_State : string;
  nv_StateReason : string;
  nv_Frozen : bool
}.

Record RoadmapBaseline := {
  rb_Version : Z;
  rb_ContextRevision : Z;
  rb_Nodes : list RoadmapNodeView;
  rb_Edges : list RouteEdge
}.

Record RoadmapNodeProposal := {
  np_NodeID : string;
  np_Kind : string;
  np_Name : string;
  np_Status : string;
  np_Inputs : list ObjectVersionRef;
  np_Targets : list ObjectVersionRef;
  np_Reason : string;
  np_TemporaryVersion : Z
}.

Record RoadmapEdgeProposal := {
  ep_EdgeID : string;
  ep_Kind : string;
  ep_SourceID : string;
  ep_TargetID : string;
  ep_Relation : string;
  ep_Reason : string;
  ep_TemporaryVersion : Z
}.

Record RoadmapCommitResult := {
  cr_SessionID : string;
  cr_BaselineVersion : Z;
  cr_CommittedVersion : Z;
  cr_AppliedNodes : list RoadmapNodeView;
  cr_AppliedEdges : list RouteEdge;
  cr_ChangeSetID : string;
  cr_Semantic : bool
}.

Record RoadmapEditSession := {
  es_ID : string;
  es_ProjectID : string;
  es_Status : string;
  es_Baseline : RoadmapBaseline;
  es_NodeProposals : list RoadmapNodeProposal;
  es_EdgeProposals : list RoadmapEdgeProposal;
  es_Result : option RoadmapCommitResult;
  es_ActorID : string;
  es_Reason : string;
  es_CreatedAt : Z;
  es_UpdatedAt : Z
}.

(** A float64 by its sign, mantissa and exponent, with the infinities and
    NaN. *)
Abbreviation float64 := spec_float.
#[export] Instance float_eq_dec : EqDecision float64.
Proof. solve_decision. Defined.
Definition float_zero : float64 := S754_zero false.

Record DependencyEdge := {
  de_ID : string;
  de_ProjectID : string;
  de_Source : ObjectVersionRef;
  de_Target : ObjectVersionRef;
  de_Relation : string;
  de_Action : string;
  de_Origin : string;
  de_Reason : string;
  de_Status : string;
  de_SupersededRelation : string;
  de_SupersededAction : string;
  de_Confidence : float64;
  de_ActorID : string;
  de_Version : Z;
  de_CreatedAt : Z;
  de_UpdatedAt : Z
}.

Record ImpactCause := { ic_EdgeID : string; ic_Source : ObjectVersionRef; ic_Reason : string }.

#[export] Instance cause_eq_dec : EqDecision ImpactCause.
Proof. solve_decision. Defined.

(** The hints and suggestions a task carries are kept as their text. *)
Record ImpactTask := {
  it_ID : string;
  it_ProjectID : string;
  it_ChangeSetID : string;
  it_Target : ObjectVersionRef;
  it_TargetRevision : Z;
  it_Action : string;
  it_Severity : string;
  it_ResponsibilityDomain : string;
  it_AssigneeID : string;
  it_Status : string;
  it_Causes : list ImpactCause;
  it_Attachments : string;
  it_Version : Z;
  it_Disposition : string;
  it_HumanDecision : string;
  it_ClosureEvidence : list ObjectVersionRef;
  it_StaleReason : string;
  it_StaleAt : Z;
  it_CreatedAt : Z;
  it_UpdatedAt : Z
}.
Unset Primitive Projections.

(** Of the proposals that are not routes, what the validation reads. *)
Record CardInput := { cd_Confirmed : bool; cd_ClaimID : option string }.
Record ClaimInput := { cl_Confirmed : bool; cl_Text : string; cl_Scope : string; cl_Status : string }.
Record AssetPolicyInput := { ap_AssetID : string; ap_Scope : string; ap_ModelUseAllowed : bool; ap_Purpose : string }.
Record BindingOverride := { bo_RuleID : string }.

Set Primitive Projections.
Record SemanticDelta := {
  sd_Kind : string;
  sd_TargetID : string;
  sd_ExpectedVersion : Z;
  sd_BeforeHash : string;
  sd_Before : string;
  sd_ProvenanceHash : string;
  sd_SourceIDs : list string;
  sd_ProposedCard : option CardInput;
  sd_ProposedClaim : option ClaimInput;
  sd_ProposedAssetPolicy : option AssetPolicyInput;
  sd_ProposedBinding : option BindingOverride;
  sd_ProposedRoute : option RouteNode;
  sd_ProposedEdge : option RouteEdge
}.
Unset Primitive Projections.

Record ImpactObjectState := {
  os_Ref : ObjectVersionRef;
  os_State : string;
  os_SourceIDs : list string;
  os_Confirmed : bool;
  os_ContextRevision : Z
}.

Record ContextRevisionRecord := {
  cv_ProjectID : string;
  cv_Revision : Z;
  cv_ChangeSetID : string;
  cv_SpecRevision : Z;
  cv_TemplateCopyVersion : Z;
  cv_Spec : gmap string string;
  cv_SpecProvenance : string;
  cv_CreatedAt : Z
}.

(** *** Change sets and impacts ([model.go], [impact_model.go]) *)

Record ChangeFieldDelta := { fd_Key : string; fd_OldValue : string; fd_NewValue : string }.

Record ChangeImpact := {
  ci_ChapterID : string;
  ci_ChapterVersionID : option string;
  ci_Title : string;
  ci_Reason : string;
  ci_Status : string
}.

Record ArchivedFieldReference := { af_FieldID : string; af_ArchiveID : string; af_ExpectedArchiveVersion : Z }.

(** The definition of an upgrade is kept as its text, and so are its preview
    and its impact, together. *)
Record TemplateUpgrade := {
  tu_BaseTemplateCopyVersion : Z;
  tu_Definition : string;
  tu_FieldValues : gmap string string;
  tu_ArchivedRemovals : list ArchivedFieldReference;
  tu_ArchiveRestores : list ArchivedFieldReference;
  tu_Preview : string
}.

Set Primitive Projections.
Record ChangeSet := {
  ch_SemanticDeltas : list SemanticDelta;
  ch_ID : string;
  ch_ProjectID : string;
  ch_CreatedBy : string;
  ch_ReassessedFromID : string;
  ch_ReversesChangeSetID : string;
  ch_DecisionBy : string;
  ch_DecidedAt : option Z;
  ch_StaleReason : string;
  ch_Reason : string;
  ch_Status : string;
  ch_BaseContextRevision : Z;
  ch_TargetContextRevision : option Z;
  ch_BaseSpecRevision : Z;
  ch_TargetSpecRevision : option Z;
  ch_Fields : list ChangeFieldDelta;
  ch_Impacts : list ChangeImpact;
  ch_AffectedExplanation : option string;
  ch_TemplateUpgrade : option TemplateUpgrade;
  ch_CreatedAt : Z;
  ch_AppliedAt : option Z
}.

Record ResolvedImpact := {
  ri_Target : ObjectVersionRef;
  ri_Action : string;
  ri_Certainty : string;
  ri_Causes : list ImpactCause
}.

Record ImpactAssessment := {
  ia_ChangeSetID : string;
  ia_ProjectID : string;
  ia_ContextRevision : Z;
  ia_TemplateCopyVersion : Z;
  ia_RulesetHash : string;
  ia_InputHash : string;
  ia_Objects : list ImpactObjectState;
  ia_Edges : list DependencyEdge;
  ia_Impacts : list ResolvedImpact;
  ia_SemanticHash : string;
  ia_AssessedAt : Z
}.
Unset Primitive Projections.

Record ImpactBlocker := { ib_Code : string; ib_TargetID : string; ib_Reason : string }.

Record StabilizationResult := {
  sr_ChangeSetID : string;
  sr_ContextRevision : Z;
  sr_Status : string;
  sr_Blockers : list ImpactBlocker;
  sr_StaleTaskIDs : list string;
  sr_CheckedAt : Z
}.

Definition ImpactTaskStaleTargetReplaced := "target_version_replaced".
Definition ImpactTaskStaleAssigneeRevoked := "assignee_revoked".
Definition ImpactTaskStatuses : list string := ["OPEN"; "IN_PROGRESS"; "WAITING_USER"; "DONE"; "DISMISSED"; "STALE"].
Definition ImpactTaskClosedStatuses : list string := ["DONE"; "DISMISSED"].

Record DependencyEdgeInput := {
  di_ExpectedContextRevision : Z;
  di_Source : ObjectVersionRef;
  di_Target : ObjectVersionRef;
  di_Relation : string;
  di_Action : string;
  di_Origin : string;
  di_Reason : string;
  di_Confidence : float64
}.

Record DependencyDecisionInput := {
  dd_ExpectedVersion : Z;
  dd_Decision : string;
  dd_Reason : string;
  dd_Relation : option string;
  dd_Action : option string;
  dd_Confidence : option float64
}.

Record ImpactTaskActionInput := {
  ta_HumanDecision : string;
  ta_ExpectedVersion : Z;
  ta_TargetRevision : Z;
  ta_Action : string;
  ta_AssigneeID : string;
  ta_Reason : string;
  ta_ClosureEvidence : list ObjectVersionRef
}.

(** [ProofKind] and the others of [impact_preflight.go] *)
Record ImpactPreflightEvidence := {
  pf_ProofID : string;
  pf_ProofKind : string;
  pf_SnapshotID : string;
  pf_SnapshotDigest : string;
  pf_ProjectVersion : Z;
  pf_ContextRevision : Z;
  pf_TemplateCopyVersion : Z;
  pf_RulesetHash : string;
  pf_Status : string;
  pf_IsCurrent : bool;
  pf_SourceIDs : list string
}.

Record ImpactPreflightAcknowledgement := { pa_ClosedTaskIDs : list string; pa_ProofID : string; pa_ContextRevision : Z }.

(** ** Dependency candidates ([impact_dependency_candidate.go]) *)

Record DependencyCandidateScope := {
  sp_Objects : list ObjectVersionRef;
  sp_TargetKinds : list string;
  sp_Reason : string
}.

Record DependencyCandidate := {
  dc_ID : string;
  dc_ProjectID : string;
  dc_BatchID : string;
  dc_Source : ObjectVersionRef;
  dc_Target : ObjectVersionRef;
  dc_Relation : string;
  dc_Action : string;
  dc_Evidence : string;
  dc_Reason : string;
  dc_Confidence : float64;
  dc_Status : string;
  dc_Decision : string;
  dc_DecisionReason : string;
  dc_DecidedBy : string;
  dc_DecidedAt : option Z;
  dc_EdgeID : string;
  dc_SupersededRelation : string;
  dc_SupersededAction : string;
  dc_ProjectVersion : Z;
  dc_ContextRevision : Z;
  dc_ModelRunID : string;
  dc_ActorID : string;
  dc_Version : Z;
  dc_CreatedAt : Z;
  dc_UpdatedAt : Z
}.

Record DependencyCandidateSuppression := {
  ds_Source : ObjectVersionRef;
  ds_Target : ObjectVersionRef;
  ds_Relation : string;
  ds_Action : string;
  ds_Reason : string;
  ds_PreviousCandidateID : string;
  ds_PreviousStatus : string;
  ds_PreviousProjectVersion : Z
}.

Record DependencyCandidateBatch := {
  cb_ID : string;
  cb_ProjectID : string;
  cb_IdempotencyKey : string;
  cb_Scope : DependencyCandidateScope;
  cb_Status : string;
  cb_Candidates : list DependencyCandidate;
  cb_Suppressed : list DependencyCandidateSuppression;
  cb_ProjectVersion : Z;
  cb_ContextRevision : Z;
  cb_ActorID : string;
  cb_Reason : string;
  cb_CreatedAt : Z;
  cb_UpdatedAt : Z;
  cb_ContentHash : string
}.

Record DependencyCandidateInput := {
  ki_Source : ObjectVersionRef;
  ki_Target : ObjectVersionRef;
  ki_Relation : string;
  ki_Action : string;
  ki_Evidence : string;
  ki_Reason : string;
  ki_Confidence : float64;
  ki_ModelRunID : string
}.

Record DependencyCandidateBatchInput := {
  kb_ExpectedContextRevision : Z;
  kb_IdempotencyKey : string;
  kb_Scope : DependencyCandidateScope;
  kb_Reason : string;
  kb_Candidates : list DependencyCandidateInput
}.

Record DependencyCandidateDecisionResult := { kr_Candidate : DependencyCandidate; kr_Edge : option DependencyEdge }.

Definition RoadmapEditSessionOpen := "open".
Definition RoadmapEditSessionCommitted := "committed".
Definition RoadmapEditSessionCancelled := "cancelled".
Definition proposal_kinds : list string := ["add"; "update"; "delete"].
Definition RouteEdgeStatusActive := "active".
Definition RouteEdgeStatusRetired := "retired".
Definition RoadmapNodeStatuses : list string := ["planned"; "pending_review"; "ready"; "blocked"; "retired"].

Record RoadmapEditBeginInput := { bi_ExpectedContextRevision : Z; bi_Reason : string }.

Record RoadmapNodeProposalInput := {
  ni_NodeID : string;
  ni_Kind : string;
  ni_Name : string;
  ni_Status : string;
  ni_Inputs : list ObjectVersionRef;
  ni_Targets : list ObjectVersionRef;
  ni_Required : option bool;
  ni_Reason : string
}.

Record RoadmapEdgeProposalInput := {
  ei_EdgeID : string;
  ei_Kind : string;
  ei_SourceID : string;
  ei_TargetID : string;
  ei_Relation : string;
  ei_Reason : string
}.

(** [RoadmapCommitInput] and [RoadmapCancelInput] *)
Record RoadmapCloseInput := { xi_ExpectedBaselineVersion : Z; xi_Reason : string }.

(** What the roadmap's operations hand to the pipeline as [any]. *)
(** *** What a change set is asked for ([model.go], [impact_model.go]) *)

Record ChangeFieldInput := { fi_OldValue : string; fi_NewValue : string }.

Record ExtendedChangeSetInput := {
  xd_SemanticDeltas : list SemanticDelta;
  xd_ExpectedContextRevision : Z;
  xd_Reason : string;
  xd_Fields : gmap string ChangeFieldInput;
  xd_AffectedChapterIDs : list string
}.

(** A request for an upgrade: its lists as their text, of which the check asks
    whether each is given; its rule set by id, version and hash. *)
Record TemplateUpgradeInput := {
  ui_ExpectedProjectVersion : Z;
  ui_ExpectedTemplateCopyVersion : Z;
  ui_ListsGiven : bool;
  ui_Lists : string;
  ui_RuleSetRef : option (string * string * string);
  ui_RuleBindingOverrides : option string;
  ui_FieldValues : gmap string string;
  ui_ArchivedRemovals : list ArchivedFieldReference
}.

Record CreateChangeSetInput := {
  xc_ExpectedContextRevision : Z;
  xc_Fields : gmap string ChangeFieldInput;
  xc_AffectedChapterIDs : list string;
  xc_Reason : string;
  xc_ReversesChangeSetID : string;
  xc_TemplateUpgrade : option TemplateUpgradeInput
}.

Inductive roadmap_any :=
| AnyBegin (input : RoadmapEditBeginInput)
| AnyNodeProposal (input : RoadmapNodeProposalInput)
| AnyEdgeProposal (input : RoadmapEdgeProposalInput)
| AnyClose (input : RoadmapCloseInput)
| AnySession (session : RoadmapEditSession)
| AnyResult (result : RoadmapCommitResult)
| AnyEdgeInput (input : DependencyEdgeInput)
| AnyDecision (input : DependencyDecisionInput)
| AnyTaskAction (input : ImpactTaskActionInput)
| AnyStrings (input : list (string * string)) (* map[string]string *)
| AnyDependency (edge : DependencyEdge)
| AnyTask (task : ImpactTask)
| AnyStabilization (result : StabilizationResult)
| AnyAcknowledgement (result : ImpactPreflightAcknowledgement)
| AnyChange (change : ChangeSet)
| AnyState (state : ImpactObjectState)
| AnyRefs (refs : list ObjectVersionRef)
| AnyDeltas (deltas : list SemanticDelta)
| AnyNode (node : RouteNode)
| AnyRouteEdge (edge : RouteEdge)
| AnyValue (ref : ObjectVersionRef) (body provenance : string)
| AnyAssessment (assessment : ImpactAssessment)
| AnyBatchInput (input : DependencyCandidateBatchInput)
| AnyCandidates (input : list DependencyCandidateInput)
| AnyBatch (batch : DependencyCandidateBatch)
| AnyCandidateDecision (result : DependencyCandidateDecisionResult)
| AnyDraftInput (input : ExtendedChangeSetInput)
| AnyCreateInput (input : CreateChangeSetInput)
| AnyNodeMeaning (name status : string) (required : bool) (inputs : list ObjectVersionRef)
| AnyEdgeMeaning (source target relation : string)
| AnyText (text : string)
| AnyFields (fields : list (string * string * string)) (* key, old_hash, new_hash *)
| AnyImpacts (impacts : list ChangeImpact).

Record RoadmapFieldChange := { fc_Field : string; fc_From : string; fc_To : string }.

(** [strings.CutPrefix] *)
Fixpoint strip_prefix (prefix s : string) : option string :=
  match prefix, s with
  | EmptyString, _ => Some s
  | String a prefix', String b s' => if Ascii.eqb a b then strip_prefix prefix' s' else None
  | String _ _, EmptyString => None
  end.

(** [strconv.ParseInt(s, 10, 64)] *)
Definition digit (c : ascii) : option Z :=
  let n := Z.of_nat (nat_of_ascii c) in
  if (48 <=? n) && (n <=? 57) then Some (n - 48) else None.

Fixpoint parse_digits (acc : Z) (s : string) : option Z :=
  match s with
  | EmptyString => Some acc
  | String c s' => d ← digit c; parse_digits (10 * acc + d) s'
  end.

Definition in_int64 (z : Z) : option Z :=
  if (min_int64 <=? z) && (z <=? max_int64) then Some z else None.

Definition ParseInt (s : string) : option Z :=
  match s with
  | EmptyString => None
  | String c s' =>
      if Ascii.eqb c "-"%char || Ascii.eqb c "+"%char
      then if (s' =? "")%string then None
           else n ← parse_digits 0 s'; in_int64 (if Ascii.eqb c "-"%char then - n else n)
      else n ← parse_digits 0 s; in_int64 n
  end.

Definition ErrSyntax : error := Sentinel "strconv.ParseInt: invalid syntax".
Definition ErrImpactObjectUnavailable : error := Sentinel "current impact object adapter is unavailable".
Definition ErrConsentRequired : error := Sentinel "lingdoc: explicit action confirmation required".
Definition ErrSemanticBatchStagingRequired : error :=
  Wrapped "invalid_request: change the associated claim and evidence card in separate ChangeSets" ErrInvalidRequest.
Definition nil_dereference : error :=
  Sentinel "runtime error: invalid memory address or nil pointer dereference".

(** ** Impact severity ([impact_severity.go]) *)

Definition impactBlockingActions : list string := ["BLOCK_RELEASE"; "REVIEW_REQUIRED"; "INVALIDATE_CONFIRMATION"].
Definition impactInfoActions : list string := ["RECOMPUTE"; "NO_ACTION"].
Definition impactWarningActions : list string := ["REVALIDATE_EVIDENCE"; "RETRIEVE_CANDIDATES"; "REGENERATE"].

Definition DeriveImpactSeverity (action : string) : string :=
  when contains impactBlockingActions action return "blocking";
  when contains impactInfoActions action return "info";
  when contains impactWarningActions action return "warning";
  "blocking".

Definition impactSeverityBlocks (severity : string) : bool :=
  when negb (contains ["blocking"; "warning"; "info"] severity) return true;
  (severity =? "blocking")%string.
