(* ===== verification/RoadmapStore.v ===== *)
(** The storage of the versioned route roadmap: frozen nodes and edges, the
    unfrozen editing session, impact tasks, dependency edges and context
    revisions, of [src/internal/lingdoc/workspacecore/{roadmap_store,impact_store,context_revision}.go].

    The roadmap has tables of its own next to the workspace's ([rm_tables]).
    What is outside of it (the template's rules, the state of chapters and
    evidence, provenance, the change-set tables) is a field of [World]. *)

From stdpp Require Import pretty sorting.
From Stdlib Require Import Ascii String.
From S2P Require Import Prelude Effects OperationCore OperationStore Workspace Permission MemberStore Membership OperationRunner RoadmapModel.

(** ** Tables ([roadmap_store.go], [impact_store.go]) *)

(** A row of [lingdoc_g3_records] of one kind: its version and its body. *)
Record versionedRecord {B : Type} := { vr_Version : Z; vr_Body : B }.
Arguments versionedRecord : clear implicits.

(** By project and record key, which the table declares unique. *)
Abbreviation records B := (gmap (string * string) (versionedRecord B)).

(** [lingdoc_g3_route_edges] by its primary key, "edge/version". *)
Record routeEdgeRow := {
  er_ProjectID : string;
  er_EdgeID : string;
  er_Version : Z;
  er_SourceID : string;
  er_TargetID : string;
  er_Relation : string;
  er_ContextRevision : Z;
  er_ActorID : string;
  er_Reason : string;
  er_CreatedAt : Z
}.

Set Primitive Projections.
Record roadmap := {
  rm_tables : tables;
  rm_sessions : gmap string RoadmapEditSession;
  rm_edges : gmap string routeEdgeRow;
  rm_nodes : records RouteNode;             (* kind "route_node" *)
  rm_versions : records RouteNode;          (* kind "route_node_version" *)
  rm_dependencies : records DependencyEdge; (* kind "edge" *)
  rm_tasks : records ImpactTask;            (* kind "task" *)
  rm_revisions : records ContextRevisionRecord; (* kind "revision" *)
  rm_handoffs : gset (string * string);     (* kind "handoff" *)
  rm_changes : gmap string ChangeSet;       (* lingdoc_change_sets, by id; their deltas are the plans' *)
  rm_plans : records (list SemanticDelta);  (* kind "semantic_plan" *)
  rm_assessments : records ImpactAssessment; (* kind "assessment" *)
  rm_batches : gmap string DependencyCandidateBatch; (* lingdoc_g3_dependency_candidate_batches, by id *)
  rm_candidates : gmap string DependencyCandidate    (* lingdoc_g3_dependency_candidates, by id *)
}.
Unset Primitive Projections.

Definition RM (A : Type) := M roadmap error A.

Record World {X : Type} := {
  wd_service : Service X roadmap_any;
  (* GORM's transaction, for any variables its closure captures *)
  wd_transaction : forall L, nat -> option bool -> M (roadmap * L) error unit -> M (roadmap * L) error unit;
  (* ORDER BY created_at, id *)
  wd_session_order : list RoadmapEditSession -> list RoadmapEditSession;
  wd_node_order : list RouteNode -> list RouteNode;
  wd_version_order : list (string * RouteNode) -> list (string * RouteNode);
  wd_dependency_order : list DependencyEdge -> list DependencyEdge;
  wd_task_order : list ImpactTask -> list ImpactTask;
  wd_batch_order : list DependencyCandidateBatch -> list DependencyCandidateBatch;
  wd_candidate_order : list DependencyCandidate -> list DependencyCandidate;
  (* routeRequiredByRules: the template's definition is a text here *)
  wd_required : Project -> string -> bool;
  (* readImpactObjectState for chapters, evidence, results and rule bindings *)
  wd_object : Project -> ObjectVersionRef -> T ImpactObjectState;
  (* persistProvenanceSnapshot *)
  wd_provenance : Project -> T string;
  (* runOperation of createChangeDraft: the change set it stores, by its id and base revision *)
  wd_draft : Context X -> Actor -> string -> string -> ExtendedChangeSetInput -> RM (string * Z);
  (* the deltas of a change set that are not routes *)
  wd_apply : Actor -> Project -> Project -> string -> SemanticDelta -> T unit;
  (* uuid.NewSHA1, uuid.NewString, time.Now *)
  wd_sha1 : string -> string;
  wd_uuid : roadmap -> string;
  wd_now : roadmap -> Z
}.
Arguments World : clear implicits.

(** A call that depends on the store it is made on ([time.Now], [uuid.NewString]). *)
Definition here {A} (f : roadmap -> RM A) : RM A := fun w => f w w.

Section Store.
Context {X : Type}.
Variable world : World X.
Abbreviation db := (sv_db (wd_service world)).

(** A statement on the workspace's tables. *)
Definition on_tables {A} (m : T A) : RM A := fun w =>
  let '(t, r) := m (rm_tables w) in (w <| rm_tables := t |>, r).

Definition rm_statement {A} (name : string) (m : RM A) : RM A := fun w =>
  match db_fault db name (rm_tables w) with Some err => (w, Err err) | None => m w end.

Definition rm_query {A} (name : string) (f : roadmap -> A) : RM A :=
  rm_statement name (fun w => (w, Ok (f w))).

(** *** Versioned records ([impact_store.go]) *)

Section Records.
Context {B : Type}.
Variable get : roadmap -> records B.
Variable put : records B -> roadmap -> roadmap.

Definition readVersionedRecord (pid key : string) : RM (versionedRecord B) :=
  found ← rm_query "select lingdoc_g3_records" (fun w => get w !! (pid, key));
  match found with Some row => mret row | None => fail ErrNotFound end.

Definition insertVersionedRecord (pid key : string) (version : Z) (value : B) : RM unit :=
  rm_statement "insert lingdoc_g3_records" (fun w =>
    match get w !! (pid, key) with
    | Some _ => (w, Err duplicate_key)
    | None => (put (<[(pid, key) := {| vr_Version := version; vr_Body := value |}]> (get w)) w, Ok tt)
    end).

Definition compareAndSwapVersionedRecord (pid key : string) (version : Z) (value : B) : RM unit :=
  rm_statement "update lingdoc_g3_records" (fun w =>
    match get w !! (pid, key) with
    | Some row =>
        if vr_Version row =? version
        then (put (<[(pid, key) := {| vr_Version := version +i 1; vr_Body := value |}]> (get w)) w, Ok tt)
        else (w, Err ErrVersionConflict)
    | None => (w, Err ErrVersionConflict)
    end).

(** The record keys and bodies of a project. *)
Definition project_records (pid : string) (w : roadmap) : list (string * B) :=
  omap (fun '((p, key), row) => if (p =? pid)%string then Some (key, vr_Body row) else None)
    (map_to_list (get w)).

Definition listVersionedRecords {C} (select : list (string * B) -> C) (pid : string) : RM C :=
  rm_query "select lingdoc_g3_records" (fun w => select (project_records pid w)).
End Records.

(** *** Route nodes ([semantic_delta.go]) *)

Definition put_nodes (t : records RouteNode) (w : roadmap) : roadmap := w <| rm_nodes := t |>.
Definition put_versions (t : records RouteNode) (w : roadmap) : roadmap := w <| rm_versions := t |>.
Definition put_dependencies (t : records DependencyEdge) (w : roadmap) : roadmap := w <| rm_dependencies := t |>.
Definition put_tasks (t : records ImpactTask) (w : roadmap) : roadmap := w <| rm_tasks := t |>.

Definition versionKey (id : string) (version : Z) : string := id +:+ "/" +:+ pretty version.

Definition routeNodeOf (pid id : string) : RM RouteNode :=
  row ← readVersionedRecord rm_nodes pid id;
  mret (vr_Body row).

Definition routeNodesOf (pid : string) : RM (list RouteNode) :=
  listVersionedRecords rm_nodes (fun rows => wd_node_order world rows.*2) pid.

Definition AppendRouteNode (old next : RouteNode) : RM unit :=
  _ ← refuse_if ((rn_ID next =? "")%string || (rn_ProjectID next =? "")%string
                 || negb (rn_Version next =? rn_Version old +i 1)) ErrInvalidRequest;
  _ ← insertVersionedRecord rm_versions put_versions (rn_ProjectID next)
        (versionKey (rn_ID next) (rn_Version next)) 1 next;
  if rn_Version old =? 0
  then insertVersionedRecord rm_nodes put_nodes (rn_ProjectID next) (rn_ID next) 1 next
  else compareAndSwapVersionedRecord rm_nodes put_nodes (rn_ProjectID old) (rn_ID old) (rn_Version old) next.

(** *** Route edges ([roadmap_store.go]) *)

(** The row has no column for the status. *)
Definition routeEdgeFromRow (row : routeEdgeRow) : RouteEdge :=
  {| re_ID := er_EdgeID row; re_ProjectID := er_ProjectID row; re_Version := er_Version row;
     re_SourceID := er_SourceID row; re_TargetID := er_TargetID row; re_Relation := er_Relation row;
     re_EdgeStatus := ""; re_ContextRevision := er_ContextRevision row; re_ActorID := er_ActorID row;
     re_Reason := er_Reason row; re_UpdatedAt := er_CreatedAt row |}.

Definition InsertRouteEdge (edge : RouteEdge) : RM unit :=
  let key := versionKey (re_ID edge) (re_Version edge) in
  rm_statement "insert lingdoc_g3_route_edges" (fun w =>
    match rm_edges w !! key with
    | Some _ => (w, Err duplicate_key)
    | None =>
        (w <| rm_edges := <[key :=
           {| er_ProjectID := re_ProjectID edge; er_EdgeID := re_ID edge; er_Version := re_Version edge;
              er_SourceID := re_SourceID edge; er_TargetID := re_TargetID edge; er_Relation := re_Relation edge;
              er_ContextRevision := re_ContextRevision edge; er_ActorID := re_ActorID edge;
              er_Reason := re_Reason edge; er_CreatedAt := re_UpdatedAt edge |}]> (rm_edges w) |>, Ok tt)
    end).

Definition edge_rows (pid : string) (w : roadmap) : list routeEdgeRow :=
  base.filter (fun row => er_ProjectID row = pid) (snd <$> map_to_list (rm_edges w)).

(** The row of the highest version. *)
Definition newest (rows : list routeEdgeRow) : option routeEdgeRow :=
  foldl (fun best row => match best with
                         | Some b => if er_Version b <? er_Version row then Some row else best
                         | None => Some row
                         end) None rows.

Definition latest_edge (pid id : string) (w : roadmap) : option RouteEdge :=
  routeEdgeFromRow <$> newest (base.filter (fun row => er_EdgeID row = id) (edge_rows pid w)).

Definition Store_RouteEdge (pid id : string) : RM RouteEdge :=
  found ← rm_query "select lingdoc_g3_route_edges" (latest_edge pid id);
  match found with Some edge => mret edge | None => fail ErrNotFound end.

Definition RouteEdges (pid : string) : RM (list RouteEdge) :=
  rm_query "select lingdoc_g3_route_edges" (fun w =>
    omap (fun id => latest_edge pid id w)
      (merge_sort string_le (remove_dups (er_EdgeID <$> edge_rows pid w)))).

Definition edge_version_le (a b : routeEdgeRow) : Prop := er_Version a <= er_Version b.
#[export] Instance edge_version_le_dec : RelDecision edge_version_le.
Proof. intros a b. unfold edge_version_le. apply _. Defined.

Definition RouteEdgeVersions (pid id : string) : RM (list RouteEdge) :=
  rm_query "select lingdoc_g3_route_edges" (fun w =>
    routeEdgeFromRow <$> merge_sort edge_version_le (base.filter (fun row => er_EdgeID row = id) (edge_rows pid w))).

(** *** Sessions ([roadmap_store.go]) *)

Definition project_sessions (pid : string) (w : roadmap) : list RoadmapEditSession :=
  base.filter (fun session => es_ProjectID session = pid) (snd <$> map_to_list (rm_sessions w)).

Definition is_open (session : RoadmapEditSession) : bool := (es_Status session =? RoadmapEditSessionOpen)%string.

(** The partial unique index: one open session per project. *)
Definition open_session (pid : string) (w : roadmap) : bool := existsb is_open (project_sessions pid w).

Definition InsertRoadmapSession (session : RoadmapEditSession) : RM unit :=
  rm_statement "insert lingdoc_g3_roadmap_edit_sessions" (fun w =>
    match rm_sessions w !! es_ID session with
    | Some _ => (w, Err duplicate_key)
    | None =>
        when is_open session && open_session (es_ProjectID session) w return (w, Err duplicate_key);
        (w <| rm_sessions := <[es_ID session := session]> (rm_sessions w) |>, Ok tt)
    end).

Definition Store_RoadmapSession (pid id : string) : RM RoadmapEditSession :=
  found ← rm_query "select lingdoc_g3_roadmap_edit_sessions" (fun w => rm_sessions w !! id);
  match found with
  | Some session => if (es_ProjectID session =? pid)%string then mret session else fail ErrNotFound
  | None => fail ErrNotFound
  end.

Definition RoadmapSessions (pid : string) : RM (list RoadmapEditSession) :=
  rm_query "select lingdoc_g3_roadmap_edit_sessions" (fun w => wd_session_order world (project_sessions pid w)).

(** The number of rows the update changed is not looked at. *)
Definition UpdateRoadmapSession (previous next : RoadmapEditSession) : RM unit :=
  rm_statement "update lingdoc_g3_roadmap_edit_sessions" (fun w =>
    match rm_sessions w !! es_ID previous with
    | Some row =>
        if (es_ProjectID row =? es_ProjectID previous)%string && (es_Status row =? es_Status previous)%string
        then (w <| rm_sessions := <[es_ID previous :=
                row <| es_Status := es_Status next |> <| es_Baseline := es_Baseline next |>
                    <| es_NodeProposals := es_NodeProposals next |> <| es_EdgeProposals := es_EdgeProposals next |>
                    <| es_Result := es_Result next |> <| es_ActorID := es_ActorID next |>
                    <| es_Reason := es_Reason next |> <| es_UpdatedAt := es_UpdatedAt next |>]> (rm_sessions w) |>, Ok tt)
        else (w, Ok tt)
    | None => (w, Ok tt)
    end).

(** *** The versions of a node ([roadmap_store.go]) *)

Definition node_version_le (a b : RouteNode) : Prop := rn_Version a <= rn_Version b.
#[export] Instance node_version_le_dec : RelDecision node_version_le.
Proof. intros a b. unfold node_version_le. apply _. Defined.

(** The loop over the rows: keys of other nodes are skipped, the version is
    the one of the key. *)
Fixpoint versions_of (id : string) (rows : list (string * RouteNode)) : res error (list RouteNode) :=
  match rows with
  | [] => Ok []
  | (key, node) :: rows' =>
      match strip_prefix (id +:+ "/") key with
      | None => versions_of id rows'
      | Some digits =>
          match ParseInt digits with
          | None => Err ErrSyntax
          | Some version => nodes ← versions_of id rows'; Ok ((node <| rn_Version := version |>) :: nodes)
          end
      end
  end.

Definition RouteNodeVersions (pid id : string) : RM (list RouteNode) :=
  rows ← listVersionedRecords rm_versions (wd_version_order world) pid;
  match versions_of id rows with
  | Ok nodes => mret (merge_sort node_version_le nodes)
  | Err err => fail err
  end.

(** *** Impact tasks and dependencies ([impact_store.go], [impact_service.go]) *)

Definition validImpactAction (action : string) : bool :=
  contains ["REVALIDATE_EVIDENCE"; "RETRIEVE_CANDIDATES"; "REVIEW_REQUIRED"; "REGENERATE"; "RECOMPUTE";
            "INVALIDATE_CONFIRMATION"; "BLOCK_RELEASE"; "NO_ACTION"] action.

Definition ImpactTaskIdentity (task : ImpactTask) : string :=
  it_ChangeSetID task +:+ "/" +:+ ref_Kind (it_Target task) +:+ "/" +:+ ref_ID (it_Target task) +:+ "/"
  +:+ pretty (it_TargetRevision task) +:+ "/" +:+ it_Action task.

Definition impactTaskID (pid identity : string) : string := wd_sha1 world (pid +:+ "|" +:+ identity).

(** The causes of [new] that [old] does not have are appended, one by one. *)
Definition merge_causes (old new : list ImpactCause) : list ImpactCause * bool :=
  foldl (fun '(causes, merged) cause =>
           if decide (cause ∈ causes) then (causes, merged) else (causes ++ [cause], true))
    (old, false) new.

Definition InsertImpactTask (task : ImpactTask) : RM unit :=
  let key := ImpactTaskIdentity task in
  found ← attempt (readVersionedRecord rm_tasks (it_ProjectID task) key);
  match found with
  | Ok row =>
      let '(causes, merged) := merge_causes (it_Causes (vr_Body row)) (it_Causes task) in
      when negb merged return mret tt;
      here (fun w =>
        compareAndSwapVersionedRecord rm_tasks put_tasks (it_ProjectID task) key (vr_Version row)
          ((vr_Body row) <| it_Causes := causes |> <| it_Version := vr_Version row +i 1 |>
                         <| it_UpdatedAt := wd_now world w |>))
  | Err err =>
      if decide (err = ErrNotFound)
      then insertVersionedRecord rm_tasks put_tasks (it_ProjectID task) key (it_Version task) task
      else fail err
  end.

Definition ImpactTasks (pid : string) : RM (list ImpactTask) :=
  listVersionedRecords rm_tasks (fun rows => wd_task_order world rows.*2) pid.

Definition UpdateImpactTask (old next : ImpactTask) : RM unit :=
  compareAndSwapVersionedRecord rm_tasks put_tasks (it_ProjectID old) (ImpactTaskIdentity old) (it_Version old) next.

(** [ON CONFLICT DO NOTHING] *)
Definition InsertImpactHandoff (task : ImpactTask) : RM unit :=
  rm_statement "insert lingdoc_g3_records" (modify (fun w =>
    w <| rm_handoffs := {[ (it_ProjectID task, ImpactTaskIdentity task) ]} ∪ rm_handoffs w |>)).

Definition DependencyEdges (pid : string) : RM (list DependencyEdge) :=
  listVersionedRecords rm_dependencies (fun rows => wd_dependency_order world rows.*2) pid.

Definition PutDependencyEdge (edge : DependencyEdge) : RM unit :=
  insertVersionedRecord rm_dependencies put_dependencies (de_ProjectID edge) (de_ID edge) (de_Version edge) edge.

Definition same_fact (a b : DependencyEdge) : bool :=
  bool_decide (de_Source a = de_Source b) && bool_decide (de_Target a = de_Target b)
  && (de_Relation a =? de_Relation b)%string && (de_Action a =? de_Action b)%string.

Definition StoreConfirmedDependency (edge : DependencyEdge) : RM unit :=
  _ ← refuse_if (negb (validObjectRef (de_Source edge)) || negb (validObjectRef (de_Target edge))
                 || negb (validImpactAction (de_Action edge)) || (de_ActorID edge =? "")%string
                 || (de_Reason edge =? "")%string || (de_Origin edge =? "ai")%string) ErrInvalidRequest;
  edges ← DependencyEdges (de_ProjectID edge);
  when existsb (same_fact edge) edges return mret tt;
  here (fun w =>
    PutDependencyEdge
      (edge <| de_ID := if (de_ID edge =? "")%string then wd_uuid world w else de_ID edge |>
            <| de_Status := "confirmed" |> <| de_Version := 1 |>
            <| de_CreatedAt := wd_now world w |> <| de_UpdatedAt := wd_now world w |>)).

(** *** Audit and context revisions ([impact_service.go], [context_revision.go]) *)

Definition recordAuditEvent (actor : Actor) (pid action target : string) (details : gmap string string) : RM unit :=
  here (fun w =>
    on_tables (RecordAudit db
      {| ae_ID := wd_uuid world w; ae_ProjectID := pid; ae_ActorID := ac_UserID actor; ae_Action := action;
         ae_Target := target; ae_Details := details; ae_CreatedAt := wd_now world w;
         ae_TenantID := ac_TenantID actor; ae_UserID := ""; ae_Role := ""; ae_Capability := "";
         ae_Decision := ""; ae_Reason := "" |})).

Definition put_revisions (t : records ContextRevisionRecord) (w : roadmap) : roadmap := w <| rm_revisions := t |>.

Definition recordContextRevisionSnapshot (p : Project) (changeID : string) : RM unit :=
  let key := pretty (pr_CurrentContextRevision p) in
  found ← attempt (readVersionedRecord rm_revisions (pr_ID p) key);
  match found with
  | Ok row =>
      let old := vr_Body row in
      refuse_if (negb (cv_SpecRevision old =? pr_SpecRevision p)
                 || negb (cv_TemplateCopyVersion old =? pr_TemplateCopyVersion p)
                 || negb (bool_decide (cv_Spec old = pr_Spec p))) ErrVersionConflict
  | Err err =>
      _ ← refuse_if (negb (bool_decide (err = ErrNotFound))) err;
      snapshot ← on_tables (wd_provenance world p);
      here (fun w =>
        insertVersionedRecord rm_revisions put_revisions (pr_ID p) key 1
          {| cv_ProjectID := pr_ID p; cv_Revision := pr_CurrentContextRevision p; cv_ChangeSetID := changeID;
             cv_SpecRevision := pr_SpecRevision p; cv_TemplateCopyVersion := pr_TemplateCopyVersion p;
             cv_Spec := pr_Spec p; cv_SpecProvenance := snapshot; cv_CreatedAt := wd_now world w |})
  end.
End Store.
