(* ===== verification/RouteObjects.v ===== *)
(** The objects a route node refers to and their current state
    ([src/internal/lingdoc/workspacecore/{impact_service,semantic_delta}.go]),
    and the deltas of a change set: their validation, and the part of their
    application that writes the roadmap. *)

From stdpp Require Import pretty sorting.
From Stdlib Require Import Ascii String.
From S2P Require Import Prelude Effects OperationCore OperationStore Workspace Permission MemberStore Membership OperationRunner RoadmapModel RoadmapStore.

Section Objects.
Context {X : Type}.
Variable world : World X.

(** *** The current state of an object ([impact_service.go], [semantic_delta.go]) *)

Definition zero_object : ImpactObjectState :=
  {| os_Ref := {| ref_Kind := ""; ref_ID := ""; ref_Version := "" |}; os_State := ""; os_SourceIDs := [];
     os_Confirmed := false; os_ContextRevision := 0 |}.

Definition at_version (ref : ObjectVersionRef) (version : string) : ObjectVersionRef :=
  {| ref_Kind := ref_Kind ref; ref_ID := ref_ID ref; ref_Version := version |}.

Definition current_state (p : Project) (ref : ObjectVersionRef) (version : string) (confirmed : bool) : ImpactObjectState :=
  {| os_Ref := at_version ref version; os_State := "CURRENT"; os_SourceIDs := []; os_Confirmed := confirmed;
     os_ContextRevision := pr_CurrentContextRevision p |}.

(** [readImpactObjectState], the branch of a route node being [route]. *)
Definition object_state (route : ObjectVersionRef -> RM ImpactObjectState) (p : Project) (ref : ObjectVersionRef)
  : RM ImpactObjectState :=
  let kind := ref_Kind ref in
  _ ← refuse_if (negb (validObjectRef ref)) ErrInvalidRequest;
  if (kind =? "ProjectSpec")%string then
    _ ← refuse_if (negb (ref_ID ref =? pr_ID p)%string) ErrNotFound;
    mret (current_state p ref (pretty (pr_SpecRevision p)) (pr_Status p =? "active")%string)
  else if (kind =? "RouteNode")%string then route ref
  else if (kind =? "RouteEdge")%string then
    edge ← Store_RouteEdge world (pr_ID p) (ref_ID ref);
    mret {| os_Ref := at_version ref (pretty (re_Version edge)); os_State := "CURRENT"; os_SourceIDs := [];
            os_Confirmed := true; os_ContextRevision := re_ContextRevision edge |}
  else if (kind =? "TemplateCopy")%string || (kind =? "RuleSet")%string then
    match pr_TemplateCopy p with
    | None => fail ErrNotFound
    | Some copy =>
        _ ← refuse_if (negb (ref_ID ref =? pr_TemplateID p)%string) ErrNotFound;
        mret (if (kind =? "TemplateCopy")%string
              then current_state p ref (pretty (pr_TemplateCopyVersion p)) (tc_Status copy =? "bound")%string
              else current_state p ref (tc_RulesetHash copy) (negb (tc_RulesetHash copy =? "")%string))
    end
  else on_tables (wd_object world p ref).

(** The checks of [currentImpactObject] on a state read. *)
Definition still_current (ref : ObjectVersionRef) (state : ImpactObjectState) : RM ImpactObjectState :=
  _ ← refuse_if (negb (ref_Version (os_Ref state) =? ref_Version ref)%string) ErrVersionConflict;
  _ ← refuse_if (contains ["STALE"; "SUPERSEDED"; "replaced"; "failed"] (os_State state)) ErrInvalidState;
  mret state.

Definition routeInputReviewed (state : ImpactObjectState) (ref : ObjectVersionRef) : bool :=
  when negb (bool_decide (os_Ref state = ref)) return false;
  when (ref_Kind ref =? "ResearchClaim")%string return contains ["active"; "ACTIVE"] (os_State state);
  os_Confirmed state.

(** An input that is no route node; the branch for one is not reached. *)
Definition other_input (p : Project) (ref : ObjectVersionRef) : RM ImpactObjectState :=
  state ← object_state (fun _ => fail ErrImpactObjectUnavailable) p ref;
  still_current ref state.

Definition add_input (state source : ImpactObjectState) (input : ObjectVersionRef) : ImpactObjectState :=
  {| os_Ref := os_Ref state; os_State := os_State state; os_SourceIDs := os_SourceIDs state ++ os_SourceIDs source;
     os_Confirmed := os_Confirmed state && routeInputReviewed source input;
     os_ContextRevision := os_ContextRevision state |}.

Fixpoint resolve_inputs (resolve : ObjectVersionRef -> RM (option ImpactObjectState)) (state : ImpactObjectState)
  (inputs : list ObjectVersionRef) : RM (option ImpactObjectState) :=
  match inputs with
  | [] => mret (Some state)
  | input :: inputs' =>
      source ← resolve input;
      match source with
      | None => mret None
      | Some source => resolve_inputs resolve (add_input state source input) inputs'
      end
  end.

Definition node_state (p : Project) (ref : ObjectVersionRef) (node : RouteNode) : ImpactObjectState :=
  {| os_Ref := at_version ref (pretty (rn_Version node));
     os_State := if (rn_Status node =? "retired")%string then "SUPERSEDED" else "CURRENT";
     os_SourceIDs := [];
     os_Confirmed := (rn_Status node =? "ready")%string && negb (rn_ActorID node =? "")%string
                     && (0 <? rn_ContextRevision node)
                     && (rn_ContextRevision node <=? pr_CurrentContextRevision p);
     os_ContextRevision := rn_ContextRevision node |}.

(** [currentRouteImpactObject]; [seen] holds the ids on the path from the
    first call ([defer delete] takes an id out again when its call returns).
    [None]: the fuel ran out. *)
Fixpoint route_object (fuel : nat) (p : Project) (seen : gset string) (ref : ObjectVersionRef)
  : RM (option ImpactObjectState) :=
  match fuel with
  | O => mret None
  | S fuel' =>
      if decide (ref_ID ref ∈ seen) then fail ErrInvalidState
      else
        node ← routeNodeOf world (pr_ID p) (ref_ID ref);
        resolve_inputs
          (fun input =>
             if (ref_Kind input =? "RouteNode")%string
             then route_object fuel' p ({[ ref_ID ref ]} ∪ seen) input
             else state ← other_input p input; mret (Some state))
          (node_state p ref node) (rn_Inputs node)
  end.

(** One more than the nodes there are. *)
Definition route_fuel (w : roadmap) : nat := S (size (rm_nodes w)).

Definition currentRouteImpactObject (p : Project) (ref : ObjectVersionRef) : RM ImpactObjectState := fun w =>
  match route_object (route_fuel w) p ∅ ref w with
  | (w', Ok (Some state)) => (w', Ok state)
  | (w', Ok None) => (w', Ok zero_object)
  | (w', Err err) => (w', Err err)
  end.

Definition readImpactObjectState (p : Project) (ref : ObjectVersionRef) : RM ImpactObjectState :=
  object_state (currentRouteImpactObject p) p ref.

Definition currentImpactObject (p : Project) (ref : ObjectVersionRef) : RM ImpactObjectState :=
  state ← readImpactObjectState p ref;
  still_current ref state.

(** *** The deltas of a change set ([semantic_delta.go], [evidence_card_delta.go]) *)

Definition some {A} (o : option A) : bool := negb (is_nil o).
Definition nonempty {A} (l : list A) : bool := negb (is_nil (head l)).

(** A proposed route edge is not among the proposals that are counted. *)
Definition validSemanticDelta (delta : SemanticDelta) : bool :=
  let kind := sd_Kind delta in
  when (sd_TargetID delta =? "")%string || (128 <? len (sd_TargetID delta)) || (sd_ExpectedVersion delta <? 0)
  return false;
  let found := [some (sd_ProposedClaim delta); some (sd_ProposedAssetPolicy delta); some (sd_ProposedBinding delta);
                some (sd_ProposedRoute delta); some (sd_ProposedCard delta)] in
  when negb (length (base.filter (fun b => b = true) found) =? 1)%nat return false;
  when (kind =? "EvidenceCard")%string return some (sd_ProposedCard delta) && (0 <? sd_ExpectedVersion delta);
  when (kind =? "ResearchClaim")%string return some (sd_ProposedClaim delta) && (0 <? sd_ExpectedVersion delta);
  when (kind =? "ProjectAssetScope")%string
  return some (sd_ProposedAssetPolicy delta) && (0 <? sd_ExpectedVersion delta);
  when (kind =? "RuleBinding")%string
  return match sd_ProposedBinding delta with
         | Some binding => (bo_RuleID binding =? sd_TargetID delta)%string && (0 <? sd_ExpectedVersion delta)
         | None => false
         end;
  when (kind =? "RouteNode")%string return some (sd_ProposedRoute delta);
  when (kind =? "RouteEdge")%string return some (sd_ProposedEdge delta);
  false.

Definition validateCardClaimBatch (deltas : list SemanticDelta) : option error :=
  let claims := sd_TargetID <$> base.filter (fun delta => sd_Kind delta = "ResearchClaim") deltas in
  when existsb (fun delta => match sd_ProposedCard delta with
                             | Some {| cd_ClaimID := Some id |} => contains claims id
                             | _ => false
                             end) deltas
  return Some ErrSemanticBatchStagingRequired;
  None.

Definition unconfirmed (delta : SemanticDelta) : bool :=
  match sd_ProposedCard delta with Some card => negb (cd_Confirmed card) | None => false end
  || match sd_ProposedClaim delta with Some claim => negb (cl_Confirmed claim) | None => false end.

Fixpoint validate_deltas (deltas : list SemanticDelta) : option error :=
  match deltas with
  | [] => None
  | delta :: deltas' =>
      when unconfirmed delta return Some ErrConsentRequired;
      when negb (validSemanticDelta delta) return Some ErrInvalidRequest;
      validate_deltas deltas'
  end.

(** The key and the values of a changed field. *)
Definition bad_field (entry : string * ChangeFieldInput) : bool :=
  (TrimSpace entry.1 =? "")%string || (100 <? len entry.1)
  || (fi_OldValue entry.2 =? fi_NewValue entry.2)%string || (10000 <? len (fi_NewValue entry.2)).

(** Each removed field and each archive once, and no value for a removed
    field. *)
Fixpoint validate_archived (values : gmap string string) (fields archives : gset string) (refs : list ArchivedFieldReference)
  : option error :=
  match refs with
  | [] => None
  | ref :: refs' =>
      let field := af_FieldID ref in
      let archive := af_ArchiveID ref in
      when (TrimSpace field =? "")%string || (100 <? len field) || (TrimSpace archive =? "")%string || (128 <? len archive)
           || (af_ExpectedArchiveVersion ref <? 1) || bool_decide (field ∈ fields) || bool_decide (archive ∈ archives)
      return Some ErrInvalidRequest;
      when some (values !! field)
      return Some (Wrapped (Error ErrInvalidRequest +:+ ": a removed field cannot also have a migration value") ErrInvalidRequest);
      validate_archived values ({[ field ]} ∪ fields) ({[ archive ]} ∪ archives) refs'
  end.

Definition validateArchivedFieldReferences (refs : list ArchivedFieldReference) (values : gmap string string) : option error :=
  when 100 <? Z.of_nat (length refs) return Some ErrInvalidRequest;
  validate_archived values ∅ ∅ refs.

Definition bad_rule_set (input : TemplateUpgradeInput) : bool :=
  match ui_RuleSetRef input with
  | Some (id, version, hash) =>
      let id := TrimSpace id in
      let version := TrimSpace version in
      (id =? "")%string || (version =? "")%string || (64 <? len id) || (64 <? len version) || negb (len hash =? 64)
  | None => some (ui_RuleBindingOverrides input)
  end.

Definition validate_upgrade (input : TemplateUpgradeInput) : option error :=
  when (ui_ExpectedProjectVersion input <? 1) || (ui_ExpectedTemplateCopyVersion input <? 1) || negb (ui_ListsGiven input)
  return Some ErrInvalidRequest;
  when bad_rule_set input return Some ErrInvalidRequest;
  when existsb (fun '(key, value) => (TrimSpace key =? "")%string || (10000 <? len value)) (map_to_list (ui_FieldValues input))
  return Some ErrInvalidRequest;
  validateArchivedFieldReferences (ui_ArchivedRemovals input) (ui_FieldValues input).

Definition validateChangeSetInput (input : CreateChangeSetInput) : option error :=
  let upgrade := xc_TemplateUpgrade input in
  let chapters := xc_AffectedChapterIDs input in
  let fields := map_to_list (xc_Fields input) in
  when (xc_ExpectedContextRevision input <? 1) || (is_nil upgrade && negb (nonempty fields)) || (some upgrade && nonempty fields)
       || (is_nil upgrade && negb (nonempty chapters)) || (TrimSpace (xc_Reason input) =? "")%string
       || (2000 <? RuneCount (xc_Reason input)) return Some ErrInvalidRequest;
  when existsb (fun id => TrimSpace id =? "")%string chapters || negb (bool_decide (NoDup chapters)) return Some ErrInvalidRequest;
  when existsb bad_field fields return Some ErrInvalidRequest;
  match upgrade with Some upgrade => validate_upgrade upgrade | None => None end.

(** The part of a draft that is checked as a change set without an upgrade. *)
Definition fields_input (input : ExtendedChangeSetInput) : CreateChangeSetInput :=
  {| xc_ExpectedContextRevision := xd_ExpectedContextRevision input; xc_Fields := xd_Fields input;
     xc_AffectedChapterIDs := xd_AffectedChapterIDs input; xc_Reason := xd_Reason input; xc_ReversesChangeSetID := "";
     xc_TemplateUpgrade := None |}.

Definition validateExtendedChangeInput (input : ExtendedChangeSetInput) : option error :=
  let deltas := xd_SemanticDeltas input in
  match validateCardClaimBatch deltas with
  | Some err => Some err
  | None =>
      when (xd_ExpectedContextRevision input <? 1) || (TrimSpace (xd_Reason input) =? "")%string || (2000 <? len (xd_Reason input))
           || (100 <? Z.of_nat (length deltas)) return Some ErrInvalidRequest;
      when negb (nonempty deltas) return validateChangeSetInput (fields_input input);
      match (if nonempty (map_to_list (xd_Fields input)) then validateChangeSetInput (fields_input input) else None) with
      | Some err => Some err
      | None => validate_deltas deltas
      end
  end.

Definition CreateChangeDraft (ctx : Context X) (actor : Actor) (pid key : string) (input : ExtendedChangeSetInput)
  : RM (string * Z) :=
  _ ← returned (validateExtendedChangeInput input);
  wd_draft world ctx actor pid key input.

(** The loop of [ApplySemanticDeltas], its route cases in full. *)
Definition found_or_new {A} (m : RM A) (expected : Z) (new : A) : RM A :=
  found ← attempt m;
  match found with
  | Ok old => mret old
  | Err err => if bool_decide (err = ErrNotFound) && (expected =? 0) then mret new else fail err
  end.

Definition zero_node : RouteNode :=
  {| rn_ID := ""; rn_ProjectID := ""; rn_Version := 0; rn_Name := ""; rn_Inputs := []; rn_Targets := [];
     rn_Required := false; rn_Status := ""; rn_ContextRevision := 0; rn_ActorID := ""; rn_Reason := ""; rn_UpdatedAt := 0 |}.

Definition zero_edge : RouteEdge :=
  {| re_ID := ""; re_ProjectID := ""; re_Version := 0; re_SourceID := ""; re_TargetID := ""; re_Relation := "";
     re_EdgeStatus := ""; re_ContextRevision := 0; re_ActorID := ""; re_Reason := ""; re_UpdatedAt := 0 |}.

Fixpoint rm_each {A} (l : list A) (f : A -> RM unit) : RM unit :=
  match l with
  | [] => mret tt
  | a :: l' => _ ← f a; rm_each l' f
  end.

Definition apply_route_node (actor : Actor) (before next : Project) (reason : string) (delta : SemanticDelta) : RM unit :=
  let pid := pr_ID before in
  let id := sd_TargetID delta in
  old ← found_or_new (routeNodeOf world pid id) (sd_ExpectedVersion delta)
          (zero_node <| rn_ID := id |> <| rn_ProjectID := pid |>);
  match sd_ProposedRoute delta with
  | None => fail nil_dereference
  | Some proposed => here (fun w =>
      let node :=
        {| rn_ID := id; rn_ProjectID := pid; rn_Version := rn_Version old +i 1; rn_Name := rn_Name proposed;
           rn_Inputs := rn_Inputs proposed; rn_Targets := rn_Targets proposed;
           rn_Required := rn_Required proposed || wd_required world before id; rn_Status := rn_Status proposed;
           rn_ContextRevision := pr_CurrentContextRevision next; rn_ActorID := ac_UserID actor;
           rn_Reason := reason; rn_UpdatedAt := wd_now world w |} in
      (_ ← AppendRouteNode world old node;
       rm_each (rn_Inputs node) (fun ref =>
         StoreConfirmedDependency world
           {| de_ID := ""; de_ProjectID := pid; de_Source := ref;
              de_Target := {| ref_Kind := "RouteNode"; ref_ID := id; ref_Version := pretty (rn_Version node) |};
              de_Relation := "route_input"; de_Action := "REVIEW_REQUIRED"; de_Origin := "user"; de_Reason := reason;
              de_Status := ""; de_SupersededRelation := ""; de_SupersededAction := ""; de_Confidence := float_zero; de_ActorID := ac_UserID actor; de_Version := 0; de_CreatedAt := 0;
              de_UpdatedAt := 0 |})))
  end.

Definition apply_route_edge (actor : Actor) (before next : Project) (reason : string) (delta : SemanticDelta) : RM unit :=
  let pid := pr_ID before in
  let id := sd_TargetID delta in
  old ← found_or_new (Store_RouteEdge world pid id) (sd_ExpectedVersion delta)
          (zero_edge <| re_ID := id |> <| re_ProjectID := pid |>);
  match sd_ProposedEdge delta with
  | None => fail nil_dereference
  | Some proposed => here (fun w =>
      InsertRouteEdge world
        {| re_ID := id; re_ProjectID := pid; re_Version := re_Version old +i 1; re_SourceID := re_SourceID proposed;
           re_TargetID := re_TargetID proposed; re_Relation := re_Relation proposed;
           re_EdgeStatus := re_EdgeStatus proposed; re_ContextRevision := pr_CurrentContextRevision next;
           re_ActorID := ac_UserID actor; re_Reason := reason; re_UpdatedAt := wd_now world w |})
  end.

Definition apply_delta (actor : Actor) (before next : Project) (reason : string) (delta : SemanticDelta) : RM unit :=
  _ ← (if (sd_Kind delta =? "RouteNode")%string then apply_route_node actor before next reason delta
       else if (sd_Kind delta =? "RouteEdge")%string then apply_route_edge actor before next reason delta
       else on_tables (wd_apply world actor before next reason delta));
  recordAuditEvent world actor (pr_ID before) "semantic.apply" (sd_TargetID delta)
    {[ "kind" := sd_Kind delta; "before_hash" := sd_BeforeHash delta;
       "target_context_revision" := pretty (pr_CurrentContextRevision next) ]}.

Definition apply_deltas (actor : Actor) (before next : Project) (reason : string) (deltas : list SemanticDelta) : RM unit :=
  rm_each deltas (apply_delta actor before next reason).
End Objects.
