(* ===== verification/Templates.v ===== *)
(** The fields a template defines, the values they take, and the specification
    of a project after an upgrade of its template
    ([templateFieldDefinitions], [compatibleTemplateValue] and
    [templateSpecAfterUpgrade] of
    [src/internal/lingdoc/workspacecore/service_facade.go], and
    [change_template_fields.go]). *)

From stdpp Require Import pretty sorting.
From Stdlib Require Import Ascii String SpecFloat.
From S2P Require Import Prelude Effects OperationCore OperationStore Workspace Permission MemberStore Membership OperationRunner RoadmapModel RoadmapStore RouteObjects.

Record TemplateField := { tf_ID : string; tf_Type : string; tf_Required : bool; tf_Options : list string }.

(** What a definition's text and a literal read as: the fields and required
    fields of a template, [strconv.ParseFloat] (None: an error) and
    [big.Rat.SetString] with [IsInt]. *)
Record TemplateReader := {
  tr_Definition : string -> list TemplateField * list string;
  tr_ParseFloat : string -> option float64;
  tr_IsInt : string -> bool
}.

(** ** Literals *)

(** [strings.TrimPrefix] *)
Definition TrimPrefix (s prefix : string) : string := default s (strip_prefix prefix s).

(** [s[:strings.IndexAny(s, chars)]], or [s] *)
Fixpoint before_any (chars : list ascii) (s : string) : string :=
  match s with
  | EmptyString => EmptyString
  | String c s' => if bool_decide (c ∈ chars) then EmptyString else String c (before_any chars s')
  end.

(** [strings.Trim(s, chars) == ""] *)
Fixpoint all_of (chars : list ascii) (s : string) : bool :=
  match s with
  | EmptyString => true
  | String c s' => bool_decide (c ∈ chars) && all_of chars s'
  end.

Definition drop2 (s : string) : string :=
  match s with String _ (String _ s') => s' | _ => "" end.

(** The digits of a literal that was read, without sign and exponent. *)
Definition mantissa_of (value : string) : string :=
  let mantissa := TrimPrefix (TrimPrefix value "+") "-" in
  if HasPrefix (ToLower mantissa) "0x" then before_any ["p"; "P"]%char (drop2 mantissa) else before_any ["e"; "E"]%char mantissa.

(** [math.Trunc(f) == f] *)
Definition whole (f : float64) : bool :=
  match f with
  | S754_zero _ => true
  | S754_finite _ m e => (0 <=? e) || (Z.pos m mod 2 ^ (- e) =? 0)
  | _ => false
  end.

Definition finite (f : float64) : bool := match f with S754_zero _ | S754_finite _ _ _ => true | _ => false end.
Definition is_zero (f : float64) : bool := match f with S754_zero _ => true | _ => false end.

(** [strconv.ParseBool] *)
Definition bool_literals : list string :=
  ["1"; "t"; "T"; "TRUE"; "true"; "True"; "0"; "f"; "F"; "FALSE"; "false"; "False"].

Section Templates.
Variable reader : TemplateReader.

Definition is_integer (value : string) (parsed : float64) : bool :=
  when negb (whole parsed) return false;
  when is_zero parsed return all_of ["0"; "."; "_"]%char (mantissa_of value);
  tr_IsInt reader value.

Definition compatibleTemplateValue (value : string) (field : TemplateField) : bool :=
  let kind := tf_Type field in
  when (TrimSpace value =? "")%string return negb (tf_Required field);
  when contains [""; "string"; "text"] kind return true;
  when contains ["number"; "integer"] kind
  return match tr_ParseFloat reader value with
         | Some parsed => finite parsed && ((kind =? "number")%string || is_integer value parsed)
         | None => false
         end;
  when (kind =? "boolean")%string return contains bool_literals value;
  when (kind =? "enum")%string return contains (tf_Options field) value;
  false.

(** ** Fields *)

Definition require (fields : gmap string TemplateField) (id : string) : gmap string TemplateField :=
  let field := default {| tf_ID := ""; tf_Type := ""; tf_Required := false; tf_Options := [] |} (fields !! id) in
  <[id := {| tf_ID := id; tf_Type := if (tf_Type field =? "")%string then "string" else tf_Type field; tf_Required := true;
             tf_Options := tf_Options field |}]> fields.

Definition templateFieldDefinitions (definition : string) : gmap string TemplateField :=
  let '(fields, required) := tr_Definition reader definition in
  foldl require (foldl (fun m field => <[tf_ID field := field]> m) ∅ fields) required.

(** The text of a refusal, without the name of the field it quotes: which of
    several it is follows the order of a map. *)
Definition invalid_field (message : string) : error := Wrapped (Error ErrInvalidRequest +:+ ": " +:+ message) ErrInvalidRequest.

Definition incompatible (fields : gmap string TemplateField) (entry : string * string) : bool :=
  match fields !! entry.1 with Some field => negb (compatibleTemplateValue entry.2 field) | None => false end.

Definition unfilled (next : gmap string string) (entry : string * TemplateField) : bool :=
  tf_Required entry.2 && (TrimSpace (default "" (next !! entry.1)) =? "")%string.

Definition templateSpecAfterUpgrade (spec : gmap string string) (definition : string) (values : gmap string string)
  : res error (gmap string string) :=
  let fields := templateFieldDefinitions definition in
  when existsb (fun entry => is_nil (fields !! entry.1) || incompatible fields entry) (map_to_list values)
  return Err (invalid_field "invalid template field migration");
  let next := values ∪ spec in
  when existsb (incompatible fields) (map_to_list next)
  return Err (invalid_field "template field requires an explicit compatible migration");
  when existsb (unfilled next) (map_to_list fields)
  return Err (invalid_field "required template field has no value");
  Ok next.

(** ** The fields of a change set ([change_template_fields.go]) *)

Fixpoint changed_values (p : Project) (fields : list ChangeFieldDelta) (values : gmap string string) : res error (gmap string string) :=
  match fields with
  | [] => Ok values
  | field :: fields' =>
      when is_nil (pr_Spec p !! fd_Key field)
      return Err (invalid_field "changed field is absent from the current project spec");
      when some (values !! fd_Key field)
      return Err (invalid_field "duplicate changed field");
      changed_values p fields' (<[fd_Key field := fd_NewValue field]> values)
  end.

Definition validateChangeTemplateFields (p : Project) (fields : list ChangeFieldDelta) : option error :=
  when negb (nonempty fields) return None;
  match pr_TemplateCopy p with
  | Some copy =>
      when negb (tc_Status copy =? "bound")%string return Some ErrInvalidState;
      match (values ← changed_values p fields ∅; templateSpecAfterUpgrade (pr_Spec p) (tc_Definition copy) values) with
      | Ok _ => None
      | Err err => Some err
      end
  | None => Some ErrInvalidState
  end.

(** The changes of an input, in the order of their keys. *)
Definition field_deltas (fields : gmap string ChangeFieldInput) : list ChangeFieldDelta :=
  omap (fun key => (fun field => {| fd_Key := key; fd_OldValue := fi_OldValue field; fd_NewValue := fi_NewValue field |}) <$> fields !! key)
    (merge_sort string_le (elements (dom fields))).

Definition validateChangeTemplateInput (p : Project) (fields : gmap string ChangeFieldInput) : option error :=
  validateChangeTemplateFields p (field_deltas fields).
End Templates.
