(* ===== verification/Roadmap.v ===== *)
(** The roadmap's operations
    ([src/internal/lingdoc/workspacecore/roadmap_service.go]): the editing
    session from its begin to its commit or cancel, the two commit paths, and
    the reads.

    A write is run by the workspace's own pipeline: [lift_request] is the
    request of [OperationRunner] on the store that also has the roadmap's
    tables, every seam but the business write acting on the workspace's. *)

From stdpp Require Import pretty sorting.
From S2P Require Import Prelude Effects OperationCore OperationStore OperationTheorems Workspace Permission MemberStore Membership OperationRunner RoadmapModel RoadmapStore RouteObjects.

(** ** The pipeline on the larger store *)

(** The source decoder of an operation: of the stored result, and of whether
    there is one. *)
Abbreviation source_decoder := (Result -> bool -> RM (list string)).

Section Lift.
Context {X V : Type}.

Definition lift_ledger (ledger : LedgerOps Actor tables) : LedgerOps Actor roadmap :=
  {| Lookup := fun id => on_tables (Lookup ledger id);
     Save := fun id result => on_tables (Save ledger id result) |}.

(** [sources]: the source decoder of the operation, when it has one. *)
Definition lift_request (request : OperationRequest Actor tables Project V X) (sources : option source_decoder)
  (transaction : Context X -> Options -> M (roadmap * Locals Project) error unit -> M (roadmap * Locals Project) error unit)
  (write : Project -> RM (V * string * Z)) : OperationRequest Actor roadmap Project V X := {|
  op_Identity := op_Identity request;
  op_Authorization := op_Authorization request;
  op_Body := op_Body request;
  op_Output := op_Output request;
  op_SourceSensitive := match sources with Some _ => true | None => false end;
  op_HumanGate := op_HumanGate request;
  op_Errors := op_Errors request;
  op_Transaction := transaction;
  op_ValidActor := op_ValidActor request;
  op_AuditWriteFailed := op_AuditWriteFailed request;
  op_Ledger := ledger ← on_tables (op_Ledger request); mret (lift_ledger ledger);
  op_AuthorizeTenant := fun ctx au => on_tables (op_AuthorizeTenant request ctx au);
  op_AuthorizeProject := fun ctx au => on_tables (op_AuthorizeProject request ctx au);
  op_RecordAudit := fun ctx p c e => on_tables (op_RecordAudit request ctx p c e);
  op_CheckSources := (fun f ctx p l => on_tables (f ctx p l)) <$> op_CheckSources request;
  op_SourceIDs := Some (fun previous found => match sources with Some decode => decode previous found | None => mret [] end);
  op_PrepareCached := (fun f ctx i b => on_tables (f ctx i b)) <$> op_PrepareCached request;
  op_Prepare := (fun f ctx i b => on_tables (f ctx i b)) <$> op_Prepare request;
  op_RequireInverseCaller := op_RequireInverseCaller request;
  op_Validate := (fun f ctx p => on_tables (f ctx p)) <$> op_Validate request;
  op_CheckProject := op_CheckProject request;
  op_StorePins := (fun f ctx p => on_tables (f ctx p)) <$> op_StorePins request;
  op_Write := fun _ => write;
  op_StoreReverseSources := (fun f ctx v => on_tables (f ctx v)) <$> op_StoreReverseSources request;
  op_StoreProvenance := (fun f ctx i r v => on_tables (f ctx i r v)) <$> op_StoreProvenance request;
  op_Project := fun ctx o p b => on_tables (op_Project request ctx o p b);
  op_RuntimeGate := (fun f ctx p o => on_tables (f ctx p o)) <$> op_RuntimeGate request;
  op_AfterWrite := (fun f ctx p i o t s v => on_tables (f ctx p i o t s v)) <$> op_AfterWrite request;
  op_ObserveFailure := (fun f ctx p o e => on_tables (f ctx p o e)) <$> op_ObserveFailure request;
  op_Basis := op_Basis request
|}.
End Lift.

Section Roadmap.
Context {X : Type} `{Digester roadmap_any}.
Variable world : World X.
Abbreviation service := (wd_service world).
Abbreviation db := (sv_db (wd_service world)).

Definition write_authorization (actor : Actor) (pid : string) : AuthorizationRequest := project_request actor pid "write".

Definition roadmap_request (check : option (Project -> option error)) (actor : Actor) (name target key : string) (body : roadmap_any)
  (request : AuthorizationRequest) (sources : option source_decoder) (write : Project -> RM (roadmap_any * string * Z))
  : OperationRequest Actor roadmap Project roadmap_any X :=
  lift_request
    ((pipeline_request service actor name target key body request (fun _ => fail ErrInvalidState)) <| op_CheckProject := check |>)
    sources
    (workspace_transaction (wd_transaction world (Locals Project)) (sv_clock service))
    write.

(** [runOperation] of an operation that checks its project first. *)
Definition run_checked (check : option (Project -> option error)) (ctx : Context X) (actor : Actor) (name target key : string)
  (body : roadmap_any) (request : AuthorizationRequest) (sources : option source_decoder)
  (write : Project -> RM (roadmap_any * string * Z)) : RM (string * Z * bool) := fun w =>
  let '(w, r) := run_request (roadmap_request check actor name target key body request sources write) ctx w in
  ((on_tables (sv_emit service ctx) w).1, r).

(** [runOperation] of an [operationInput] or, with a decoder, of a
    [sourceOperationInput]. *)
Definition run_operation (ctx : Context X) (actor : Actor) (name target key : string) (body : roadmap_any)
  (request : AuthorizationRequest) (sources : option source_decoder)
  (write : Project -> RM (roadmap_any * string * Z)) : RM (string * Z * bool) :=
  run_checked None ctx actor name target key body request sources write.

Definition runOperation (ctx : Context X) (actor : Actor) (pid name target key : string) (body : roadmap_any)
  (write : Project -> RM (roadmap_any * string * Z)) : RM (string * Z * bool) :=
  run_operation ctx actor name target key body (write_authorization actor pid) None write.

(** A transaction whose closure assigns the variable it answers with. *)
Definition transaction {A} (zero : A) (options : TransactionOptions) (body : RM A) : RM A := fun w =>
  let '((w', a), r) :=
    GORMRepository_Transaction (wd_transaction world A) (sv_clock service) options
      (a ← on_store body; assign (fun _ => a)) (w, zero) in
  (w', match r with Ok _ => Ok a | Err err => Err err end).

Definition RequireHuman (ctx : Context X) : RM unit :=
  returned (RequireHumanDecision ctx ErrHumanDecisionRequired).

Definition blank (s : string) : bool := (TrimSpace s =? "")%string.
Definition bad_reason (reason : string) : bool := blank reason || (2000 <? len reason).

(** ** The frozen roadmap a session is bound to *)

Definition roadmapVersionOf (sessions : list RoadmapEditSession) : Z :=
  foldl (fun version session =>
           if (es_Status session =? RoadmapEditSessionCommitted)%string then version +i 1 else version) 0 sessions.

Definition state_current := "current".
Definition state_pending_review := "pending_review".
Definition state_stale := "stale".
Definition state_retired := "retired".

Definition unreadable (ref : ObjectVersionRef) : string :=
  "引用的 " +:+ ref_Kind ref +:+ "/" +:+ ref_ID ref +:+ " 当前不可读".
Definition moved (ref : ObjectVersionRef) (version : string) : string :=
  "引用的 " +:+ ref_Kind ref +:+ "/" +:+ ref_ID ref +:+ " 已从 v" +:+ ref_Version ref +:+ " 变为 v" +:+ version.

Fixpoint inputs_state (p : Project) (inputs : list ObjectVersionRef) : RM (string * string) :=
  match inputs with
  | [] => mret (state_current, "")
  | ref :: inputs' =>
      state ← attempt (currentImpactObject world p ref);
      match state with
      | Err _ => mret (state_stale, unreadable ref)
      | Ok state =>
          when negb (ref_Version (os_Ref state) =? ref_Version ref)%string
          return mret (state_stale, moved ref (ref_Version (os_Ref state)));
          inputs_state p inputs'
      end
  end.

Definition roadmapNodeState (p : Project) (node : RouteNode) : RM (string * string) :=
  when (rn_Status node =? "retired")%string return mret (state_retired, "节点已退出路线");
  when negb (rn_Status node =? "ready")%string return mret (state_pending_review, "节点尚未复核");
  inputs_state p (rn_Inputs node).

Fixpoint rm_traverse {A B} (f : A -> RM B) (l : list A) : RM (list B) :=
  match l with
  | [] => mret []
  | a :: l' => b ← f a; bs ← rm_traverse f l'; mret (b :: bs)
  end.

Definition node_view (p : Project) (node : RouteNode) (state : string * string) : RoadmapNodeView :=
  {| nv_Node := node <| rn_Required := wd_required world p (rn_ID node) |>;
     nv_State := state.1; nv_StateReason := state.2; nv_Frozen := true |}.

Definition roadmapNodeViews (p : Project) (nodes : list RouteNode) : RM (list RoadmapNodeView) :=
  rm_traverse (fun node => state ← roadmapNodeState p node; mret (node_view p node state)) nodes.

Definition roadmapBaselineOf (p : Project) (version : Z) : RM RoadmapBaseline :=
  nodes ← routeNodesOf world (pr_ID p);
  edges ← RouteEdges world (pr_ID p);
  views ← roadmapNodeViews p nodes;
  mret {| rb_Version := version; rb_ContextRevision := pr_CurrentContextRevision p; rb_Nodes := views; rb_Edges := edges |}.

(** The map from id to version a loop over the baseline builds. *)
Definition node_versions (nodes : list RoadmapNodeView) : gmap string Z :=
  foldl (fun m view => <[rn_ID (nv_Node view) := rn_Version (nv_Node view)]> m) ∅ nodes.
Definition edge_versions (edges : list RouteEdge) : gmap string Z :=
  foldl (fun m edge => <[re_ID edge := re_Version edge]> m) ∅ edges.

Definition verifyRoadmapBaseline (p : Project) (session : RoadmapEditSession) : RM unit :=
  let baseline := es_Baseline session in
  current ← roadmapBaselineOf p (rb_Version baseline);
  let base := node_versions (rb_Nodes baseline) in
  let baseEdges := edge_versions (rb_Edges baseline) in
  _ ← refuse_if (negb (rb_ContextRevision current =? rb_ContextRevision baseline)) ErrVersionConflict;
  _ ← refuse_if (negb (forallb (fun view =>
        bool_decide (base !! rn_ID (nv_Node view) = Some (rn_Version (nv_Node view)))) (rb_Nodes current)))
        ErrVersionConflict;
  refuse_if (negb (forallb (fun edge => bool_decide (baseEdges !! re_ID edge = Some (re_Version edge))) (rb_Edges current)))
    ErrVersionConflict.

(** ** Proposals *)

(** [err == nil], [err == ErrNotFound], any other error. *)
Definition if_found {A} (m : RM A) : RM (option A) :=
  found ← attempt m;
  match found with
  | Ok a => mret (Some a)
  | Err err => if decide (err = ErrNotFound) then mret None else fail err
  end.

Definition bad_text (name status : string) : bool :=
  blank name || (240 <? len name) || negb (contains RoadmapNodeStatuses status).

Definition buildRoadmapNodeProposal (p : Project) (input : RoadmapNodeProposalInput) : RM RoadmapNodeProposal :=
  let id := ni_NodeID input in
  let kind := ni_Kind input in
  _ ← refuse_if (blank id || (128 <? len id) || bad_reason (ni_Reason input)) ErrInvalidRequest;
  _ ← refuse_if (negb (contains proposal_kinds kind)) ErrInvalidRequest;
  let required := wd_required world p id in
  _ ← refuse_if (match ni_Required input with Some stated => negb (Bool.eqb stated required) | None => false end)
        ErrInvalidRequest;
  found ← if_found (routeNodeOf world (pr_ID p) id);
  let proposal name status inputs targets version :=
    {| np_NodeID := id; np_Kind := kind; np_Name := name; np_Status := status; np_Inputs := inputs;
       np_Targets := targets; np_Reason := ni_Reason input; np_TemporaryVersion := version |} in
  if (kind =? "add")%string then
    _ ← refuse_if (negb (is_nil found)) ErrInvalidState;
    _ ← refuse_if (bad_text (ni_Name input) (ni_Status input)) ErrInvalidRequest;
    mret (proposal (ni_Name input) (ni_Status input) (ni_Inputs input) (ni_Targets input) 1)
  else
    match found with
    | None => fail ErrNotFound
    | Some current =>
        if (kind =? "update")%string then
          _ ← refuse_if (bad_text (ni_Name input) (ni_Status input)) ErrInvalidRequest;
          _ ← refuse_if ((100 <? Z.of_nat (length (ni_Inputs input))) || (100 <? Z.of_nat (length (ni_Targets input))))
                ErrInvalidRequest;
          _ ← refuse_if (existsb (fun ref => negb (validObjectRef ref)
                                             || (ref_Kind ref =? "RouteNode")%string && (ref_ID ref =? id)%string)
                           (ni_Inputs input ++ ni_Targets input)) ErrInvalidRequest;
          mret (proposal (ni_Name input) (ni_Status input) (ni_Inputs input) (ni_Targets input) (rn_Version current +i 1))
        else
          _ ← refuse_if required ErrInvalidState;
          mret (proposal (rn_Name current) "retired" [] [] (rn_Version current +i 1))
    end.

Definition endpoint (p : Project) (id : string) : RM unit :=
  if (id =? "")%string then mret tt else _ ← routeNodeOf world (pr_ID p) id; mret tt.

Definition buildRoadmapEdgeProposal (p : Project) (input : RoadmapEdgeProposalInput) : RM RoadmapEdgeProposal :=
  let id := ei_EdgeID input in
  let kind := ei_Kind input in
  _ ← refuse_if (blank id || (128 <? len id) || bad_reason (ei_Reason input)) ErrInvalidRequest;
  _ ← refuse_if (negb (contains proposal_kinds kind)) ErrInvalidRequest;
  found ← if_found (Store_RouteEdge world (pr_ID p) id);
  let proposal source target relation version :=
    {| ep_EdgeID := id; ep_Kind := kind; ep_SourceID := source; ep_TargetID := target; ep_Relation := relation;
       ep_Reason := ei_Reason input; ep_TemporaryVersion := version |} in
  proposal ←
    (if (kind =? "add")%string then
       _ ← refuse_if (negb (is_nil found)) ErrInvalidState;
       _ ← refuse_if (blank (ei_SourceID input) || blank (ei_TargetID input)
                      || (ei_SourceID input =? ei_TargetID input)%string || blank (ei_Relation input)
                      || (64 <? len (ei_Relation input))) ErrInvalidRequest;
       mret (proposal (ei_SourceID input) (ei_TargetID input) (ei_Relation input) 1)
     else
       match found with
       | None => fail ErrNotFound
       | Some current =>
           mret (proposal (re_SourceID current) (re_TargetID current) (re_Relation current) (re_Version current +i 1))
       end);
  _ ← endpoint p (ep_SourceID proposal);
  _ ← endpoint p (ep_TargetID proposal);
  mret proposal.

Definition replaceRoadmapNodeProposal (proposals : list RoadmapNodeProposal) (proposal : RoadmapNodeProposal)
  : list RoadmapNodeProposal :=
  base.filter (fun existing => np_NodeID existing <> np_NodeID proposal) proposals ++ [proposal].

Definition replaceRoadmapEdgeProposal (proposals : list RoadmapEdgeProposal) (proposal : RoadmapEdgeProposal)
  : list RoadmapEdgeProposal :=
  base.filter (fun existing => ep_EdgeID existing <> ep_EdgeID proposal) proposals ++ [proposal].

(** ** The editing session *)

Definition session_audit (actor : Actor) (pid action id : string) (details : gmap string string) : RM unit :=
  recordAuditEvent world actor pid ("roadmap.edit." +:+ action) id details.

Definition begin_write (actor : Actor) (pid : string) (input : RoadmapEditBeginInput) (p : Project)
  : RM RoadmapEditSession :=
  _ ← refuse_if (negb (pr_Status p =? "active")%string
                 || negb (pr_CurrentContextRevision p =? bi_ExpectedContextRevision input)) ErrVersionConflict;
  sessions ← RoadmapSessions world pid;
  _ ← refuse_if (existsb is_open sessions) ErrInvalidState;
  baseline ← roadmapBaselineOf p (roadmapVersionOf sessions);
  session ← here (fun w =>
    mret {| es_ID := wd_uuid world w; es_ProjectID := pid; es_Status := RoadmapEditSessionOpen; es_Baseline := baseline;
            es_NodeProposals := []; es_EdgeProposals := []; es_Result := None; es_ActorID := ac_UserID actor;
            es_Reason := bi_Reason input; es_CreatedAt := wd_now world w; es_UpdatedAt := wd_now world w |});
  _ ← InsertRoadmapSession world session;
  _ ← session_audit actor pid "begin" (es_ID session)
        {[ "baseline_version" := pretty (rb_Version baseline);
           "context_revision" := pretty (rb_ContextRevision baseline); "reason" := bi_Reason input ]};
  mret session.

Definition BeginRoadmapEdit (ctx : Context X) (actor : Actor) (pid key : string) (input : RoadmapEditBeginInput)
  : RM (string * Z * bool) :=
  when (bi_ExpectedContextRevision input <? 1) || bad_reason (bi_Reason input) return fail ErrInvalidRequest;
  _ ← RequireHuman ctx;
  runOperation ctx actor pid "beginRoadmapEdit" pid key (AnyBegin input) (fun p =>
    session ← begin_write actor pid input p;
    mret (AnySession session, "", OperationStatusCreated)).

(** The session a write is about, which must be open. *)
Definition open_session_of (pid id : string) : RM RoadmapEditSession :=
  session ← Store_RoadmapSession world pid id;
  _ ← refuse_if (negb (is_open session)) ErrInvalidState;
  mret session.

Definition save_session (session next : RoadmapEditSession) : RM RoadmapEditSession :=
  next ← here (fun w => mret (next <| es_UpdatedAt := wd_now world w |>));
  _ ← UpdateRoadmapSession world session next;
  mret next.

Definition propose_node_write (actor : Actor) (pid id : string) (input : RoadmapNodeProposalInput) (p : Project)
  : RM RoadmapEditSession :=
  session ← open_session_of pid id;
  proposal ← buildRoadmapNodeProposal p input;
  next ← save_session session
           (session <| es_NodeProposals := replaceRoadmapNodeProposal (es_NodeProposals session) proposal |>);
  _ ← session_audit actor pid "propose.node" (es_ID session)
        {[ "node_id" := np_NodeID proposal; "kind" := np_Kind proposal;
           "temporary_version" := pretty (np_TemporaryVersion proposal) ]};
  mret next.

Definition ProposeRoadmapNode (ctx : Context X) (actor : Actor) (pid id key : string) (input : RoadmapNodeProposalInput)
  : RM (string * Z * bool) :=
  _ ← RequireHuman ctx;
  runOperation ctx actor pid "proposeRoadmapNode" (pid +:+ "/" +:+ id) key (AnyNodeProposal input) (fun p =>
    session ← propose_node_write actor pid id input p;
    mret (AnySession session, "", OperationStatusOK)).

Definition propose_edge_write (actor : Actor) (pid id : string) (input : RoadmapEdgeProposalInput) (p : Project)
  : RM RoadmapEditSession :=
  session ← open_session_of pid id;
  proposal ← buildRoadmapEdgeProposal p input;
  next ← save_session session
           (session <| es_EdgeProposals := replaceRoadmapEdgeProposal (es_EdgeProposals session) proposal |>);
  _ ← session_audit actor pid "propose.edge" (es_ID session)
        {[ "edge_id" := ep_EdgeID proposal; "kind" := ep_Kind proposal;
           "temporary_version" := pretty (ep_TemporaryVersion proposal) ]};
  mret next.

Definition ProposeRoadmapEdge (ctx : Context X) (actor : Actor) (pid id key : string) (input : RoadmapEdgeProposalInput)
  : RM (string * Z * bool) :=
  _ ← RequireHuman ctx;
  runOperation ctx actor pid "proposeRoadmapEdge" (pid +:+ "/" +:+ id) key (AnyEdgeProposal input) (fun p =>
    session ← propose_edge_write actor pid id input p;
    mret (AnySession session, "", OperationStatusOK)).

(** ** The two commit paths *)

Definition routeNodeInputIDs (refs : list ObjectVersionRef) : list string :=
  ref_ID <$> base.filter (fun ref => ref_Kind ref = "RouteNode") refs.

(** [strings.Join(ids, ",")] *)
Definition join (ids : list string) : string := String.concat "," ids.

Definition sameRouteNodePrerequisites (before after : list ObjectVersionRef) : bool :=
  let beforeIDs := routeNodeInputIDs before in
  let afterIDs := routeNodeInputIDs after in
  when negb (length beforeIDs =? length afterIDs)%nat return false;
  (join (merge_sort string_le beforeIDs) =? join (merge_sort string_le afterIDs))%string.

Definition route_delta (id : string) (expected : Z) (route : option RouteNode) (edge : option RouteEdge) : SemanticDelta :=
  {| sd_Kind := if is_nil edge then "RouteNode" else "RouteEdge"; sd_TargetID := id; sd_ExpectedVersion := expected;
     sd_BeforeHash := ""; sd_Before := ""; sd_ProvenanceHash := ""; sd_SourceIDs := []; sd_ProposedCard := None; sd_ProposedClaim := None; sd_ProposedAssetPolicy := None;
     sd_ProposedBinding := None; sd_ProposedRoute := route; sd_ProposedEdge := edge |}.

Definition proposed_node (p : Project) (id name status : string) (inputs targets : list ObjectVersionRef)
  (required : bool) : RouteNode :=
  zero_node <| rn_ID := id |> <| rn_ProjectID := pr_ID p |> <| rn_Name := name |> <| rn_Status := status |>
            <| rn_Inputs := inputs |> <| rn_Targets := targets |> <| rn_Required := required |>.

Definition plan_node (p : Project) (proposal : RoadmapNodeProposal) : RM (bool * list SemanticDelta) :=
  let id := np_NodeID proposal in
  let kind := np_Kind proposal in
  let written := proposed_node p id (np_Name proposal) (np_Status proposal) (np_Inputs proposal) (np_Targets proposal)
                   (wd_required world p id) in
  found ← attempt (routeNodeOf world (pr_ID p) id);
  current ← match found with
            | Ok current => mret current
            | Err err =>
                if (kind =? "add")%string && bool_decide (err = ErrNotFound)
                then mret (zero_node <| rn_ID := id |> <| rn_ProjectID := pr_ID p |>) else fail err
            end;
  mret (if (kind =? "add")%string then (true, [route_delta id 0 (Some written) None])
        else if (kind =? "delete")%string then
          (true, [route_delta id (rn_Version current)
                    (Some (proposed_node p id (rn_Name current) "retired" [] [] false)) None])
        else if (kind =? "update")%string then
          (negb (sameRouteNodePrerequisites (rn_Inputs current) (np_Inputs proposal)),
           [route_delta id (rn_Version current) (Some written) None])
        else (false, [])).

Definition plan_edge (p : Project) (proposal : RoadmapEdgeProposal) : RM (list SemanticDelta) :=
  let id := ep_EdgeID proposal in
  let kind := ep_Kind proposal in
  expected ← (if (kind =? "add")%string then mret 0
              else current ← Store_RouteEdge world (pr_ID p) id; mret (re_Version current) : RM Z);
  mret [route_delta id expected None (Some
    {| re_ID := id; re_ProjectID := pr_ID p; re_Version := 0; re_SourceID := ep_SourceID proposal;
       re_TargetID := ep_TargetID proposal; re_Relation := ep_Relation proposal;
       re_EdgeStatus := if (kind =? "delete")%string then RouteEdgeStatusRetired else RouteEdgeStatusActive;
       re_ContextRevision := 0; re_ActorID := ""; re_Reason := ""; re_UpdatedAt := 0 |})].

Definition roadmapCommitPlan (p : Project) (session : RoadmapEditSession) : RM (bool * list SemanticDelta) :=
  nodes ← rm_traverse (plan_node p) (es_NodeProposals session);
  edges ← rm_traverse (plan_edge p) (es_EdgeProposals session);
  mret (negb (is_nil (head (es_EdgeProposals session))) || existsb fst nodes, mjoin nodes.*2 ++ mjoin edges).

Definition roadmap_change (session : RoadmapEditSession) : string := "roadmap-" +:+ es_ID session.

Definition roadmap_task (p : Project) (session : RoadmapEditSession) (next : RouteNode) (now : Z) (edge : DependencyEdge)
  : ImpactTask :=
  let task :=
    {| it_ID := ""; it_ProjectID := pr_ID p; it_ChangeSetID := roadmap_change session; it_Target := de_Target edge;
       it_TargetRevision := pr_CurrentContextRevision p; it_Action := "REVIEW_REQUIRED";
       it_Severity := DeriveImpactSeverity "REVIEW_REQUIRED"; it_ResponsibilityDomain := "B"; it_AssigneeID := "";
       it_Status := "OPEN";
       it_Causes := [{| ic_EdgeID := de_ID edge; ic_Source := de_Source edge;
                        ic_Reason := "路线图节点版本推进到 v" +:+ pretty (rn_Version next) |}];
       it_Attachments := ""; it_Version := 1; it_Disposition := ""; it_HumanDecision := ""; it_ClosureEvidence := [];
       it_StaleReason := ""; it_StaleAt := 0; it_CreatedAt := now; it_UpdatedAt := now |} in
  task <| it_ID := impactTaskID world (pr_ID p) (ImpactTaskIdentity task) |>.

Definition node_ref (node : RouteNode) : ObjectVersionRef :=
  {| ref_Kind := "RouteNode"; ref_ID := rn_ID node; ref_Version := pretty (rn_Version node) |}.

Definition createRoadmapImpactTasks (p : Project) (session : RoadmapEditSession) (old next : RouteNode) : RM unit :=
  edges ← DependencyEdges world (pr_ID p);
  here (fun w =>
    let now := wd_now world w in
    rm_each (base.filter (fun edge => de_Source edge = node_ref old) edges) (fun edge =>
      let task := roadmap_task p session next now edge in
      _ ← InsertImpactTask world task;
      InsertImpactHandoff world task)).

(** One proposal of a frozen commit: the node's next version and its tasks. *)
Definition frozen_node (actor : Actor) (pid : string) (p : Project) (now : Z) (proposal : RoadmapNodeProposal)
  (old : RouteNode) : RouteNode :=
  {| rn_ID := rn_ID old; rn_ProjectID := pid; rn_Version := rn_Version old +i 1; rn_Name := np_Name proposal;
     rn_Inputs := np_Inputs proposal; rn_Targets := np_Targets proposal;
     rn_Required := wd_required world p (rn_ID old); rn_Status := np_Status proposal;
     rn_ContextRevision := pr_CurrentContextRevision p; rn_ActorID := ac_UserID actor;
     rn_Reason := np_Reason proposal; rn_UpdatedAt := now |}.

Definition applied_view (next : RouteNode) : RoadmapNodeView :=
  {| nv_Node := next; nv_State := state_current; nv_StateReason := ""; nv_Frozen := true |}.

Definition freeze (actor : Actor) (pid : string) (p : Project) (session : RoadmapEditSession) (now : Z)
  (proposal : RoadmapNodeProposal) : RM RoadmapNodeView :=
  old ← routeNodeOf world pid (np_NodeID proposal);
  let next := frozen_node actor pid p now proposal old in
  _ ← AppendRouteNode world old next;
  _ ← createRoadmapImpactTasks p session old next;
  mret (applied_view next).

Definition advance_revision (actor : Actor) (p : Project) (session : RoadmapEditSession) : RM unit :=
  _ ← recordContextRevisionSnapshot world p (roadmap_change session);
  on_tables (UpdateProject db (ac_TenantID actor) p
    (p <| pr_CurrentContextRevision := pr_CurrentContextRevision p +i 1 |>
       <| pr_ProjectVersion := pr_ProjectVersion p +i 1 |>)).

(** The open session of a commit or cancel, at the baseline the caller saw. *)
Definition session_to_close (pid id : string) (input : RoadmapCloseInput) : RM RoadmapEditSession :=
  session ← open_session_of pid id;
  _ ← refuse_if (negb (rb_Version (es_Baseline session) =? xi_ExpectedBaselineVersion input)) ErrVersionConflict;
  mret session.

Definition frozen_write (actor : Actor) (pid id : string) (input : RoadmapCloseInput) (p : Project)
  : RM RoadmapCommitResult :=
  session ← session_to_close pid id input;
  _ ← verifyRoadmapBaseline p session;
  now ← here (fun w => mret (wd_now world w));
  applied ← rm_traverse (freeze actor pid p session now) (es_NodeProposals session);
  let version := rb_Version (es_Baseline session) in
  let result := {| cr_SessionID := es_ID session; cr_BaselineVersion := version; cr_CommittedVersion := version +i 1;
                   cr_AppliedNodes := applied; cr_AppliedEdges := []; cr_ChangeSetID := ""; cr_Semantic := false |} in
  _ ← UpdateRoadmapSession world session
        (session <| es_Status := RoadmapEditSessionCommitted |> <| es_Result := Some result |> <| es_UpdatedAt := now |>);
  _ ← (if is_nil (head applied) then mret tt else advance_revision actor p session);
  _ ← session_audit actor pid "commit" (es_ID session)
        {[ "baseline_version" := pretty version; "committed_version" := pretty (version +i 1);
           "nodes" := pretty (length applied) ]};
  mret result.

Definition commitRoadmapFrozenEdit (ctx : Context X) (actor : Actor) (pid id key : string) (input : RoadmapCloseInput)
  : RM (string * Z * bool) :=
  runOperation ctx actor pid "commitRoadmapEdit" (pid +:+ "/" +:+ id) key (AnyClose input) (fun p =>
    result ← frozen_write actor pid id input p;
    mret (AnyResult result, "", OperationStatusOK)).

Definition semantic_close (actor : Actor) (pid id : string) (input : RoadmapCloseInput) (changeID : string)
  : RM RoadmapCommitResult :=
  session ← open_session_of pid id;
  let version := rb_Version (es_Baseline session) in
  let result := {| cr_SessionID := id; cr_BaselineVersion := version; cr_CommittedVersion := version +i 1;
                   cr_AppliedNodes := []; cr_AppliedEdges := []; cr_ChangeSetID := changeID; cr_Semantic := true |} in
  _ ← save_session session (session <| es_Status := RoadmapEditSessionCommitted |> <| es_Result := Some result |>);
  _ ← session_audit actor pid "commit" (es_ID session)
        {[ "change_set_id" := changeID; "semantic" := "true"; "reason" := xi_Reason input ]};
  mret result.

Definition zero_commit : RoadmapCommitResult :=
  {| cr_SessionID := ""; cr_BaselineVersion := 0; cr_CommittedVersion := 0; cr_AppliedNodes := [];
     cr_AppliedEdges := []; cr_ChangeSetID := ""; cr_Semantic := false |}.

Definition read_write : TransactionOptions :=
  {| to_ReadOnly := false; to_RetryLocks := false; to_RepeatableRead := false |}.

(** What the commit asks the change draft for. *)
Definition commit_draft (contextRevision : Z) (reason : string) (deltas : list SemanticDelta) : ExtendedChangeSetInput :=
  {| xd_SemanticDeltas := deltas; xd_ExpectedContextRevision := contextRevision; xd_Reason := reason; xd_Fields := ∅;
     xd_AffectedChapterIDs := [] |}.

Definition commitRoadmapSemanticEdit (ctx : Context X) (actor : Actor) (pid id key : string) (input : RoadmapCloseInput)
  (deltas : list SemanticDelta) (contextRevision : Z) : RM (string * Z * bool) :=
  '(changeID, _) ← CreateChangeDraft world ctx actor pid (key +:+ "-changeset") (commit_draft contextRevision (xi_Reason input) deltas);
  result ← transaction zero_commit read_write (semantic_close actor pid id input changeID);
  match json_Marshal (AnyResult result) with
  | Ok body => mret (body, 200, false)
  | Err err => fail err
  end.

(** The read-only transaction that chooses the path. *)
Definition commit_check (ctx : Context X) (actor : Actor) (pid id : string) (input : RoadmapCloseInput)
  : RM (bool * list SemanticDelta * Z) :=
  p ← on_tables (service_authorizeProject service ctx (write_authorization actor pid));
  session ← session_to_close pid id input;
  _ ← verifyRoadmapBaseline p session;
  '(semantic, deltas) ← roadmapCommitPlan p session;
  mret (semantic, deltas, pr_CurrentContextRevision p).

Definition bad_close (input : RoadmapCloseInput) : bool :=
  (xi_ExpectedBaselineVersion input <? 0) || bad_reason (xi_Reason input).

Definition CommitRoadmapEdit (ctx : Context X) (actor : Actor) (pid id key : string) (input : RoadmapCloseInput)
  : RM (string * Z * bool) :=
  when bad_close input return fail ErrInvalidRequest;
  _ ← RequireHuman ctx;
  '(semantic, deltas, contextRevision) ←
    transaction (false, [], 0) read_only (commit_check ctx actor pid id input);
  if (semantic : bool) then commitRoadmapSemanticEdit ctx actor pid id key input deltas contextRevision
  else commitRoadmapFrozenEdit ctx actor pid id key input.

(** ** Cancelling *)

Definition roadmapTemporaryRefs (session : RoadmapEditSession) : list ObjectVersionRef :=
  ((fun proposal => {| ref_Kind := "RouteNode"; ref_ID := np_NodeID proposal;
                       ref_Version := pretty (np_TemporaryVersion proposal) |}) <$> es_NodeProposals session)
  ++ ((fun proposal => {| ref_Kind := "RouteEdge"; ref_ID := ep_EdgeID proposal;
                          ref_Version := pretty (ep_TemporaryVersion proposal) |}) <$> es_EdgeProposals session).

Definition closed_task (task : ImpactTask) : bool := contains ["STALE"; "DONE"; "DISMISSED"] (it_Status task).

Definition released (now : Z) (temporary : list ObjectVersionRef) (task : ImpactTask) : ImpactTask :=
  task <| it_Status := "STALE" |> <| it_StaleReason := "cancelled_temporary_version" |> <| it_StaleAt := now |>
       <| it_UpdatedAt := now |> <| it_Version := it_Version task +i 1 |>
       <| it_ClosureEvidence := base.filter (fun ref => ref ∉ temporary) (it_ClosureEvidence task) |>.

(** The target or some evidence is a temporary version. *)
Definition points_at (temporary : list ObjectVersionRef) (task : ImpactTask) : bool :=
  bool_decide (it_Target task ∈ temporary)
  || existsb (fun ref => bool_decide (ref ∈ temporary)) (it_ClosureEvidence task).

Definition releaseRoadmapTemporaryRefs (actor : Actor) (p : Project) (temporary : list ObjectVersionRef) : RM unit :=
  when is_nil (head temporary) return mret tt;
  tasks ← ImpactTasks world (pr_ID p);
  here (fun w =>
    let now := wd_now world w in
    rm_each tasks (fun task =>
      when closed_task task return mret tt;
      when negb (points_at temporary task) return mret tt;
      _ ← UpdateImpactTask world task (released now temporary task);
      session_audit actor (pr_ID p) "release_task" (it_ID task) {[ "reason" := "cancelled_temporary_version" ]})).

Definition cancel_write (actor : Actor) (pid id : string) (input : RoadmapCloseInput) (p : Project)
  : RM RoadmapEditSession :=
  session ← session_to_close pid id input;
  let temporary := roadmapTemporaryRefs session in
  _ ← releaseRoadmapTemporaryRefs actor p temporary;
  closed ← save_session session (session <| es_Status := RoadmapEditSessionCancelled |>);
  _ ← session_audit actor pid "cancel" (es_ID session)
        {[ "baseline_version" := pretty (rb_Version (es_Baseline session)); "released_refs" := pretty (length temporary);
           "reason" := xi_Reason input ]};
  mret closed.

Definition CancelRoadmapEdit (ctx : Context X) (actor : Actor) (pid id key : string) (input : RoadmapCloseInput)
  : RM (string * Z * bool) :=
  when bad_close input return fail ErrInvalidRequest;
  _ ← RequireHuman ctx;
  runOperation ctx actor pid "cancelRoadmapEdit" (pid +:+ "/" +:+ id) key (AnyClose input) (fun p =>
    session ← cancel_write actor pid id input p;
    mret (AnySession session, "", OperationStatusOK)).

(** ** Reads *)

Definition authorized_read {A} (zero : A) (ctx : Context X) (actor : Actor) (pid : string) (body : Project -> RM A) : RM A :=
  transaction zero read_only
    (p ← on_tables (service_authorizeProject service ctx (project_request actor pid "read")); body p).

Definition zero_baseline : RoadmapBaseline := {| rb_Version := 0; rb_ContextRevision := 0; rb_Nodes := []; rb_Edges := [] |}.

Definition zero_session : RoadmapEditSession :=
  {| es_ID := ""; es_ProjectID := ""; es_Status := ""; es_Baseline := zero_baseline; es_NodeProposals := [];
     es_EdgeProposals := []; es_Result := None; es_ActorID := ""; es_Reason := ""; es_CreatedAt := 0; es_UpdatedAt := 0 |}.

Definition ReadRoadmap (ctx : Context X) (actor : Actor) (pid : string) : RM RoadmapBaseline :=
  authorized_read zero_baseline ctx actor pid (fun p =>
    sessions ← RoadmapSessions world pid;
    roadmapBaselineOf p (roadmapVersionOf sessions)).

(** An entry of the answer is the view without the node's id and project. *)
Definition ReadRoadmapNodeVersions (ctx : Context X) (actor : Actor) (pid id : string) : RM (list RoadmapNodeView) :=
  when blank id return fail ErrInvalidRequest;
  authorized_read [] ctx actor pid (fun p =>
    versions ← RouteNodeVersions world pid id;
    roadmapNodeViews p versions).

(** *** Comparing two versions of a node *)

(** The last of each version number, when both are there. *)
Definition twoRouteNodeVersions (versions : list RouteNode) (from to : Z) : option (RouteNode * RouteNode) :=
  let at_ version := last (base.filter (fun node => rn_Version node = version) versions) in
  before ← at_ from; after ← at_ to; Some (before, after).

Definition refListText (refs : list ObjectVersionRef) : string :=
  join (merge_sort string_le ((fun ref => ref_Kind ref +:+ "/" +:+ ref_ID ref +:+ "@" +:+ ref_Version ref) <$> refs)).

Definition bool_text (b : bool) : string := if b then "true" else "false".

Definition roadmapNodeChanges (before after : RouteNode) : list RoadmapFieldChange :=
  omap (fun '(field, from, to) =>
          if (from =? to)%string then None else Some {| fc_Field := field; fc_From := from; fc_To := to |})
    [("name", rn_Name before, rn_Name after);
     ("status", rn_Status before, rn_Status after);
     ("required", bool_text (rn_Required before), bool_text (rn_Required after));
     ("inputs", refListText (rn_Inputs before), refListText (rn_Inputs after));
     ("targets", refListText (rn_Targets before), refListText (rn_Targets after));
     ("context_revision", pretty (rn_ContextRevision before), pretty (rn_ContextRevision after))].

Definition CompareRoadmapNodeVersions (ctx : Context X) (actor : Actor) (pid id : string) (from to : Z)
  : RM (list RoadmapFieldChange) :=
  when blank id || (from <? 1) || (to <? 1) return fail ErrInvalidRequest;
  authorized_read [] ctx actor pid (fun _ =>
    versions ← RouteNodeVersions world pid id;
    match twoRouteNodeVersions versions from to with
    | Some (before, after) => mret (roadmapNodeChanges before after)
    | None => fail ErrNotFound
    end).

Definition ReadRouteEdges (ctx : Context X) (actor : Actor) (pid : string) : RM (list RouteEdge) :=
  authorized_read [] ctx actor pid (fun _ =>
    all ← RouteEdges world pid;
    mret (base.filter (fun edge => re_EdgeStatus edge <> RouteEdgeStatusRetired) all)).

Definition ReadRouteEdgeVersions (ctx : Context X) (actor : Actor) (pid id : string) : RM (list RouteEdge) :=
  when blank id return fail ErrInvalidRequest;
  authorized_read [] ctx actor pid (fun _ => RouteEdgeVersions world pid id).

Definition ListRoadmapSessions (ctx : Context X) (actor : Actor) (pid : string) : RM (list RoadmapEditSession) :=
  authorized_read [] ctx actor pid (fun _ => RoadmapSessions world pid).

Definition GetRoadmapSession (ctx : Context X) (actor : Actor) (pid id : string) : RM RoadmapEditSession :=
  authorized_read zero_session ctx actor pid (fun _ => Store_RoadmapSession world pid id).
End Roadmap.
