(* ===== verification/RoadmapLaws.v ===== *)
(** What the roadmap's storage and the pipeline promise the roadmap's
    operations: a run does nothing to the roadmap or what one business write
    does; each statement's effect and frame; the growth of the frozen
    versions. *)

From stdpp Require Import pretty sorting.
From S2P Require Import Prelude Effects OperationCore OperationLaws OperationStore OperationTheorems OperationEffect Workspace Permission PermissionTheorems MemberStore MemberLaws Membership MembershipLaws OperationRunner RunnerLaws RoadmapModel RoadmapStore RouteObjects Roadmap.

(** ** The roadmap's own tables *)

Definition own (w : roadmap) :=
  (rm_sessions w, rm_edges w, rm_nodes w, rm_versions w, rm_dependencies w, rm_tasks w, rm_revisions w, rm_handoffs w).

(** Nothing of the roadmap changed. *)
Definition elsewhere (w w' : roadmap) : Prop := own w' = own w.

#[export] Instance elsewhere_preorder : PreOrder elsewhere.
Proof. split; [by intros w|]. intros a b c E1 E2. unfold elsewhere. by rewrite E2. Qed.

Lemma elsewhere_sym w w' : elsewhere w w' -> elsewhere w' w.
Proof. unfold elsewhere. by intros ->. Qed.

Lemma elsewhere_fields w w' : elsewhere w w' ->
  rm_sessions w' = rm_sessions w /\ rm_edges w' = rm_edges w /\ rm_nodes w' = rm_nodes w
  /\ rm_versions w' = rm_versions w /\ rm_dependencies w' = rm_dependencies w /\ rm_tasks w' = rm_tasks w
  /\ rm_revisions w' = rm_revisions w /\ rm_handoffs w' = rm_handoffs w.
Proof. unfold elsewhere, own. intros E. by injection E. Qed.

Lemma keeps_own {E A V} (I : roadmap -> V) (m : M roadmap E A) :
  (forall w w', own w' = own w -> I w' = I w) -> keeps own m -> keeps I m.
Proof. intros F K w. apply F, K. Qed.

Lemma keeps_on_tables {A V} (I : roadmap -> V) (m : T A) :
  (forall w t, I (w <| rm_tables := t |>) = I w) -> keeps I (on_tables m).
Proof. intros F w. unfold on_tables. destruct (m (rm_tables w)) as [t r]. apply F. Qed.

Lemma reads_on_tables {A} (m : T A) : reads m -> reads (on_tables m).
Proof.
  intros K w. unfold on_tables. rewrite (reads_run m _ K). cbn. by destruct w.
Qed.

(** What the roadmap's operations leave alone, besides: change sets, their
    plans and their assessments, and the candidates of dependencies. *)
Definition beyond (w : roadmap) := (own w, rm_changes w, rm_plans w, rm_assessments w, rm_batches w, rm_candidates w).

Lemma on_tables_own {A} (m : T A) : keeps own (on_tables m).
Proof. by apply keeps_on_tables. Qed.

Lemma on_tables_ok {A} (m : T A) w w' r :
  on_tables m w = (w', r) -> m (rm_tables w) = (rm_tables w', r) /\ w' = w <| rm_tables := rm_tables w' |>.
Proof. unfold on_tables. destruct (m (rm_tables w)) as [t r0]. by intros [= <- ->]. Qed.

(** ** The parts of the program outside the roadmap *)

Class WorldLaws {X} (world : World X) := {
  world_service :: ServiceLaws (wd_service world);
  world_atomic L :: AtomicDB (wd_transaction world L);
  object_reads p ref : reads (wd_object world p ref);
  object_names p ref t t' state : wd_object world p ref t = (t', Ok state) ->
    ref_Kind (os_Ref state) = ref_Kind ref /\ ref_ID (os_Ref state) = ref_ID ref;
  draft_keeps ctx actor pid key input : keeps own (wd_draft world ctx actor pid key input);
  session_order_perm l : wd_session_order world l ≡ₚ l;
  node_order_perm l : wd_node_order world l ≡ₚ l;
  version_order_perm l : wd_version_order world l ≡ₚ l;
  dependency_order_perm l : wd_dependency_order world l ≡ₚ l;
  task_order_perm l : wd_task_order world l ≡ₚ l;
  batch_order_perm l : wd_batch_order world l ≡ₚ l;
  candidate_order_perm l : wd_candidate_order world l ≡ₚ l
}.

(** ** A run of the pipeline *)

Section Run.
Context {X : Type} `{Digester roadmap_any} (world : World X) `{!WorldLaws world}.
Abbreviation service := (wd_service world).
Abbreviation db := (sv_db (wd_service world)).

(** What a run leaves as it was, seen through an observation of the store
    that the workspace's tables are not part of. *)
Definition unmoved {V} (I : roadmap -> V) (w w' : roadmap) : Prop := I w' = I w.

#[export] Instance unmoved_preorder {V} (I : roadmap -> V) : PreOrder (unmoved I).
Proof. split; [by intros w|]. intros a b c E1 E2. unfold unmoved. by rewrite E2. Qed.

(** Seams that are calm on the workspace's tables are calm on the larger store. *)
Lemma lift_calm {V} (Rt : relation tables) (R : relation roadmap) `{!PreOrder R} (request : OperationRequest Actor tables Project V X)
  sources tx write : (forall A (m : T A), calm Rt m -> calm R (on_tables m)) -> Calm request Rt ->
  (forall decode, sources = Some decode -> forall o b, calm R (decode o b)) -> Calm (lift_request request sources tx write) R.
Proof.
  intros Lift C Cs.
  assert (forall w w' ledger, op_Ledger (lift_request request sources tx write) w = (w', Ok ledger) ->
            exists t t' ledger0, op_Ledger request t = (t', Ok ledger0) /\ ledger = lift_ledger ledger0) as L.
  { intros w w' ledger. cbn. intros (w1 & ledger0 & F & G)%bind_ok. injection G as _ <-.
    apply on_tables_ok in F as [F _]. by eexists _, _, ledger0. }
  destruct C as [C1 C2 C3 C4 C5 C6 C7 C8 C9 C10 C11 C12 C13 C14 C15 C16 C17 C18]. constructor.
  - cbn. apply (calm_bind R); [by apply Lift|intros ledger w; by cbn].
  - intros w w' ledger F i. destruct (L _ _ _ F) as (t & t' & l & E & ->). apply Lift. by eapply C2.
  - intros w w' ledger F i r. destruct (L _ _ _ F) as (t & t' & l & E & ->). apply Lift. by eapply C3.
  - intros. apply Lift, C4.
  - intros. apply Lift, C5.
  - intros. apply Lift, C6.
  - intros f (g & E & ->)%fmap_Some. intros. by apply Lift, C7.
  - intros f (g & E & ->)%fmap_Some. intros. by apply Lift, C8.
  - intros f (g & E & ->)%fmap_Some. intros. by apply Lift, C9.
  - intros f (g & E & ->)%fmap_Some. intros. by apply Lift, C10.
  - intros f (g & E & ->)%fmap_Some. intros. by apply Lift, C11.
  - intros f (g & E & ->)%fmap_Some. intros. by apply Lift, C12.
  - intros. apply Lift, C13.
  - intros f (g & E & ->)%fmap_Some. intros. by apply Lift, C14.
  - intros f (g & E & ->)%fmap_Some. intros. by apply Lift, C15.
  - intros f (g & E & ->)%fmap_Some. intros. by apply Lift, C16.
  - intros f E. injection E as <-. intros o b. destruct sources; [by apply Cs|by intros w].
  - intros f (g & E & ->)%fmap_Some. intros. by apply Lift, C18.
Qed.

#[export] Instance roadmap_transaction_laws check actor name target key body request sources write ctx :
  TransactionLaws (op_Transaction (roadmap_request world check actor name target key body request sources write) ctx).
Proof. apply (workspace_transaction_laws (X := X) (wd_transaction world (Locals Project)) (sv_clock service) ctx). Qed.

Section Under.
Context (Rt : relation tables) (R : relation roadmap) `{!PreOrder R}
  (Lift : forall A (m : T A), calm Rt m -> calm R (on_tables m))
  (Seams : forall check actor name target key body request write,
     Calm ((pipeline_request service actor name target key body request write : OperationRequest Actor tables Project roadmap_any X)
             <| op_CheckProject := check |>) Rt)
  (Emit : forall ctx, calm Rt (sv_emit service ctx)).

(** The business write of an operation ran, once, on the project its own
    transaction authorized the caller to use as requested. *)
Definition ran_under {A} (request : AuthorizationRequest) (write : Project -> RM A) (w w' : roadmap) : Prop :=
  exists wa w0 w1 p a,
    R w wa
    /\ (if (rq_ProjectID request =? "")%string then p = zero_project
        else authorizeCurrentProject (policy_tx db) request (rm_tables wa) = (rm_tables wa, Ok p))
    /\ R wa w0 /\ write p w0 = (w1, Ok a) /\ R w1 w'.

Lemma checked_outcome check ctx actor name target key body request sources write w w' r : rq_Actor request = actor ->
  (forall decode, sources = Some decode -> forall o b, calm R (decode o b)) ->
  run_checked world check ctx actor name target key body request sources write w = (w', r) ->
  match r with
  | Ok (_, _, true) => R w w'
  | Ok (_, _, false) => ran_under request write w w'
  | Err _ => R w w' \/ ran_under request write w w'
  end.
Proof.
  intros Eac Cs. unfold run_checked, run_request, mbind, M_bind, map_error.
  pose (Q := roadmap_request world check actor name target key body request sources write). fold Q.
  destruct (Run zero_project Q ctx w) as [w1 o] eqn:E.
  pose proof (lift_calm Rt R _ sources (workspace_transaction (wd_transaction world (Locals Project)) (sv_clock service)) write Lift
    (Seams check actor name target key body request (fun _ => fail ErrInvalidState)) Cs) as C.
  change (Calm Q R) in C.
  apply (run_effect zero_project Q R) in E.
  assert (forall hash status, wrote zero_project Q R hash status w w1 -> ran_under request write w w1) as Wr.
  { intros hash status (_ & _ & c & wa & wb & w0 & w2 & p & value & output & E1 & Ea & E2 & Fw & E3).
    assert (R wa wb) as Eab.
    { apply (calm_run R _ _ _ _ (authorize_calm zero_project Q R (CS := C) c) Ea). }
    exists wa, w0, w2, p, (value, output, status). split; [done|]. split; [|split; [by transitivity wb|by split]].
    unfold authorize in Ea. cbn in Ea. destruct (rq_ProjectID request =? "")%string.
    - apply bind_ok in Ea as (? & ? & _ & Ea). by injection Ea as _ <-.
    - apply on_error_ok, on_tables_ok in Ea as [Ea _]. destruct request. cbn in Eac. subst.
      by apply (authorizeProject_ok service) in Ea. }
  assert (forall w2, ran_under request write w w1 -> R w1 w2 -> ran_under request write w w2) as Tr.
  { intros w2 (wa & w0 & w3 & p & a & E1 & Ep & E2 & Fw & E3) E4. exists wa, w0, w3, p, a.
    split_and!; try done. by transitivity w1. }
  pose proof (Lift _ _ (Emit ctx) w1) as Em.
  destruct o as [o|[flag err]]; cbn; intros F; injection F as <- <-.
  - destruct E as (hash & _ & E). destruct (out_Replayed o).
    + destruct E as [E _]. by transitivity w1.
    + by eapply Tr; [eapply Wr|].
  - destruct E as [E|(hash & status & E)]; [left; by transitivity w1|right; by eapply Tr; [eapply Wr|]].
Qed.
End Under.

Section Observed.
Context {O : Type} (I : roadmap -> O) (Off : forall w t, I (w <| rm_tables := t |>) = I w).

Definition ran_as {A} (request : AuthorizationRequest) (write : Project -> RM A) (w w' : roadmap) : Prop :=
  ran_under (unmoved I) request write w w'.

Lemma operation_outcome ctx actor name target key body request sources write w w' r : rq_Actor request = actor ->
  (forall decode, sources = Some decode -> forall o b, calm (unmoved I) (decode o b)) ->
  run_operation world ctx actor name target key body request sources write w = (w', r) ->
  match r with
  | Ok (_, _, true) => unmoved I w w'
  | Ok (_, _, false) => ran_as request write w w'
  | Err _ => unmoved I w w' \/ ran_as request write w w'
  end.
Proof.
  intros Eac Cs. apply (checked_outcome (fun _ _ => True) (unmoved I)); [|by constructor|done|done|done].
  intros A m _ w0. by apply keeps_on_tables.
Qed.

(** Whatever the answer was. *)
Lemma operation_moves ctx actor name target key body request sources write w w' r : rq_Actor request = actor ->
  (forall decode, sources = Some decode -> forall o b, calm (unmoved I) (decode o b)) ->
  run_operation world ctx actor name target key body request sources write w = (w', r) ->
  unmoved I w w' \/ ran_as request write w w'.
Proof. intros Eac Cs F%operation_outcome; [|done|done]. destruct r as [[[? ?] [|]]|?]; auto. Qed.

Lemma ran_as_project {A} request (write : Project -> RM A) w w' : ran_as request write w w' ->
  exists w0 w1 p a, pr_ID p = rq_ProjectID request /\ unmoved I w w0 /\ write p w0 = (w1, Ok a) /\ unmoved I w1 w'.
Proof.
  intros (wa & w0 & w1 & p & a & E1 & Ep & E2 & Fw & E3). exists w0, w1, p, a.
  split; [|split; [by transitivity wa|by split]].
  destruct (rq_ProjectID request =? "")%string eqn:G; [apply String.eqb_eq in G; by subst|].
  apply (authorize_ok (policy_tx db)) in Ep as (_ & _ & Ep & _). cbn in Ep.
  apply Gorm_Project_ok in Ep as [_ [Ep _]]. exact Ep.
Qed.
End Observed.

(** *** With the workspace's tables *)

(** Membership and everything beyond the tables are as before, and no stored
    result is lost. *)
Definition steady (w w' : roadmap) : Prop := settled (rm_tables w) (rm_tables w') /\ beyond w' = beyond w.

#[export] Instance steady_preorder : PreOrder steady.
Proof.
  split; [intros w; by split|]. intros a b c [A1 A2] [B1 B2]. split; [by transitivity (rm_tables b)|by rewrite B2].
Qed.

Lemma steady_tables {A} (m : T A) : calm settled m -> calm steady (on_tables m).
Proof.
  intros C w. unfold on_tables. pose proof (C (rm_tables w)) as S. destruct (m (rm_tables w)) as [t r]. by split.
Qed.

Lemma calm_checked {V} (R : relation tables) (request : OperationRequest Actor tables Project V X) check :
  Calm request R -> Calm (request <| op_CheckProject := check |>) R.
Proof. intros []. by constructor. Qed.

(** The project as its row shows it. *)
Definition stored_project (pid : string) (p : Project) (w : roadmap) : Prop :=
  pr_ID p = pid /\ exists row, tb_projects (rm_tables w) !! pid = Some row
  /\ pr_CurrentContextRevision p = row_CurrentContextRevision row /\ pr_ProjectVersion p = row_ProjectVersion row
  /\ pr_SpecRevision p = row_SpecRevision row /\ pr_Status p = row_Status row.

Lemma project_stored tenant pid w w' p : Gorm_Project db tenant pid (rm_tables w) = (w', Ok p) -> stored_project pid p w.
Proof.
  unfold Gorm_Project. intros (w1 & row & F1 & F)%bind_ok. apply map_error_ok, take_ok in F1 as [-> F1].
  unfold projectView in F. apply bind_ok in F as (w1 & [spec fields] & _ & F). apply bind_ok in F as (w2 & a & _ & F).
  apply bind_ok in F as (w3 & members & _ & F). apply bind_ok in F as (w4 & copy & _ & F). injection F as <- <-.
  split; [done|]. destruct (tb_projects _ !! pid) as [row'|]; [|discriminate]. destruct (_ =? _); [|discriminate].
  injection F1 as ->. by exists row.
Qed.

Lemma steady_project pid p w w' : steady w w' -> stored_project pid p w -> stored_project pid p w'.
Proof. intros [[M _] _] [Ei (row & F & E)]. split; [done|]. exists row. by rewrite (meq_projects _ _ M). Qed.

(** A run of an operation on a project leaves everything steady, or does its
    one business write on the project as it is stored. *)
Lemma steady_run check ctx actor name target key body request sources write w w' r : rq_Actor request = actor ->
  rq_ProjectID request <> "" -> (forall decode, sources = Some decode -> forall o b, calm steady (decode o b)) ->
  run_checked world check ctx actor name target key body request sources write w = (w', r) ->
  steady w w' \/ exists p w0 w1 a, stored_project (rq_ProjectID request) p w0 /\ steady w w0 /\ write p w0 = (w1, Ok a) /\ steady w1 w'.
Proof.
  intros Ea Np Cs F.
  apply (checked_outcome settled steady (@steady_tables)) in F; [|intros; apply calm_checked, pipeline_calm; apply _
    |intros; apply calm_settled, emit_calm|done|done].
  assert (steady w w' \/ ran_under steady request write w w') as [S|(wa & w0 & w1 & p & a & E0 & Ep & E1 & Fw & E2)]
    by (destruct r as [[[? ?] [|]]|?]; auto); [by left|]. right.
  apply String.eqb_neq in Np. rewrite Np in Ep. apply (authorize_ok (policy_tx db)) in Ep as (_ & _ & Ep & _). cbn in Ep.
  exists p, w0, w1, a. split; [|split; [by transitivity wa|by split]].
  eapply steady_project; [exact E1|]. by eapply project_stored.
Qed.

(** *** Of the roadmap's own operations *)

Definition ran {A} (actor : Actor) (pid : string) (write : Project -> RM A) (w w' : roadmap) : Prop :=
  ran_as own (write_authorization actor pid) write w w'.

Lemma run_outcome ctx actor pid name target key body write w w' r :
  runOperation world ctx actor pid name target key body write w = (w', r) ->
  match r with
  | Ok (_, _, true) => elsewhere w w'
  | Ok (_, _, false) => ran actor pid write w w'
  | Err _ => elsewhere w w' \/ ran actor pid write w w'
  end.
Proof. by apply operation_outcome. Qed.

Lemma run_moves ctx actor pid name target key body write w w' r :
  runOperation world ctx actor pid name target key body write w = (w', r) ->
  elsewhere w w' \/ ran actor pid write w w'.
Proof. by apply operation_moves. Qed.

Lemma ran_project {A} actor pid (write : Project -> RM A) w w' : ran actor pid write w w' ->
  exists w0 w1 p a, pr_ID p = pid /\ elsewhere w w0 /\ write p w0 = (w1, Ok a) /\ elsewhere w1 w'.
Proof. apply (ran_as_project own (write_authorization actor pid)). Qed.

(** *** Transactions that answer *)

Lemma transaction_outcome {A} zero options (body : RM A) w w' r :
  to_RetryLocks options = false -> transaction world zero options body w = (w', r) ->
  match r with
  | Ok a => body w = (w', Ok a) /\ (to_ReadOnly options = true -> w' = w)
  | Err _ => w' = w
  end.
Proof.
  intros NoRetry. unfold transaction. destruct (GORMRepository_Transaction _ _ _ _ _) as [[w1 a1] o] eqn:E.
  intros F. apply (repository_outcome (wd_transaction world A) (sv_clock service)) in E as [E Hn].
  destruct o as [[]|e]; injection F as <- <-; [|exact E]. destruct E as [_ Ro].
  specialize (Hn NoRetry eq_refl). apply bind_ok in Hn as ([w2 a2] & a & Eb & Ea).
  apply on_store_ok in Eb as [Eb _]. injection Ea as <- <-. by split.
Qed.
End Run.

(** ** Invariants along a run *)

(** [R] is what the steps of a run may do to a store that is [ok]. *)
Class Guide (ok : roadmap -> Prop) (R : relation roadmap) := {
  guide_preorder :: PreOrder R;
  R_ok w w' : R w w' -> ok w -> ok w';
  R_elsewhere w w' : elsewhere w w' -> R w w'
}.

Section Guided.
Context (ok : roadmap -> Prop) (R : relation roadmap) `{!Guide ok R}.

(** When it answers, and whatever it answers. *)
Definition guided {A} (m : RM A) : Prop := forall w w' a, m w = (w', Ok a) -> ok w -> R w w'.
Definition steered {A} (m : RM A) : Prop := forall w w' r, m w = (w', r) -> ok w -> R w w'.

Lemma guided_bind {A B} (m : RM A) (k : A -> RM B) : guided m -> (forall a, guided (k a)) -> guided (m ≫= k).
Proof.
  intros Gm Gk w w' b (w1 & a & F1 & F2)%bind_ok W. specialize (Gm _ _ _ F1 W). etransitivity; [exact Gm|].
  by eapply Gk; [exact F2|eapply R_ok].
Qed.

Lemma guided_own {A} (m : RM A) : keeps own m -> guided m.
Proof. intros K w w' a F _. apply R_elsewhere. by apply (keeps_run own) in F. Qed.

Lemma guided_reads {A} (m : RM A) : reads m -> guided m.
Proof. intros K. apply guided_own. intros w. by rewrite (reads_run m w K). Qed.

Lemma guided_each {A} (l : list A) f : (forall a, guided (f a)) -> guided (rm_each l f).
Proof.
  intros F. induction l as [|a l IH]; cbn; [by apply guided_reads, keeps_ret|]. apply guided_bind; [done|]. by intros _.
Qed.

Lemma guided_traverse {A B} (f : A -> RM B) l : (forall a, guided (f a)) -> guided (rm_traverse f l).
Proof.
  intros F. induction l as [|a l IH]; cbn; [by apply guided_reads, keeps_ret|].
  apply guided_bind; [done|intros b]. apply guided_bind; [done|intros bs]. by apply guided_reads, keeps_ret.
Qed.

Lemma guided_here {A} (f : roadmap -> RM A) : (forall w, guided (f w)) -> guided (here f).
Proof. intros S w w' a F W. by apply (S w w w' a). Qed.

Lemma guided_answer {A B} (m : RM A) (f : A -> B) : guided m -> guided (a ← m; mret (f a)).
Proof. intros S. apply guided_bind; [done|]. intros a. by apply guided_reads, keeps_ret. Qed.

Lemma steered_bind {A B} (m : RM A) (k : A -> RM B) : steered m -> (forall a, steered (k a)) -> steered (m ≫= k).
Proof.
  intros Mm Mk w w' r. unfold mbind, M_bind. destruct (m w) as [w1 [a|e]] eqn:F; intros G W.
  - specialize (Mm _ _ _ F W). etransitivity; [exact Mm|]. by eapply Mk; [exact G|eapply R_ok].
  - injection G as <- _. by eapply Mm.
Qed.

Lemma steered_own {A} (m : RM A) : keeps own m -> steered m.
Proof. intros K w w' r F _. apply R_elsewhere. by apply (keeps_run own) in F. Qed.

Lemma steered_fail {A} e : steered (fail e : RM A).
Proof. by apply steered_own. Qed.

Context {X : Type} `{Digester roadmap_any} (world : World X) `{!WorldLaws world}.

Lemma steered_human (ctx : Context X) : steered (RequireHuman ctx).
Proof. apply steered_own. intros w. unfold RequireHuman. by destruct (RequireHumanDecision _ _). Qed.

Lemma steered_transaction {A} zero options (body : RM A) : to_RetryLocks options = false -> guided body ->
  steered (transaction world zero options body).
Proof.
  intros N S w w' r F W. apply (transaction_outcome world) in F; [|done]. destruct r as [a|e]; [|by subst]. by eapply S; [apply F|].
Qed.

Lemma steered_run ctx actor pid name target key body write : (forall p, guided (write p)) ->
  steered (runOperation world ctx actor pid name target key body write).
Proof.
  intros S w w' r F W. apply (run_moves world) in F as [E|R']; [by apply R_elsewhere|].
  apply (ran_project world) in R' as (w0 & w1 & p & a & _ & E0 & F & E1).
  transitivity w0; [by apply R_elsewhere|]. transitivity w1; [|by apply R_elsewhere].
  eapply S; [exact F|]. eapply R_ok; [by apply R_elsewhere|done].
Qed.
End Guided.

(** ** Statements *)

Section Statements.
Context {X : Type} (world : World X) `{!WorldLaws world}.
Abbreviation db := (sv_db (wd_service world)).

Lemma keeps_rm_statement {A V} (I : roadmap -> V) name (m : RM A) : keeps I m -> keeps I (rm_statement world name m).
Proof. intros K w. unfold rm_statement. by destruct (db_fault _ _ _). Qed.

Lemma rm_statement_ok {A} name (m : RM A) w w' a : rm_statement world name m w = (w', Ok a) -> m w = (w', Ok a).
Proof. unfold rm_statement. by destruct (db_fault _ _ _). Qed.

Lemma reads_rm_query {A} name (f : roadmap -> A) : reads (rm_query world name f).
Proof. by apply keeps_rm_statement. Qed.

Lemma rm_query_ok {A} name (f : roadmap -> A) w w' a : rm_query world name f w = (w', Ok a) -> w' = w /\ a = f w.
Proof. intros F%rm_statement_ok. by injection F as <- <-. Qed.

Lemma keeps_here {A V} (I : roadmap -> V) (f : roadmap -> RM A) : (forall w, keeps I (f w)) -> keeps I (here f).
Proof. intros K w. apply K. Qed.

Lemma keeps_rm_each {A V} (I : roadmap -> V) (l : list A) f : (forall a, keeps I (f a)) -> keeps I (rm_each l f).
Proof.
  intros F. induction l as [|a l IH]; cbn; [apply keeps_ret|]. apply keeps_bind; [done|]. by intros _.
Qed.

Lemma keeps_rm_traverse {A B V} (I : roadmap -> V) (f : A -> RM B) l : (forall a, keeps I (f a)) -> keeps I (rm_traverse f l).
Proof.
  intros F. induction l as [|a l IH]; cbn; [apply keeps_ret|].
  apply keeps_bind; [done|intros b]. apply keeps_bind; [done|intros bs]. apply keeps_ret.
Qed.

Section Records.
Context {B : Type} (get : roadmap -> records B) (put : records B -> roadmap -> roadmap).

Lemma reads_row pid key : reads (readVersionedRecord world get pid key).
Proof. unfold readVersionedRecord. apply keeps_bind; [apply reads_rm_query|]. intros [row|]; by intros w. Qed.

Lemma read_record_ok pid key w w' row :
  readVersionedRecord world get pid key w = (w', Ok row) -> w' = w /\ get w !! (pid, key) = Some row.
Proof.
  unfold readVersionedRecord. intros (w1 & found & [-> ->]%rm_query_ok & F)%bind_ok.
  destruct (get w !! (pid, key)) as [r|]; [|discriminate F]. by injection F as <- <-.
Qed.

Lemma insert_record_ok pid key version value w w' u :
  insertVersionedRecord world get put pid key version value w = (w', Ok u) ->
  get w !! (pid, key) = None
  /\ w' = put (<[(pid, key) := {| vr_Version := version; vr_Body := value |}]> (get w)) w.
Proof.
  unfold insertVersionedRecord. intros F%rm_statement_ok.
  destruct (get w !! (pid, key)); [discriminate F|]. by injection F as <-.
Qed.

Lemma swap_record_ok pid key version value w w' u :
  compareAndSwapVersionedRecord world get put pid key version value w = (w', Ok u) ->
  exists row, get w !! (pid, key) = Some row /\ vr_Version row = version
  /\ w' = put (<[(pid, key) := {| vr_Version := version +i 1; vr_Body := value |}]> (get w)) w.
Proof.
  unfold compareAndSwapVersionedRecord. intros F%rm_statement_ok.
  destruct (get w !! (pid, key)) as [row|]; [|discriminate F].
  destruct (vr_Version row =? version) eqn:G; [|discriminate F]. injection F as <-.
  exists row. split_bools. by split_and!.
Qed.

Lemma keeps_insert_record {V} (I : roadmap -> V) pid key version value :
  (forall w t, I (put t w) = I w) -> keeps I (insertVersionedRecord world get put pid key version value).
Proof. intros F. apply keeps_rm_statement. intros w. destruct (get w !! _); [done|apply F]. Qed.

Lemma keeps_swap_record {V} (I : roadmap -> V) pid key version value :
  (forall w t, I (put t w) = I w) -> keeps I (compareAndSwapVersionedRecord world get put pid key version value).
Proof.
  intros F. apply keeps_rm_statement. intros w. destruct (get w !! _) as [row|]; [|done].
  destruct (_ =? _); [apply F|done].
Qed.

Lemma reads_list {C} (select : list (string * B) -> C) pid : reads (listVersionedRecords world get select pid).
Proof. apply reads_rm_query. Qed.

Lemma project_records_spec pid w key body :
  (key, body) ∈ project_records get pid w <-> exists row, get w !! (pid, key) = Some row /\ vr_Body row = body.
Proof.
  unfold project_records. rewrite list_elem_of_omap. split.
  - intros ([[p k] row] & Hin & F). apply elem_of_map_to_list in Hin. cbn in F.
    destruct (p =? pid)%string eqn:G; [|discriminate F]. injection F as -> <-. split_bools. subst. by exists row.
  - intros (row & F & <-). exists ((pid, key), row). split; [by apply elem_of_map_to_list|].
    cbn. by rewrite String.eqb_refl.
Qed.
End Records.

(** *** Reads *)

Lemma reads_node pid id : reads (routeNodeOf world pid id).
Proof. unfold routeNodeOf. apply keeps_bind; [apply reads_row|]. by intros row w. Qed.

Lemma node_ok pid id w w' node : routeNodeOf world pid id w = (w', Ok node) ->
  w' = w /\ exists row, rm_nodes w !! (pid, id) = Some row /\ vr_Body row = node.
Proof.
  unfold routeNodeOf. intros (w1 & row & [-> F1]%read_record_ok & F)%bind_ok. injection F as <- <-. eauto.
Qed.

Lemma reads_edge pid id : reads (Store_RouteEdge world pid id).
Proof. unfold Store_RouteEdge. apply keeps_bind; [apply reads_rm_query|]. intros [e|]; by intros w. Qed.

Lemma reads_session pid id : reads (Store_RoadmapSession world pid id).
Proof.
  unfold Store_RoadmapSession. apply keeps_bind; [apply reads_rm_query|].
  intros [e|]; [|by intros w]. intros w. by destruct (_ =? _)%string.
Qed.

Lemma session_ok pid id w w' session : Store_RoadmapSession world pid id w = (w', Ok session) ->
  w' = w /\ rm_sessions w !! id = Some session /\ es_ProjectID session = pid.
Proof.
  unfold Store_RoadmapSession. intros (w1 & found & [-> ->]%rm_query_ok & F)%bind_ok.
  destruct (rm_sessions w !! id) as [row|]; [|discriminate F].
  destruct (es_ProjectID row =? pid)%string eqn:G; [|discriminate F]. injection F as <- <-. split_bools. by split_and!.
Qed.
End Statements.

#[export] Hint Resolve reads_rm_query reads_row reads_list reads_node reads_edge reads_session on_tables_own
  reads_on_tables : effects.
