(* ===== verification/RoadmapHistory.v ===== *)
(** The frozen history of the roadmap: what a well-formed store is, how a
    store may evolve, and that every business write of the roadmap that
    succeeds keeps both. *)

From stdpp Require Import pretty sorting.
From S2P Require Import Prelude Effects OperationCore OperationStore Workspace Permission MemberStore MemberLaws Membership OperationRunner RoadmapModel RoadmapStore RouteObjects Roadmap RoadmapLaws.

(** ** Well-formed stores *)

Definition session_statuses : list string := [RoadmapEditSessionOpen; RoadmapEditSessionCommitted; RoadmapEditSessionCancelled].

Record wf_session (id : string) (session : RoadmapEditSession) : Prop := {
  ws_id : es_ID session = id;
  ws_status : contains session_statuses (es_Status session) = true;
  ws_result : es_Status session = RoadmapEditSessionCommitted <-> is_Some (es_Result session);
  ws_nodes : NoDup (np_NodeID <$> es_NodeProposals session);
  ws_edges : NoDup (ep_EdgeID <$> es_EdgeProposals session)
}.

(** A node is stored with its own key and version, and its current version is
    frozen; a frozen version is never alone: its node exists and, unless it is
    the first, the version before it is frozen too. The same for edges. *)
Record wf (w : roadmap) : Prop := {
  wf_node pid id row : rm_nodes w !! (pid, id) = Some row ->
    rn_ProjectID (vr_Body row) = pid /\ rn_ID (vr_Body row) = id /\ pid <> "" /\ id <> ""
    /\ vr_Version row = rn_Version (vr_Body row) /\ int64_range (rn_Version (vr_Body row));
  wf_current pid id row : rm_nodes w !! (pid, id) = Some row ->
    rm_versions w !! (pid, versionKey id (rn_Version (vr_Body row))) = Some {| vr_Version := 1; vr_Body := vr_Body row |};
  wf_frozen pid key row : rm_versions w !! (pid, key) = Some row ->
    let node := vr_Body row in
    vr_Version row = 1 /\ rn_ProjectID node = pid /\ key = versionKey (rn_ID node) (rn_Version node)
    /\ int64_range (rn_Version node) /\ is_Some (rm_nodes w !! (pid, rn_ID node))
    /\ (rn_Version node = 1 \/ is_Some (rm_versions w !! (pid, versionKey (rn_ID node) (rn_Version node -i 1))));
  wf_edge key row : rm_edges w !! key = Some row ->
    key = versionKey (er_EdgeID row) (er_Version row) /\ int64_range (er_Version row)
    /\ (er_Version row = 1
        \/ exists before, rm_edges w !! versionKey (er_EdgeID row) (er_Version row -i 1) = Some before
                          /\ er_ProjectID before = er_ProjectID row);
  wf_sessions id session : rm_sessions w !! id = Some session -> wf_session id session;
  wf_one_open id id' session session' :
    rm_sessions w !! id = Some session -> rm_sessions w !! id' = Some session' ->
    es_ProjectID session = es_ProjectID session' -> is_open session = true -> is_open session' = true -> id = id'
}.

(** ** Evolution *)

(** Only an open session changes, and never what it is bound to. *)
Definition session_evolves (session session' : RoadmapEditSession) : Prop :=
  session' = session
  \/ (is_open session = true /\ es_ID session' = es_ID session /\ es_ProjectID session' = es_ProjectID session
      /\ es_Baseline session' = es_Baseline session).

Record evolves (w w' : roadmap) : Prop := {
  ev_versions : rm_versions w ⊆ rm_versions w';
  ev_edges : rm_edges w ⊆ rm_edges w';
  ev_nodes key : is_Some (rm_nodes w !! key) -> is_Some (rm_nodes w' !! key);
  ev_sessions id session : rm_sessions w !! id = Some session ->
    exists session', rm_sessions w' !! id = Some session' /\ session_evolves session session'
}.

#[export] Instance evolves_preorder : PreOrder evolves.
Proof.
  split.
  - intros w. split; [done|done|done|]. intros id session F. exists session. split; [done|by left].
  - intros a b c [A1 A2 A3 A4] [B1 B2 B3 B4]. split; [by etransitivity|by etransitivity|auto|].
    intros id session (s1 & F1 & E1)%A4. apply B4 in F1 as (s2 & F2 & E2). exists s2. split; [done|].
    destruct E1 as [->|(O1 & I1 & P1 & L1)]; [done|]. destruct E2 as [->|(O2 & I2 & P2 & L2)]; [by right|].
    right. split_and!; [done|by rewrite I2|by rewrite P2|by rewrite L2].
Qed.

(** What of the store the two speak about. *)
Definition core (w : roadmap) := (rm_sessions w, rm_edges w, rm_nodes w, rm_versions w).

Lemma core_fields w w' : core w' = core w ->
  rm_sessions w' = rm_sessions w /\ rm_edges w' = rm_edges w /\ rm_nodes w' = rm_nodes w /\ rm_versions w' = rm_versions w.
Proof. unfold core. intros E. by injection E. Qed.

Lemma core_wf w w' : core w' = core w -> wf w -> wf w'.
Proof.
  intros (E1 & E2 & E3 & E4)%core_fields [A B C D E F].
  split; rewrite ?E1, ?E2, ?E3, ?E4; assumption.
Qed.

Lemma core_evolves w w' : core w' = core w -> evolves w w'.
Proof.
  intros (E1 & E2 & E3 & E4)%core_fields. split; rewrite ?E1, ?E2, ?E3, ?E4; [done|done|done|].
  intros id session F. exists session. split; [done|by left].
Qed.

Lemma own_core w w' : elsewhere w w' -> core w' = core w.
Proof. intros (E1 & E2 & E3 & E4 & _)%elsewhere_fields. unfold core. by rewrite E1, E2, E3, E4. Qed.

(** ** Sound writes *)

Definition good (w w' : roadmap) : Prop := evolves w w' /\ (wf w -> wf w').

#[export] Instance good_preorder : PreOrder good.
Proof.
  split; [intros w; by split|]. intros a b c [A1 A2] [B1 B2]. split; [by etransitivity|auto].
Qed.

Lemma core_good w w' : core w' = core w -> good w w'.
Proof. intros E. split; [by apply core_evolves|by apply core_wf]. Qed.

#[export] Instance good_guide : Guide wf good.
Proof. split; [apply _|by intros w w' [_ G]|]. intros w w' E. by apply core_good, own_core. Qed.

Abbreviation sound := (guided wf good).
Abbreviation moves := (steered wf good).

Lemma sound_core {A} (m : RM A) : keeps core m -> sound m.
Proof. intros K w w' a F _. apply core_good. by apply (keeps_run core) in F. Qed.

Section History.
Context {X : Type} (world : World X) `{!WorldLaws world}.
Abbreviation db := (sv_db (wd_service world)).

(** *** Nodes *)

Definition with_node (next : RouteNode) (w : roadmap) : roadmap :=
  w <| rm_versions := <[(rn_ProjectID next, versionKey (rn_ID next) (rn_Version next)) :=
         {| vr_Version := 1; vr_Body := next |}]> (rm_versions w) |>
    <| rm_nodes := <[(rn_ProjectID next, rn_ID next) :=
         {| vr_Version := rn_Version next; vr_Body := next |}]> (rm_nodes w) |>.

Lemma append_ok old next w w' u : rn_ProjectID old = rn_ProjectID next -> rn_ID old = rn_ID next ->
  AppendRouteNode world old next w = (w', Ok u) ->
  w' = with_node next w
  /\ rn_ProjectID next <> "" /\ rn_ID next <> "" /\ rn_Version next = rn_Version old +i 1
  /\ rm_versions w !! (rn_ProjectID next, versionKey (rn_ID next) (rn_Version next)) = None
  /\ (rn_Version old = 0
      \/ exists row, rm_nodes w !! (rn_ProjectID next, rn_ID next) = Some row /\ vr_Version row = rn_Version old).
Proof.
  intros Ep Ei. unfold AppendRouteNode. intros (w1 & ? & [G ->]%refuse_if_ok & F)%bind_ok.
  apply orb_false_iff in G as [[Gi Gp]%orb_false_iff Gv]. split_bools.
  apply bind_ok in F as (w1 & ? & [Fresh ->]%insert_record_ok & F). unfold put_versions, put_nodes, with_node in *.
  rewrite Ep, Ei in F. destruct (rn_Version old =? 0) eqn:Z.
  - apply Z.eqb_eq in Z. apply insert_record_ok in F as [_ ->]. cbn.
    split; [|split_and!; try done; by left]. by rewrite Gv, Z.
  - apply swap_record_ok in F as (row & Fr & Ev & ->). cbn in Fr |- *.
    split; [|split_and!; try done; right; eauto]. by rewrite <- Gv.
Qed.

Lemma with_node_good next w :
  wf w -> rn_ProjectID next <> "" -> rn_ID next <> "" -> int64_range (rn_Version next) ->
  rm_versions w !! (rn_ProjectID next, versionKey (rn_ID next) (rn_Version next)) = None ->
  (rn_Version next = 1
   \/ is_Some (rm_versions w !! (rn_ProjectID next, versionKey (rn_ID next) (rn_Version next -i 1)))) ->
  good w (with_node next w).
Proof.
  intros W Hp Hi Hr Fresh Before. split.
  - split; cbn; [by apply insert_subseteq|done| |].
    + intros key [row F]. destruct (decide (key = (rn_ProjectID next, rn_ID next))) as [->|N].
      * rewrite lookup_insert_eq. by eexists.
      * rewrite lookup_insert_ne by done. by eexists.
    + intros id session F. exists session. split; [done|by left].
  - intros _. assert (forall k, is_Some (rm_versions w !! k) -> is_Some (rm_versions (with_node next w) !! k)) as Up.
    { intros k [row F]. cbn. exists row. by rewrite lookup_insert_ne by congruence. }
    destruct W as [W1 W2 W3 W4 W5 W6]. split; cbn; [| | |exact W4|exact W5|exact W6].
    + intros pid id row F. apply lookup_insert_Some in F as [[E <-]|[N F]]; [|by apply W1].
      injection E as <- <-. cbn. by split_and!.
    + intros pid id row F. apply lookup_insert_Some in F as [[E <-]|[N F]].
      * injection E as <- <-. apply lookup_insert_eq.
      * rewrite lookup_insert_ne; [by apply W2|]. intros E. apply W2 in F. congruence.
    + intros pid key row F. apply lookup_insert_Some in F as [[E <-]|[N F]].
      * injection E as <- <-. cbn. split_and!; try done; try apply Hr; [by rewrite lookup_insert_eq; eexists|].
        destruct Before as [B|B]; [by left|right; by apply Up in B].
      * apply W3 in F as (F1 & F2 & F3 & F3' & [r F4] & F5). split_and!; try done; try apply F3'.
        -- destruct (decide ((pid, rn_ID (vr_Body row)) = (rn_ProjectID next, rn_ID next))) as [->|N'].
           ++ rewrite lookup_insert_eq. by eexists.
           ++ rewrite lookup_insert_ne by done. by eexists.
        -- destruct F5 as [F5|F5]; [by left|right; by apply Up in F5].
Qed.

Lemma append_good old next w w' u : rn_ProjectID old = rn_ProjectID next -> rn_ID old = rn_ID next -> wf w ->
  AppendRouteNode world old next w = (w', Ok u) -> w' = with_node next w /\ good w w'.
Proof.
  intros Ep Ei W (-> & Hp & Hi & Ev & Fresh & Old)%append_ok; [|done|done]. split; [done|].
  apply with_node_good; try done; [rewrite Ev; apply i64_in_range|]. rewrite Ev.
  destruct Old as [->|(row & F & E)]; [by left|right].
  pose proof (wf_node w W _ _ _ F) as (_ & _ & _ & _ & E2 & R). pose proof (wf_current w W _ _ _ F) as C.
  rewrite E in E2. rewrite E2 in *. rewrite (i64_add_sub _ 1 R). by eexists.
Qed.

(** *** Edges *)

Lemma newest_in rows row : newest rows = Some row -> row ∈ rows.
Proof.
  unfold newest. assert (forall best, foldl (fun best row => match best with
      | Some b => if er_Version b <? er_Version row then Some row else best | None => Some row end) best rows = Some row ->
    best = Some row \/ row ∈ rows) as G.
  { induction rows as [|r rows IH]; intros best F; [by left|]. cbn in F. apply IH in F as [F|F]; [|right; by right].
    destruct best as [b|]; [destruct (_ <? _)|]; [injection F as ->; right; left|by left|injection F as ->; right; left]. }
  intros F. destruct (G _ F) as [|]; done.
Qed.

Lemma edge_rows_spec pid w row : row ∈ edge_rows pid w <-> er_ProjectID row = pid /\ exists key, rm_edges w !! key = Some row.
Proof.
  unfold edge_rows. rewrite list_elem_of_filter, list_elem_of_fmap. apply and_iff_compat_l. split.
  - intros ([key r] & -> & F). apply elem_of_map_to_list in F. by exists key.
  - intros (key & F). exists (key, row). split; [done|by apply elem_of_map_to_list].
Qed.

Lemma latest_edge_row pid id w edge : latest_edge pid id w = Some edge ->
  exists key row, rm_edges w !! key = Some row /\ edge = routeEdgeFromRow row /\ er_ProjectID row = pid /\ er_EdgeID row = id.
Proof.
  unfold latest_edge. intros (row & F & ->)%fmap_Some. apply newest_in, list_elem_of_filter in F as [Ei F].
  apply edge_rows_spec in F as [Ep [key F]]. by exists key, row.
Qed.

Lemma edge_ok pid id w w' edge : Store_RouteEdge world pid id w = (w', Ok edge) ->
  w' = w /\ latest_edge pid id w = Some edge.
Proof.
  unfold Store_RouteEdge. intros (w1 & found & [-> ->]%rm_query_ok & F)%bind_ok.
  destruct (latest_edge pid id w) as [e|]; [|discriminate F]. by injection F as <- <-.
Qed.

Definition edge_row (edge : RouteEdge) : routeEdgeRow :=
  {| er_ProjectID := re_ProjectID edge; er_EdgeID := re_ID edge; er_Version := re_Version edge;
     er_SourceID := re_SourceID edge; er_TargetID := re_TargetID edge; er_Relation := re_Relation edge;
     er_ContextRevision := re_ContextRevision edge; er_ActorID := re_ActorID edge; er_Reason := re_Reason edge;
     er_CreatedAt := re_UpdatedAt edge |}.

Lemma insert_edge_ok edge w w' u : InsertRouteEdge world edge w = (w', Ok u) ->
  rm_edges w !! versionKey (re_ID edge) (re_Version edge) = None
  /\ w' = w <| rm_edges := <[versionKey (re_ID edge) (re_Version edge) := edge_row edge]> (rm_edges w) |>.
Proof.
  unfold InsertRouteEdge. intros F%rm_statement_ok. destruct (rm_edges w !! _); [discriminate F|]. by injection F as <-.
Qed.

Lemma insert_edge_good edge w w' u : wf w -> int64_range (re_Version edge) ->
  (re_Version edge = 1 \/ exists before, rm_edges w !! versionKey (re_ID edge) (re_Version edge -i 1) = Some before
     /\ er_ProjectID before = re_ProjectID edge) ->
  InsertRouteEdge world edge w = (w', Ok u) -> good w w'.
Proof.
  intros W R Before (Fresh & ->)%insert_edge_ok. split.
  - split; cbn; [done|by apply insert_subseteq|done|]. intros id session F. exists session. split; [done|by left].
  - intros _. destruct W as [W1 W2 W3 W4 W5 W6]. split; cbn; [exact W1|exact W2|exact W3| |exact W5|exact W6].
    intros key row F. apply lookup_insert_Some in F as [[<- <-]|[N F]].
    + cbn. split_and!; try done. destruct Before as [B|(b & B & Ep)]; [by left|right]. exists b.
      by rewrite lookup_insert_ne by congruence.
    + apply W4 in F as (F1 & F2 & [F3|(b & F3 & Ep)]); split_and!; try done; [by left|right].
      exists b. by rewrite lookup_insert_ne by congruence.
Qed.

(** *** Sessions *)

Lemma project_sessions_spec pid w session :
  session ∈ project_sessions pid w <-> es_ProjectID session = pid /\ exists id, rm_sessions w !! id = Some session.
Proof.
  unfold project_sessions. rewrite list_elem_of_filter, list_elem_of_fmap. apply and_iff_compat_l. split.
  - intros ([key r] & -> & F). apply elem_of_map_to_list in F. by exists key.
  - intros (key & F). exists (key, session). split; [done|by apply elem_of_map_to_list].
Qed.

Lemma open_session_spec pid w : open_session pid w = true <->
  exists id session, rm_sessions w !! id = Some session /\ es_ProjectID session = pid /\ is_open session = true.
Proof.
  unfold open_session. rewrite existsb_exists. setoid_rewrite <- list_elem_of_In.
  setoid_rewrite project_sessions_spec. split; [intros (s & (? & id & ?) & ?); by exists id, s|].
  intros (id & s & ? & ? & ?). exists s. split; [split; [done|by exists id]|done].
Qed.

Definition with_session (session : RoadmapEditSession) (w : roadmap) : roadmap :=
  w <| rm_sessions := <[es_ID session := session]> (rm_sessions w) |>.

Lemma insert_session_ok session w w' u : InsertRoadmapSession world session w = (w', Ok u) ->
  w' = with_session session w /\ rm_sessions w !! es_ID session = None
  /\ (is_open session = true -> open_session (es_ProjectID session) w = false).
Proof.
  unfold InsertRoadmapSession. intros F%rm_statement_ok. destruct (rm_sessions w !! _); [discriminate F|].
  destruct (is_open session && _) eqn:G; [discriminate F|]. injection F as <-. split_and!; [done|done|].
  intros O. by rewrite O in G.
Qed.

Lemma insert_session_good session w w' u : wf w -> wf_session (es_ID session) session ->
  InsertRoadmapSession world session w = (w', Ok u) -> good w w'.
Proof.
  intros W Ws (-> & Fresh & Only)%insert_session_ok. split.
  - split; cbn; [done|done|done|]. intros id s F. exists s. rewrite lookup_insert_ne by congruence.
    split; [done|by left].
  - intros _. destruct W as [W1 W2 W3 W4 W5 W6]. split; cbn; [exact W1|exact W2|exact W3|exact W4| |].
    + intros id s [[<- <-]|[_ F]]%lookup_insert_Some; [done|by apply W5].
    + assert (forall id s, rm_sessions w !! id = Some s -> es_ProjectID s = es_ProjectID session ->
                is_open session = true -> is_open s = true -> False) as No.
      { intros id s F E O O'. specialize (Only O).
        assert (open_session (es_ProjectID session) w = true) as Y by (apply open_session_spec; eauto). congruence. }
      intros id id' s s' [[<- <-]|[_ F]]%lookup_insert_Some [[<- <-]|[_ F']]%lookup_insert_Some E O O'; [done| | |by eapply W6].
      * by destruct (No _ _ F' (eq_sym E) O O').
      * by destruct (No _ _ F E O' O).
Qed.

Lemma update_session_ok previous next w w' u :
  rm_sessions w !! es_ID previous = Some previous ->
  es_ID next = es_ID previous -> es_ProjectID next = es_ProjectID previous -> es_CreatedAt next = es_CreatedAt previous ->
  UpdateRoadmapSession world previous next w = (w', Ok u) -> w' = with_session next w.
Proof.
  intros F Ei Ep Ec. unfold UpdateRoadmapSession. intros G%rm_statement_ok. rewrite F, !String.eqb_refl in G.
  injection G as <-. unfold with_session. rewrite Ei. destruct previous, next. cbn in *. by subst.
Qed.

Lemma with_session_good previous next w :
  wf w -> rm_sessions w !! es_ID next = Some previous -> is_open previous = true ->
  es_ProjectID next = es_ProjectID previous -> es_Baseline next = es_Baseline previous -> wf_session (es_ID next) next ->
  good w (with_session next w).
Proof.
  intros W Fp O Ep Eb Ws. split.
  - split; cbn; [done|done|done|]. intros id s F. destruct (decide (id = es_ID next)) as [->|N].
    + exists next. rewrite lookup_insert_eq. split; [done|]. right. rewrite Fp in F. injection F as <-.
      pose proof (ws_id _ _ (wf_sessions w W _ _ Fp)). by split_and!.
    + exists s. rewrite lookup_insert_ne by done. split; [done|by left].
  - intros _. destruct W as [W1 W2 W3 W4 W5 W6]. split; cbn; [exact W1|exact W2|exact W3|exact W4| |].
    + intros id s [[<- <-]|[_ F]]%lookup_insert_Some; [done|by apply W5].
    + intros id id' s s' [[<- <-]|[_ F]]%lookup_insert_Some [[<- <-]|[_ F']]%lookup_insert_Some E O1 O2;
        [done| | |by eapply W6].
      * apply (W6 _ _ _ _ Fp F'); [by rewrite <- Ep|done|done].
      * apply (W6 _ _ _ _ F Fp); [by rewrite <- Ep|done|done].
Qed.

Lemma open_session_of_ok pid id w w' session : open_session_of world pid id w = (w', Ok session) ->
  w' = w /\ rm_sessions w !! id = Some session /\ es_ProjectID session = pid /\ is_open session = true.
Proof.
  unfold open_session_of. intros (w1 & s & (-> & F1 & F2)%session_ok & F)%bind_ok.
  apply bind_ok in F as (w1 & ? & [G ->]%refuse_if_ok & F). injection F as <- <-. by split_bools.
Qed.

Lemma session_to_close_ok pid id input w w' session : session_to_close world pid id input w = (w', Ok session) ->
  w' = w /\ rm_sessions w !! id = Some session /\ es_ProjectID session = pid /\ is_open session = true
  /\ rb_Version (es_Baseline session) = xi_ExpectedBaselineVersion input.
Proof.
  unfold session_to_close. intros (w1 & s & (-> & F1 & F2 & F3)%open_session_of_ok & F)%bind_ok.
  apply bind_ok in F as (w1 & ? & [G ->]%refuse_if_ok & F). injection F as <- <-. by split_bools.
Qed.

(** *** What only reads *)

Lemma reads_inputs resolve state inputs : (forall input, reads (resolve input)) -> reads (resolve_inputs resolve state inputs).
Proof.
  intros R. revert state. induction inputs as [|input inputs IH]; intros state; cbn; [apply keeps_ret|].
  apply keeps_bind; [done|]. intros [source|]; [apply IH|apply keeps_ret].
Qed.

Lemma reads_object_state route p ref : (forall r, reads (route r)) -> reads (object_state world route p ref).
Proof.
  intros R. pose proof (object_reads (world := world)). unfold object_state.
  apply keeps_bind; [apply keeps_refuse_if|intros _]. repeat case_match; keep_frame.
Qed.

Lemma reads_still_current ref state : reads (still_current ref state).
Proof. unfold still_current. keep_frame. Qed.

Lemma reads_other_input p ref : reads (other_input world p ref).
Proof.
  unfold other_input. apply keeps_bind; [apply reads_object_state; intros; apply keeps_fail|].
  intros. apply reads_still_current.
Qed.

Lemma reads_route_object fuel p seen ref : reads (route_object world fuel p seen ref).
Proof.
  revert seen ref. induction fuel as [|fuel IH]; intros seen ref; cbn; [apply keeps_ret|].
  case_decide; [apply keeps_fail|]. apply keeps_bind; [auto with effects|intros node].
  apply reads_inputs. intros input. destruct (_ =? _)%string; [apply IH|].
  apply keeps_bind; [apply reads_other_input|intros; apply keeps_ret].
Qed.

Lemma reads_current_object p ref : reads (currentImpactObject world p ref).
Proof.
  unfold currentImpactObject, readImpactObjectState. apply keeps_bind; [|intros; apply reads_still_current].
  apply reads_object_state. intros r w. unfold currentRouteImpactObject.
  rewrite (reads_run _ w (reads_route_object _ _ _ _)). by destruct (_.2) as [[|]|].
Qed.

Lemma reads_node_state p node : reads (roadmapNodeState world p node).
Proof.
  unfold roadmapNodeState. destruct (_ =? _)%string; [apply keeps_ret|]. destruct (negb _); [apply keeps_ret|].
  induction (rn_Inputs node) as [|ref refs IH]; cbn; [apply keeps_ret|].
  apply keeps_bind; [apply keeps_attempt, reads_current_object|]. intros [state|e]; [|apply keeps_ret].
  destruct (negb _); [apply keeps_ret|exact IH].
Qed.

Lemma reads_baseline p version : reads (roadmapBaselineOf world p version).
Proof.
  unfold roadmapBaselineOf, routeNodesOf, RouteEdges, roadmapNodeViews. keep_frame.
  apply keeps_rm_traverse. intros node. apply keeps_bind; [apply reads_node_state|intros; apply keeps_ret].
Qed.

Lemma reads_verify p session : reads (verifyRoadmapBaseline world p session).
Proof. pose proof reads_baseline. unfold verifyRoadmapBaseline. keep_frame. Qed.

Lemma reads_sessions pid : reads (RoadmapSessions world pid).
Proof. unfold RoadmapSessions. auto with effects. Qed.

Lemma reads_if_found {A} (m : RM A) : reads m -> reads (if_found m).
Proof.
  intros R. unfold if_found. apply keeps_bind; [by apply keeps_attempt|].
  intros [a|e]; [apply keeps_ret|]. case_decide; [apply keeps_ret|apply keeps_fail].
Qed.

Lemma reads_build_node p input : reads (buildRoadmapNodeProposal world p input).
Proof.
  unfold buildRoadmapNodeProposal. apply keeps_bind; [apply keeps_refuse_if|intros _].
  apply keeps_bind; [apply keeps_refuse_if|intros _]. apply keeps_bind; [apply keeps_refuse_if|intros _].
  apply keeps_bind; [apply reads_if_found; auto with effects|intros found]. repeat case_match; keep_frame.
Qed.

Lemma reads_build_edge p input : reads (buildRoadmapEdgeProposal world p input).
Proof.
  assert (forall id, reads (endpoint world p id)) as R.
  { intros id. unfold endpoint. keep_frame. }
  unfold buildRoadmapEdgeProposal. apply keeps_bind; [apply keeps_refuse_if|intros _].
  apply keeps_bind; [apply keeps_refuse_if|intros _].
  apply keeps_bind; [apply reads_if_found; auto with effects|intros found].
  apply keeps_bind; [repeat case_match; keep_frame|intros proposal].
  apply keeps_bind; [apply R|intros _]. apply keeps_bind; [apply R|intros _; apply keeps_ret].
Qed.

Lemma audit_own actor pid action target details : keeps own (recordAuditEvent world actor pid action target details).
Proof. unfold recordAuditEvent. apply keeps_here. intros w. apply on_tables_own. Qed.
End History.

#[export] Hint Resolve reads_current_object reads_baseline reads_verify reads_sessions reads_build_node reads_build_edge
  audit_own : effects.
