(* ===== verification/RoadmapSound.v ===== *)
(** The business writes of the roadmap, one by one: what each does to the
    frozen history and to the sessions. *)

From stdpp Require Import pretty sorting.
From S2P Require Import Prelude Effects OperationCore OperationStore Workspace Permission MemberStore MemberLaws Membership OperationRunner RoadmapModel RoadmapStore RouteObjects Roadmap RoadmapLaws RoadmapHistory.

(** Step over a read, keeping what it answered. *)
Ltac read_step F x E :=
  let w1 := fresh "w" in
  let Q := fresh in
  apply bind_ok in F as (w1 & x & E & F); pose proof E as Q;
  apply reads_ok in Q; [subst w1|solve [auto with effects | keep_frame]].

Section Writes.
Context {X : Type} `{Digester roadmap_any} (world : World X) `{!WorldLaws world}.
Abbreviation db := (sv_db (wd_service world)).

(** ** Saving a session *)

Lemma save_session_ok session next w w' r :
  rm_sessions w !! es_ID session = Some session ->
  es_ID next = es_ID session -> es_ProjectID next = es_ProjectID session -> es_CreatedAt next = es_CreatedAt session ->
  save_session world session next w = (w', Ok r) ->
  r = next <| es_UpdatedAt := wd_now world w |> /\ w' = with_session r w.
Proof.
  intros F Ei Ep Ec. unfold save_session. intros (w1 & n & E & G)%bind_ok. injection E as <- <-.
  apply bind_ok in G as (w1 & u & G & E). injection E as <- <-. split; [done|].
  by eapply update_session_ok; [exact F| | | |exact G].
Qed.

(** A write that reads an open session and saves it, between parts that only
    read or that leave the sessions and the frozen tables alone. *)
Lemma saved_good session next w w1 w' r :
  wf w -> core w1 = core w -> rm_sessions w !! es_ID session = Some session -> is_open session = true ->
  es_ID next = es_ID session -> es_ProjectID next = es_ProjectID session -> es_CreatedAt next = es_CreatedAt session ->
  es_Baseline next = es_Baseline session -> wf_session (es_ID session) next ->
  save_session world session next w1 = (w', Ok r) -> good w w'.
Proof.
  intros W C F O Ei Ep Ec Eb Ws G. pose proof (core_fields _ _ C) as (C1 & _).
  apply save_session_ok in G as [-> ->]; [|by rewrite C1|done|done|done].
  transitivity w1; [by apply core_good|]. eapply with_session_good; [by eapply core_wf| |exact O|done|done|].
  - change (rm_sessions w1 !! es_ID next = Some session). by rewrite C1, Ei.
  - destruct Ws as [Z1 Z2 Z3 Z4 Z5]. by split.
Qed.

Lemma wf_of_open session w : wf w -> rm_sessions w !! es_ID session = Some session -> wf_session (es_ID session) session.
Proof. intros W. apply W. Qed.

Lemma session_id w id session : wf w -> rm_sessions w !! id = Some session -> es_ID session = id.
Proof. intros W F. by apply (ws_id _ _ (wf_sessions w W _ _ F)). Qed.

(** ** Beginning *)

Lemma sound_begin actor pid input p : sound (begin_write world actor pid input p).
Proof.
  intros w w' session F W. unfold begin_write in F. read_step F u E0. read_step F sessions E1. read_step F u2 E2.
  read_step F baseline E3. apply bind_ok in F as (w1 & s & E & F). injection E as <- <-.
  apply bind_ok in F as (w2 & u3 & Ins & F). apply bind_ok in F as (w3 & u4 & Au & F). injection F as <- _.
  transitivity w2; [|apply core_good, own_core; by apply (keeps_run own) in Au; [|apply audit_own]].
  eapply insert_session_good; [done| |exact Ins]. cbn. split; [done|done| |constructor|constructor].
  cbn. split; [discriminate|]. by intros [? ?].
Qed.

(** ** Proposing *)

Lemma NoDup_replace {A} (key : A -> string) (l : list A) (a : A) :
  NoDup (key <$> l) -> NoDup (key <$> (base.filter (fun x => key x <> key a) l ++ [a])).
Proof.
  intros Nd. rewrite fmap_app. apply NoDup_app. split_and!.
  - induction l as [|x l IH]; [constructor|]. cbn in Nd. apply NoDup_cons in Nd as [Hn Nd].
    rewrite filter_cons. case_decide; [|by apply IH]. cbn. apply NoDup_cons. split; [|by apply IH].
    intros Hin. apply Hn. apply list_elem_of_fmap in Hin as (y & -> & Hy).
    apply list_elem_of_filter in Hy as [_ Hy]. by apply list_elem_of_fmap_2.
  - intros k Hin. apply list_elem_of_fmap in Hin as (y & -> & Hy). apply list_elem_of_filter in Hy as [Hy _].
    cbn. by rewrite list_elem_of_singleton.
  - apply NoDup_singleton.
Qed.

Lemma sound_propose_node actor pid id input p : sound (propose_node_write world actor pid id input p).
Proof.
  intros w w' r F W. unfold propose_node_write in F. apply bind_ok in F as (w1 & session & E0 & F).
  apply open_session_of_ok in E0 as (-> & Fs & Ep & O). pose proof (session_id _ _ _ W Fs) as <-.
  read_step F proposal E1. apply bind_ok in F as (w2 & next & Sv & F). apply bind_ok in F as (w3 & u & Au & F).
  injection F as <- _.
  transitivity w2; [|apply core_good, own_core; by apply (keeps_run own) in Au; [|apply audit_own]].
  eapply saved_good; [done|done|exact Fs|done| | | | | |exact Sv]; [done..|].
  destruct (wf_of_open _ _ W Fs) as [Z1 Z2 Z3 Z4 Z5]. split; try done. by apply (NoDup_replace np_NodeID).
Qed.

Lemma sound_propose_edge actor pid id input p : sound (propose_edge_write world actor pid id input p).
Proof.
  intros w w' r F W. unfold propose_edge_write in F. apply bind_ok in F as (w1 & session & E0 & F).
  apply open_session_of_ok in E0 as (-> & Fs & Ep & O). pose proof (session_id _ _ _ W Fs) as <-.
  read_step F proposal E1. apply bind_ok in F as (w2 & next & Sv & F). apply bind_ok in F as (w3 & u & Au & F).
  injection F as <- _.
  transitivity w2; [|apply core_good, own_core; by apply (keeps_run own) in Au; [|apply audit_own]].
  eapply saved_good; [done|done|exact Fs|done| | | | | |exact Sv]; [done..|].
  destruct (wf_of_open _ _ W Fs) as [Z1 Z2 Z3 Z4 Z5]. split; try done. by apply (NoDup_replace ep_EdgeID).
Qed.

(** ** Closing without freezing *)

Lemma status_open session : is_open session = true -> es_Status session = RoadmapEditSessionOpen.
Proof. unfold is_open. by intros ?%String.eqb_eq. Qed.

Lemma no_result session : wf_session (es_ID session) session -> is_open session = true -> es_Result session = None.
Proof.
  intros [_ _ R _ _] O%status_open. destruct (es_Result session) as [result|]; [|done].
  assert (es_Status session = RoadmapEditSessionCommitted) as E by (apply R; by eexists). rewrite O in E. discriminate E.
Qed.

Lemma sound_semantic_close actor pid id input change : sound (semantic_close world actor pid id input change).
Proof.
  intros w w' r F W. unfold semantic_close in F. apply bind_ok in F as (w1 & session & E0 & F).
  apply open_session_of_ok in E0 as (-> & Fs & Ep & O). pose proof (session_id _ _ _ W Fs) as Eid. subst id.
  apply bind_ok in F as (w2 & next & Sv & F). apply bind_ok in F as (w3 & u & Au & F). injection F as <- _.
  transitivity w2; [|apply core_good, own_core; by apply (keeps_run own) in Au; [|apply audit_own]].
  eapply saved_good; [done|done|exact Fs|done| | | | | |exact Sv]; [done..|].
  destruct (wf_of_open _ _ W Fs) as [Z1 Z2 Z3 Z4 Z5]. split; try done.
Qed.

(** *** Impact tasks, dependencies and revisions *)

Lemma insert_task_keeps {V} (I : roadmap -> V) task :
  (forall w t, I (put_tasks t w) = I w) -> keeps I (InsertImpactTask world task).
Proof.
  intros K. unfold InsertImpactTask. apply keeps_bind.
  - intros w. unfold attempt. rewrite (reads_run _ w (reads_row world rm_tasks _ _)). by destruct (_.2).
  - intros [row|e].
    + destruct (merge_causes _ _) as [causes merged]. destruct (negb merged); [apply keeps_ret|].
      apply keeps_here. intros w. by apply keeps_swap_record.
    + case_decide; [by apply keeps_insert_record|apply keeps_fail].
Qed.

Lemma handoff_keeps {V} (I : roadmap -> V) task :
  (forall w t, I (w <| rm_handoffs := t |>) = I w) -> keeps I (InsertImpactHandoff world task).
Proof. intros K. apply keeps_rm_statement. intros w. apply K. Qed.

Lemma tasks_keeps {V} (I : roadmap -> V) p session old next :
  (forall w t, I (put_tasks t w) = I w) -> (forall w t, I (w <| rm_handoffs := t |>) = I w) ->
  keeps I (createRoadmapImpactTasks world p session old next).
Proof.
  intros K1 K2. unfold createRoadmapImpactTasks, DependencyEdges.
  apply keeps_bind; [intros w; by rewrite (reads_run _ w (reads_list world _ _ _))|intros edges].
  apply keeps_here. intros w. apply keeps_rm_each. intros edge.
  apply keeps_bind; [by apply insert_task_keeps|intros _; by apply handoff_keeps].
Qed.

Lemma dependency_core edge : keeps core (StoreConfirmedDependency world edge).
Proof.
  unfold StoreConfirmedDependency, DependencyEdges. apply keeps_bind; [apply keeps_refuse_if|intros _].
  apply keeps_bind; [intros w; by rewrite (reads_run _ w (reads_list world _ _ _))|intros edges].
  destruct (existsb _ _); [apply keeps_ret|]. apply keeps_here. intros w. by apply keeps_insert_record.
Qed.

Lemma on_tables_core {A} (m : T A) : keeps core (on_tables m).
Proof. by apply keeps_on_tables. Qed.

Lemma revision_core p change : keeps core (recordContextRevisionSnapshot world p change).
Proof.
  unfold recordContextRevisionSnapshot. apply keeps_bind.
  - intros w. unfold attempt. rewrite (reads_run _ w (reads_row world rm_revisions _ _)). by destruct (_.2).
  - intros [row|e]; [apply keeps_refuse_if|]. apply keeps_bind; [apply keeps_refuse_if|intros _].
    apply keeps_bind; [apply on_tables_core|intros snapshot]. apply keeps_here. intros w. by apply keeps_insert_record.
Qed.

Lemma audit_core actor pid action target details : keeps core (recordAuditEvent world actor pid action target details).
Proof. intros w. by apply own_core, audit_own. Qed.

Lemma release_core actor p temporary : keeps core (releaseRoadmapTemporaryRefs world actor p temporary).
Proof.
  unfold releaseRoadmapTemporaryRefs, ImpactTasks. destruct (is_nil _); [apply keeps_ret|].
  apply keeps_bind; [intros w; by rewrite (reads_run _ w (reads_list world _ _ _))|intros tasks].
  apply keeps_here. intros w. apply keeps_rm_each. intros task. destruct (closed_task task); [apply keeps_ret|].
  destruct (negb _); [apply keeps_ret|]. apply keeps_bind; [by apply keeps_swap_record|intros _]. apply audit_core.
Qed.

Lemma sound_cancel actor pid id input p : sound (cancel_write world actor pid id input p).
Proof.
  intros w w' r F W. unfold cancel_write in F. apply bind_ok in F as (w1 & session & E0 & F).
  apply session_to_close_ok in E0 as (-> & Fs & Ep & O & _). pose proof (session_id _ _ _ W Fs) as Eid. subst id.
  apply bind_ok in F as (w2 & u & Rl & F). apply (keeps_run core) in Rl; [|apply release_core].
  apply bind_ok in F as (w3 & next & Sv & F). apply bind_ok in F as (w4 & u4 & Au & F). injection F as <- _.
  transitivity w3; [|apply core_good; by apply (keeps_run core) in Au; [|apply audit_core]].
  eapply saved_good; [done|exact Rl|exact Fs|done| | | | | |exact Sv]; [done..|].
  pose proof (no_result session (wf_of_open _ _ W Fs) O) as Nr.
  destruct (wf_of_open _ _ W Fs) as [Z1 Z2 Z3 Z4 Z5]. split; try done. split; [discriminate|].
  change (is_Some (es_Result session) -> RoadmapEditSessionCancelled = RoadmapEditSessionCommitted).
  rewrite Nr. by intros [? ?].
Qed.

(** *** What a task is about *)

(** The project has a task of that identity that names the cause. *)
Definition caused (w : roadmap) (pid key : string) (cause : ImpactCause) : Prop :=
  exists row, rm_tasks w !! (pid, key) = Some row /\ cause ∈ it_Causes (vr_Body row).

Lemma merge_causes_spec old new cause :
  (cause ∈ (merge_causes old new).1 <-> cause ∈ old \/ cause ∈ new)
  /\ ((merge_causes old new).2 = false -> (merge_causes old new).1 = old).
Proof.
  unfold merge_causes. assert (forall causes merged,
    let r := foldl (fun '(causes, merged) cause => if decide (cause ∈ causes) then (causes, merged) else (causes ++ [cause], true))
               (causes, merged) new in
    (cause ∈ r.1 <-> cause ∈ causes \/ cause ∈ new) /\ (r.2 = false -> r.1 = causes /\ merged = false)) as G.
  { induction new as [|c new IH]; intros causes merged; cbn.
    { split; [|done]. split; [by left|]. intros [?|?%not_elem_of_nil]; done. }
    destruct (decide (c ∈ causes)) as [Hin|Hin].
    - destruct (IH causes merged) as [I1 I2]. split; [|exact I2]. rewrite I1, elem_of_cons. intuition (subst; auto).
    - destruct (IH (causes ++ [c]) true) as [I1 I2]. split; [rewrite I1, elem_of_app, list_elem_of_singleton, elem_of_cons; intuition (subst; auto)|].
      intros F. by destruct (I2 F). }
  destruct (G old false) as [G1 G2]. split; [exact G1|]. intros F. by destruct (G2 F).
Qed.

Lemma insert_task_ok task w w' u : InsertImpactTask world task w = (w', Ok u) ->
  (forall cause, cause ∈ it_Causes task -> caused w' (it_ProjectID task) (ImpactTaskIdentity task) cause)
  /\ (forall pid key cause, caused w pid key cause -> caused w' pid key cause)
  /\ (rm_tasks w !! (it_ProjectID task, ImpactTaskIdentity task) = None ->
      rm_tasks w' !! (it_ProjectID task, ImpactTaskIdentity task)
      = Some {| vr_Version := it_Version task; vr_Body := task |}).
Proof.
  unfold InsertImpactTask. intros (w1 & found & F1 & F)%bind_ok. unfold attempt in F1.
  rewrite (reads_run _ w (reads_row world rm_tasks _ _)) in F1. injection F1 as <- <-.
  destruct (readVersionedRecord _ _ _ _ w) as [w1 [row|e]] eqn:E; cbn [snd] in F.
  - apply read_record_ok in E as [_ Fr]. destruct (merge_causes _ _) as [causes merged] eqn:M.
    pose proof (merge_causes_spec (it_Causes (vr_Body row)) (it_Causes task)) as Sp. rewrite M in Sp. cbn in Sp.
    split_and!; [| |intros N; congruence]; destruct merged; cbn [negb] in F.
    + unfold here in F. apply swap_record_ok in F as (r & Fr' & _ & ->). intros cause Hc. eexists. split; [apply lookup_insert_eq|].
      cbn. apply Sp. by right.
    + injection F as <-. intros cause Hc. exists row. split; [done|].
      destruct (Sp cause) as [S1 S2]. rewrite <- (S2 eq_refl). apply S1. by right.
    + unfold here in F. apply swap_record_ok in F as (r & Fr' & _ & ->). intros pid key cause (r' & Fk & Hc). unfold caused. cbn.
      destruct (decide ((it_ProjectID task, ImpactTaskIdentity task) = (pid, key))) as [Eq|N].
      * rewrite Eq, lookup_insert_eq. eexists. split; [done|]. cbn. apply Sp. left.
        rewrite <- Eq in Fk. assert (Some row = Some r') as [= ->] by (etransitivity; [symmetry; exact Fr|exact Fk]). done.
      * rewrite lookup_insert_ne by done. by exists r'.
    + injection F as <-. by intros.
  - case_decide as N; [|discriminate F]. apply insert_record_ok in F as [Fresh ->]. split_and!.
    + intros cause Hc. eexists. split; [apply lookup_insert_eq|done].
    + intros pid key cause (r & Fk & Hc). exists r. split; [|done]. cbn. rewrite lookup_insert_ne; [done|congruence].
    + intros _. apply lookup_insert_eq.
Qed.

Lemma handoff_tasks task : keeps rm_tasks (InsertImpactHandoff world task).
Proof. by apply handoff_keeps. Qed.

Lemma tasks_monotone p session next now edges w w' u :
  rm_each edges (fun edge => _ ← InsertImpactTask world (roadmap_task world p session next now edge);
                             InsertImpactHandoff world (roadmap_task world p session next now edge)) w = (w', Ok u) ->
  (forall pid key cause, caused w pid key cause -> caused w' pid key cause)
  /\ forall edge, edge ∈ edges ->
       let task := roadmap_task world p session next now edge in
       exists cause, it_Causes task = [cause] /\ caused w' (it_ProjectID task) (ImpactTaskIdentity task) cause.
Proof.
  revert w. induction edges as [|edge edges IH]; intros w; cbn [rm_each].
  - intros F. injection F as <-. split; [done|]. intros e Hin. by apply not_elem_of_nil in Hin.
  - intros (w1 & u1 & (w0 & u0 & F0 & F1)%bind_ok & F)%bind_ok. apply IH in F as [M2 C2].
    apply insert_task_ok in F0 as (C1 & M1 & _). apply (keeps_run rm_tasks) in F1; [|apply handoff_tasks].
    assert (forall pid key cause, caused w0 pid key cause -> caused w1 pid key cause) as M0.
    { intros pid key cause (row & Fr & Hc). exists row. split; [|done].
      assert (rm_tasks w1 = rm_tasks w0) as -> by exact F1. exact Fr. }
    split; [auto|]. intros e [->|Hin]%elem_of_cons; [|by apply C2].
    eexists. split; [done|]. apply M2, M0, C1. by left.
Qed.

(** The task a dependent of a node's version is owed. *)
Definition owed (w : roadmap) (p : Project) (session : RoadmapEditSession) (next : RouteNode) (edge : DependencyEdge) : Prop :=
  exists now cause, let task := roadmap_task world p session next now edge in
    it_Causes task = [cause] /\ caused w (pr_ID p) (ImpactTaskIdentity task) cause.

Lemma owed_mono w w' p session next edge :
  (forall pid key cause, caused w pid key cause -> caused w' pid key cause) ->
  owed w p session next edge -> owed w' p session next edge.
Proof. intros M (now & cause & E & C). exists now, cause. split; [done|]. by apply M. Qed.

Lemma create_tasks_ok p session old next w w' u : createRoadmapImpactTasks world p session old next w = (w', Ok u) ->
  (forall pid key cause, caused w pid key cause -> caused w' pid key cause)
  /\ forall id row, rm_dependencies w !! (pr_ID p, id) = Some row -> de_Source (vr_Body row) = node_ref old ->
       owed w' p session next (vr_Body row).
Proof.
  unfold createRoadmapImpactTasks, DependencyEdges. intros (w1 & edges & [-> ->]%rm_query_ok & F)%bind_ok.
  unfold here in F. apply tasks_monotone in F as [M C]. split; [exact M|]. intros id row Fr Es.
  destruct (C (vr_Body row)) as (cause & E & Cc).
  - apply list_elem_of_filter. split; [done|]. rewrite (dependency_order_perm (world := world)).
    apply list_elem_of_fmap. exists (id, vr_Body row). split; [done|]. apply project_records_spec. by exists row.
  - by exists (wd_now world w), cause.
Qed.
End Writes.
