(* ===== verification/RoadmapCommit.v ===== *)
(** The writes that freeze: the frozen commit of an editing session, exactly,
    and the route deltas of a change set; then every way the roadmap moves. *)

From stdpp Require Import pretty sorting.
From S2P Require Import Prelude Effects OperationCore OperationLaws OperationStore OperationTheorems Workspace Permission MemberStore MemberLaws Membership OperationRunner RoadmapModel RoadmapStore RouteObjects Roadmap RoadmapLaws RoadmapHistory RoadmapSound.

Section Commit.
Context {X : Type} `{Digester roadmap_any} (world : World X) `{!WorldLaws world}.
Abbreviation db := (sv_db (wd_service world)).

(** ** One node *)

Lemma rows_own_keys w pid id row : wf w -> rm_nodes w !! (pid, id) = Some row ->
  rn_ProjectID (vr_Body row) = pid /\ rn_ID (vr_Body row) = id.
Proof. intros W F. by destruct (wf_node w W _ _ _ F) as (? & ? & _). Qed.

Lemma freeze_ok actor pid p session now proposal w w' view : wf w ->
  freeze world actor pid p session now proposal w = (w', Ok view) ->
  exists row, rm_nodes w !! (pid, np_NodeID proposal) = Some row
  /\ let next := frozen_node world actor pid p now proposal (vr_Body row) in
     view = applied_view next
     /\ core w' = core (with_node next w) /\ good w w'
     /\ rm_dependencies w' = rm_dependencies w
     /\ (forall pid key cause, caused w pid key cause -> caused w' pid key cause)
     /\ (forall id dep, rm_dependencies w !! (pr_ID p, id) = Some dep -> de_Source (vr_Body dep) = node_ref (vr_Body row) ->
           owed world w' p session next (vr_Body dep)).
Proof.
  intros W. unfold freeze. intros (w1 & old & (-> & row & Fr & <-)%node_ok & F)%bind_ok.
  exists row. split; [exact Fr|]. destruct (rows_own_keys _ _ _ _ W Fr) as [Ep Ei].
  set (next := frozen_node world actor pid p now proposal (vr_Body row)) in *.
  apply bind_ok in F as (w1 & u & Ap & F). apply append_good in Ap as [-> G]; [|done..].
  apply bind_ok in F as (w2 & u2 & Ct & F). injection F as <- <-.
  pose proof (tasks_keeps world core p session (vr_Body row) next (fun _ _ => eq_refl) (fun _ _ => eq_refl)) as Kc.
  pose proof (tasks_keeps world rm_dependencies p session (vr_Body row) next (fun _ _ => eq_refl) (fun _ _ => eq_refl)) as Kd.
  apply (keeps_run _ _ _ _ _ Kc) in Ct as Ec. apply (keeps_run _ _ _ _ _ Kd) in Ct as Ed.
  apply create_tasks_ok in Ct as [M C]; [|done].
  split; [done|]. split; [exact Ec|]. split; [transitivity (with_node next w); [exact G|by apply core_good]|].
  split; [exact Ed|]. split; [exact M|exact C].
Qed.

(** ** All nodes of a session *)

Definition add_node (next : RouteNode) (t : records RouteNode) : records RouteNode :=
  <[(rn_ProjectID next, rn_ID next) := {| vr_Version := rn_Version next; vr_Body := next |}]> t.
Definition add_version (next : RouteNode) (t : records RouteNode) : records RouteNode :=
  <[(rn_ProjectID next, versionKey (rn_ID next) (rn_Version next)) := {| vr_Version := 1; vr_Body := next |}]> t.

(** The frozen tables of [w'] are those of [w] and the given nodes. *)
Record froze (nexts : list RouteNode) (w w' : roadmap) : Prop := {
  fr_nodes : rm_nodes w' = foldl (fun t next => add_node next t) (rm_nodes w) nexts;
  fr_versions : rm_versions w' = foldl (fun t next => add_version next t) (rm_versions w) nexts;
  fr_edges : rm_edges w' = rm_edges w;
  fr_sessions : rm_sessions w' = rm_sessions w
}.

(** The next version of the node a proposal is about, from what [w] holds. *)
Definition next_of (actor : Actor) (pid : string) (p : Project) (now : Z) (w : roadmap) (proposal : RoadmapNodeProposal)
  (next : RouteNode) : Prop :=
  exists row, rm_nodes w !! (pid, np_NodeID proposal) = Some row
  /\ next = frozen_node world actor pid p now proposal (vr_Body row).

Lemma next_of_id actor pid p now w proposal next : wf w -> next_of actor pid p now w proposal next ->
  rn_ID next = np_NodeID proposal /\ rn_ProjectID next = pid.
Proof. intros W (row & Fr & ->). destruct (rows_own_keys _ _ _ _ W Fr) as [_ E]. by split. Qed.

(** Every dependent of the versions left behind is owed a task. *)
Definition obliged (p : Project) (session : RoadmapEditSession) (w0 w' : roadmap) (proposal : RoadmapNodeProposal)
  (next : RouteNode) : Prop :=
  forall row id dep, rm_nodes w0 !! (rn_ProjectID next, np_NodeID proposal) = Some row ->
    rm_dependencies w0 !! (pr_ID p, id) = Some dep -> de_Source (vr_Body dep) = node_ref (vr_Body row) ->
    owed world w' p session next (vr_Body dep).

Lemma freeze_all actor pid p session now proposals w w' views : wf w -> NoDup (np_NodeID <$> proposals) ->
  rm_traverse (freeze world actor pid p session now) proposals w = (w', Ok views) ->
  exists nexts, Forall2 (next_of actor pid p now w) proposals nexts /\ views = applied_view <$> nexts
    /\ froze nexts w w' /\ good w w' /\ rm_dependencies w' = rm_dependencies w
    /\ (forall pid key cause, caused w pid key cause -> caused w' pid key cause)
    /\ Forall2 (obliged p session w w') proposals nexts.
Proof.
  revert w views. induction proposals as [|proposal proposals IH]; intros w views W Nd; cbn [rm_traverse].
  { intros F. injection F as <- <-. exists []. split_and!; try done; try constructor; done. }
  intros (w1 & view & F1 & F)%bind_ok. apply bind_ok in F as (w2 & views' & F2 & F). injection F as <- <-.
  apply NoDup_cons in Nd as [New Nd].
  apply freeze_ok in F1 as (row & Fr & -> & Ec & G1 & Ed & M1 & O1); [|done].
  set (next := frozen_node world actor pid p now proposal (vr_Body row)) in *.
  apply core_fields in Ec as (C1 & C2 & C3 & C4).
  destruct (rows_own_keys _ _ _ _ W Fr) as [_ Ei].
  assert (forall id, id <> np_NodeID proposal -> rm_nodes w1 !! (pid, id) = rm_nodes w !! (pid, id)) as Others.
  { intros id N. rewrite C3. cbn. apply lookup_insert_ne. rewrite Ei. congruence. }
  assert (forall proposal', proposal' ∈ proposals -> np_NodeID proposal' <> np_NodeID proposal) as Ne.
  { intros q Hq E. apply New. apply list_elem_of_fmap. by exists q. }
  apply IH in F2 as (nexts & N & -> & [Fn Fv Fe Fs] & G2 & Ed2 & M2 & O2); [|by apply G1|done].
  exists (next :: nexts). split_and!; [|done| |by transitivity w1|by rewrite Ed2|auto|].
  - constructor; [by exists row|]. apply Forall2_same_length_lookup. split; [by eapply Forall2_length|].
    intros i q n Hq Hn. destruct (Forall2_lookup_lr _ _ _ _ _ _ N Hq Hn) as (r & Hr & ->).
    exists r. split; [|done]. rewrite <- Others; [done|]. apply Ne. by eapply list_elem_of_lookup_2.
  - split; cbn [foldl]; [by rewrite Fn, C3|by rewrite Fv, C4|by rewrite Fe, C2|by rewrite Fs, C1].
  - constructor.
    + intros r id dep Hr Hd Hs. cbn in Hr. rewrite Fr in Hr. injection Hr as <-.
      eapply owed_mono; [exact M2|]. by eapply O1.
    + apply Forall2_same_length_lookup. split; [by eapply Forall2_length|].
      intros i q n Hq Hn r id dep Hr Hd Hs. pose proof (Forall2_lookup_lr _ _ _ _ _ _ O2 Hq Hn) as O.
      destruct (Forall2_lookup_lr _ _ _ _ _ _ N Hq Hn) as (r' & Hr' & ->). cbn in Hr.
      apply (O r id dep); [|by rewrite Ed|done]. cbn. rewrite Others; [done|]. apply Ne. by eapply list_elem_of_lookup_2.
Qed.

(** ** The baseline *)

Definition row_at_baseline (session : RoadmapEditSession) (row : versionedRecord RouteNode) : Prop :=
  node_versions (rb_Nodes (es_Baseline session)) !! rn_ID (vr_Body row) = Some (rn_Version (vr_Body row)).

Lemma views_ok p nodes w w' views : roadmapNodeViews world p nodes w = (w', Ok views) ->
  w' = w /\ Forall2 (fun node view => rn_ID (nv_Node view) = rn_ID node /\ rn_Version (nv_Node view) = rn_Version node) nodes views.
Proof.
  unfold roadmapNodeViews. revert views. induction nodes as [|node nodes IH]; intros views; cbn [rm_traverse].
  { intros F. injection F as <- <-. by split. }
  intros (w1 & view & (w0 & state & F0 & F1)%bind_ok & F)%bind_ok. injection F1 as <- <-.
  apply reads_ok in F0 as ->; [|by apply reads_node_state].
  apply bind_ok in F as (w2 & vs & F2 & F). injection F as <- <-. apply IH in F2 as [-> F2].
  split; [done|]. by constructor.
Qed.

Lemma baseline_ok p version w w' baseline : roadmapBaselineOf world p version w = (w', Ok baseline) ->
  rb_ContextRevision baseline = pr_CurrentContextRevision p
  /\ forall id row, rm_nodes w !! (pr_ID p, id) = Some row ->
       exists view, view ∈ rb_Nodes baseline /\ rn_ID (nv_Node view) = rn_ID (vr_Body row)
         /\ rn_Version (nv_Node view) = rn_Version (vr_Body row).
Proof.
  unfold roadmapBaselineOf, routeNodesOf. intros (w1 & nodes & [-> ->]%rm_query_ok & F)%bind_ok.
  apply bind_ok in F as (w1 & edges & [-> ->]%rm_query_ok & F).
  apply bind_ok in F as (w1 & views & [-> V]%views_ok & F). injection F as _ <-. split; [done|]. intros id row Fr.
  assert (vr_Body row ∈ wd_node_order world (project_records rm_nodes (pr_ID p) w).*2) as Hin.
  { rewrite (node_order_perm (world := world)). apply list_elem_of_fmap. exists (id, vr_Body row). split; [done|].
    apply project_records_spec. by exists row. }
  apply list_elem_of_lookup_1 in Hin as [i Hi]. destruct (Forall2_lookup_l _ _ _ _ _ V Hi) as (view & Hv & E1 & E2).
  exists view. split; [by eapply list_elem_of_lookup_2|done].
Qed.

Lemma verify_ok p session w w' u : verifyRoadmapBaseline world p session w = (w', Ok u) ->
  w' = w /\ pr_CurrentContextRevision p = rb_ContextRevision (es_Baseline session)
  /\ forall id row, rm_nodes w !! (pr_ID p, id) = Some row -> row_at_baseline session row.
Proof.
  intros F. pose proof F as R. apply reads_ok in R as ->; [|by apply reads_verify]. split; [done|].
  unfold verifyRoadmapBaseline in F. apply bind_ok in F as (w1 & current & B & F).
  apply baseline_ok in B as [Er Bn]. apply bind_ok in F as (w2 & u2 & [G1 ->]%refuse_if_ok & F).
  apply bind_ok in F as (w2 & u3 & [G2 ->]%refuse_if_ok & _). split_bools. split; [congruence|].
  intros id row (view & Hv & E1 & E2)%Bn. unfold row_at_baseline. rewrite <- E1, <- E2.
  rewrite forallb_forall in G2. apply list_elem_of_In in Hv. by apply G2, bool_decide_eq_true in Hv.
Qed.

(** ** The revision of the project *)

Lemma update_revision tenant p q w w' u : UpdateProject db tenant p q w = (w', Ok u) ->
  exists row, tb_projects w' !! pr_ID p = Some row /\ row_CurrentContextRevision row = pr_CurrentContextRevision q
  /\ row_ProjectVersion row = pr_ProjectVersion q.
Proof.
  unfold UpdateProject. intros (w1 & [spec meta] & F1 & F)%bind_ok. injection F1 as <- _.
  apply bind_ok in F as (w1 & u1 & F2 & F). apply update_affected in F2 as (row & Hr & Hc & ->).
  apply (keeps_run tb_projects) in F; [|apply persist_projects]. cbn in F.
  eexists. split; [etransitivity; [apply (f_equal (fun t => t !! pr_ID p)); exact F|apply lookup_insert_eq]|done].
Qed.

(** The project is one revision and one version further. *)
Definition advanced (p : Project) (w' : roadmap) : Prop :=
  exists row, tb_projects (rm_tables w') !! pr_ID p = Some row
  /\ row_CurrentContextRevision row = pr_CurrentContextRevision p +i 1
  /\ row_ProjectVersion row = pr_ProjectVersion p +i 1.

Lemma advance_ok actor p session w w' u : advance_revision world actor p session w = (w', Ok u) ->
  core w' = core w /\ rm_tasks w' = rm_tasks w /\ advanced p w'.
Proof.
  unfold advance_revision. intros (w1 & u1 & F1 & F)%bind_ok.
  assert (rm_tasks w1 = rm_tasks w) as E1.
  { unfold recordContextRevisionSnapshot in F1. eapply (keeps_run rm_tasks); [|exact F1].
    apply keeps_bind; [intros w0; unfold attempt; rewrite (reads_run _ w0 (reads_row world rm_revisions _ _)); by destruct (_.2)|].
    intros [row|e]; [apply keeps_refuse_if|]. apply keeps_bind; [apply keeps_refuse_if|intros _].
    apply keeps_bind; [by apply keeps_on_tables|intros snapshot]. apply keeps_here. intros w0. by apply keeps_insert_record. }
  apply (keeps_run core) in F1; [|by apply revision_core].
  apply on_tables_ok in F as [F E]. apply update_revision in F as (row & Fr & Er & Ev).
  assert (core w' = core w1 /\ rm_tasks w' = rm_tasks w1) as [C T] by (by rewrite E).
  split; [by rewrite C|]. split; [by rewrite T|]. by exists row.
Qed.

(** ** The frozen commit *)

Definition closing (session : RoadmapEditSession) (result : RoadmapCommitResult) (now : Z) : RoadmapEditSession :=
  session <| es_Status := RoadmapEditSessionCommitted |> <| es_Result := Some result |> <| es_UpdatedAt := now |>.

Record frozen_commit (actor : Actor) (pid id : string) (input : RoadmapCloseInput) (p : Project) (w w' : roadmap)
  (result : RoadmapCommitResult) (session : RoadmapEditSession) (nexts : list RouteNode) (now : Z) : Prop := {
  fc_session : rm_sessions w !! id = Some session /\ es_ProjectID session = pid /\ is_open session = true;
  fc_expected : rb_Version (es_Baseline session) = xi_ExpectedBaselineVersion input;
  fc_baseline nid row : rm_nodes w !! (pr_ID p, nid) = Some row -> row_at_baseline session row;
  fc_next : Forall2 (next_of actor pid p now w) (es_NodeProposals session) nexts;
  fc_nodes : rm_nodes w' = foldl (fun t next => add_node next t) (rm_nodes w) nexts;
  fc_versions : rm_versions w' = foldl (fun t next => add_version next t) (rm_versions w) nexts;
  fc_edges : rm_edges w' = rm_edges w;
  fc_sessions : rm_sessions w' = <[id := closing session result now]> (rm_sessions w);
  fc_result : cr_AppliedNodes result = applied_view <$> nexts /\ cr_SessionID result = id
    /\ cr_CommittedVersion result = rb_Version (es_Baseline session) +i 1 /\ cr_Semantic result = false;
  fc_obliged : Forall2 (obliged p session w w') (es_NodeProposals session) nexts;
  fc_advanced : nexts <> [] -> advanced p w'
}.

Lemma audit_tables actor pid action target details :
  keeps (fun w => tb_projects (rm_tables w)) (recordAuditEvent world actor pid action target details).
Proof.
  unfold recordAuditEvent. apply keeps_here. intros w w0. unfold on_tables, RecordAudit, exec, statement, modify.
  by destruct (db_fault _ _ _).
Qed.

Lemma frozen_write_ok actor pid id input p w w' result : wf w ->
  frozen_write world actor pid id input p w = (w', Ok result) ->
  good w w' /\ exists session nexts now, frozen_commit actor pid id input p w w' result session nexts now.
Proof.
  intros W. unfold frozen_write. intros (w1 & session & E0 & F)%bind_ok.
  apply session_to_close_ok in E0 as (-> & Fs & Ep & O & Ev). pose proof (session_id _ _ _ W Fs) as Eid. subst id.
  apply bind_ok in F as (w1 & u1 & Vf & F). apply verify_ok in Vf as (-> & Er & Bl).
  apply bind_ok in F as (w1 & now & N & F). injection N as <- <-. set (now := wd_now world w) in *.
  apply bind_ok in F as (w1 & applied & Fz & F).
  pose proof (wf_of_open _ _ W Fs) as Ws.
  apply freeze_all in Fz as (nexts & Nx & -> & [Fn Fv Fe Fss] & G1 & Ed & M & Ob); [|done|by destruct Ws].
  apply bind_ok in F as (w2 & u2 & Up & F).
  apply update_session_ok in Up as ->; [|by rewrite Fss|done|done|done].
  set (closed := session <| es_Status := _ |> <| es_Result := _ |> <| es_UpdatedAt := _ |>) in *.
  assert (good w (with_session closed w1)) as G2.
  { transitivity w1; [exact G1|]. eapply with_session_good; [by apply G1| |exact O|done|done|].
    - change (rm_sessions w1 !! es_ID session = Some session). by rewrite Fss.
    - destruct Ws as [Z1 Z2 Z3 Z4 Z5]. split; try done. }
  apply bind_ok in F as (w3 & u3 & Ad & F). apply bind_ok in F as (w4 & u4 & Au & F). injection F as <- <-.
  assert (core w3 = core (with_session closed w1) /\ rm_tasks w3 = rm_tasks w1 /\ (nexts <> [] -> advanced p w3)) as (C3 & T3 & A3).
  { destruct nexts as [|n nexts]; cbn in Ad; [injection Ad as <-; by split_and!|].
    apply advance_ok in Ad as (C & T & A). by split_and!. }
  pose proof Au as Au2. pose proof Au as Au3.
  apply (keeps_run own) in Au; [|by apply audit_own]. apply own_core in Au as C4.
  apply (keeps_run (fun w => tb_projects (rm_tables w))) in Au2; [|by apply audit_tables].
  rewrite C3 in C4. split; [etransitivity; [exact G2|by apply core_good]|].
  apply core_fields in C4 as (D1 & D2 & D3 & D4). apply elsewhere_fields in Au as (_ & _ & _ & _ & _ & T4 & _).
  exists session, nexts, now. split.
  - by split_and!.
  - exact Ev.
  - exact Bl.
  - exact Nx.
  - rewrite D3. exact Fn.
  - rewrite D4. exact Fv.
  - rewrite D2. exact Fe.
  - rewrite D1. cbn. by rewrite Fss.
  - by split_and!.
  - eapply Forall2_impl; [exact Ob|]. intros q n Oq row i dep Hr Hd Hs. eapply owed_mono; [|by eapply Oq].
    intros pid' key cause (r & Hrw & Hc). exists r. split; [|done]. rewrite T4, T3. exact Hrw.
  - intros Ne. destruct (A3 Ne) as (row & Fr & E). exists row. split; [|exact E]. by rewrite Au2.
Qed.

(** ** The deltas of a change set *)

Lemma found_or_new_ok {A} (m : RM A) expected new w w' a : reads m ->
  found_or_new m expected new w = (w', Ok a) -> w' = w /\ (m w = (w, Ok a) \/ a = new).
Proof.
  intros R. unfold found_or_new. intros (w1 & found & F1 & F)%bind_ok. unfold attempt in F1.
  rewrite (reads_run _ w R) in F1 |- *. injection F1 as <- <-. destruct (m w).2 as [b|e].
  - injection F as <- <-. split; [done|by left].
  - destruct (_ && _); [|discriminate F]. injection F as <- <-. split; [done|by right].
Qed.

Lemma sound_apply_node actor before next reason delta : sound (apply_route_node world actor before next reason delta).
Proof.
  intros w w' u F W. unfold apply_route_node in F. apply bind_ok in F as (w1 & old & Fo & F).
  apply found_or_new_ok in Fo as [-> Fo]; [|apply reads_node].
  assert (rn_ProjectID old = pr_ID before /\ rn_ID old = sd_TargetID delta) as [Ep Ei].
  { destruct Fo as [(_ & row & Fr & <-)%node_ok| ->]; [|done]. by apply (rows_own_keys w). }
  destruct (sd_ProposedRoute delta) as [proposed|]; [|discriminate F]. unfold here in F.
  apply bind_ok in F as (w1 & u1 & Ap & F). apply append_good in Ap as [_ G]; [|done..].
  etransitivity; [exact G|]. apply core_good. eapply (keeps_run core); [|exact F].
  apply keeps_rm_each. intros ref. by apply dependency_core.
Qed.

Lemma sound_apply_edge actor before next reason delta : sound (apply_route_edge world actor before next reason delta).
Proof.
  intros w w' u F W. unfold apply_route_edge in F. apply bind_ok in F as (w1 & old & Fo & F).
  apply found_or_new_ok in Fo as [-> Fo]; [|apply reads_edge].
  destruct (sd_ProposedEdge delta) as [proposed|]; [|discriminate F]. unfold here in F.
  eapply insert_edge_good; [done| | |exact F]; cbn [re_Version re_ID re_ProjectID]; [apply i64_in_range|].
  destruct Fo as [[_ L]%edge_ok| ->]; [right|by left].
  apply latest_edge_row in L as (key & row & Fr & -> & Ep & Ei).
  destruct (wf_edge w W _ _ Fr) as (-> & R & _). exists row. cbn [routeEdgeFromRow re_Version].
  rewrite (i64_add_sub _ 1 R), <- Ei. by split.
Qed.

Lemma sound_apply_delta actor before next reason delta : sound (apply_delta world actor before next reason delta).
Proof.
  unfold apply_delta. apply (guided_bind wf good); [|intros _; by apply (guided_own wf good), audit_own].
  destruct (_ =? _)%string; [apply sound_apply_node|].
  destruct (_ =? _)%string; [apply sound_apply_edge|apply (guided_own wf good), on_tables_own].
Qed.

Lemma sound_apply actor before next reason deltas : sound (apply_deltas world actor before next reason deltas).
Proof. apply (guided_each wf good). intros delta. apply sound_apply_delta. Qed.

(** ** Every call *)

Lemma sound_frozen actor pid id input p : sound (frozen_write world actor pid id input p).
Proof. intros w w' r F W. by apply frozen_write_ok in F as [G _]. Qed.

End Commit.

(** The writes of the component, as calls. *)
Inductive roadmap_call :=
| CallBegin (actor : Actor) (pid key : string) (input : RoadmapEditBeginInput)
| CallProposeNode (actor : Actor) (pid id key : string) (input : RoadmapNodeProposalInput)
| CallProposeEdge (actor : Actor) (pid id key : string) (input : RoadmapEdgeProposalInput)
| CallCommit (actor : Actor) (pid id key : string) (input : RoadmapCloseInput)
| CallCancel (actor : Actor) (pid id key : string) (input : RoadmapCloseInput).

Section Calls.
Context {X : Type} `{Digester roadmap_any} (world : World X) `{!WorldLaws world}.

Definition perform (ctx : Context X) (call : roadmap_call) : RM (string * Z * bool) :=
  match call with
  | CallBegin actor pid key input => BeginRoadmapEdit world ctx actor pid key input
  | CallProposeNode actor pid id key input => ProposeRoadmapNode world ctx actor pid id key input
  | CallProposeEdge actor pid id key input => ProposeRoadmapEdge world ctx actor pid id key input
  | CallCommit actor pid id key input => CommitRoadmapEdit world ctx actor pid id key input
  | CallCancel actor pid id key input => CancelRoadmapEdit world ctx actor pid id key input
  end.

Lemma draft_own ctx actor pid key input : keeps own (CreateChangeDraft world ctx actor pid key input).
Proof. unfold CreateChangeDraft. apply keeps_bind; [by intros w; destruct (validateExtendedChangeInput _)|intros _; apply (draft_keeps (world := world))]. Qed.

Definition fresh_success (r : res error (string * Z * bool)) : bool :=
  match r with Ok (_, _, again) => negb again | Err _ => false end.

(** What a commit does: nothing, the frozen write, or the draft of a change
    set and then the close of the session. *)
Inductive commit_moves (actor : Actor) (pid id : string) (input : RoadmapCloseInput) (w w' : roadmap)
  (r : res error (string * Z * bool)) : Prop :=
| commit_nothing : fresh_success r = false -> elsewhere w w' -> commit_moves actor pid id input w w' r
| commit_frozen p w0 w1 result : pr_ID p = pid -> elsewhere w w0 ->
    frozen_write world actor pid id input p w0 = (w1, Ok result) -> elsewhere w1 w' -> commit_moves actor pid id input w w' r
| commit_semantic w0 change result : elsewhere w w0 ->
    semantic_close world actor pid id input change w0 = (w', Ok result) -> commit_moves actor pid id input w w' r.

Lemma commit_run ctx actor pid id key input w w' r :
  CommitRoadmapEdit world ctx actor pid id key input w = (w', r) -> commit_moves actor pid id input w w' r.
Proof.
  unfold CommitRoadmapEdit. destruct (bad_close input); [intros F; injection F as <- <-; by apply commit_nothing|].
  unfold RequireHuman, returned, mbind at 1, M_bind at 1.
  destruct (RequireHumanDecision _ _); [intros F; injection F as <- <-; by apply commit_nothing|].
  cbn [mret M_ret]. unfold mbind at 1, M_bind at 1. destruct (transaction _ _ _ _ w) as [w1 [[[semantic deltas] rev]|e]] eqn:T.
  2: { apply (transaction_outcome world) in T as ->; [|done]. intros F. injection F as <- <-. by apply commit_nothing. }
  apply (transaction_outcome world) in T as [_ ->]; [|done|done]. destruct semantic.
  - unfold commitRoadmapSemanticEdit. unfold mbind at 1, M_bind at 1.
    destruct (CreateChangeDraft world ctx actor pid (key +:+ "-changeset") (commit_draft rev (xi_Reason input) deltas) w)
      as [w2 [[change base]|e]] eqn:D; pose proof (keeps_run own _ _ _ _ (draft_own _ _ _ _ _) D) as E.
    2: { intros F. injection F as <- <-. by apply commit_nothing. }
    unfold mbind at 1, M_bind at 1.
    destruct (transaction world zero_commit read_write (semantic_close world actor pid id input change) w2)
      as [w3 [result|e]] eqn:T.
    + apply (transaction_outcome world) in T as [T _]; [|done]. intros F.
      assert (w' = w3) as -> by (by destruct (json_Marshal _); injection F as <- _).
      by eapply commit_semantic.
    + apply (transaction_outcome world) in T as ->; [|done]. intros F. injection F as <- <-. by apply commit_nothing.
  - unfold commitRoadmapFrozenEdit. intros F.
    assert ((fresh_success r = false /\ elsewhere w w') \/ ran world actor pid
      (fun p => result ← frozen_write world actor pid id input p; mret (AnyResult result, "", OperationStatusOK)) w w') as [[Fr E]|R];
      [|by apply commit_nothing|].
    { apply (run_outcome world) in F. destruct r as [[[body status] [|]]|e]; [by left|by right|destruct F; [by left|by right]]. }
    clear F. apply (ran_project world) in R as (w0 & w2 & p & a & Ep & E0 & F & E1).
    apply bind_ok in F as (w3 & result & F & G). injection G as <- _. by eapply commit_frozen.
Qed.

(** What guides every write guides every call. *)
Section Guiding.
Context (ok : roadmap -> Prop) (R : relation roadmap) `{!Guide ok R}.
Hypothesis guide_begin : forall actor pid input p, guided ok R (begin_write world actor pid input p).
Hypothesis guide_node : forall actor pid id input p, guided ok R (propose_node_write world actor pid id input p).
Hypothesis guide_edge : forall actor pid id input p, guided ok R (propose_edge_write world actor pid id input p).
Hypothesis guide_frozen : forall actor pid id input p, guided ok R (frozen_write world actor pid id input p).
Hypothesis guide_close : forall actor pid id input change, guided ok R (semantic_close world actor pid id input change).
Hypothesis guide_cancel : forall actor pid id input p, guided ok R (cancel_write world actor pid id input p).

Lemma call_steered ctx call : steered ok R (perform ctx call).
Proof.
  assert (forall {A} actor pid name target key body (write : Project -> RM A) f, (forall p, guided ok R (write p)) ->
    steered ok R (_ ← RequireHuman ctx; runOperation world ctx actor pid name target key body (fun p => a ← write p; mret (f a)))) as Run.
  { intros A actor pid name target key body write f G. apply (steered_bind ok R); [by apply (steered_human ok R)|intros _].
    apply (steered_run ok R world). intros p. apply (guided_answer ok R), G. }
  destruct call as [actor pid key input|actor pid id key input|actor pid id key input|actor pid id key input
                   |actor pid id key input]; cbn [perform].
  - unfold BeginRoadmapEdit. destruct (_ || _); [by apply (steered_fail ok R)|]. by apply Run.
  - by apply Run.
  - by apply Run.
  - intros w w' r F W. apply commit_run in F as [_ E|p w0 w1 result _ E0 F E1|w0 change result E0 F].
    + by apply (R_elsewhere (ok := ok)).
    + transitivity w0; [by apply (R_elsewhere (ok := ok))|]. transitivity w1; [|by apply (R_elsewhere (ok := ok))].
      eapply guide_frozen; [exact F|]. eapply (R_ok (R := R)); [by apply (R_elsewhere (ok := ok))|done].
    + transitivity w0; [by apply (R_elsewhere (ok := ok))|].
      eapply guide_close; [exact F|]. eapply (R_ok (R := R)); [by apply (R_elsewhere (ok := ok))|done].
  - unfold CancelRoadmapEdit. destruct (bad_close input); [by apply (steered_fail ok R)|]. by apply Run.
Qed.
End Guiding.

Lemma call_moves ctx call : moves (perform ctx call).
Proof.
  apply (call_steered wf good); intros; [apply (sound_begin world)|apply (sound_propose_node world)|apply (sound_propose_edge world)
    |apply (sound_frozen world)|apply (sound_semantic_close world)|apply (sound_cancel world)].
Qed.
End Calls.
