(* ===== verification/RoadmapSteps.v ===== *)
(** The keys of frozen versions, "id/version": two ids and versions with the
    same key are the same, and a version is parsed back from its key.  How the
    roadmap moves: the calls of the component, the application of a change
    set's deltas and everything else as one step relation; the calls that leave
    the frozen tables alone; and the reading of a node's history. *)

From stdpp Require Import pretty sorting.
From Stdlib Require Import Ascii String.
From S2P Require Import Prelude Effects OperationCore OperationLaws OperationStore OperationTheorems Workspace Permission MemberStore MemberLaws Membership OperationRunner RoadmapModel RoadmapStore RouteObjects Roadmap RoadmapLaws RoadmapHistory RoadmapSound RoadmapCommit.

(** ** Numbers as text *)

Fixpoint has_char (c : ascii) (s : string) : bool :=
  match s with EmptyString => false | String d s' => Ascii.eqb d c || has_char c s' end.

Lemma has_char_app c a b : has_char c (a +:+ b) = has_char c a || has_char c b.
Proof.
  induction a as [|d a IH]; [done|]. change (Ascii.eqb d c || has_char c (a +:+ b) = Ascii.eqb d c || has_char c a || has_char c b).
  by rewrite IH, orb_assoc.
Qed.

(** Induction over the digits [pretty] writes in front of a text. *)
Lemma pretty_go_ind (P : string -> Prop) x s :
  P s -> (forall y t, (y < 10)%N -> P t -> P (String (pretty_N_char y) t)) -> P (pretty_N_go x s).
Proof.
  intros Ps Step. revert s Ps. induction (N.lt_wf_0 x) as [x _ IH]; intros s Ps.
  destruct (decide (x = 0)%N) as [->|N]; [by rewrite pretty_N_go_0|].
  rewrite pretty_N_go_step by lia. apply IH; [apply N.div_lt; lia|]. apply Step; [|done]. by apply N.mod_lt.
Qed.

Lemma digit_char y : (y < 10)%N -> digit (pretty_N_char y) = Some (Z.of_N y).
Proof.
  intros L. assert (y = 0 \/ y = 1 \/ y = 2 \/ y = 3 \/ y = 4 \/ y = 5 \/ y = 6 \/ y = 7 \/ y = 8 \/ y = 9)%N as D by lia.
  by repeat destruct D as [->|D]; subst.
Qed.

Lemma digit_not c y : (y < 10)%N -> digit c = None -> Ascii.eqb (pretty_N_char y) c = false.
Proof.
  intros L D. destruct (Ascii.eqb _ c) eqn:E; [|done]. apply Ascii.eqb_eq in E as <-. by rewrite digit_char in D.
Qed.

Lemma pretty_no_slash (z : Z) : has_char slash (pretty z) = false.
Proof.
  assert (forall n : N, has_char slash (pretty n) = false) as G.
  { intros n. unfold pretty, pretty_N. destruct (decide _); [done|].
    apply (pretty_go_ind (fun s => has_char slash s = false)); [done|]. intros y t L IH. cbn. rewrite IH.
    by rewrite digit_not. }
  destruct z; [done|exact (G (Npos p))|]. unfold pretty, pretty_Z. cbn. exact (G (Npos p)).
Qed.

(** The digits of a positive number, read after [acc] was. *)
Lemma parse_go x s : (0 < x)%N -> parse_digits 0 (pretty_N_go x s) = parse_digits (Z.of_N x) s.
Proof.
  revert s. induction (N.lt_wf_0 x) as [x _ IH]; intros s L. rewrite pretty_N_go_step by done.
  assert (x = 10 * (x / 10) + x mod 10)%N as E by (by apply N.div_mod).
  assert (x mod 10 < 10)%N as M by (by apply N.mod_lt).
  assert (parse_digits (Z.of_N (x / 10)) (String (pretty_N_char (x mod 10)) s) = parse_digits (Z.of_N x) s) as Step.
  { cbn [parse_digits]. rewrite (digit_char _ M). cbn. f_equal. lia. }
  destruct (decide (x / 10 = 0)%N) as [Z|N].
  - rewrite <- Step, Z. by rewrite pretty_N_go_0.
  - rewrite IH; [exact Step|by apply N.div_lt|lia].
Qed.

Lemma parse_pretty_N (n : N) : exists c s, pretty n = String c s /\ digit c <> None /\ parse_digits 0 (pretty n) = Some (Z.of_N n).
Proof.
  unfold pretty, pretty_N. destruct (decide (n = 0)%N) as [->|N]; [by exists "0"%char, ""|].
  assert (pretty_N_go n "" = "" \/ exists c s, pretty_N_go n "" = String c s /\ digit c <> None) as [E|(c & s & E & D)].
  - apply (pretty_go_ind (fun s => s = "" \/ exists c t, s = String c t /\ digit c <> None)); [by left|].
    intros y t L _. right. exists (pretty_N_char y), t. split; [done|]. by rewrite digit_char.
  - exfalso. pose proof (parse_go n "" ltac:(lia)) as G. rewrite E in G. cbn in G. injection G as G. lia.
  - exists c, s. split; [done|]. split; [done|]. rewrite parse_go by lia. done.
Qed.

(** [strconv.ParseInt] reads back what [strconv.FormatInt] wrote. *)
Lemma ParseInt_pretty z : int64_range z -> ParseInt (pretty z) = Some z.
Proof.
  intros R. assert (in_int64 z = Some z) as I.
  { unfold in_int64. unfold int64_range in R. by rewrite !(proj2 (Z.leb_le _ _)) by lia. }
  destruct z as [|p|p]; [done| |].
  - destruct (parse_pretty_N (Npos p)) as (c & s & E & D & Pd).
    change (pretty (Zpos p)) with (pretty (Npos p)). rewrite E in *. cbn [ParseInt].
    assert (Ascii.eqb c "-"%char = false) as -> by (destruct (Ascii.eqb_spec c "-"%char); [subst; by destruct D|done]).
    assert (Ascii.eqb c "+"%char = false) as -> by (destruct (Ascii.eqb_spec c "+"%char); [subst; by destruct D|done]).
    cbn [orb]. rewrite Pd. exact I.
  - destruct (parse_pretty_N (Npos p)) as (c & s & E & D & Pd).
    change (pretty (Zneg p)) with ("-" +:+ pretty (Npos p)). rewrite E in *.
    change ((n ← parse_digits 0 (String c s); in_int64 (- n)) = Some (Zneg p)). rewrite Pd. exact I.
Qed.

(** ** Keys *)

Lemma app_nil (a : string) : "" +:+ a = a.
Proof. done. Qed.
Lemma app_cons c (a b : string) : String c a +:+ b = String c (a +:+ b).
Proof. done. Qed.

Lemma strip_prefix_app p s : strip_prefix p (p +:+ s) = Some s.
Proof.
  induction p as [|c p IH]; [by destruct s|].
  change (strip_prefix (String c p) (String c (p +:+ s)) = Some s). cbn [strip_prefix]. by rewrite Ascii.eqb_refl.
Qed.

Lemma strip_prefix_some p s r : strip_prefix p s = Some r -> s = p +:+ r.
Proof.
  revert s. induction p as [|c p IH]; intros [|d s]; cbn [strip_prefix]; try discriminate; [by intros [= <-]..|].
  destruct (Ascii.eqb_spec c d) as [->|]; [|discriminate]. by intros ->%IH.
Qed.

Lemma app_assoc_string (a b c : string) : (a +:+ b) +:+ c = a +:+ (b +:+ c).
Proof.
  induction a as [|d a IH]; [done|]. change (String d ((a +:+ b) +:+ c) = String d (a +:+ (b +:+ c))). by rewrite IH.
Qed.

(** The part after the last slash. *)
Lemma last_slash x y a b : has_char slash a = false -> has_char slash b = false ->
  x +:+ "/" +:+ a = y +:+ "/" +:+ b -> x = y /\ a = b.
Proof.
  intros Ha Hb. revert y. induction x as [|c x IH]; intros [|d y] E; rewrite ?app_cons, ?app_nil in E.
  - by injection E as ->.
  - injection E as <- E. subst a. rewrite !has_char_app in Ha. by rewrite orb_true_r in Ha.
  - injection E as -> E. subst b. rewrite !has_char_app in Hb. by rewrite orb_true_r in Hb.
  - injection E as <- E. by apply IH in E as [<- <-].
Qed.

Lemma versionKey_inj id v id' v' : versionKey id v = versionKey id' v' -> id = id' /\ v = v'.
Proof.
  unfold versionKey. intros E. apply last_slash in E as [-> E]; [|apply pretty_no_slash..].
  split; [done|]. by apply (inj pretty).
Qed.

(** A key with the prefix of a node is a key of that node, or of one whose id
    has that prefix. *)
Lemma strip_version_key id id' v :
  strip_prefix (id +:+ "/") (versionKey id' v)
  = if decide (id = id') then Some (pretty v)
    else match strip_prefix (id +:+ "/") id' with
         | Some rest => Some (rest +:+ "/" +:+ pretty v)
         | None => None
         end.
Proof.
  unfold versionKey. destruct (decide (id = id')) as [->|N].
  - rewrite <- app_assoc_string. apply strip_prefix_app.
  - revert id' N. induction id as [|c id IH]; intros [|d id'] N; rewrite ?app_cons, ?app_nil; cbn [strip_prefix].
    + done.
    + destruct (Ascii.eqb_spec "/"%char d) as [<-|]; [|done]. by destruct id'.
    + destruct (Ascii.eqb_spec c "/"%char) as [->|]; [|done].
      destruct (strip_prefix _ _) as [r|] eqn:E; [|done]. apply strip_prefix_some in E.
      pose proof (pretty_no_slash v) as S. rewrite E, !has_char_app in S.
      by rewrite orb_true_r, orb_true_l in S.
    + destruct (Ascii.eqb_spec c d) as [->|]; [|done]. apply IH. congruence.
Qed.

(** ** How the roadmap moves *)

Section Steps.
Context {X : Type} `{Digester roadmap_any} (world : World X) `{!WorldLaws world}.

(** A call of the component; the application of a change set's deltas in a
    transaction; anything else, which leaves nodes, edges and sessions alone. *)
Inductive roadmap_step (w w' : roadmap) : Prop :=
| step_call ctx call r : perform world ctx call w = (w', r) -> roadmap_step w w'
| step_apply actor before next reason deltas r :
    transaction world tt read_write (apply_deltas world actor before next reason deltas) w = (w', r) -> roadmap_step w w'
| step_other : core w' = core w -> roadmap_step w w'.

Lemma step_good w w' : roadmap_step w w' -> wf w -> good w w'.
Proof.
  intros [ctx call r F|actor before next reason deltas r F|E] W.
  - by eapply (call_moves world).
  - by eapply (steered_transaction wf good world); [|apply (sound_apply world)|exact F|].
  - by apply core_good.
Qed.

Lemma steps_good w w' : rtc roadmap_step w w' -> wf w -> good w w'.
Proof.
  induction 1 as [w|w w1 w' S _ IH]; intros W; [done|]. apply step_good in S; [|done].
  transitivity w1; [exact S|]. apply IH. by apply S.
Qed.

(** *** Edits and the rest of the roadmap *)

(** An observation that the roadmap's own tables decide, and sessions do not. *)
Class Sessionless {V} (I : roadmap -> V) := {
  sessionless_own w w' : elsewhere w w' -> I w' = I w;
  sessionless w t : I (w <| rm_sessions := t |>) = I w
}.

Section Edits.
Context {V : Type} (I : roadmap -> V) `{!Sessionless I}.

Lemma own_kept {A} (m : RM A) : keeps own m -> keeps I m.
Proof. intros K. apply keeps_own; [|done]. intros w w'. apply sessionless_own. Qed.

Lemma reads_kept {A} (m : RM A) : reads m -> keeps I m.
Proof. intros K w. by rewrite (reads_run m w K). Qed.

Lemma save_kept session next : keeps I (save_session world session next).
Proof.
  unfold save_session, UpdateRoadmapSession. apply keeps_bind; [by apply keeps_here|intros n].
  apply keeps_bind; [|intros _; apply keeps_ret]. apply keeps_rm_statement. intros w.
  destruct (rm_sessions w !! _); [|done]. destruct (_ && _); [apply sessionless|done].
Qed.

Lemma begin_kept actor pid input p : keeps I (begin_write world actor pid input p).
Proof.
  unfold begin_write. apply keeps_bind; [apply keeps_refuse_if|intros _].
  apply keeps_bind; [apply reads_kept, reads_sessions|intros sessions]. apply keeps_bind; [apply keeps_refuse_if|intros _].
  apply keeps_bind; [by apply reads_kept, reads_baseline|intros baseline].
  apply keeps_bind; [by apply keeps_here|intros session].
  apply keeps_bind; [|intros _; apply keeps_bind; [apply own_kept, audit_own|intros _; apply keeps_ret]].
  apply keeps_rm_statement. intros w. destruct (rm_sessions w !! _); [done|]. destruct (_ && _); [done|apply sessionless].
Qed.

Lemma reads_open_session pid id : reads (open_session_of world pid id).
Proof. unfold open_session_of. keep_frame. Qed.

Lemma propose_node_kept actor pid id input p : keeps I (propose_node_write world actor pid id input p).
Proof.
  unfold propose_node_write. apply keeps_bind; [apply reads_kept, reads_open_session|intros session].
  apply keeps_bind; [by apply reads_kept, reads_build_node|intros proposal].
  apply keeps_bind; [apply save_kept|intros next].
  apply keeps_bind; [apply own_kept, audit_own|intros _; apply keeps_ret].
Qed.

Lemma propose_edge_kept actor pid id input p : keeps I (propose_edge_write world actor pid id input p).
Proof.
  unfold propose_edge_write. apply keeps_bind; [apply reads_kept, reads_open_session|intros session].
  apply keeps_bind; [by apply reads_kept, reads_build_edge|intros proposal].
  apply keeps_bind; [apply save_kept|intros next].
  apply keeps_bind; [apply own_kept, audit_own|intros _; apply keeps_ret].
Qed.

Lemma reads_to_close pid id input : reads (session_to_close world pid id input).
Proof. pose proof reads_open_session. unfold session_to_close. keep_frame. Qed.

Lemma close_kept actor pid id input change : keeps I (semantic_close world actor pid id input change).
Proof.
  unfold semantic_close. apply keeps_bind; [apply reads_kept, reads_open_session|intros session].
  apply keeps_bind; [apply save_kept|intros next].
  apply keeps_bind; [apply own_kept, audit_own|intros _; apply keeps_ret].
Qed.
End Edits.

(** *** The frozen tables *)

Definition frozen_tables (w : roadmap) := (rm_edges w, rm_nodes w, rm_versions w).

#[export] Instance frozen_sessionless : Sessionless frozen_tables.
Proof. split; [|done]. intros w w' (_ & E2 & E3 & E4 & _)%elsewhere_fields. unfold frozen_tables. by rewrite E2, E3, E4. Qed.

Lemma core_frozen {A} (m : RM A) : keeps core m -> keeps frozen_tables m.
Proof. intros K w. destruct (core_fields _ _ (K w)) as (_ & E2 & E3 & E4). unfold frozen_tables. by rewrite E2, E3, E4. Qed.

Lemma cancel_frozen actor pid id input p : keeps frozen_tables (cancel_write world actor pid id input p).
Proof.
  unfold cancel_write. apply keeps_bind; [apply (reads_kept frozen_tables), reads_to_close|intros session].
  apply keeps_bind; [by apply core_frozen, release_core|intros _].
  apply keeps_bind; [apply (save_kept frozen_tables)|intros closed].
  apply keeps_bind; [apply (own_kept frozen_tables), audit_own|intros _; apply keeps_ret].
Qed.

Lemma run_frozen ctx actor pid name target key body write : (forall p, keeps frozen_tables (write p)) ->
  keeps frozen_tables (runOperation world ctx actor pid name target key body write).
Proof.
  intros K w. destruct (runOperation _ _ _ _ _ _ _ _ _ w) as [w' r] eqn:F. cbn [fst].
  pose proof (sessionless_own (I := frozen_tables)) as Ef.
  apply (run_moves world) in F as [E|R]; [by apply Ef|].
  apply (ran_project world) in R as (w0 & w1 & p & a & _ & E0 & F & E1).
  rewrite (Ef _ _ E1), <- (Ef _ _ E0). by apply (keeps_run frozen_tables) in F.
Qed.

Lemma answer_frozen {A} (m : RM A) (f : A -> roadmap_any * string * Z) :
  keeps frozen_tables m -> keeps frozen_tables (a ← m; mret (f a)).
Proof. intros K. apply keeps_bind; [done|]. intros a. apply keeps_ret. Qed.

Lemma human_frozen (ctx : Context X) : keeps frozen_tables (RequireHuman ctx).
Proof. intros w. unfold RequireHuman. by destruct (RequireHumanDecision _ _). Qed.

(** Every call but a commit. *)
Definition edits (call : roadmap_call) : Prop :=
  match call with CallCommit _ _ _ _ _ => False | _ => True end.

Lemma edits_frozen ctx call : edits call -> keeps frozen_tables (perform world ctx call).
Proof.
  destruct call; intros E; cbn [perform]; try by destruct E.
  - unfold BeginRoadmapEdit. destruct (_ || _); [apply keeps_fail|].
    apply keeps_bind; [apply human_frozen|intros _]. apply run_frozen. intros p. apply answer_frozen, (begin_kept frozen_tables).
  - apply keeps_bind; [apply human_frozen|intros _]. apply run_frozen. intros p.
    apply answer_frozen, (propose_node_kept frozen_tables).
  - apply keeps_bind; [apply human_frozen|intros _]. apply run_frozen. intros p.
    apply answer_frozen, (propose_edge_kept frozen_tables).
  - unfold CancelRoadmapEdit. destruct (bad_close _); [apply keeps_fail|].
    apply keeps_bind; [apply human_frozen|intros _]. apply run_frozen. intros p. apply answer_frozen, cancel_frozen.
Qed.
End Steps.

(** ** Reading a node's history *)

Section Reading.
Context {X : Type} (world : World X) `{!WorldLaws world}.

#[local] Instance node_version_le_total : Total node_version_le.
Proof. intros a b. unfold node_version_le. lia. Qed.
#[local] Instance node_version_le_trans : Transitive node_version_le.
Proof. intros a b c. unfold node_version_le. lia. Qed.

(** No other node of the project has the id's prefix. *)
Definition alone (w : roadmap) (pid id : string) : Prop :=
  forall id' row, rm_nodes w !! (pid, id') = Some row -> strip_prefix (id +:+ "/") id' = None.

Lemma versions_of_spec id rows :
  (forall key node, (key, node) ∈ rows -> key = versionKey (rn_ID node) (rn_Version node)
     /\ int64_range (rn_Version node) /\ strip_prefix (id +:+ "/") (rn_ID node) = None) ->
  versions_of id rows = Ok (base.filter (fun node => rn_ID node = id) rows.*2).
Proof.
  induction rows as [|[key node] rows IH]; intros A; [done|]. cbn [versions_of].
  destruct (A key node) as (-> & R & N); [by left|]. rewrite strip_version_key.
  rewrite fmap_cons, filter_cons. cbn [snd]. rewrite IH by (intros k n Hin; apply A; by right).
  destruct (decide (id = rn_ID node)) as [E|E].
  - rewrite ParseInt_pretty by done. rewrite decide_True by done. done.
  - rewrite N. by rewrite decide_False by done.
Qed.

(** The versions up to a frozen one are all frozen. *)
Lemma frozen_down w pid id v k row : wf w ->
  rm_versions w !! (pid, versionKey id v) = Some row -> 1 <= k <= v -> int64_range v ->
  exists row', rm_versions w !! (pid, versionKey id k) = Some row'.
Proof.
  intros W F B R. assert (exists n : nat, v = k + Z.of_nat n) as [n ->] by (exists (Z.to_nat (v - k)); lia).
  revert row F B R. induction n as [|n IH]; intros row F B R; [rewrite Z.add_0_r in F; by exists row|].
  destruct (wf_frozen w W _ _ _ F) as (_ & _ & E & _ & _ & P). apply versionKey_inj in E as [Ei E].
  rewrite <- Ei, <- E in P. destruct P as [P|[before P]]; [lia|].
  replace (k + Z.of_nat (S n) -i 1) with (k + Z.of_nat n) in P
    by (rewrite i64_id; [lia|unfold int64_range, min_int64, max_int64 in *; lia]).
  apply (IH before P); [lia|]. unfold int64_range, min_int64, max_int64 in *. lia.
Qed.

(** What is stored of a node, by version. *)
Definition frozen_at (w : roadmap) (pid id : string) (node : RouteNode) : Prop :=
  rn_ID node = id /\ rm_versions w !! (pid, versionKey id (rn_Version node)) = Some {| vr_Version := 1; vr_Body := node |}.

Lemma history_spec pid id w : wf w -> alone w pid id ->
  db_fault (sv_db (wd_service world)) "select lingdoc_g3_records" (rm_tables w) = None ->
  exists nodes, RouteNodeVersions world pid id w = (w, Ok nodes)
  /\ StronglySorted node_version_le nodes
  /\ (forall node, node ∈ nodes <-> frozen_at w pid id node).
Proof.
  intros W A Db. unfold RouteNodeVersions, listVersionedRecords, rm_query, rm_statement, mbind, M_bind. rewrite Db.
  assert (forall key node, (key, node) ∈ wd_version_order world (project_records rm_versions pid w)
    <-> rm_versions w !! (pid, key) = Some {| vr_Version := 1; vr_Body := node |}) as Sp.
  { intros key node. rewrite (version_order_perm (world := world)), project_records_spec. split.
    - intros ([v body] & F & <-). destruct (wf_frozen w W _ _ _ F) as (E & _). cbn in E. subst v. exact F.
    - intros F. by eexists. }
  rewrite versions_of_spec.
  2: { intros key node Hin%Sp. destruct (wf_frozen w W _ _ _ Hin) as (_ & _ & -> & R & [row F] & _).
       split_and!; try done; try apply R. by eapply A. }
  eexists. split; [done|]. split; [apply StronglySorted_merge_sort; apply _|]. intros node.
  rewrite merge_sort_Permutation, list_elem_of_filter. unfold frozen_at. split; intros [Ei Hin]; (split; [exact Ei|]).
  - apply list_elem_of_fmap in Hin as ([key node'] & -> & Hin%Sp). cbn in *.
    destruct (wf_frozen w W _ _ _ Hin) as (_ & _ & -> & _). by subst id.
  - apply list_elem_of_fmap. eexists (_, node). split; [done|]. by apply Sp.
Qed.
End Reading.
