(* ===== verification/RouteLaws.v ===== *)
(** Resolving a route node through its inputs: the recursion ends on every
    store, cycles included, and what it confirms is what the rules of review
    derive. *)

From stdpp Require Import pretty relations.
From S2P Require Import Prelude Effects OperationCore OperationStore Workspace Permission MemberStore Membership OperationRunner RoadmapModel RoadmapStore RouteObjects Roadmap RoadmapLaws RoadmapHistory.

Section Route.
Context {X : Type} (world : World X) `{!WorldLaws world}.
Variable p : Project.
Abbreviation resolve := (route_object world).

(** ** Fuel *)

(** The nodes of the project a path has not been through. *)
Definition left_over (seen : gset string) (w : roadmap) : gset (string * string) :=
  dom (rm_nodes w) ∖ set_map (pair (pr_ID p)) seen.

Lemma left_over_less seen id w row : rm_nodes w !! (pr_ID p, id) = Some row -> id ∉ seen ->
  (size (left_over ({[id]} ∪ seen) w) < size (left_over seen w))%nat.
Proof.
  intros F%elem_of_dom_2 N. apply subset_size. unfold left_over. split.
  - intros x [D O]%elem_of_difference. apply elem_of_difference. split; [done|]. intros (i & -> & Hi)%elem_of_map.
    apply O, elem_of_map. exists i. split; [done|]. by apply elem_of_union_r.
  - intros S. assert ((pr_ID p, id) ∈ dom (rm_nodes w) ∖ set_map (D := gset _) (pair (pr_ID p)) seen) as I.
    { apply elem_of_difference. split; [done|]. by intros (i & [= <-] & Hi)%elem_of_map. }
    apply S, elem_of_difference in I as [_ []]. apply elem_of_map. exists id. split; [done|].
    by apply elem_of_union_l, elem_of_singleton.
Qed.

(** An answer: not "out of fuel". *)
Definition answered (r : res error (option ImpactObjectState)) : Prop := r <> Ok None.

Lemma inputs_answered f state inputs w :
  (forall input, reads (f input)) -> (forall input, answered (f input w).2) ->
  answered (resolve_inputs f state inputs w).2.
Proof.
  intros R A. revert state. induction inputs as [|input inputs IH]; intros state; cbn [resolve_inputs]; [done|].
  unfold mbind, M_bind. specialize (A input). rewrite (reads_run _ w (R input)).
  destruct (f input w).2 as [[source|]|e]; [apply IH|by destruct A|done].
Qed.

Lemma step_reads fuel seen id input : reads
  (if (ref_Kind input =? "RouteNode")%string then resolve fuel p ({[id]} ∪ seen) input
   else state ← other_input world p input; mret (Some state)).
Proof.
  destruct (_ =? _)%string; [by apply reads_route_object|].
  apply keeps_bind; [by apply reads_other_input|intros; apply keeps_ret].
Qed.

Lemma resolve_step fuel seen ref w :
  resolve (S fuel) p seen ref w =
  if decide (ref_ID ref ∈ seen) then (w, Err ErrInvalidState)
  else match routeNodeOf world (pr_ID p) (ref_ID ref) w with
       | (w1, Ok node) =>
           resolve_inputs (fun input => if (ref_Kind input =? "RouteNode")%string then resolve fuel p ({[ref_ID ref]} ∪ seen) input
                                        else state ← other_input world p input; mret (Some state))
             (node_state p ref node) (rn_Inputs node) w1
       | (w1, Err e) => (w1, Err e)
       end.
Proof. cbn [route_object]. by case_decide. Qed.

Lemma resolve_answered fuel seen ref w :
  (size (left_over seen w) < fuel)%nat -> answered (resolve fuel p seen ref w).2.
Proof.
  revert seen ref. induction fuel as [|fuel IH]; intros seen ref L; [lia|]. rewrite resolve_step.
  case_decide as N; [done|].
  destruct (routeNodeOf world (pr_ID p) (ref_ID ref) w) as [w1 [node|e]] eqn:F; [|by cbn].
  apply node_ok in F as (-> & row & Fr & <-). apply inputs_answered; [intros input; apply step_reads|].
  intros input. destruct (_ =? _)%string.
  - apply IH. pose proof (left_over_less _ _ _ _ Fr N). lia.
  - unfold mbind, M_bind. rewrite (reads_run _ w (reads_other_input world p input)).
    by destruct (other_input world p input w).2.
Qed.

(** More fuel does not change an answer. *)
Lemma inputs_more f g state inputs w :
  (forall input, reads (f input)) -> (forall input, reads (g input)) ->
  (forall input, answered (f input w).2 -> g input w = f input w) ->
  answered (resolve_inputs f state inputs w).2 -> resolve_inputs g state inputs w = resolve_inputs f state inputs w.
Proof.
  intros Rf Rg E. revert state. induction inputs as [|input inputs IH]; intros state; cbn [resolve_inputs]; [done|].
  unfold mbind, M_bind. specialize (E input). rewrite (reads_run _ w (Rf input)) in E |- *.
  destruct (f input w).2 as [[source|]|e]; intros A; [|by destruct A|]; rewrite E by done; [by apply IH|done].
Qed.

Lemma resolve_more fuel fuel' seen ref w : (fuel <= fuel')%nat ->
  answered (resolve fuel p seen ref w).2 -> resolve fuel' p seen ref w = resolve fuel p seen ref w.
Proof.
  revert fuel' seen ref. induction fuel as [|fuel IH]; intros fuel' seen ref L A; [by destruct A|].
  destruct fuel' as [|fuel']; [lia|]. rewrite !resolve_step in *. case_decide; [done|].
  destruct (routeNodeOf world (pr_ID p) (ref_ID ref) w) as [w1 [node|e]] eqn:F; [|done].
  apply node_ok in F as (-> & row & Fr & <-). apply inputs_more; [apply step_reads|apply step_reads| |exact A].
  intros input. destruct (_ =? _)%string; [|done]. apply IH. lia.
Qed.

Lemma enough_fuel w : (size (left_over ∅ w) < route_fuel w)%nat.
Proof.
  unfold route_fuel, left_over. rewrite set_map_empty, difference_empty_L, size_dom. lia.
Qed.

Lemma current_route_resolved ref (w : roadmap) :
  exists r, resolve (route_fuel w) p ∅ ref w = (w, r) /\ answered r
  /\ currentRouteImpactObject world p ref w
     = (w, match r with Ok (Some state) => Ok state | Ok None => Ok zero_object | Err e => Err e end).
Proof.
  exists (resolve (route_fuel w) p ∅ ref w).2. pose proof (reads_run _ w (reads_route_object world (route_fuel w) p ∅ ref)) as E.
  split; [exact E|]. split; [by apply resolve_answered, enough_fuel|].
  unfold currentRouteImpactObject. rewrite E. by destruct (_.2) as [[|]|].
Qed.

(** ** What review means *)

Definition other_reviewed (w : roadmap) (ref : ObjectVersionRef) : Prop :=
  exists state, other_input world p ref w = (w, Ok state) /\ routeInputReviewed state ref = true.

(** A node is reviewed at its current version, when it is ready, under the
    name of its author, within the project's revisions, and so is everything
    it takes in. *)
Inductive reviewed (w : roadmap) (ref : ObjectVersionRef) : Prop :=
| reviewed_node row :
    ref_Kind ref = "RouteNode" ->
    rm_nodes w !! (pr_ID p, ref_ID ref) = Some row ->
    ref_Version ref = pretty (rn_Version (vr_Body row)) ->
    os_Confirmed (node_state p ref (vr_Body row)) = true ->
    (forall input, input ∈ rn_Inputs (vr_Body row) -> ref_Kind input = "RouteNode" -> reviewed w input) ->
    (forall input, input ∈ rn_Inputs (vr_Body row) -> ref_Kind input <> "RouteNode" -> other_reviewed w input) ->
    reviewed w ref.

Lemma inputs_fold f state inputs w state' : (forall input, reads (f input)) ->
  resolve_inputs f state inputs w = (w, Ok (Some state')) ->
  os_Ref state' = os_Ref state
  /\ (os_Confirmed state' = true <->
      os_Confirmed state = true /\ forall input, input ∈ inputs ->
        exists source, f input w = (w, Ok (Some source)) /\ routeInputReviewed source input = true).
Proof.
  intros R. revert state. induction inputs as [|input inputs IH]; intros state; cbn [resolve_inputs].
  { intros F. injection F as <-. split; [done|]. split; [|by intros [? _]]. intros C. split; [done|]. by intros i ?%not_elem_of_nil. }
  unfold mbind at 1, M_bind at 1. rewrite (reads_run _ w (R input)).
  destruct (f input w).2 as [[source|]|e] eqn:E; [|discriminate|discriminate]. intros [Er Ec]%IH. split; [exact Er|].
  rewrite Ec. cbn [add_input os_Confirmed]. rewrite andb_true_iff. split.
  - intros [[C1 C2] A]. split; [done|]. intros i [->|Hin]%elem_of_cons; [|by apply A].
    exists source. rewrite (reads_run _ w (R input)), E. done.
  - intros [C A]. split; [split; [done|]|intros i Hin; apply A; by right].
    destruct (A input) as (s & F & Rv); [by left|]. rewrite (reads_run _ w (R input)), E in F. by injection F as ->.
Qed.

Lemma reviewed_state_version ref node state :
  os_Ref state = at_version ref (pretty (rn_Version node)) -> ref_Kind ref = "RouteNode" ->
  (routeInputReviewed state ref = true <-> ref_Version ref = pretty (rn_Version node) /\ os_Confirmed state = true).
Proof.
  intros E K. unfold routeInputReviewed. rewrite E, K. cbn. case_bool_decide as G; cbn.
  - split; [|by intros [_ ?]]. intros C. split; [|done]. by rewrite <- G.
  - split; [discriminate|]. intros [V _]. destruct G. destruct ref. cbn in *. by rewrite V.
Qed.

Lemma resolve_sound fuel seen ref w state : ref_Kind ref = "RouteNode" ->
  resolve fuel p seen ref w = (w, Ok (Some state)) -> routeInputReviewed state ref = true -> reviewed w ref.
Proof.
  revert seen ref state. induction fuel as [|fuel IH]; intros seen ref state K; [discriminate|]. rewrite resolve_step.
  case_decide; [discriminate|].
  destruct (routeNodeOf world (pr_ID p) (ref_ID ref) w) as [w1 [node|e]] eqn:F; [|discriminate].
  apply node_ok in F as (-> & row & Fr & <-). intros [Er Ec]%inputs_fold Rv; [|apply step_reads].
  apply (reviewed_state_version ref (vr_Body row)) in Rv as [V C]; [|exact Er|done]. apply Ec in C as [C A].
  apply (reviewed_node w ref row); try done.
  - intros input Hin Ki. destruct (A input Hin) as (source & F & Rv). rewrite (proj2 (String.eqb_eq _ _) Ki) in F.
    by apply (IH ({[ref_ID ref]} ∪ seen) input source).
  - intros input Hin Ki. destruct (A input Hin) as (source & F & Rv).
    rewrite (proj2 (String.eqb_neq _ _) Ki) in F. apply bind_ok in F as (w1 & s & F & G). injection G as -> ->.
    by exists source.
Qed.

(** *** Completeness: what is reviewed is not on a cycle *)

(** [id'] is a route input of the node [id]. *)
Definition feeds (w : roadmap) (id' id : string) : Prop :=
  exists row input, rm_nodes w !! (pr_ID p, id) = Some row /\ input ∈ rn_Inputs (vr_Body row)
  /\ ref_Kind input = "RouteNode" /\ ref_ID input = id'.

Lemma reviewed_grounded w ref : reviewed w ref -> Acc (feeds w) (ref_ID ref).
Proof.
  induction 1 as [ref row K Fr V C _ IH _]. constructor. intros id' (row' & input & Fr' & Hin & Ki & <-).
  rewrite Fr in Fr'. injection Fr' as <-. by apply IH.
Qed.

Lemma tc_last {A} (R : relation A) x z : tc R x z -> exists y, rtc R x y /\ R y z.
Proof.
  induction 1 as [x z S|x y z S _ (y' & Rt & L)]; [by exists x|]. exists y'. split; [by eapply rtc_l|done].
Qed.

Lemma grounded_acyclic w id : Acc (feeds w) id -> ~ tc (feeds w) id id.
Proof.
  induction 1 as [id _ IH]. intros (z & Rz & S)%tc_last. apply (IH z S). by eapply tc_rtc_r; [apply tc_once|].
Qed.

Lemma inputs_complete f state inputs w : (forall input, reads (f input)) ->
  (forall input, input ∈ inputs -> exists source, f input w = (w, Ok (Some source)) /\ routeInputReviewed source input = true) ->
  exists state', resolve_inputs f state inputs w = (w, Ok (Some state')).
Proof.
  intros R. revert state. induction inputs as [|input inputs IH]; intros state A; cbn [resolve_inputs]; [by eexists|].
  destruct (A input) as (source & F & _); [by left|]. unfold mbind, M_bind. rewrite F. apply IH.
  intros i Hin. apply A. by right.
Qed.

(** The database answers the reads of the records. *)
Definition answers (w : roadmap) : Prop :=
  db_fault (sv_db (wd_service world)) "select lingdoc_g3_records" (rm_tables w) = None.

Lemma read_node_row pid id w row : answers w -> rm_nodes w !! (pid, id) = Some row -> routeNodeOf world pid id w = (w, Ok (vr_Body row)).
Proof.
  intros Db F. unfold routeNodeOf, readVersionedRecord, rm_query, rm_statement, mbind, M_bind. rewrite Db. cbn.
  match goal with |- context [match ?x with Some _ => _ | None => _ end] => by assert (x = Some row) as -> by exact F end.
Qed.

Lemma resolve_complete ref w : answers w -> reviewed w ref -> forall fuel seen,
  (forall id, id ∈ seen -> tc (feeds w) (ref_ID ref) id) -> (size (left_over seen w) < fuel)%nat ->
  exists state, resolve fuel p seen ref w = (w, Ok (Some state)) /\ routeInputReviewed state ref = true.
Proof.
  intros Db Rv. pose proof (grounded_acyclic _ _ (reviewed_grounded _ _ Rv)) as Ac. revert Ac.
  induction Rv as [ref row K Fr V C Nodes IH Others]. intros Ac fuel seen Below L. destruct fuel as [|fuel]; [lia|].
  rewrite resolve_step, decide_False by (intros Hin; by apply Ac, Below).
  rewrite (read_node_row _ _ _ _ Db Fr).
  assert (ref_ID ref ∉ seen) as Fresh by (intros Hin; by apply Ac, Below).
  pose proof (left_over_less _ _ _ _ Fr Fresh) as Less.
  assert (forall input, input ∈ rn_Inputs (vr_Body row) -> exists source,
    (if (ref_Kind input =? "RouteNode")%string then resolve fuel p ({[ref_ID ref]} ∪ seen) input
     else state ← other_input world p input; mret (Some state)) w = (w, Ok (Some source))
    /\ routeInputReviewed source input = true) as In.
  { intros input Hin. destruct (ref_Kind input =? "RouteNode")%string eqn:Ki.
    - apply String.eqb_eq in Ki. assert (feeds w (ref_ID input) (ref_ID ref)) as Fd by (by exists row, input).
      apply (IH input Hin Ki).
      + by apply grounded_acyclic, reviewed_grounded, Nodes.
      + intros id [->%elem_of_singleton|Hid]%elem_of_union; [by apply tc_once|].
        eapply tc_l; [exact Fd|by apply Below].
      + lia.
    - apply String.eqb_neq in Ki. destruct (Others input Hin Ki) as (source & F & Rs). exists source.
      split; [|done]. by rewrite (bind_run _ _ _ _ _ F). }
  destruct (inputs_complete _ (node_state p ref (vr_Body row)) _ w (step_reads fuel seen (ref_ID ref)) In) as [state E].
  exists state. split; [exact E|]. apply inputs_fold in E as [Er Ec]; [|apply step_reads].
  apply (reviewed_state_version ref (vr_Body row)); [exact Er|done|]. split; [done|]. by apply Ec.
Qed.
End Route.

(** ** A state is an answer about an acyclic graph *)

Section Acyclic.
Context {X : Type} (world : World X) `{!WorldLaws world}.
Variable p : Project.

Lemma inputs_all f state inputs w state' : (forall input, reads (f input)) ->
  resolve_inputs f state inputs w = (w, Ok (Some state')) ->
  forall input, input ∈ inputs -> exists source, f input w = (w, Ok (Some source)).
Proof.
  intros R. revert state. induction inputs as [|input inputs IH]; intros state; cbn [resolve_inputs].
  { intros _ i Hin. by apply not_elem_of_nil in Hin. }
  unfold mbind at 1, M_bind at 1. pose proof (reads_run _ w (R input)) as E. rewrite E.
  destruct (f input w).2 as [[source|]|e]; [|discriminate|discriminate]. intros F i [->|Hin]%elem_of_cons.
  - by exists source.
  - by eapply IH.
Qed.

Lemma resolve_grounded fuel seen ref w state :
  route_object world fuel p seen ref w = (w, Ok (Some state)) -> Acc (feeds p w) (ref_ID ref).
Proof.
  revert seen ref state. induction fuel as [|fuel IH]; intros seen ref state; [discriminate|].
  rewrite (resolve_step world). case_decide; [discriminate|].
  destruct (routeNodeOf world (pr_ID p) (ref_ID ref) w) as [w1 [node|e]] eqn:F; [|discriminate].
  apply node_ok in F as (-> & row & Fr & <-). intros A. constructor. intros id' (row' & input & Fr' & Hin & Ki & <-).
  rewrite Fr in Fr'. injection Fr' as <-.
  destruct (inputs_all _ _ _ _ _ (step_reads world p fuel seen (ref_ID ref)) A input Hin) as [source F].
  rewrite (proj2 (String.eqb_eq _ _) Ki) in F. by eapply IH.
Qed.
End Acyclic.

(** ** Confirmed is reviewed *)

Section Review.
Context {X : Type} (world : World X) `{!WorldLaws world}.
Variable p : Project.

Lemma reviewed_iff ref w : ref_Kind ref = "RouteNode" -> answers world w ->
  (exists state, currentRouteImpactObject world p ref w = (w, Ok state) /\ routeInputReviewed state ref = true)
  <-> reviewed world p w ref.
Proof.
  intros K Db. destruct (current_route_resolved world p ref w) as (r & R & A & ->). split.
  - intros (state & E & Rv). destruct r as [[s|]|e]; [|by destruct A|discriminate]. injection E as ->.
    by eapply (resolve_sound world).
  - intros Rv. destruct (resolve_complete world p ref w Db Rv (route_fuel w) ∅) as (state & E & Rs).
    + intros id Hin. by apply not_elem_of_empty in Hin.
    + apply (enough_fuel p).
    + rewrite R in E. injection E as ->. by exists state.
Qed.

Lemma resolve_ref fuel seen ref w state : route_object world fuel p seen ref w = (w, Ok (Some state)) ->
  exists row, rm_nodes w !! (pr_ID p, ref_ID ref) = Some row
  /\ os_Ref state = at_version ref (pretty (rn_Version (vr_Body row))).
Proof.
  destruct fuel as [|fuel]; [discriminate|]. rewrite (resolve_step world). case_decide; [discriminate|].
  destruct (routeNodeOf world (pr_ID p) (ref_ID ref) w) as [w1 [node|e]] eqn:F; [|discriminate].
  apply node_ok in F as (-> & row & Fr & <-). intros [Er _]%inputs_fold; [|apply (step_reads world)].
  by exists row.
Qed.

(** Of a stored node, at its own version. *)
Lemma confirmed_iff id row w : wf w -> answers world w -> rm_nodes w !! (pr_ID p, id) = Some row ->
  (exists state, currentRouteImpactObject world p (node_ref (vr_Body row)) w = (w, Ok state) /\ os_Confirmed state = true)
  <-> reviewed world p w (node_ref (vr_Body row)).
Proof.
  intros W Db Fr. rewrite <- (reviewed_iff (node_ref (vr_Body row)) w eq_refl Db). split; intros (state & E & C); exists state; (split; [exact E|]).
  - destruct (current_route_resolved world p (node_ref (vr_Body row)) w) as (r & R & A & E'). rewrite E in E'.
    destruct r as [[s|]|e]; [|by destruct A|discriminate]. injection E' as <-.
    apply resolve_ref in R as (row' & Fr' & Er). destruct (wf_node w W _ _ _ Fr) as (_ & Ei & _). cbn in Fr'. rewrite Ei in Fr'.
    assert (Some row = Some row') as [= <-] by (etransitivity; [symmetry; exact Fr|exact Fr']).
    unfold routeInputReviewed. rewrite Er. cbn. by rewrite bool_decide_true by done.
  - unfold routeInputReviewed in C. by destruct (negb _).
Qed.
End Review.
