(* ===== verification/RoadmapDemo.v ===== *)
(** A concrete roadmap for the witnesses, on the workspace of [Workshop]: two
    nodes, the second of which takes the first in; an editing session that
    moves the first node on; and one that proposes an edge. *)

From stdpp Require Import pretty sorting countable.
From Stdlib Require Import Ascii String.
From S2P Require Import Prelude Effects OperationCore OperationLaws OperationStore OperationTheorems Workspace Permission PermissionTheorems MemberStore MemberLaws Membership MembershipDemo OperationRunner RunnerLaws RunnerTheorems RoadmapModel RoadmapStore RouteObjects Roadmap RoadmapLaws RoadmapHistory RoadmapSound RoadmapCommit RoadmapSteps RouteLaws.

Module Studio.
#[local] Existing Instances Workshop.tables_eq_dec Workshop.transaction_atomic.

#[export] Instance node_eq_dec : EqDecision RouteNode.
Proof. solve_decision. Defined.
#[export] Instance edge_eq_dec : EqDecision RouteEdge.
Proof. solve_decision. Defined.
#[export] Instance view_eq_dec : EqDecision RoadmapNodeView.
Proof. solve_decision. Defined.
#[export] Instance baseline_eq_dec : EqDecision RoadmapBaseline.
Proof. solve_decision. Defined.
#[export] Instance node_proposal_eq_dec : EqDecision RoadmapNodeProposal.
Proof. solve_decision. Defined.
#[export] Instance edge_proposal_eq_dec : EqDecision RoadmapEdgeProposal.
Proof. solve_decision. Defined.
#[export] Instance result_eq_dec : EqDecision RoadmapCommitResult.
Proof. solve_decision. Defined.
#[export] Instance session_eq_dec : EqDecision RoadmapEditSession.
Proof. solve_decision. Defined.
#[export] Instance dependency_eq_dec : EqDecision DependencyEdge.
Proof. solve_decision. Defined.
#[export] Instance task_eq_dec : EqDecision ImpactTask.
Proof. solve_decision. Defined.
#[export] Instance revision_eq_dec : EqDecision ContextRevisionRecord.
Proof. solve_decision. Defined.
#[export] Instance record_eq_dec {B} `{EqDecision B} : EqDecision (versionedRecord B).
Proof. solve_decision. Defined.
#[export] Instance card_eq_dec : EqDecision CardInput.
Proof. solve_decision. Defined.
#[export] Instance claim_eq_dec : EqDecision ClaimInput.
Proof. solve_decision. Defined.
#[export] Instance asset_policy_eq_dec : EqDecision AssetPolicyInput.
Proof. solve_decision. Defined.
#[export] Instance archived_eq_dec : EqDecision ArchivedFieldReference.
Proof. solve_decision. Defined.
#[export] Instance binding_eq_dec : EqDecision BindingOverride.
Proof. solve_decision. Defined.
#[export] Instance delta_eq_dec : EqDecision SemanticDelta.
Proof. solve_decision. Defined.
#[export] Instance field_delta_eq_dec : EqDecision ChangeFieldDelta.
Proof. solve_decision. Defined.
#[export] Instance impact_eq_dec : EqDecision ChangeImpact.
Proof. solve_decision. Defined.
#[export] Instance upgrade_eq_dec : EqDecision TemplateUpgrade.
Proof. solve_decision. Defined.
#[export] Instance change_eq_dec : EqDecision ChangeSet.
Proof. solve_decision. Defined.
#[export] Instance resolved_eq_dec : EqDecision ResolvedImpact.
Proof. solve_decision. Defined.
#[export] Instance state_eq_dec : EqDecision ImpactObjectState.
Proof. solve_decision. Defined.
#[export] Instance assessment_eq_dec : EqDecision ImpactAssessment.
Proof. solve_decision. Defined.
#[export] Instance scope_eq_dec : EqDecision DependencyCandidateScope.
Proof. solve_decision. Defined.
#[export] Instance candidate_eq_dec : EqDecision DependencyCandidate.
Proof. solve_decision. Defined.
#[export] Instance suppression_eq_dec : EqDecision DependencyCandidateSuppression.
Proof. solve_decision. Defined.
#[export] Instance batch_eq_dec : EqDecision DependencyCandidateBatch.
Proof. solve_decision. Defined.
#[export] Instance edge_row_eq_dec : EqDecision routeEdgeRow.
Proof. solve_decision. Defined.
#[export] Instance roadmap_eq_dec : EqDecision roadmap.
Proof. solve_decision. Defined.

(** A database that runs a body once, rolls back on an error, and refuses a
    write in a read-only transaction. *)
Definition transaction (L : Type) (k : nat) (options : option bool) (fn : M (roadmap * L) error unit)
  : M (roadmap * L) error unit := fun s =>
  match fn s with
  | (s', Ok _) =>
      if bool_decide (options = Some true) && negb (bool_decide (s'.1 = s.1))
      then ((s.1, s'.2), Err (Sentinel "read-only transaction"))
      else (s', Ok tt)
  | (s', Err e) => ((s.1, s'.2), Err e)
  end.

#[export] Instance transaction_atomic L : AtomicDB (transaction L).
Proof.
  split; unfold transaction.
  - intros k o fn s s'. destruct (fn s) as [s1 [[]|e]]; [|done]. by destruct (_ && _).
  - intros k o fn s s' err. destruct (fn s) as [s1 r] eqn:E. destruct r as [[]|e].
    + destruct (_ && _); [|done]. intros F. injection F as <- <-. split; [done|]. right. by eexists s1, _.
    + intros F. injection F as <- <-. split; [done|]. right. by eexists s1, _.
  - intros k fn s s' r. destruct (fn s) as [s1 [[]|e]]; [|intros F; by injection F as <- _].
    case_bool_decide as G; [|done]. case_bool_decide as D; intros F; by injection F as <- _.
Qed.

#[export] Instance text : Digester roadmap_any := {|
  json_Marshal := fun v => Ok (match v with
                               | AnyNodeProposal input => ni_NodeID input
                               | AnyEdgeProposal input => ei_EdgeID input
                               | AnySession session => es_ID session
                               | AnyResult result => cr_SessionID result
                               | _ => "value"
                               end);
  sha256_hex := fun text => text
|}.

Definition service : Service unit roadmap_any := {|
  sv_db := demo_db; sv_transaction := Workshop.transaction; sv_clock := calm_clock;
  sv_mode := AuthorizationModeEnforce; sv_audit := true; sv_requireActivationRead := false;
  sv_runtimeMode := "mock";
  sv_stamp := fun w => ("audit-" +:+ pretty (length (tb_audit w)), 1000);
  sv_sink := fun _ => mret tt; sv_sources := None; sv_reverses := fun _ => ""; sv_switching := fun _ => false;
  sv_cached := fun ctx _ _ _ _ => mret (ctx, false); sv_prepare := fun ctx _ _ _ _ _ => mret ctx;
  sv_validate := fun _ _ _ _ => mret tt; sv_pins := fun _ _ => mret tt;
  sv_reverse_sources := fun _ _ => mret tt; sv_provenance := fun _ _ _ => mret tt;
  sv_projection := fun _ _ _ _ body => mret body;
  sv_RuntimeControls := fun _ => mret []; sv_RecordRuntime := fun _ _ _ _ _ => mret tt;
  sv_ObserveRuntime := fun _ _ _ _ _ _ => mret tt;
  sv_emit := fun _ => mret tt; sv_EmitAuditFailureAlert := fun _ _ _ _ _ => mret tt;
  sv_ResourceExists := fun _ _ _ => mret true; sv_Chapters := fun _ => mret [];
  sv_HasAPIKey := fun _ _ => mret true; sv_VerifyMachineNativeKey := fun _ _ => mret tt
|}.

#[export] Instance service_laws : ServiceLaws service.
Proof. split; try exact _; try done; by intros. Qed.

Definition world : World unit := {|
  wd_service := service; wd_transaction := transaction;
  wd_session_order := fun l => l; wd_node_order := fun l => l; wd_version_order := fun l => l;
  wd_dependency_order := fun l => l; wd_task_order := fun l => l;
  wd_batch_order := fun l => l; wd_candidate_order := fun l => l;
  wd_required := fun _ id => (id =? "plan")%string;
  wd_object := fun _ _ => fail ErrNotFound;
  wd_provenance := fun _ => mret "provenance";
  wd_draft := fun _ _ _ _ _ => mret ("change-1", 1);
  wd_apply := fun _ _ _ _ _ => mret tt;
  wd_sha1 := fun s => s;
  wd_uuid := fun w => "session-" +:+ pretty (size (rm_sessions w));
  wd_now := fun _ => 1000
|}.

#[export] Instance world_laws : WorldLaws world.
Proof. split; try exact _; try done; by intros. Qed.

Definition ann : Actor := demo_actor "ann".
Definition ctx : Context unit :=
  {| ctx_APIKeyScope := false; ctx_Principal := None; ctx_UserID := Some "ann"; ctx_prepared := tt |}.

Definition node (id : string) (inputs : list ObjectVersionRef) : RouteNode :=
  {| rn_ID := id; rn_ProjectID := "p-1"; rn_Version := 1; rn_Name := id; rn_Inputs := inputs; rn_Targets := [];
     rn_Required := (id =? "plan")%string; rn_Status := "ready"; rn_ContextRevision := 1; rn_ActorID := "ann";
     rn_Reason := "start"; rn_UpdatedAt := 10 |}.

Definition plan : RouteNode := node "plan" [].
Definition draft : RouteNode := node "draft" [node_ref plan].
Definition link : DependencyEdge :=
  {| de_ID := "link"; de_ProjectID := "p-1"; de_Source := node_ref plan; de_Target := node_ref draft;
     de_Relation := "route_input"; de_Action := "REVIEW_REQUIRED"; de_Origin := "user"; de_Reason := "start";
     de_Status := "confirmed"; de_SupersededRelation := ""; de_SupersededAction := ""; de_Confidence := float_zero;
     de_ActorID := "ann"; de_Version := 1; de_CreatedAt := 10; de_UpdatedAt := 10 |}.

Definition row (n : RouteNode) : versionedRecord RouteNode := {| vr_Version := 1; vr_Body := n |}.

Definition start : roadmap := {|
  rm_tables := demo_tables; rm_sessions := ∅; rm_edges := ∅;
  rm_nodes := list_to_map [(("p-1", "plan"), row plan); (("p-1", "draft"), row draft)];
  rm_versions := list_to_map [(("p-1", "plan/1"), row plan); (("p-1", "draft/1"), row draft)];
  rm_dependencies := {[ ("p-1", "link") := {| vr_Version := 1; vr_Body := link |} ]};
  rm_tasks := ∅; rm_revisions := ∅; rm_handoffs := ∅; rm_changes := ∅; rm_plans := ∅; rm_assessments := ∅;
  rm_batches := ∅; rm_candidates := ∅
|}.

Definition begin : roadmap_call :=
  CallBegin ann "p-1" "key-0001" {| bi_ExpectedContextRevision := 1; bi_Reason := "revise" |}.
Definition move_on : roadmap_call :=
  CallProposeNode ann "p-1" "session-0" "key-0002"
    {| ni_NodeID := "plan"; ni_Kind := "update"; ni_Name := "the plan"; ni_Status := "ready"; ni_Inputs := [];
       ni_Targets := []; ni_Required := None; ni_Reason := "clearer" |}.
Definition connect : roadmap_call :=
  CallProposeEdge ann "p-1" "session-0" "key-0003"
    {| ei_EdgeID := "e"; ei_Kind := "add"; ei_SourceID := "plan"; ei_TargetID := "draft"; ei_Relation := "before";
       ei_Reason := "order" |}.
Definition closing_input : RoadmapCloseInput := {| xi_ExpectedBaselineVersion := 0; xi_Reason := "agreed" |}.
Definition commit : roadmap_call := CallCommit ann "p-1" "session-0" "key-0004" closing_input.

Definition do (call : roadmap_call) (w : roadmap) : roadmap := (perform world ctx call w).1.
Definition answer (call : roadmap_call) (w : roadmap) := (perform world ctx call w).2.

Definition begun : roadmap := do begin start.
Definition edited : roadmap := do move_on begun.
Definition committed : roadmap := do commit edited.
Definition connected : roadmap := do connect begun.
Definition project : Project := zero_project <| pr_ID := "p-1" |> <| pr_CurrentContextRevision := 1 |>.
Definition chosen : RouteNode := plan <| rn_Version := 2 |> <| rn_Name := "the plan" |>.

(** The two nodes take each other in. *)
Definition tangled : roadmap :=
  start <| rm_nodes := list_to_map [(("p-1", "plan"), row (node "plan" [node_ref draft])); (("p-1", "draft"), row draft)] |>.

Example answers_given :
  answer begin start = Ok ("session-0", 201, false) /\ answer move_on begun = Ok ("session-0", 200, false)
  /\ answer commit edited = Ok ("session-0", 200, false)
  /\ answer connect begun = Ok ("session-0", 200, false) /\ answer commit connected = Err ErrInvalidRequest.
Proof. vm_compute. by split_and!. Qed.

Example committed_once :
  (rn_Name <$> (vr_Body <$> rm_versions committed !! ("p-1", "plan/2"))) = Some "the plan"
  /\ (rn_Name <$> (vr_Body <$> rm_versions committed !! ("p-1", "plan/1"))) = Some "plan"
  /\ size (rm_tasks committed) = 1%nat
  /\ (row_CurrentContextRevision <$> tb_projects (rm_tables committed) !! "p-1") = Some 2.
Proof. vm_compute. by split_and!. Qed.

Lemma start_nodes pid id n : rm_nodes start !! (pid, id) = Some n ->
  (pid = "p-1" /\ id = "plan" /\ n = row plan) \/ (pid = "p-1" /\ id = "draft" /\ n = row draft).
Proof.
  intros F. unfold start, rm_nodes in F. apply elem_of_list_to_map in F; [|apply (bool_decide_unpack _); exact I].
  apply elem_of_cons in F as [[= -> -> ->]|F]; [by left|].
  apply elem_of_cons in F as [[= -> -> ->]|F]; [by right|]. by apply not_elem_of_nil in F.
Qed.

Lemma start_versions pid key n : rm_versions start !! (pid, key) = Some n ->
  (pid = "p-1" /\ key = "plan/1" /\ n = row plan) \/ (pid = "p-1" /\ key = "draft/1" /\ n = row draft).
Proof.
  intros F. unfold start, rm_versions in F. apply elem_of_list_to_map in F; [|apply (bool_decide_unpack _); exact I].
  apply elem_of_cons in F as [[= -> -> ->]|F]; [by left|].
  apply elem_of_cons in F as [[= -> -> ->]|F]; [by right|]. by apply not_elem_of_nil in F.
Qed.

Lemma start_wf : wf start.
Proof.
  split.
  - intros pid id n [(-> & -> & ->)|(-> & -> & ->)]%start_nodes; by split_and!.
  - intros pid id n [(-> & -> & ->)|(-> & -> & ->)]%start_nodes; reflexivity.
  - intros pid key n [(-> & -> & ->)|(-> & -> & ->)]%start_versions; split_and!; first [done|by left|by eexists].
  - by intros key n.
  - by intros id session.
  - by intros id id' session.
Qed.

Lemma move call w : wf w -> wf (do call w).
Proof.
  intros W. apply (step_good world w); [|done|done]. eapply step_call. apply surjective_pairing.
Qed.

Lemma step call w : roadmap_step world w (do call w).
Proof. eapply step_call. apply surjective_pairing. Qed.

Lemma history : rtc (roadmap_step world) start committed.
Proof. eapply rtc_l; [apply (step begin)|]. eapply rtc_l; [apply (step move_on)|]. apply rtc_once, (step commit). Qed.
End Studio.
