(* ===== verification/RoadmapTheorems.v ===== *)
(** The properties of the roadmap: what is frozen stays frozen, editing never
    touches it, a commit freezes exactly what was proposed and owes every
    dependent a review, node histories read back whole, resolving a node
    through its inputs ends and decides review, and the path for edges is
    closed. *)

From stdpp Require Import pretty sorting.
From S2P Require Import Prelude Effects OperationCore OperationLaws OperationStore OperationTheorems Workspace Permission MemberStore MemberLaws Membership MembershipDemo OperationRunner RoadmapModel RoadmapStore RouteObjects Roadmap RoadmapLaws RoadmapHistory RoadmapSound RoadmapCommit RoadmapSteps RouteLaws RoadmapDemo.

(** ** Helpers *)

Lemma validate_refuses deltas delta :
  delta ∈ deltas -> validSemanticDelta delta = false -> is_Some (validate_deltas deltas).
Proof.
  induction deltas as [|d deltas IH]; [by intros ?%not_elem_of_nil|]. intros [->|Hin]%elem_of_cons V; cbn [validate_deltas].
  - rewrite V. by destruct (unconfirmed _).
  - destruct (unconfirmed d); [done|]. destruct (negb (validSemanticDelta d)); [done|by apply IH].
Qed.

Lemma edge_delta_invalid id expected edge : validSemanticDelta (route_delta id expected None (Some edge)) = false.
Proof. unfold validSemanticDelta. cbn -[String.eqb]. by destruct (_ || _). Qed.

Section Helpers.
Context {X : Type} `{Digester roadmap_any} (world : World X) `{!WorldLaws world}.

Lemma draft_refuses ctx actor pid key input delta w :
  delta ∈ xd_SemanticDeltas input -> validSemanticDelta delta = false ->
  exists e, CreateChangeDraft world ctx actor pid key input w = (w, Err e).
Proof.
  intros Hin V. unfold CreateChangeDraft.
  assert (is_Some (validateExtendedChangeInput input)) as [e ->]; [|by exists e].
  unfold validateExtendedChangeInput. destruct (validateCardClaimBatch _); [done|].
  destruct (_ || _); [done|]. destruct (xd_SemanticDeltas input) as [|d deltas] eqn:E; [by apply not_elem_of_nil in Hin|].
  change (nonempty (d :: deltas)) with true. cbn [negb]. cbv zeta.
  destruct (if nonempty (map_to_list _) then _ else _) as [e|]; [by exists e|]. by apply (validate_refuses _ delta).
Qed.

Lemma plan_has_edge p session w w' semantic deltas :
  roadmapCommitPlan world p session w = (w', Ok (semantic, deltas)) -> es_EdgeProposals session <> [] ->
  semantic = true /\ exists delta, delta ∈ deltas /\ validSemanticDelta delta = false.
Proof.
  unfold roadmapCommitPlan. intros (w1 & nodes & _ & F)%bind_ok Ne. apply bind_ok in F as (w2 & edges & F & G).
  destruct (es_EdgeProposals session) as [|proposal proposals]; [done|]. cbn in G. injection G as _ <- <-. split; [done|].
  cbn [rm_traverse] in F. apply bind_ok in F as (w3 & here & F & G). apply bind_ok in G as (w4 & rest & _ & G).
  injection G as _ <-. unfold plan_edge in F. apply bind_ok in F as (w5 & expected & _ & F). injection F as _ <-.
  eexists. split; [|apply edge_delta_invalid]. apply elem_of_app. right. cbn. by left.
Qed.
End Helpers.

Section Handing.
Context {X : Type} `{Digester roadmap_any} (world : World X) `{!WorldLaws world}.

(** A session handed over to a change set. *)
Definition handed_over (actor : Actor) (pid id change : string) (w w' : roadmap) : Prop :=
  exists session result now,
    rm_sessions w !! id = Some session /\ es_ProjectID session = pid /\ is_open session = true
    /\ cr_ChangeSetID result = change /\ cr_Semantic result = true
    /\ cr_AppliedNodes result = [] /\ cr_AppliedEdges result = []
    /\ rm_sessions w' = <[id := closing session result now]> (rm_sessions w)
    /\ frozen_tables w' = frozen_tables w.

Lemma close_hands_over actor pid id input change w w' result : wf w ->
  semantic_close world actor pid id input change w = (w', Ok result) -> handed_over actor pid id change w w'.
Proof.
  intros W F. pose proof (keeps_run frozen_tables _ _ _ _ (close_kept world frozen_tables actor pid id input change) F) as Fr.
  unfold semantic_close in F. apply bind_ok in F as (w1 & session & E0 & F).
  apply open_session_of_ok in E0 as (-> & Fs & Ep & O). pose proof (session_id _ _ _ W Fs) as Eid. subst id.
  apply bind_ok in F as (w2 & next & Sv & F). apply save_session_ok in Sv as [-> ->]; [|done..].
  apply bind_ok in F as (w3 & u & Au & F). injection F as <- Er.
  apply (keeps_run own) in Au; [|apply audit_own]. apply elsewhere_fields in Au as (Es & _).
  exists session, result, (wd_now world w). rewrite <- Er. by split_and!.
Qed.

Lemma commit_parts ctx actor pid id key input w w' r : wf w ->
  CommitRoadmapEdit world ctx actor pid id key input w = (w', r) ->
  (fresh_success r = false /\ elsewhere w w')
  \/ (exists p w0 w1 result session nexts now, pr_ID p = pid /\ elsewhere w w0
        /\ frozen_commit world actor pid id input p w0 w1 result session nexts now /\ elsewhere w1 w')
  \/ (exists w0 change, elsewhere w w0 /\ handed_over actor pid id change w0 w').
Proof.
  intros W F. apply (commit_run world) in F as [Fr E|p w0 w1 result Ep E0 F E1|w0 change result E0 F]; [by left| |].
  - right. left. apply (frozen_write_ok world) in F as [_ (session & nexts & now & F)]; [|eapply core_wf; [by apply own_core|done]].
    by exists p, w0, w1, result, session, nexts, now.
  - right. right. exists w0, change. split; [done|]. eapply close_hands_over; [|exact F].
    eapply core_wf; [by apply own_core|done].
Qed.

Lemma edges_stay ctx call w w' r : wf w -> perform world ctx call w = (w', r) -> rm_edges w' = rm_edges w.
Proof.
  intros W F. assert (forall a b, elsewhere a b -> rm_edges b = rm_edges a) as El.
  { by intros a b (_ & ? & _)%elsewhere_fields. }
  assert (edits call -> rm_edges w' = rm_edges w) as Ed.
  { intros E. apply (keeps_run frozen_tables) in F; [|by apply edits_frozen]. by injection F. }
  destruct call; try by apply Ed. clear Ed. cbn [perform] in F.
  apply commit_parts in F as [[_ E]|[(p & w0 & w1 & res & s & ns & now & _ & E0 & F & E1)|(w0 & change & E0 & F)]]; [| | |done].
  - by apply El.
  - rewrite (El _ _ E1), (fc_edges _ _ _ _ _ _ _ _ _ _ _ _ F). by apply El.
  - destruct F as (? & ? & ? & _ & _ & _ & _ & _ & _ & _ & _ & F). injection F as -> _ _. by apply El.
Qed.

Lemma commit_refuses_edges ctx actor pid id key input w w' r session :
  rm_sessions w !! id = Some session -> es_EdgeProposals session <> [] ->
  CommitRoadmapEdit world ctx actor pid id key input w = (w', r) -> w' = w /\ exists e, r = Err e.
Proof.
  intros Fs Ne. unfold CommitRoadmapEdit. destruct (bad_close input); [intros F; injection F as <- <-; by eauto|].
  unfold RequireHuman, returned, mbind at 1, M_bind at 1.
  destruct (RequireHumanDecision _ _); [intros F; injection F as <- <-; by eauto|].
  cbn [mret M_ret]. unfold mbind at 1, M_bind at 1. destruct (transaction _ _ _ _ w) as [w1 [[[semantic deltas] rev]|e]] eqn:T.
  2: { apply (transaction_outcome world) in T as ->; [|done]. intros F. injection F as <- <-. by eauto. }
  apply (transaction_outcome world) in T as [T ->]; [|done|done]. unfold commit_check in T.
  apply bind_ok in T as (w4 & p & Ep & T). apply on_tables_ok in Ep as [_ Ep].
  apply bind_ok in T as (w2 & s & (-> & Fs' & _)%session_to_close_ok & T).
  rewrite Ep in Fs'. cbn in Fs'. assert (Some session = Some s) as [= <-] by (etransitivity; [symmetry; exact Fs|exact Fs']).
  apply bind_ok in T as (w2 & u & _ & T). apply bind_ok in T as (w3 & [semantic' deltas'] & Pl & T).
  injection T as _ -> -> _. apply plan_has_edge in Pl as (-> & delta & Hin & V); [|done].
  unfold commitRoadmapSemanticEdit. unfold mbind at 1, M_bind at 1.
  destruct (draft_refuses world ctx actor pid (key +:+ "-changeset") (commit_draft rev (xi_Reason input) deltas) delta w Hin V) as [e ->].
  intros F. injection F as <- <-. by eauto.
Qed.
End Handing.

(** ** What is frozen *)

(** C14. Along every run of the roadmap, of its calls, of change sets applied
    to it and of anything that leaves it alone, the store stays well formed:
    nodes are under their own keys, at their own versions; every frozen
    version is written once and follows its predecessor; a session is bound
    to one status and one result; a project has at most one open session.
    So the history of a node is whole: each version from 1 to the current
    one is frozen, under its number. *)
Theorem roadmap_stays_wellformed {X} `{Digester roadmap_any} (world : World X) `{!WorldLaws world} w w'
  (Steps : rtc (roadmap_step world) w w') (Wf : wf w) :
  wf w' /\ forall pid id row k, rm_nodes w' !! (pid, id) = Some row -> 1 <= k <= rn_Version (vr_Body row) ->
    exists node, rn_Version node = k /\ frozen_at w' pid id node.
Proof.
  apply (steps_good world) in Steps as [_ W]; [|done]. specialize (W Wf). split; [done|]. intros pid id row k Fr B.
  destruct (wf_node w' W _ _ _ Fr) as (_ & _ & _ & _ & _ & R). apply (wf_current w' W) in Fr.
  destruct (frozen_down w' pid id _ k _ W Fr B R) as [[v node] Fk].
  destruct (wf_frozen w' W _ _ _ Fk) as (E1 & _ & Ek & _). cbn in E1, Ek. subst v. apply versionKey_inj in Ek as [Ei Ev].
  exists node. split; [done|]. split; [done|]. by rewrite <- Ev.
Qed.

(** C28. A frozen version, of a node or of an edge, is never changed and never
    removed, whatever happens next; a node never disappears; a session that
    was committed or cancelled never changes again, and an open one keeps its
    project and the baseline it was begun on. *)
Theorem frozen_versions_are_forever {X} `{Digester roadmap_any} (world : World X) `{!WorldLaws world} w w'
  (Steps : rtc (roadmap_step world) w w') (Wf : wf w) :
  (forall key row, rm_versions w !! key = Some row -> rm_versions w' !! key = Some row)
  /\ (forall key row, rm_edges w !! key = Some row -> rm_edges w' !! key = Some row)
  /\ (forall key, is_Some (rm_nodes w !! key) -> is_Some (rm_nodes w' !! key))
  /\ forall id session, rm_sessions w !! id = Some session ->
       exists session', rm_sessions w' !! id = Some session'
       /\ (if is_open session then es_ProjectID session' = es_ProjectID session /\ es_Baseline session' = es_Baseline session
           else session' = session).
Proof.
  apply (steps_good world) in Steps as [[V E N S] _]; [|done]. split; [intros key row F; exact (lookup_weaken _ _ _ _ F V)|].
  split; [intros key row F; exact (lookup_weaken _ _ _ _ F E)|]. split; [exact N|].
  intros id session (session' & F & Ev)%S. exists session'. split; [done|].
  destruct Ev as [->|(-> & _ & ? & ?)]; [by destruct (is_open session)|done].
Qed.


(** Editing never touches the roadmap: beginning a session, proposing
    nodes and edges and cancelling leave every node, every edge and every
    frozen version as they are, whatever they answer. *)
Theorem editing_leaves_roadmap {X} `{Digester roadmap_any} (world : World X) `{!WorldLaws world} ctx call w w' r
  (Edits : edits call) (Run : perform world ctx call w = (w', r)) :
  rm_nodes w' = rm_nodes w /\ rm_edges w' = rm_edges w /\ rm_versions w' = rm_versions w.
Proof.
  apply (keeps_run frozen_tables) in Run; [|by apply edits_frozen]. injection Run as E1 E2 E3. done.
Qed.

(** The path for edges is closed: a session with a proposal about an edge
    is never committed, the call failing with the store as it was, and no
    call of the component ever writes an edge. *)
Theorem edge_proposals_never_commit {X} `{Digester roadmap_any} (world : World X) `{!WorldLaws world} w (Wf : wf w) :
  (forall ctx call w' r, perform world ctx call w = (w', r) -> rm_edges w' = rm_edges w)
  /\ forall ctx actor pid id key input session w' r,
       rm_sessions w !! id = Some session -> es_EdgeProposals session <> [] ->
       CommitRoadmapEdit world ctx actor pid id key input w = (w', r) -> w' = w /\ exists e, r = Err e.
Proof.
  split; [intros ctx call w' r; by apply edges_stay|].
  intros ctx actor pid id key input session w' r Fs Ne. by eapply (commit_refuses_edges world).
Qed.

(** ** Histories and resolution *)

Lemma not_own_prefix id : strip_prefix (id +:+ "/") id = None.
Proof.
  induction id as [|c id IH]; [done|]. change (strip_prefix (String c (id +:+ "/")) (String c id) = None).
  cbn [strip_prefix]. by rewrite Ascii.eqb_refl.
Qed.

(** The versions of a node read back what was written: when a node's next
    version is appended, the reading of its history gives the versions it
    gave before and that one, each with its own content, in the order of
    their numbers, and before and after these are the versions stored. *)
Theorem history_reads_back {X} (world : World X) `{!WorldLaws world} old next w w' u
  (Wf : wf w) (Alone : alone w (rn_ProjectID next) (rn_ID next)) (Db : answers world w)
  (Same : rn_ProjectID old = rn_ProjectID next /\ rn_ID old = rn_ID next)
  (Append : AppendRouteNode world old next w = (w', Ok u)) :
  exists nodes nodes',
    RouteNodeVersions world (rn_ProjectID next) (rn_ID next) w = (w, Ok nodes)
    /\ RouteNodeVersions world (rn_ProjectID next) (rn_ID next) w' = (w', Ok nodes')
    /\ StronglySorted node_version_le nodes'
    /\ (forall node, node ∈ nodes' <-> node ∈ nodes \/ node = next)
    /\ (forall node, node ∈ nodes <-> frozen_at w (rn_ProjectID next) (rn_ID next) node).
Proof.
  pose proof (append_ok world old next w w' u (proj1 Same) (proj2 Same) Append) as (-> & _ & _ & _ & New & _).
  apply (append_good world) in Append as [_ [_ W']]; [|apply Same..|done].
  destruct (history_spec world _ _ w Wf Alone Db) as (nodes & R & _ & S).
  destruct (history_spec world (rn_ProjectID next) (rn_ID next) (with_node next w) (W' Wf)) as (nodes' & R' & So & S'); [|exact Db|].
  { intros id' row F. cbn in F. apply lookup_insert_Some in F as [[[= <-] _]|[_ F]]; [apply not_own_prefix|by eapply Alone]. }
  exists nodes, nodes'. split_and!; [exact R|exact R'|exact So| |exact S].
  intros node. rewrite S', S. unfold frozen_at. cbn. split.
  - intros [Ei F]. apply lookup_insert_Some in F as [[_ F]|[_ F]]; [right; by injection F|by left].
  - intros [[Ei F]| ->]; [|split; [done|by apply lookup_insert_eq]]. split; [done|]. rewrite lookup_insert_ne; [done|].
    intros E. rewrite E in New. assert (None = Some _) as [=] by (etransitivity; [symmetry; exact New|exact F]).
Qed.

(** C35. Resolving a route node through its inputs ends on every store, cycles
    included: any fuel above the number of stored nodes gives the one answer,
    which is the answer of the code; and an answer that is a state shows that
    no route input leads back to the node. *)
Theorem route_resolution_terminates {X} (world : World X) `{!WorldLaws world} p ref w :
  exists r, r <> Ok None
  /\ (forall fuel, (size (rm_nodes w) < fuel)%nat -> route_object world fuel p ∅ ref w = (w, r))
  /\ currentRouteImpactObject world p ref w
     = (w, match r with Ok (Some state) => Ok state | Ok None => Ok zero_object | Err e => Err e end)
  /\ (forall state, r = Ok (Some state) -> ~ tc (feeds p w) (ref_ID ref) (ref_ID ref)).
Proof.
  destruct (current_route_resolved world p ref w) as (r & R & A & C). exists r. split_and!; [exact A| |exact C|].
  - intros fuel L. rewrite <- R. symmetry.
    rewrite <- (resolve_more world p (route_fuel w) (route_fuel w `max` fuel) ∅ ref w); [|lia|by rewrite R].
    apply (resolve_more world p fuel); [lia|]. apply (resolve_answered world p).
    pose proof (enough_fuel p w). unfold left_over in *. rewrite set_map_empty, difference_empty_L, size_dom in *. lia.
  - intros state ->. apply grounded_acyclic. by eapply (resolve_grounded world).
Qed.

(** C33. What the resolution confirms is what the rules of review derive: a
    route node is answered as current and reviewed exactly when it is ready,
    under the name of an author, within the project's revisions, at the
    version asked for, and every input is reviewed in turn, with no cycle. *)
Theorem route_review_equivalence {X} (world : World X) `{!WorldLaws world} p ref w
  (Kind : ref_Kind ref = "RouteNode") (Db : answers world w) :
  (exists state, currentRouteImpactObject world p ref w = (w, Ok state) /\ routeInputReviewed state ref = true)
  <-> reviewed world p w ref.
Proof.
  by apply (reviewed_iff world).
Qed.

(** ** Witnesses *)

#[local] Existing Instances Studio.text Studio.world_laws.

Lemma roadmap_stays_wellformed_witness :
  wf Studio.committed /\ forall pid id row k,
    rm_nodes Studio.committed !! (pid, id) = Some row -> 1 <= k <= rn_Version (vr_Body row) ->
    exists node, rn_Version node = k /\ frozen_at Studio.committed pid id node.
Proof. exact (roadmap_stays_wellformed Studio.world _ _ Studio.history Studio.start_wf). Defined.

Lemma frozen_versions_are_forever_witness :
  rm_versions Studio.committed !! ("p-1", "plan/1") = Some (Studio.row Studio.plan).
Proof.
  apply (proj1 (frozen_versions_are_forever Studio.world _ _ Studio.history Studio.start_wf)
           ("p-1", "plan/1") (Studio.row Studio.plan)). vm_compute. reflexivity.
Defined.


Lemma editing_leaves_roadmap_witness :
  rm_nodes Studio.begun = rm_nodes Studio.start /\ rm_edges Studio.begun = rm_edges Studio.start
  /\ rm_versions Studio.begun = rm_versions Studio.start.
Proof.
  apply (editing_leaves_roadmap Studio.world Studio.ctx Studio.begin Studio.start Studio.begun
    (Studio.answer Studio.begin Studio.start)); [exact I|apply surjective_pairing].
Defined.

Lemma edge_proposals_never_commit_witness :
  exists session, rm_sessions Studio.connected !! "session-0" = Some session /\ es_EdgeProposals session <> []
  /\ Studio.do Studio.commit Studio.connected = Studio.connected
  /\ exists e, Studio.answer Studio.commit Studio.connected = Err e.
Proof.
  destruct (rm_sessions Studio.connected !! "session-0") as [session|] eqn:F; [|vm_compute in F; discriminate F].
  assert (es_EdgeProposals session <> []) as Ne.
  { vm_compute in F. injection F as <-. discriminate. }
  exists session. split; [done|]. split; [exact Ne|].
  apply (proj2 (edge_proposals_never_commit Studio.world Studio.connected
                  (Studio.move _ _ (Studio.move _ _ Studio.start_wf)))
           Studio.ctx Studio.ann "p-1" "session-0" "key-0004" Studio.closing_input session); [exact F|exact Ne|].
  apply surjective_pairing.
Defined.

Lemma history_reads_back_witness :
  exists nodes nodes',
    RouteNodeVersions Studio.world "p-1" "plan" Studio.start = (Studio.start, Ok nodes)
    /\ RouteNodeVersions Studio.world "p-1" "plan" (AppendRouteNode Studio.world Studio.plan Studio.chosen Studio.start).1
       = ((AppendRouteNode Studio.world Studio.plan Studio.chosen Studio.start).1, Ok nodes')
    /\ StronglySorted node_version_le nodes'
    /\ (forall node, node ∈ nodes' <-> node ∈ nodes \/ node = Studio.chosen)
    /\ (forall node, node ∈ nodes <-> frozen_at Studio.start "p-1" "plan" node).
Proof.
  apply (history_reads_back Studio.world Studio.plan Studio.chosen Studio.start _ tt Studio.start_wf).
  - intros id row [(_ & -> & _)|(_ & -> & _)]%Studio.start_nodes; reflexivity.
  - reflexivity.
  - by split.
  - vm_compute. reflexivity.
Defined.

Lemma route_resolution_terminates_witness :
  route_object Studio.world 3 Studio.project ∅ (node_ref Studio.draft) Studio.tangled = (Studio.tangled, Err ErrInvalidState)
  /\ exists r, r <> Ok None
  /\ (forall fuel, (size (rm_nodes Studio.tangled) < fuel)%nat ->
        route_object Studio.world fuel Studio.project ∅ (node_ref Studio.draft) Studio.tangled = (Studio.tangled, r))
  /\ currentRouteImpactObject Studio.world Studio.project (node_ref Studio.draft) Studio.tangled
     = (Studio.tangled, match r with Ok (Some state) => Ok state | Ok None => Ok zero_object | Err e => Err e end)
  /\ (forall state, r = Ok (Some state) -> ~ tc (feeds Studio.project Studio.tangled) "draft" "draft").
Proof.
  split; [vm_compute; reflexivity|].
  exact (route_resolution_terminates Studio.world Studio.project (node_ref Studio.draft) Studio.tangled).
Defined.

Lemma route_review_equivalence_witness : reviewed Studio.world Studio.project Studio.start (node_ref Studio.draft).
Proof.
  apply (route_review_equivalence Studio.world Studio.project (node_ref Studio.draft) Studio.start eq_refl eq_refl).
  eexists. split; vm_compute; reflexivity.
Defined.
