(* ===== verification/ImpactStore.v ===== *)
(** The status of change sets, and the storage behind impacts: change sets, their semantic plans, assessments,
    dependency edges and impact tasks, and the values and sources of the
    objects they name, of
    [src/internal/lingdoc/workspacecore/{change_set_status,impact_store,semantic_delta,service,impact_source_operation}.go].

    What these read outside the roadmap's tables (chapters, evidence, receipts,
    templates, proofs) is the record [Checks]. *)

From stdpp Require Import pretty sorting.
From Stdlib Require Import Ascii String.
From S2P Require Import Prelude Effects OperationCore OperationStore Workspace Permission MemberStore Membership OperationRunner RoadmapModel RoadmapStore RouteObjects.

(** ** The status of a change set ([change_set_status.go]) *)

Definition ChangeSetStatusDraft := "draft".
Definition ChangeSetStatusAssessed := "assessed".
Definition ChangeSetStatusApplied := "applied".
Definition ChangeSetStatusStabilized := "stabilized".
Definition ChangeSetStatusRejected := "rejected".
Definition ChangeSetStatusStale := "stale".
Definition ChangeSetStatusSatisfied := "satisfied".

Definition ChangeSetStatuses : list string :=
  [ChangeSetStatusDraft; ChangeSetStatusAssessed; ChangeSetStatusApplied; ChangeSetStatusStabilized;
   ChangeSetStatusRejected; ChangeSetStatusStale; ChangeSetStatusSatisfied].

Definition ChangeSetClosedStatuses : list string := [ChangeSetStatusApplied; ChangeSetStatusStabilized].

Record ChangeSetStatusMove := { mv_From : list string; mv_To : string }.

Definition ChangeSetStatusMoves : gmap string ChangeSetStatusMove := list_to_map
  [("apply", {| mv_From := [ChangeSetStatusAssessed]; mv_To := ChangeSetStatusApplied |});
   ("reject", {| mv_From := [ChangeSetStatusAssessed]; mv_To := ChangeSetStatusRejected |});
   ("markStale", {| mv_From := [ChangeSetStatusAssessed]; mv_To := ChangeSetStatusStale |});
   ("assess", {| mv_From := [ChangeSetStatusDraft; ChangeSetStatusAssessed]; mv_To := ChangeSetStatusAssessed |});
   ("reassess", {| mv_From := [ChangeSetStatusStale]; mv_To := ChangeSetStatusAssessed |});
   ("satisfy", {| mv_From := [ChangeSetStatusStale]; mv_To := ChangeSetStatusSatisfied |});
   ("stabilize", {| mv_From := [ChangeSetStatusApplied]; mv_To := ChangeSetStatusStabilized |});
   ("editDraft", {| mv_From := [ChangeSetStatusDraft; ChangeSetStatusAssessed]; mv_To := ChangeSetStatusDraft |})].

Definition ChangeSetApplyAnswered (status : string) : bool :=
  (status =? ChangeSetStatusApplied)%string || (status =? ChangeSetStatusStale)%string.

Definition ChangeSetStatusCanMove (move from : string) : bool :=
  match ChangeSetStatusMoves !! move with
  | None => false
  | Some declared => contains (mv_From declared) from
  end.

Definition ChangeSetStatusNeeds (move status : string) : bool :=
  match ChangeSetStatusMoves !! move with
  | None => false
  | Some declared => negb (status =? mv_To declared)%string
  end.

Definition IsChangeSetStatus (status : string) : bool := contains ChangeSetStatuses status.
Definition IsClosedChangeSetStatus (status : string) : bool := contains ChangeSetClosedStatuses status.

(** ** What is read outside the roadmap *)

Record SemanticCurrentValue := { cs_Ref : ObjectVersionRef; cs_Body : string; cs_SourceIDs : list string; cs_ProvenanceHash : string }.

(** The receipts of research runs and computations, the review of claims,
    assets and chapters, the rule checker the service was given, the preflight
    basis, the values of objects that are not routes, and the sources of
    proofs, snapshots and results. *)
Record Checks := {
  ck_verifyImpactActionResult : Project -> ImpactTask -> list ObjectVersionRef -> T unit;
  ck_researchClaimReviewCurrent : Project -> ObjectVersionRef -> tables -> bool;
  ck_projectAssetVersionBlocker : Project -> string -> ObjectVersionRef -> tables -> option ImpactBlocker;
  (* the current version of a chapter *)
  ck_chapter_version : string -> string -> T (option string);
  (* of the current version of a chapter, when there is one: its spec revision and its confirmation *)
  ck_chapter_review : string -> string -> T (option (Z * bool));
  ck_impactRules : option (Project -> T (list ImpactBlocker));
  ck_preflightBasis : Project -> T string;
  (* ORDER BY created_at, id *)
  ck_change_order : list ChangeSet -> list ChangeSet;
  (* currentSemanticValue of a card, a claim, an asset's policy or a rule's binding *)
  ck_semantic : Project -> SemanticDelta -> T SemanticCurrentValue;
  (* the sources of the state an outside object's failing read answers with *)
  ck_leftover : Project -> ObjectVersionRef -> tables -> list string;
  (* the sources a proof's record, a snapshot and a result name *)
  ck_preflight_sources : Project -> string -> T (list string);
  ck_snapshot_sources : string -> string -> T (list string);
  ck_result_sources : Project -> ObjectVersionRef -> T (list string);
  (* the sources the provenance record of a change set inherits from, none without a record *)
  ck_inherited : string -> string -> T (list string)
}.

(** ** Sources ([impact_source_operation.go]) *)

(** [slices.Compact] *)
Fixpoint Compact (l : list string) : list string :=
  match l with
  | [] => []
  | s :: l' => match Compact l' with
               | t :: _ as rest => if (s =? t)%string then rest else s :: rest
               | [] => [s]
               end
  end.

Definition sortedImpactSourceIDs (ids : list string) : list string :=
  Compact (merge_sort string_le (base.filter (fun id => id <> "") ids)).

(** ** References *)

Definition refIdentity (ref : ObjectVersionRef) : string :=
  ref_Kind ref +:+ "/" +:+ ref_ID ref +:+ "/" +:+ ref_Version ref.

Definition semanticRef (delta : SemanticDelta) : ObjectVersionRef :=
  {| ref_Kind := if (sd_Kind delta =? "ProjectAssetScope")%string then "ProjectAsset" else sd_Kind delta;
     ref_ID := sd_TargetID delta; ref_Version := pretty (sd_ExpectedVersion delta) |}.

Section Store.
Context {X : Type} `{Digester roadmap_any}.
Variable world : World X.
Variable checks : Checks.
Abbreviation db := (sv_db (wd_service world)).

Definition hashImpactValue (value : roadmap_any) : string := ValueHash value.

Fixpoint rm_collect {A B} (f : A -> RM (list B)) (l : list A) : RM (list B) :=
  match l with
  | [] => mret []
  | a :: l' => bs ← f a; bs' ← rm_collect f l'; mret (bs ++ bs')
  end.

(** *** The sources of objects ([impact_service.go], [semantic_delta.go]) *)

(** The sources a route gathered before an input of it failed. *)
Fixpoint gathered (resolve : ObjectVersionRef -> RM (option ImpactObjectState)) (inputs : list ObjectVersionRef) : RM (list string) :=
  match inputs with
  | [] => mret []
  | input :: inputs' =>
      found ← attempt (resolve input);
      match found with
      | Ok (Some state) => ids ← gathered resolve inputs'; mret (os_SourceIDs state ++ ids)
      | _ => mret []
      end
  end.

(** The sources in the state [readImpactObjectState] answers beside its
    error. *)
Definition leftover_sources (p : Project) (ref : ObjectVersionRef) : RM (list string) :=
  let kind := ref_Kind ref in
  if (kind =? "RouteNode")%string then
    found ← attempt (routeNodeOf world (pr_ID p) (ref_ID ref));
    match found with
    | Err _ => mret []
    | Ok node => here (fun w =>
        gathered (fun input =>
          if (ref_Kind input =? "RouteNode")%string
          then route_object world (route_fuel w) p {[ ref_ID ref ]} input
          else state ← other_input world p input; mret (Some state)) (rn_Inputs node))
    end
  else if contains ["ProjectSpec"; "RouteEdge"; "TemplateCopy"; "RuleSet"] kind then mret []
  else fun w => (w, Ok (ck_leftover checks p ref (rm_tables w))).

(** The sources of [currentImpactObject]'s state, a version conflict and an
    invalid state being passed over. *)
Definition tolerant_sources (p : Project) (ref : ObjectVersionRef) : RM (list string) :=
  found ← attempt (readImpactObjectState world p ref);
  match found with
  | Ok state => mret (os_SourceIDs state)
  | Err err =>
      if errors_Is err ErrVersionConflict || errors_Is err ErrInvalidState then leftover_sources p ref else fail err
  end.

Definition current_sources (p : Project) (ref : ObjectVersionRef) : RM (list string) :=
  state ← currentImpactObject world p ref;
  mret (os_SourceIDs state).

(** *** Semantic values ([semantic_delta.go]) *)

Definition value_of (delta : SemanticDelta) (version : Z) (value : roadmap_any) (sources : list string) (provenance : string)
  : RM SemanticCurrentValue :=
  match json_Marshal value with
  | Ok body =>
      mret {| cs_Ref := at_version (semanticRef delta) (pretty version); cs_Body := body;
              cs_SourceIDs := sortedImpactSourceIDs sources; cs_ProvenanceHash := provenance |}
  | Err err => fail err
  end.

Definition semantic_kinds : list string := ["EvidenceCard"; "ResearchClaim"; "ProjectAssetScope"; "RuleBinding"].

Definition currentSemanticValue (p : Project) (delta : SemanticDelta) : RM SemanticCurrentValue :=
  let kind := sd_Kind delta in
  let id := sd_TargetID delta in
  if (kind =? "RouteNode")%string then
    node ← found_or_new (routeNodeOf world (pr_ID p) id) (sd_ExpectedVersion delta)
             (zero_node <| rn_ID := id |> <| rn_ProjectID := pr_ID p |>);
    sources ← rm_collect (tolerant_sources p) (rn_Inputs node);
    value_of delta (rn_Version node) (AnyNode node) sources (hashImpactValue (AnyRefs (rn_Inputs node)))
  else if (kind =? "RouteEdge")%string then
    edge ← found_or_new (Store_RouteEdge world (pr_ID p) id) (sd_ExpectedVersion delta)
             (zero_edge <| re_ID := id |> <| re_ProjectID := pr_ID p |>);
    value_of delta (re_Version edge) (AnyRouteEdge edge) [] ""
  else if contains semantic_kinds kind then on_tables (ck_semantic checks p delta)
  else fail ErrInvalidRequest.

Definition semanticValueHash (value : SemanticCurrentValue) : string :=
  hashImpactValue (AnyValue (cs_Ref value) (cs_Body value) (cs_ProvenanceHash value)).

(** *** Assessments and tasks ([impact_store.go]) *)

Definition put_assessments (t : records ImpactAssessment) (w : roadmap) : roadmap := w <| rm_assessments := t |>.

Definition SaveImpactAssessment (value : ImpactAssessment) : RM unit :=
  let pid := ia_ProjectID value in
  let key := ia_ChangeSetID value in
  found ← attempt (readVersionedRecord world rm_assessments pid key);
  match found with
  | Ok row => compareAndSwapVersionedRecord world rm_assessments put_assessments pid key (vr_Version row) value
  | Err err =>
      if decide (err = ErrNotFound)
      then insertVersionedRecord world rm_assessments put_assessments pid key 1 value
      else fail err
  end.

Definition Store_ImpactAssessment (pid id : string) : RM ImpactAssessment :=
  row ← readVersionedRecord world rm_assessments pid id;
  mret (vr_Body row).

Definition Store_DependencyEdge (pid id : string) : RM DependencyEdge :=
  row ← readVersionedRecord world rm_dependencies pid id;
  mret (vr_Body row).

Definition UpdateDependencyEdge (old next : DependencyEdge) : RM unit :=
  compareAndSwapVersionedRecord world rm_dependencies put_dependencies (de_ProjectID old) (de_ID old) (de_Version old) next.

Definition ImpactTaskByIdentity (pid identity : string) : RM ImpactTask :=
  row ← readVersionedRecord world rm_tasks pid identity;
  mret (vr_Body row).

Definition Store_ImpactTask (pid id : string) : RM ImpactTask :=
  tasks ← ImpactTasks world pid;
  match base.filter (fun task => it_ID task = id) tasks with
  | task :: _ => mret task
  | [] => fail ErrNotFound
  end.

(** *** Change sets ([service.go], [semantic_delta.go]) *)

Definition SemanticPlan (pid id : string) : RM (list SemanticDelta) :=
  found ← attempt (readVersionedRecord world rm_plans pid id);
  match found with
  | Ok row => mret (vr_Body row)
  | Err err => if decide (err = ErrNotFound) then mret [] else fail err
  end.

Definition HydrateSemanticChange (change : ChangeSet) : RM ChangeSet :=
  plan ← SemanticPlan (ch_ProjectID change) (ch_ID change);
  mret (change <| ch_SemanticDeltas := plan |>).

Fixpoint review_impacts (pid : string) (target : Z) (impacts : list ChangeImpact) : RM (list ChangeImpact) :=
  match impacts with
  | [] => mret []
  | impact :: impacts' =>
      review ← on_tables (ck_chapter_review checks pid (ci_ChapterID impact));
      rest ← review_impacts pid target impacts';
      mret (match review with
            | None => impact
            | Some (revision, confirmed) =>
                {| ci_ChapterID := ci_ChapterID impact; ci_ChapterVersionID := ci_ChapterVersionID impact;
                   ci_Title := ci_Title impact; ci_Reason := ci_Reason impact;
                   ci_Status := if (revision =? target) && confirmed then "reviewed" else "open" |}
            end :: rest)
  end.

Definition withCurrentImpactStatus (change : ChangeSet) : RM ChangeSet :=
  match ch_TargetSpecRevision change with
  | Some target =>
      if (ch_Status change =? ChangeSetStatusApplied)%string then
        impacts ← review_impacts (ch_ProjectID change) target (ch_Impacts change);
        mret (change <| ch_Impacts := impacts |>)
      else mret change
  | None => mret change
  end.

Definition Store_ChangeSet (pid id : string) : RM ChangeSet :=
  found ← rm_query world "select lingdoc_change_sets" (fun w => rm_changes w !! id);
  match found with
  | None => fail ErrNotFound
  | Some row =>
      _ ← refuse_if (negb (ch_ProjectID row =? pid)%string) ErrNotFound;
      change ← HydrateSemanticChange row;
      withCurrentImpactStatus change
  end.

Fixpoint change_views (rows : list ChangeSet) : RM (list ChangeSet) :=
  match rows with
  | [] => mret []
  | row :: rows' =>
      change ← HydrateSemanticChange row;
      change ← withCurrentImpactStatus change;
      changes ← change_views rows';
      mret (change :: changes)
  end.

Definition ChangeSets (pid : string) : RM (list ChangeSet) :=
  rows ← rm_query world "select lingdoc_change_sets" (fun w =>
    ck_change_order checks (base.filter (fun row => ch_ProjectID row = pid) (snd <$> map_to_list (rm_changes w))));
  change_views rows.

(** The columns of the update; [fields_json] holds the fields, the template
    upgrade, the lineage and the decision. *)
Definition updated_row (row next : ChangeSet) : ChangeSet :=
  row <| ch_Reason := ch_Reason next |> <| ch_Status := ch_Status next |>
      <| ch_TargetContextRevision := ch_TargetContextRevision next |>
      <| ch_TargetSpecRevision := ch_TargetSpecRevision next |>
      <| ch_Fields := ch_Fields next |> <| ch_TemplateUpgrade := ch_TemplateUpgrade next |>
      <| ch_ReassessedFromID := ch_ReassessedFromID next |>
      <| ch_ReversesChangeSetID := ch_ReversesChangeSetID next |>
      <| ch_StaleReason := ch_StaleReason next |> <| ch_DecisionBy := ch_DecisionBy next |>
      <| ch_DecidedAt := ch_DecidedAt next |> <| ch_AffectedExplanation := ch_AffectedExplanation next |>
      <| ch_Impacts := ch_Impacts next |> <| ch_AppliedAt := ch_AppliedAt next |>.

Definition UpdateChangeSet (previous next : ChangeSet) : RM unit :=
  rm_statement world "update lingdoc_change_sets" (fun w =>
    match rm_changes w !! ch_ID previous with
    | Some row =>
        if (ch_ProjectID row =? ch_ProjectID previous)%string && (ch_Status row =? ch_Status previous)%string
        then (w <| rm_changes := <[ch_ID previous := updated_row row next]> (rm_changes w) |>, Ok tt)
        else (w, Err ErrVersionConflict)
    | None => (w, Err ErrVersionConflict)
    end).

Definition RecordContextRevision (p : Project) (change : ChangeSet) : RM unit :=
  recordContextRevisionSnapshot world p (ch_ID change).

(** *** The sources of references ([impact_source_operation.go]) *)

Definition preflight_sources (p : Project) (id : string) : RM (list string) :=
  found ← attempt (on_tables (ck_preflight_sources checks p id));
  match found with
  | Ok ids => mret ids
  | Err err =>
      if decide (err = ErrNotFound) then on_tables (ck_snapshot_sources checks (pr_ID p) id) else fail err
  end.

Definition ref_sources (p : Project) (ref : ObjectVersionRef) : RM (list string) :=
  let kind := ref_Kind ref in
  if (kind =? "DeliveryPreflight")%string then preflight_sources p (ref_ID ref)
  else if (kind =? "ReleaseSnapshot")%string then on_tables (ck_snapshot_sources checks (pr_ID p) (ref_ID ref))
  else if (kind =? "ResearchRun")%string || (kind =? "ComputationReceipt")%string
  then on_tables (ck_result_sources checks p ref)
  else if (kind =? "RouteNode")%string && (ref_Version ref =? "0")%string then mret []
  else if (kind =? "ProjectAsset")%string then mret []
  else tolerant_sources p ref.

Definition impactSourceIDsForRefs (p : Project) (refs : list ObjectVersionRef) : RM (list string) :=
  rm_collect (ref_sources p) refs.
End Store.
