(* ===== verification/ImpactStoreLaws.v ===== *)
(** What the storage behind impacts promises: which statements only read, what
    a stored record holds after each write, and that a delivered task is
    delivered once. *)

From stdpp Require Import pretty sorting.
From S2P Require Import Prelude Effects OperationCore OperationStore Workspace Permission MemberStore Membership OperationRunner RoadmapModel RoadmapStore RouteObjects Roadmap RoadmapLaws RoadmapHistory RouteLaws ImpactStore.

(** The parts of the program outside the roadmap only read. *)
Class ChecksLaws (checks : Checks) := {
  receipt_reads p task refs : reads (ck_verifyImpactActionResult checks p task refs);
  chapter_reads pid id : reads (ck_chapter_version checks pid id);
  review_reads pid id : reads (ck_chapter_review checks pid id);
  rules_read check p : ck_impactRules checks = Some check -> reads (check p);
  basis_reads p : reads (ck_preflightBasis checks p);
  change_order_perm l : ck_change_order checks l ≡ₚ l;
  semantic_reads p delta : reads (ck_semantic checks p delta);
  semantic_names p delta t t' value : ck_semantic checks p delta t = (t', Ok value) ->
    cs_Ref value = at_version (semanticRef delta) (ref_Version (cs_Ref value));
  proof_reads p id : reads (ck_preflight_sources checks p id);
  snapshot_reads pid id : reads (ck_snapshot_sources checks pid id);
  result_reads p ref : reads (ck_result_sources checks p ref);
  inherited_reads pid id : reads (ck_inherited checks pid id)
}.

#[export] Hint Resolve receipt_reads chapter_reads review_reads basis_reads semantic_reads proof_reads snapshot_reads
  result_reads inherited_reads : effects.

Lemma attempt_read {A} (m : RM A) w : reads m -> attempt m w = (w, Ok (m w).2).
Proof. intros R. unfold attempt. by rewrite (reads_run m w R). Qed.

Lemma tables_run {A} (m : T A) w : reads m -> on_tables m w = (w, (m (rm_tables w)).2).
Proof.
  intros R. rewrite (reads_run _ w (reads_on_tables m R)). unfold on_tables. by destruct (m (rm_tables w)).
Qed.

Lemma reads_asked {A} (f : tables -> A) : reads (fun w : roadmap => (w, Ok (f (rm_tables w))) : roadmap * res error A).
Proof. by intros w. Qed.
#[export] Hint Resolve reads_asked : effects.

Lemma reads_here {A} (f : roadmap -> RM A) : (forall w, reads (f w)) -> reads (here f).
Proof. intros R w. apply R. Qed.

(** ** Reads *)

Section Reads.
Context {X : Type} `{Digester roadmap_any} (world : World X) `{!WorldLaws world} (checks : Checks) `{!ChecksLaws checks}.


Lemma reads_object p ref : reads (readImpactObjectState world p ref).
Proof.
  unfold readImpactObjectState. apply (reads_object_state world). intros r w. unfold currentRouteImpactObject.
  rewrite (reads_run _ w (reads_route_object world _ _ _ _)). by destruct (_.2) as [[|]|].
Qed.

Lemma reads_collect {A B} (f : A -> RM (list B)) l : (forall a, reads (f a)) -> reads (rm_collect f l).
Proof.
  intros R. induction l as [|a l IH]; cbn; [apply keeps_ret|].
  apply keeps_bind; [apply R|intros bs]. apply keeps_bind; [done|intros bs']. apply keeps_ret.
Qed.

Lemma reads_gathered resolve inputs : (forall input, reads (resolve input)) -> reads (gathered resolve inputs).
Proof.
  intros R. induction inputs as [|input inputs IH]; cbn; [apply keeps_ret|].
  apply keeps_bind; [by apply keeps_attempt|]. intros [[state|]|e]; try apply keeps_ret.
  apply keeps_bind; [done|]. intros ids. apply keeps_ret.
Qed.

Lemma reads_leftover p ref : reads (leftover_sources world checks p ref).
Proof.
  unfold leftover_sources. destruct (_ =? _)%string; [|destruct (contains _ _); [apply keeps_ret|apply reads_asked]].
  apply keeps_bind; [apply keeps_attempt, reads_node; apply _|]. intros [node|e]; [|apply keeps_ret].
  apply reads_here. intros w. apply reads_gathered. intros input. destruct (_ =? _)%string; [by apply reads_route_object|].
  apply keeps_bind; [by apply reads_other_input|]. intros state. apply keeps_ret.
Qed.

Lemma reads_tolerant p ref : reads (tolerant_sources world checks p ref).
Proof.
  unfold tolerant_sources. apply keeps_bind; [apply keeps_attempt, reads_object|]. intros [state|e]; [apply keeps_ret|].
  destruct (_ || _); [apply reads_leftover|apply keeps_fail].
Qed.

Lemma reads_current_sources p ref : reads (current_sources world p ref).
Proof. unfold current_sources. apply keeps_bind; [by apply reads_current_object|]. intros state. apply keeps_ret. Qed.

Lemma reads_found_or_new {A} (m : RM A) expected new : reads m -> reads (found_or_new m expected new).
Proof.
  intros R. unfold found_or_new. apply keeps_bind; [by apply keeps_attempt|]. intros [a|e]; [apply keeps_ret|].
  destruct (_ && _); [apply keeps_ret|apply keeps_fail].
Qed.

Lemma reads_value delta version value sources provenance : reads (value_of delta version value sources provenance).
Proof. unfold value_of. destruct (json_Marshal value); [apply keeps_ret|apply keeps_fail]. Qed.

Lemma reads_semantic_value p delta : reads (currentSemanticValue world checks p delta).
Proof.
  unfold currentSemanticValue. destruct (_ =? _)%string.
  { apply keeps_bind; [by apply reads_found_or_new, reads_node|intros node].
    apply keeps_bind; [apply reads_collect; intros; apply reads_tolerant|intros sources]. apply reads_value. }
  destruct (_ =? _)%string.
  { apply keeps_bind; [by apply reads_found_or_new, reads_edge|intros edge]. apply reads_value. }
  destruct (contains _ _); [apply reads_on_tables; auto with effects|apply keeps_fail].
Qed.

Lemma reads_assessment pid id : reads (Store_ImpactAssessment world pid id).
Proof. unfold Store_ImpactAssessment. apply keeps_bind; [by apply reads_row|]. intros row. apply keeps_ret. Qed.

Lemma reads_dependency pid id : reads (Store_DependencyEdge world pid id).
Proof. unfold Store_DependencyEdge. apply keeps_bind; [by apply reads_row|]. intros row. apply keeps_ret. Qed.

Lemma reads_dependencies pid : reads (DependencyEdges world pid).
Proof. by apply reads_list. Qed.

Lemma reads_tasks pid : reads (ImpactTasks world pid).
Proof. by apply reads_list. Qed.

Lemma reads_task pid id : reads (Store_ImpactTask world pid id).
Proof.
  unfold Store_ImpactTask. apply keeps_bind; [apply reads_tasks|]. intros tasks.
  destruct (base.filter _ tasks); [apply keeps_fail|apply keeps_ret].
Qed.

Lemma reads_plan pid id : reads (SemanticPlan world pid id).
Proof.
  unfold SemanticPlan. apply keeps_bind; [by apply keeps_attempt, reads_row|].
  intros [row|e]; [apply keeps_ret|]. case_decide; [apply keeps_ret|apply keeps_fail].
Qed.

Lemma reads_change_view row : reads (change ← HydrateSemanticChange world row; withCurrentImpactStatus checks change).
Proof.
  apply keeps_bind.
  { unfold HydrateSemanticChange. apply keeps_bind; [apply reads_plan|intros plan; apply keeps_ret]. }
  intros change. unfold withCurrentImpactStatus. destruct (ch_TargetSpecRevision change) as [target|]; [|apply keeps_ret].
  destruct (_ =? _)%string; [|apply keeps_ret]. apply keeps_bind; [|intros impacts; apply keeps_ret].
  induction (ch_Impacts change) as [|impact impacts IH]; cbn; [apply keeps_ret|].
  apply keeps_bind; [apply reads_on_tables; auto with effects|intros review]. apply keeps_bind; [done|intros rest]. apply keeps_ret.
Qed.

Lemma reads_change pid id : reads (Store_ChangeSet world checks pid id).
Proof.
  unfold Store_ChangeSet. apply keeps_bind; [by apply reads_rm_query|]. intros [row|]; [|apply keeps_fail].
  apply keeps_bind; [intros w; by destruct (negb _)|intros _]. apply reads_change_view.
Qed.

Lemma reads_change_views rows : reads (change_views world checks rows).
Proof.
  induction rows as [|row rows IH]; cbn; [apply keeps_ret|]. pose proof (reads_change_view row) as V.
  intros w. specialize (V w). unfold mbind, M_bind in V |- *. destruct (HydrateSemanticChange world row w) as [w1 [change|e]]; [|done].
  destruct (withCurrentImpactStatus checks change w1) as [w2 [view|e]]; [|done]. cbn in V. subst w2.
  specialize (IH w). by destruct (change_views world checks rows w) as [w3 [views|e]].
Qed.

Lemma reads_changes pid : reads (ChangeSets world checks pid).
Proof. unfold ChangeSets. apply keeps_bind; [by apply reads_rm_query|intros rows]. apply reads_change_views. Qed.

Lemma reads_ref_sources p ref : reads (ref_sources world checks p ref).
Proof.
  unfold ref_sources, preflight_sources. repeat case_match; auto using reads_tolerant, keeps_ret, reads_on_tables with effects.
  apply keeps_bind; [apply keeps_attempt, reads_on_tables; auto with effects|]. intros [ids|e]; [apply keeps_ret|].
  case_decide; [apply reads_on_tables; auto with effects|apply keeps_fail].
Qed.

Lemma reads_refs_sources p refs : reads (impactSourceIDsForRefs world checks p refs).
Proof. apply reads_collect. intros ref. apply reads_ref_sources. Qed.
End Reads.

(** ** What a read names *)

Section Names.
Context {X : Type} `{Digester roadmap_any} (world : World X) `{!WorldLaws world} (checks : Checks) `{!ChecksLaws checks}.

Lemma inputs_ref resolve inputs state w w' state' :
  resolve_inputs resolve state inputs w = (w', Ok (Some state')) -> os_Ref state' = os_Ref state.
Proof.
  revert state w. induction inputs as [|input inputs IH]; intros state w; cbn.
  { intros E. by injection E as _ <-. }
  intros (w1 & [source|] & _ & E)%bind_ok; [|by injection E]. by apply IH in E.
Qed.

Lemma ref_eta (ref ref' : ObjectVersionRef) :
  ref_Kind ref' = ref_Kind ref -> ref_ID ref' = ref_ID ref -> ref_Version ref' = ref_Version ref -> ref' = ref.
Proof. destruct ref, ref'. cbn. by intros -> -> ->. Qed.

Lemma object_state_names p ref w w' state : readImpactObjectState world p ref w = (w', Ok state) ->
  validObjectRef ref = true /\ ref_Kind (os_Ref state) = ref_Kind ref /\ ref_ID (os_Ref state) = ref_ID ref.
Proof.
  unfold readImpactObjectState, object_state. intros (w1 & [] & [V ->]%refuse_if_ok & E)%bind_ok.
  apply negb_false_iff in V. split; [done|].
  destruct (_ =? "ProjectSpec")%string.
  { apply bind_ok in E as (w2 & [] & _ & E). by injection E as _ <-. }
  destruct (_ =? "RouteNode")%string.
  { destruct (current_route_resolved world p ref w) as (r & R & A & C). rewrite C in E.
    destruct r as [[s|]|e]; [|by destruct A|done]. injection E as _ ->. clear A C.
    unfold route_fuel in R. cbn [route_object] in R. case_decide; [done|].
    apply bind_ok in R as (w2 & node & _ & R). by apply inputs_ref in R as ->. }
  destruct (_ =? "RouteEdge")%string.
  { apply bind_ok in E as (w2 & edge & _ & E). by injection E as _ <-. }
  destruct (_ || _).
  { destruct (pr_TemplateCopy p); [|done]. apply bind_ok in E as (w2 & [] & _ & E). injection E as _ <-.
    by destruct (_ =? _)%string. }
  apply on_tables_ok in E as [E _]. by apply (object_names (world := world)) in E.
Qed.

Lemma current_object_names p ref w w' state : currentImpactObject world p ref w = (w', Ok state) ->
  validObjectRef ref = true /\ os_Ref state = ref.
Proof.
  unfold currentImpactObject. intros (w1 & s & (V & K & I)%object_state_names & E)%bind_ok. split; [done|].
  unfold still_current in E. apply bind_ok in E as (w2 & [] & [Ve ->]%refuse_if_ok & E).
  apply bind_ok in E as (w3 & [] & _ & E). injection E as _ <-. apply ref_eta; [done..|].
  apply negb_false_iff in Ve. by apply String.eqb_eq.
Qed.
End Names.

#[export] Hint Resolve reads_object reads_collect reads_tolerant reads_current_sources reads_semantic_value reads_assessment
  reads_dependency reads_dependencies reads_tasks reads_task reads_change reads_changes reads_refs_sources : effects.
