(* ===== verification/Lineage.v ===== *)
(** The lineage of inverse change sets: which applied change set a proposal
    undoes, through the reassessments it went through, and the guards that keep
    one live inverse per source
    ([src/internal/lingdoc/workspacecore/change_inverse_lineage.go]). *)

From stdpp Require Import pretty sorting.
From Stdlib Require Import Ascii String.
From S2P Require Import Prelude Effects OperationCore OperationStore Workspace Permission MemberStore Membership OperationRunner RoadmapModel RoadmapStore RouteObjects RoadmapLaws RouteLaws ImpactStore ImpactStoreLaws.

(** [target[strings.LastIndex(target, "/")+1:]] *)
Fixpoint last_segment (s segment : string) : string :=
  match s with
  | EmptyString => segment
  | String c s' => last_segment s' (if Ascii.eqb c slash then s' else segment)
  end.

(** A walk over change sets, each visited once: its fuel is one more than the
    change sets there are. [None], the fuel running out, is what no run of it
    answers. *)
Definition over_changes {A} (zero : A) (walk : nat -> RM (option A)) : RM A := fun w =>
  match walk (S (size (rm_changes w))) w with
  | (w', Ok (Some a)) => (w', Ok a)
  | (w', Ok None) => (w', Ok zero)
  | (w', Err err) => (w', Err err)
  end.

Section Lineage.
Context {X : Type} `{Digester roadmap_any}.
Variable world : World X.
Variable checks : Checks.
Abbreviation db := (sv_db (wd_service world)).

(** [SELECT ... FOR UPDATE] *)
Definition LockInverseSource (pid id : string) : RM unit :=
  found ← rm_query world "select lingdoc_change_sets" (fun w => rm_changes w !! id);
  refuse_if (negb match found with Some row => (ch_ProjectID row =? pid)%string | None => false end) ErrNotFound.

(** What the recorded history names, when it names one source. *)
Definition historical_source (inherited : list string) : string := default "" (head inherited).

Fixpoint lineage_source (fuel : nat) (pid : string) (change : ChangeSet) (seen : gset string) : RM (option string) :=
  match fuel with
  | O => mret None
  | S fuel =>
      _ ← refuse_if (negb (ch_ProjectID change =? pid)%string || bool_decide (ch_ID change ∈ seen)) ErrInvalidState;
      inherited ← on_tables (ck_inherited checks pid (ch_ID change));
      _ ← refuse_if (1 <? Z.of_nat (length inherited)) ErrInvalidState;
      let historical := historical_source inherited in
      let reversed := ch_ReversesChangeSetID change in
      if negb (reversed =? "")%string then
        _ ← refuse_if (negb (historical =? "")%string && negb (historical =? reversed)%string) ErrInvalidState;
        mret (Some reversed)
      else if negb (historical =? "")%string then mret (Some historical)
      else if (ch_ReassessedFromID change =? "")%string then mret (Some "")
      else
        parent ← Store_ChangeSet world checks pid (ch_ReassessedFromID change);
        lineage_source fuel pid parent ({[ ch_ID change ]} ∪ seen)
  end.

Definition inverseLineageSource (pid : string) (change : ChangeSet) : RM string :=
  over_changes "" (fun fuel => lineage_source fuel pid change ∅).

Definition inverseSourceAccess (p : Project) (actor : Actor) (sourceID : string) : RM ChangeSet :=
  _ ← refuse_if (negb (pr_Status p =? "active")%string || some (pr_DiscardedAt p)) ErrInvalidState;
  _ ← refuse_if (negb (projectOwner p (ac_UserID actor))) ErrNotFound;
  source ← Store_ChangeSet world checks (pr_ID p) sourceID;
  _ ← refuse_if (negb (contains ChangeSetClosedStatuses (ch_Status source))) ErrInvalidState;
  mret source.

(** The stale proposals a reassessment stands on, back to the first. *)
Fixpoint stale_ancestors (fuel : nat) (pid sourceID id : string) (seen : gset string) : RM (option (gset string)) :=
  if (id =? "")%string then mret (Some seen)
  else match fuel with
  | O => mret None
  | S fuel =>
      _ ← refuse_if (bool_decide (id ∈ seen)) ErrInvalidState;
      ancestor ← Store_ChangeSet world checks pid id;
      source ← inverseLineageSource pid ancestor;
      _ ← refuse_if (negb (source =? sourceID)%string || negb (ch_Status ancestor =? ChangeSetStatusStale)%string) ErrInvalidState;
      stale_ancestors fuel pid sourceID (ch_ReassessedFromID ancestor) ({[ id ]} ∪ seen)
  end.

(** No live change set undoes the source, the ancestors aside. *)
Fixpoint no_live_inverse (pid sourceID : string) (ancestors : gset string) (changes : list ChangeSet) : RM unit :=
  match changes with
  | [] => mret tt
  | change :: changes' =>
      lineage ← inverseLineageSource pid change;
      _ ← refuse_if ((lineage =? sourceID)%string && negb (ch_Status change =? ChangeSetStatusRejected)%string
                     && negb (bool_decide (ch_ID change ∈ ancestors))) ErrInvalidState;
      no_live_inverse pid sourceID ancestors changes'
  end.

Definition validateInverseLineage (p : Project) (actor : Actor) (sourceID reassessedFromID : string) : RM ChangeSet :=
  _ ← LockInverseSource (pr_ID p) sourceID;
  source ← inverseSourceAccess p actor sourceID;
  ancestors ← over_changes ∅ (fun fuel => stale_ancestors fuel (pr_ID p) sourceID reassessedFromID ∅);
  changes ← ChangeSets world checks (pr_ID p);
  _ ← no_live_inverse (pr_ID p) sourceID ancestors changes;
  mret source.

(** [inverseOperationAccess], of a request that names a source, and of one on a
    stored change set. *)
Definition source_access (actor : Actor) (pid sourceID : string) : RM unit :=
  if (sourceID =? "")%string then mret tt
  else
    p ← on_tables (Gorm_Project db (ac_TenantID actor) pid);
    _ ← inverseSourceAccess p actor sourceID;
    mret tt.

Definition inverseOperationAccess (actor : Actor) (pid target : string) : RM unit :=
  change ← Store_ChangeSet world checks pid (last_segment target target);
  sourceID ← inverseLineageSource pid change;
  source_access actor pid sourceID.
End Lineage.

(** ** Laws *)

Section Reads.
Context {X : Type} `{Digester roadmap_any} (world : World X) `{!WorldLaws world} (checks : Checks) `{!ChecksLaws checks}.
Abbreviation db := (sv_db (wd_service world)).

Lemma reads_over_changes {A} (zero : A) walk : (forall fuel, reads (walk fuel)) -> reads (over_changes zero walk).
Proof.
  intros R w. unfold over_changes. rewrite (reads_run _ w (R _)). by destruct (_.2) as [[|]|].
Qed.

Lemma reads_lineage_walk fuel pid change seen : reads (lineage_source world checks fuel pid change seen).
Proof.
  revert change seen. induction fuel as [|fuel IH]; intros change seen; cbn [lineage_source]; [apply keeps_ret|].
  apply keeps_bind; [apply keeps_refuse_if|intros _]. apply keeps_bind; [apply reads_on_tables; auto with effects|intros inherited].
  apply keeps_bind; [apply keeps_refuse_if|intros _]. destruct (negb _); [|destruct (negb _); [apply keeps_ret|]].
  - apply keeps_bind; [apply keeps_refuse_if|intros; apply keeps_ret].
  - destruct (_ =? _)%string; [apply keeps_ret|]. apply keeps_bind; [by apply reads_change|intros parent]. apply IH.
Qed.

Lemma reads_lineage pid change : reads (inverseLineageSource world checks pid change).
Proof. apply reads_over_changes. intros. apply reads_lineage_walk. Qed.

Lemma reads_source_access p actor id : reads (inverseSourceAccess world checks p actor id).
Proof.
  unfold inverseSourceAccess. do 2 (apply keeps_bind; [apply keeps_refuse_if|intros _]).
  apply keeps_bind; [by apply reads_change|intros source]. apply keeps_bind; [apply keeps_refuse_if|intros _]. apply keeps_ret.
Qed.

Lemma reads_ancestors fuel pid source id seen : reads (stale_ancestors world checks fuel pid source id seen).
Proof.
  revert id seen. induction fuel as [|fuel IH]; intros id seen; cbn [stale_ancestors]; destruct (_ =? _)%string; try apply keeps_ret.
  apply keeps_bind; [apply keeps_refuse_if|intros _]. apply keeps_bind; [by apply reads_change|intros ancestor].
  apply keeps_bind; [apply reads_lineage|intros lineage]. apply keeps_bind; [apply keeps_refuse_if|intros _]. apply IH.
Qed.

Lemma reads_no_live pid source ancestors changes : reads (no_live_inverse world checks pid source ancestors changes).
Proof.
  induction changes as [|change changes IH]; cbn; [apply keeps_ret|]. apply keeps_bind; [apply reads_lineage|intros lineage].
  apply keeps_bind; [apply keeps_refuse_if|intros _]. exact IH.
Qed.

Lemma reads_validate_lineage p actor source from : reads (validateInverseLineage world checks p actor source from).
Proof.
  unfold validateInverseLineage, LockInverseSource.
  apply keeps_bind; [apply keeps_bind; [by apply reads_rm_query|intros; apply keeps_refuse_if]|intros _].
  apply keeps_bind; [apply reads_source_access|intros s]. apply keeps_bind; [apply reads_over_changes; intros; apply reads_ancestors|intros ancestors].
  apply keeps_bind; [by apply reads_changes|intros changes]. apply keeps_bind; [apply reads_no_live|intros _]. apply keeps_ret.
Qed.
End Reads.

#[export] Hint Resolve reads_lineage reads_source_access reads_validate_lineage : effects.
