(* ===== verification/ImpactDemo.v ===== *)
(** A project with a change set, its assessment and a task, for the concrete
    instances of the theorems about impacts and stabilization. *)

From stdpp Require Import pretty.
From Stdlib Require Import Ascii String.
From S2P Require Import Prelude Effects OperationCore OperationStore Workspace Permission MemberStore Membership MembershipDemo OperationRunner RoadmapModel RoadmapStore RouteObjects Roadmap RoadmapLaws RoadmapDemo ImpactStore ImpactStoreLaws.

Module Desk.
#[local] Existing Instances Studio.text Studio.world_laws.

(** One change set, stabilized; rules that are silent; receipts that verify. *)
Definition checks : Checks := {|
  ck_verifyImpactActionResult := fun _ _ _ => mret tt;
  ck_researchClaimReviewCurrent := fun _ _ _ => false;
  ck_projectAssetVersionBlocker := fun _ _ _ _ => None;
  ck_chapter_version := fun _ _ => mret None;
  ck_chapter_review := fun _ _ => mret None;
  ck_impactRules := Some (fun _ => mret []);
  ck_preflightBasis := fun _ => mret "basis";
  ck_change_order := fun l => l;
  ck_semantic := fun _ _ => fail ErrNotFound;
  ck_leftover := fun _ _ _ => [];
  ck_preflight_sources := fun _ _ => mret [];
  ck_snapshot_sources := fun _ _ => mret [];
  ck_result_sources := fun _ _ => mret [];
  ck_inherited := fun _ _ => mret []
|}.

#[export] Instance checks_laws : ChecksLaws checks.
Proof. split; try (intros; by intros w); try done. intros check p [= <-]. by intros w. Qed.

Definition copy : ProjectTemplateCopy :=
  {| tc_SourceKind := "template"; tc_legacySourceRuleSetSnapshot := None; tc_BindingPolicies := [];
     tc_SourcePolicyHash := ""; tc_RuleSetSnapshot := None; tc_SourceRuleSetID := ""; tc_SourceRuleSetVersion := "";
     tc_SourceRuleSetHash := ""; tc_ID := "copy-1"; tc_ProjectID := "p-1"; tc_SourceTemplateID := "template-1";
     tc_SourceTemplateVersion := "1"; tc_Version := 1; tc_Status := "bound"; tc_ContentHash := "";
     tc_RulesetHash := "rules"; tc_TemplateVersionRuleSetRef := None; tc_Definition := ""; tc_CreatedBy := "ann";
     tc_CreatedAt := 10 |}.

Definition project : Project := Studio.project <| pr_TemplateCopy := Some copy |>.

(** A review of the second node, done, with the first as its evidence. *)
Definition task (status : string) : ImpactTask :=
  {| it_ID := "t-1"; it_ProjectID := "p-1"; it_ChangeSetID := "change-1"; it_Target := node_ref Studio.draft;
     it_TargetRevision := 1; it_Action := "REVIEW_REQUIRED"; it_Severity := "blocking"; it_ResponsibilityDomain := "route";
     it_AssigneeID := "ann"; it_Status := status; it_Causes := []; it_Attachments := ""; it_Version := 1;
     it_Disposition := ""; it_HumanDecision := "reviewed"; it_ClosureEvidence := [node_ref Studio.plan];
     it_StaleReason := ""; it_StaleAt := 0; it_CreatedAt := 10; it_UpdatedAt := 20 |}.

(** The change set, and its assessment, of a node that has moved on since. *)
Definition change : ChangeSet :=
  {| ch_SemanticDeltas := []; ch_ID := "change-1"; ch_ProjectID := "p-1"; ch_CreatedBy := "ann"; ch_ReassessedFromID := "";
     ch_ReversesChangeSetID := ""; ch_DecisionBy := ""; ch_DecidedAt := None; ch_StaleReason := ""; ch_Reason := "revise";
     ch_Status := ChangeSetStatusStabilized; ch_BaseContextRevision := 0; ch_TargetContextRevision := Some 1;
     ch_BaseSpecRevision := 1; ch_TargetSpecRevision := Some 1; ch_Fields := []; ch_Impacts := [];
     ch_AffectedExplanation := None; ch_TemplateUpgrade := None; ch_CreatedAt := 10; ch_AppliedAt := Some 20 |}.

Definition assessment : ImpactAssessment :=
  {| ia_ChangeSetID := "change-1"; ia_ProjectID := "p-1"; ia_ContextRevision := 0; ia_TemplateCopyVersion := 1;
     ia_RulesetHash := "rules"; ia_InputHash := "";
     ia_Objects := [current_state Studio.project {| ref_Kind := "RouteNode"; ref_ID := "plan"; ref_Version := "0" |} "0" true];
     ia_Edges := []; ia_Impacts := []; ia_SemanticHash := ""; ia_AssessedAt := 10 |}.

Definition with_task (status : string) : roadmap :=
  Studio.start <| rm_changes := {[ "change-1" := change ]} |>
    <| rm_assessments := {[ ("p-1", "change-1") := {| vr_Version := 1; vr_Body := assessment |} ]} |> <| rm_tasks := {[ ("p-1", ImpactTaskIdentity (task status)) := {| vr_Version := 1; vr_Body := task status |} ]} |>.

Definition done : roadmap := with_task "DONE".
End Desk.
