(* ===== verification/Assessment.v ===== *)
(** The impact assessment of a change set: what the change touches, followed
    along the confirmed dependencies of the project
    ([buildImpactAssessment], [AssessChangeImpact] and
    [ValidateChangeImpactAssessment] of
    [src/internal/lingdoc/workspacecore/impact_service.go]). *)

From stdpp Require Import pretty sorting.
From Stdlib Require Import Ascii String.
From S2P Require Import Prelude Effects OperationCore OperationStore Workspace Permission MemberStore Membership OperationRunner RoadmapModel RoadmapStore RouteObjects ImpactStore.

Definition ImpactActionNoAction := "NO_ACTION".
Definition DependencyConfirmed := "confirmed".
Definition DependencySuggested := "suggested".

(** ** The walk along the dependencies *)

(** [impacts], by their key, and the causes of each. *)
Definition impact_key (ref : ObjectVersionRef) (action certainty : string) : string :=
  refIdentity ref +:+ "/" +:+ action +:+ "/" +:+ certainty.

Abbreviation impact_map := (gmap string ResolvedImpact).

Definition add_cause (cause : ImpactCause) (causes : list ImpactCause) : list ImpactCause :=
  if decide (cause ∈ causes) then causes else causes ++ [cause].

Definition add_impact (ref : ObjectVersionRef) (action certainty : string) (cause : ImpactCause) (impacts : impact_map)
  : impact_map :=
  let key := impact_key ref action certainty in
  let impact := match impacts !! key with
                | Some impact => impact
                | None => {| ri_Target := ref; ri_Action := action; ri_Certainty := certainty; ri_Causes := [] |}
                end in
  <[key := {| ri_Target := ri_Target impact; ri_Action := ri_Action impact; ri_Certainty := ri_Certainty impact;
              ri_Causes := add_cause cause (ri_Causes impact) |}]> impacts.

Definition edge_certainty (edge : DependencyEdge) : string :=
  if (de_Status edge =? DependencySuggested)%string then "possible" else "definite".

Definition edge_cause (edge : DependencyEdge) : ImpactCause :=
  {| ic_EdgeID := de_ID edge; ic_Source := de_Source edge; ic_Reason := de_Reason edge |}.

(** The edge leads on: its target is affected for certain, and more than
    recorded. *)
Definition leads_on (edge : DependencyEdge) : bool :=
  (edge_certainty edge =? "definite")%string && negb (de_Action edge =? ImpactActionNoAction)%string.

Set Primitive Projections.
Record walking := { wk_impacts : impact_map; wk_required : gset string; wk_queue : list ObjectVersionRef }.
Unset Primitive Projections.

Definition follow (ref : ObjectVersionRef) (s : walking) (edge : DependencyEdge) : walking :=
  when negb (bool_decide (de_Source edge = ref)) return s;
  let s := s <| wk_impacts := add_impact (de_Target edge) (de_Action edge) (edge_certainty edge) (edge_cause edge) (wk_impacts s) |> in
  when negb (leads_on edge) return s;
  s <| wk_required := {[ refIdentity (de_Target edge); refIdentity (de_Source edge) ]} ∪ wk_required s |>
    <| wk_queue := wk_queue s ++ [de_Target edge] |>.

(** The loop over the queue. [None]: the fuel ran out. *)
Fixpoint walk (fuel : nat) (valid : list DependencyEdge) (visited : gset string) (s : walking) : option walking :=
  match wk_queue s with
  | [] => Some s
  | ref :: queue =>
      match fuel with
      | O => None
      | S fuel =>
          let s := s <| wk_queue := queue |> in
          if decide (refIdentity ref ∈ visited) then walk fuel valid visited s
          else walk fuel valid ({[ refIdentity ref ]} ∪ visited) (foldl (follow ref) s valid)
      end
  end.

(** Every reference the queue ever holds is a root or the target of an edge
    that was followed, once. *)
Definition walk_fuel (roots : list ObjectVersionRef) (valid : list DependencyEdge) : nat := length roots + length valid.

(** ** What is walked *)

Definition delta_action (delta : SemanticDelta) : string :=
  when (sd_Kind delta =? "ProjectAssetScope")%string return "BLOCK_RELEASE";
  when (sd_Kind delta =? "RuleBinding")%string return "RECOMPUTE";
  "REVIEW_REQUIRED".

Definition delta_cause (change : ChangeSet) (delta : SemanticDelta) : ImpactCause :=
  {| ic_EdgeID := "semantic:" +:+ ch_ID change +:+ "/" +:+ sd_Kind delta +:+ "/" +:+ sd_TargetID delta;
     ic_Source := semanticRef delta; ic_Reason := ch_Reason change |}.

Definition delta_impacts (change : ChangeSet) : impact_map :=
  foldl (fun impacts delta => add_impact (semanticRef delta) (delta_action delta) "definite" (delta_cause change delta) impacts)
    ∅ (ch_SemanticDeltas change).

Definition spec_ref (p : Project) : ObjectVersionRef :=
  {| ref_Kind := "ProjectSpec"; ref_ID := pr_ID p; ref_Version := pretty (pr_SpecRevision p) |}.


Definition touches_spec (change : ChangeSet) : bool :=
  nonempty (ch_Fields change) || some (ch_TemplateUpgrade change) || negb (nonempty (ch_SemanticDeltas change)).

Definition template_roots (p : Project) (change : ChangeSet) : list ObjectVersionRef :=
  match ch_TemplateUpgrade change, pr_TemplateCopy p with
  | Some _, Some copy =>
      [{| ref_Kind := "TemplateCopy"; ref_ID := pr_TemplateID p; ref_Version := pretty (pr_TemplateCopyVersion p) |};
       {| ref_Kind := "RuleSet"; ref_ID := pr_TemplateID p; ref_Version := tc_RulesetHash copy |}]
  | _, _ => []
  end.

Definition chapter_ref (impact : ChangeImpact) (version : string) : ObjectVersionRef :=
  {| ref_Kind := "ChapterVersion"; ref_ID := ci_ChapterID impact; ref_Version := version |}.

Definition explicit_cause (p : Project) (change : ChangeSet) (impact : ChangeImpact) : ImpactCause :=
  {| ic_EdgeID := "explicit:" +:+ ch_ID change; ic_Source := spec_ref p; ic_Reason := ci_Reason impact |}.

Abbreviation state_map := (gmap string ImpactObjectState).

(** The values of a map in the order of their keys. *)
Definition by_key {A} (m : gmap string A) : list A :=
  omap (fun key => m !! key) (merge_sort string_le (elements (dom m))).

Definition edge_id_le (a b : DependencyEdge) : Prop := string_le (de_ID a) (de_ID b).
#[export] Instance edge_id_le_dec : RelDecision edge_id_le.
Proof. intros a b. unfold edge_id_le. apply _. Defined.

Section Assessment.
Context {X : Type} `{Digester roadmap_any}.
Variable world : World X.
Variable checks : Checks.

(** The value a delta is about, at the version and with the content it was
    pinned to. *)
Definition semantic_state (p : Project) (delta : SemanticDelta) : RM (ObjectVersionRef * ImpactObjectState) :=
  value ← currentSemanticValue world checks p delta;
  _ ← refuse_if (negb (ref_Version (cs_Ref value) =? pretty (sd_ExpectedVersion delta))%string) ErrVersionConflict;
  _ ← refuse_if (negb (sd_BeforeHash delta =? "")%string
                 && negb (semanticValueHash value =? sd_BeforeHash delta)%string) ErrVersionConflict;
  inputs ← match sd_ProposedRoute delta with
           | Some proposed => rm_collect (current_sources world p) (rn_Inputs proposed)
           | None => mret []
           end;
  mret (cs_Ref value,
        {| os_Ref := cs_Ref value; os_State := "CURRENT";
           os_SourceIDs := sortedImpactSourceIDs (cs_SourceIDs value ++ sd_SourceIDs delta ++ inputs);
           os_Confirmed := false; os_ContextRevision := pr_CurrentContextRevision p |}).

Fixpoint semantic_states (p : Project) (deltas : list SemanticDelta) : RM (list (ObjectVersionRef * ImpactObjectState)) :=
  match deltas with
  | [] => mret []
  | delta :: deltas' => s ← semantic_state p delta; ss ← semantic_states p deltas'; mret (s :: ss)
  end.

Definition state_index (semantic : list (ObjectVersionRef * ImpactObjectState)) : state_map :=
  foldl (fun m '(ref, state) => <[refIdentity ref := state]> m) ∅ semantic.

Fixpoint root_states (p : Project) (semantic : state_map) (roots : list ObjectVersionRef) (states : state_map) : RM state_map :=
  match roots with
  | [] => mret states
  | root :: roots' =>
      state ← match semantic !! refIdentity root with
              | Some state => mret state
              | None => currentImpactObject world p root
              end;
      root_states p semantic roots' (<[refIdentity root := state]> states)
  end.

(** An end of an edge that has moved on leaves the edge out. *)
Definition moved_on (err : error) : bool :=
  errors_Is err ErrVersionConflict || errors_Is err ErrInvalidState || errors_Is err ErrNotFound.

Definition eligible_edge (p : Project) (edge : DependencyEdge) : RM (option (ImpactObjectState * ImpactObjectState)) :=
  source ← attempt (currentImpactObject world p (de_Source edge));
  target ← attempt (currentImpactObject world p (de_Target edge));
  match source, target with
  | Ok s, Ok t => mret (Some (s, t))
  | Err e, t =>
      if negb (moved_on e) then fail e
      else match t with
           | Err e => if negb (moved_on e) then fail e else mret None
           | Ok _ => mret None
           end
  | Ok _, Err e => if negb (moved_on e) then fail e else mret None
  end.

Fixpoint eligible_edges (p : Project) (edges : list DependencyEdge) (states : state_map) : RM (state_map * list DependencyEdge) :=
  match edges with
  | [] => mret (states, [])
  | edge :: edges' =>
      if contains [DependencyConfirmed; DependencySuggested] (de_Status edge) then
        found ← eligible_edge p edge;
        match found with
        | Some (source, target) =>
            '(states, valid) ← eligible_edges p edges'
              (<[refIdentity (os_Ref target) := target]> (<[refIdentity (os_Ref source) := source]> states));
            mret (states, edge :: valid)
        | None => eligible_edges p edges' states
        end
      else eligible_edges p edges' states
  end.

(** The chapters the change set names. *)
Fixpoint explicit_impacts (p : Project) (change : ChangeSet) (impacts : list ChangeImpact) (states : state_map) (s : walking)
  : RM (state_map * walking) :=
  match impacts with
  | [] => mret (states, s)
  | impact :: impacts' =>
      match ci_ChapterVersionID impact with
      | None => explicit_impacts p change impacts' states s
      | Some version =>
          let ref := chapter_ref impact version in
          state ← currentImpactObject world p ref;
          explicit_impacts p change impacts' (<[refIdentity ref := state]> states)
            (s <| wk_required := {[ refIdentity ref ]} ∪ wk_required s |>
               <| wk_impacts := add_impact ref "REVIEW_REQUIRED" "definite" (explicit_cause p change impact) (wk_impacts s) |>)
      end
  end.

Definition change_roots (p : Project) (change : ChangeSet) (semantic : list ObjectVersionRef) : list ObjectVersionRef :=
  (if touches_spec change then [spec_ref p] else []) ++ semantic ++ template_roots p change.

Definition started (change : ChangeSet) (roots : list ObjectVersionRef) : walking :=
  {| wk_impacts := delta_impacts change; wk_required := list_to_set (refIdentity <$> roots); wk_queue := roots |}.

(** [None] of the walk is what no run of it answers. *)
Definition walked (change : ChangeSet) (roots : list ObjectVersionRef) (valid : list DependencyEdge) : walking :=
  match walk (walk_fuel roots valid) valid ∅ (started change roots) with
  | Some s => s
  | None => {| wk_impacts := ∅; wk_required := ∅; wk_queue := [] |}
  end.

Definition required_objects (states : state_map) (required : gset string) : list ImpactObjectState :=
  by_key (filter (fun entry : string * ImpactObjectState => entry.1 ∈ required) states).

Definition buildImpactAssessment (p : Project) (change : ChangeSet) : RM ImpactAssessment :=
  edges ← DependencyEdges world (pr_ID p);
  _ ← refuse_if (10000 <? Z.of_nat (length edges)) ErrInvalidState;
  semantic ← semantic_states p (ch_SemanticDeltas change);
  let roots := change_roots p change semantic.*1 in
  states ← root_states p (state_index semantic) roots ∅;
  '(states, valid) ← eligible_edges p edges states;
  '(states, reached) ← explicit_impacts p change (ch_Impacts change) states (walked change roots valid);
  here (fun w =>
    let fingerprint :=
      {| ia_ChangeSetID := ch_ID change; ia_ProjectID := pr_ID p; ia_ContextRevision := pr_CurrentContextRevision p;
         ia_TemplateCopyVersion := pr_TemplateCopyVersion p;
         ia_RulesetHash := match pr_TemplateCopy p with Some copy => tc_RulesetHash copy | None => "" end;
         ia_InputHash := ""; ia_Objects := required_objects states (wk_required reached);
         ia_Edges := merge_sort edge_id_le valid; ia_Impacts := by_key (wk_impacts reached);
         ia_SemanticHash := if nonempty (ch_SemanticDeltas change) then hashImpactValue (AnyDeltas (ch_SemanticDeltas change)) else "";
         ia_AssessedAt := 0 |} in
    mret (fingerprint <| ia_AssessedAt := wd_now world w |> <| ia_InputHash := hashImpactValue (AnyAssessment fingerprint) |>)).

Definition AssessChangeImpact (p : Project) (change : ChangeSet) : RM unit :=
  assessment ← buildImpactAssessment p change;
  _ ← RecordContextRevision world p change;
  SaveImpactAssessment world assessment.

Definition ValidateChangeImpactAssessment (p : Project) (change : ChangeSet) : RM unit :=
  old ← Store_ImpactAssessment world (pr_ID p) (ch_ID change);
  current ← buildImpactAssessment p change;
  refuse_if (negb (ia_InputHash current =? ia_InputHash old)%string) ErrVersionConflict.
End Assessment.
