(* ===== verification/AssessmentLaws.v ===== *)
(** The walk of an assessment: it ends within its fuel, and what it gathers is
    what can be reached along the edges that lead on. *)

From stdpp Require Import pretty sorting.
From Stdlib Require Import Ascii String.
From S2P Require Import Prelude Effects RoadmapModel RoadmapStore RoadmapSteps ImpactStore Assessment.

(** ** The identities of references *)

Definition no_slash (s : string) : Prop := has_char slash s = false.

(** References whose identities tell them apart. *)
Definition tidy (ref : ObjectVersionRef) : Prop := no_slash (ref_Kind ref) /\ no_slash (ref_Version ref).

Lemma first_slash a b x y : no_slash a -> no_slash b -> a +:+ "/" +:+ x = b +:+ "/" +:+ y -> a = b /\ x = y.
Proof.
  unfold no_slash. revert b. induction a as [|c a IH]; intros [|d b] A B E; cbn in *.
  - by injection E.
  - injection E as <- _. discriminate B.
  - injection E as -> _. discriminate A.
  - injection E as -> E. destruct (Ascii.eqb d slash); [discriminate A|]. destruct (IH b A B E) as [-> ->]. done.
Qed.

Lemma refIdentity_inj r r' : tidy r -> tidy r' -> refIdentity r = refIdentity r' -> r = r'.
Proof.
  destruct r as [k i v], r' as [k' i' v']. intros [K V] [K' V'] E. cbn in *. unfold refIdentity in E. cbn in E.
  apply first_slash in E as [-> E]; [|done..]. apply last_slash in E as [-> ->]; done.
Qed.

Definition plain (ref : ObjectVersionRef) (action certainty : string) : Prop := tidy ref /\ no_slash action /\ no_slash certainty.

Lemma impact_key_inj r a c r' a' c' : plain r a c -> plain r' a' c' ->
  impact_key r a c = impact_key r' a' c' -> r = r' /\ a = a' /\ c = c'.
Proof.
  intros (T & A & C) (T' & A' & C') E. unfold impact_key in E.
  assert (forall x y z : string, x +:+ "/" +:+ y +:+ "/" +:+ z = (x +:+ "/" +:+ y) +:+ "/" +:+ z) as As.
  { intros x y z. by rewrite !app_assoc_string. }
  rewrite !As in E. apply last_slash in E as [E Ec]; [|done..]. apply last_slash in E as [E Ea]; [|done..].
  apply refIdentity_inj in E; [|done..]. by subst.
Qed.

Lemma certainty_no_slash edge : no_slash (edge_certainty edge).
Proof. unfold edge_certainty. by destruct (_ =? _)%string. Qed.

(** ** What the impacts say *)

Record fact := { ft_Target : ObjectVersionRef; ft_Action : string; ft_Certainty : string; ft_Cause : ImpactCause }.

Definition facts (m : impact_map) (f : fact) : Prop :=
  exists key i, m !! key = Some i /\ ri_Target i = ft_Target f /\ ri_Action i = ft_Action f
    /\ ri_Certainty i = ft_Certainty f /\ ft_Cause f ∈ ri_Causes i.

Definition keyed (m : impact_map) : Prop :=
  forall key i, m !! key = Some i ->
    key = impact_key (ri_Target i) (ri_Action i) (ri_Certainty i) /\ plain (ri_Target i) (ri_Action i) (ri_Certainty i)
    /\ NoDup (ri_Causes i) /\ ri_Causes i <> [].

Lemma keyed_empty : keyed ∅.
Proof. intros key i F. by rewrite lookup_empty in F. Qed.

Lemma add_cause_spec x y causes : x ∈ add_cause y causes <-> x ∈ causes \/ x = y.
Proof.
  unfold add_cause. case_decide; [|by rewrite elem_of_app, list_elem_of_singleton]. split; [by left|]. by intros [| ->].
Qed.

Lemma add_cause_keeps y causes : NoDup causes -> NoDup (add_cause y causes) /\ add_cause y causes <> [].
Proof.
  intros N. unfold add_cause. case_decide as D; [split; [done|by intros ->; apply not_elem_of_nil in D]|].
  split; [|by destruct causes]. apply NoDup_app. split; [done|]. split; [|by apply NoDup_singleton].
  intros x Hx ->%list_elem_of_singleton. done.
Qed.

Section Add.
Context (r : ObjectVersionRef) (a c : string) (x : ImpactCause) (m : impact_map).
Hypothesis (K : keyed m) (P : plain r a c).

Lemma add_keyed : keyed (add_impact r a c x m).
Proof.
  intros key i. unfold add_impact. rewrite lookup_insert_Some. intros [[<- <-]|[_ F]]; [|by apply K].
  destruct (m !! impact_key r a c) as [i0|] eqn:E; cbn.
  - destruct (K _ _ E) as (Ek & Pk & Nd & _). split; [done|]. split; [done|]. by apply add_cause_keeps.
  - split; [done|]. split; [done|]. apply add_cause_keeps, NoDup_nil_2.
Qed.

Lemma add_facts f : facts (add_impact r a c x m) f
  <-> facts m f \/ f = {| ft_Target := r; ft_Action := a; ft_Certainty := c; ft_Cause := x |}.
Proof.
  unfold facts, add_impact. split.
  - intros (key & i & F & Et & Ea & Ec & Hx). rewrite lookup_insert_Some in F. destruct F as [[<- <-]|[_ F]].
    + cbn in *. apply add_cause_spec in Hx as [Hx|Hx].
      * left. destruct (m !! _) as [i0|] eqn:E; [|by apply not_elem_of_nil in Hx]. by exists (impact_key r a c), i0.
      * right. destruct (m !! _) as [i0|] eqn:E; cbn in *; [|destruct f; cbn in *; congruence].
        destruct (K _ _ E) as (Ek & Pk & _). apply impact_key_inj in Ek as (Er & Ea' & Ec'); [|done..].
        destruct f; cbn in *. congruence.
    + left. by exists key, i.
  - intros [(key & i & F & Et & Ea & Ec & Hx)| ->].
    + destruct (decide (key = impact_key r a c)) as [->|N].
      * exists (impact_key r a c). rewrite F, lookup_insert_eq. eexists. split; [done|]. cbn.
        split_and!; try done. apply add_cause_spec. by left.
      * exists key, i. by rewrite lookup_insert_ne.
    + exists (impact_key r a c). rewrite lookup_insert_eq. eexists. split; [done|]. cbn.
      assert (x ∈ add_cause x (ri_Causes match m !! impact_key r a c with Some i => i
        | None => {| ri_Target := r; ri_Action := a; ri_Certainty := c; ri_Causes := [] |} end)) as Hx
        by (apply add_cause_spec; by right).
      destruct (m !! _) as [i0|] eqn:E; cbn in *; [|done].
      destruct (K _ _ E) as (Ek & Pk & _). by apply impact_key_inj in Ek as (-> & -> & ->).
Qed.
End Add.

(** ** Following the edges of one reference *)

Definition edge_fact (edge : DependencyEdge) : fact :=
  {| ft_Target := de_Target edge; ft_Action := de_Action edge; ft_Certainty := edge_certainty edge; ft_Cause := edge_cause edge |}.

Definition ends (edge : DependencyEdge) : gset string := {[ refIdentity (de_Target edge); refIdentity (de_Source edge) ]}.

(** The edges of a reference, and of those the ones that lead on. *)
Definition edges_from (ref : ObjectVersionRef) (edges : list DependencyEdge) : list DependencyEdge :=
  base.filter (fun edge => de_Source edge = ref) edges.
Definition leading (edges : list DependencyEdge) : list DependencyEdge := base.filter (fun edge => leads_on edge = true) edges.

Lemma follow_queue ref edges s :
  wk_queue (foldl (follow ref) s edges) = wk_queue s ++ (de_Target <$> leading (edges_from ref edges)).
Proof.
  revert s. induction edges as [|edge edges IH]; intros s; cbn [foldl]; [by rewrite app_nil_r|].
  rewrite IH. unfold edges_from, leading. rewrite filter_cons. unfold follow at 1.
  destruct (decide (de_Source edge = ref)) as [->|N].
  - rewrite bool_decide_true by done. cbn [negb]. rewrite filter_cons.
    destruct (leads_on edge) eqn:L; cbn [negb]; [|by case_decide].
    rewrite decide_True by done. cbn. by rewrite <- app_assoc.
  - rewrite bool_decide_false by done. done.
Qed.

Lemma follow_required ref edges s id :
  id ∈ wk_required (foldl (follow ref) s edges)
  <-> id ∈ wk_required s \/ exists edge, edge ∈ edges /\ de_Source edge = ref /\ leads_on edge = true /\ id ∈ ends edge.
Proof.
  revert s. induction edges as [|edge edges IH]; intros s; cbn [foldl].
  { split; [by left|]. by intros [|(e & He%not_elem_of_nil & _)]. }
  rewrite IH. clear IH. unfold follow, ends. setoid_rewrite elem_of_cons. destruct (decide (de_Source edge = ref)) as [Es|N].
  - rewrite bool_decide_true by done. cbn [negb]. destruct (leads_on edge) eqn:L; cbn [negb wk_required set_field].
    + rewrite elem_of_union. split.
      * intros [[E|]|(e & He & R)]; [right; exists edge; by split; [left|]|by left|right; exists e; by split; [right|]].
      * intros [|(e & [->|He] & Se & L' & E)]; [by left; right|by left; left|right; by exists e].
    + split; [intros [|(e & He & R)]; [by left|right; exists e; by split; [right|]]|].
      intros [|(e & [->|He] & Se & L' & E)]; [by left|congruence|right; by exists e].
  - rewrite bool_decide_false by done. cbn. split; [intros [|(e & He & R)]; [by left|right; exists e; by split; [right|]]|].
    intros [|(e & [->|He] & Se & R)]; [by left|done|right; by exists e].
Qed.

Definition tidy_edges (edges : list DependencyEdge) : Prop :=
  forall edge, edge ∈ edges -> tidy (de_Source edge) /\ tidy (de_Target edge) /\ no_slash (de_Action edge).

Lemma follow_facts ref edges s : keyed (wk_impacts s) -> tidy_edges edges ->
  keyed (wk_impacts (foldl (follow ref) s edges))
  /\ forall f, facts (wk_impacts (foldl (follow ref) s edges)) f
     <-> facts (wk_impacts s) f \/ exists edge, edge ∈ edges /\ de_Source edge = ref /\ f = edge_fact edge.
Proof.
  revert s. induction edges as [|edge edges IH]; intros s K T; cbn [foldl].
  { split; [done|]. intros f. split; [by left|]. by intros [|(e & He%not_elem_of_nil & _)]. }
  destruct (T edge (list_elem_of_here _ _)) as (Ts & Tt & Na).
  assert (keyed (wk_impacts (follow ref s edge)) /\ forall f, facts (wk_impacts (follow ref s edge)) f
    <-> facts (wk_impacts s) f \/ de_Source edge = ref /\ f = edge_fact edge) as [K1 F1].
  { unfold follow. destruct (decide (de_Source edge = ref)) as [E|N]; 
      [|rewrite bool_decide_false by done; cbn; split; [done|]; intros f; split; [by left|by intros [|[? _]]]].
    rewrite bool_decide_true by done. cbn [negb].
    assert (plain (de_Target edge) (de_Action edge) (edge_certainty edge)) as Pe by (split_and!; [apply Tt..|done|apply certainty_no_slash]).
    pose proof (add_keyed _ _ _ (edge_cause edge) _ K Pe) as Ka. pose proof (add_facts _ _ _ (edge_cause edge) _ K Pe) as Fa.
    destruct (leads_on edge); cbn; (split; [done|]); intros f; rewrite Fa;
      (split; [intros [|Ef]; [by left|by right]|intros [|[_ Ef]]; [by left|by right]]). }
  destruct (IH _ K1) as [K2 F2]; [intros e He; apply T; by right|]. split; [done|].
  intros f. rewrite F2, F1. setoid_rewrite elem_of_cons. split.
  - intros [[|[E ->]]|(e & He & R)]; [by left|right; exists edge; by split; [left|]|right; exists e; by split; [right|]].
  - intros [|(e & [->|He] & R)]; [by left; left|by left; right|right; by exists e].
Qed.

(** ** The walk ends *)

(** The edges that have not been followed. *)
Definition ahead (visited : gset string) (valid : list DependencyEdge) : list DependencyEdge :=
  base.filter (fun edge => refIdentity (de_Source edge) ∉ visited) valid.

Lemma ahead_visit ref visited valid : refIdentity ref ∉ visited ->
  (length (ahead ({[ refIdentity ref ]} ∪ visited) valid) + length (edges_from ref valid) <= length (ahead visited valid))%nat.
Proof.
  intros N. unfold ahead, edges_from. induction valid as [|edge valid IH]; [done|]. rewrite !filter_cons.
  destruct (decide (de_Source edge = ref)) as [->|Ns].
  - rewrite (decide_True (P := refIdentity ref ∉ visited)) by done. rewrite decide_False by set_solver. cbn. lia.
  - destruct (decide (refIdentity (de_Source edge) ∉ visited)); [|rewrite decide_False by set_solver; lia].
    destruct (decide (refIdentity (de_Source edge) ∉ {[ refIdentity ref ]} ∪ visited)); cbn; lia.
Qed.

Lemma walk_ends valid fuel visited s :
  (length (wk_queue s) + length (ahead visited valid) <= fuel)%nat -> exists s', walk fuel valid visited s = Some s'.
Proof.
  revert visited s. induction fuel as [|fuel IH]; intros visited s L; cbn [walk].
  - destruct (wk_queue s); [by eexists|]. cbn in L. lia.
  - destruct (wk_queue s) as [|ref queue] eqn:Q; [by eexists|]. cbn in L. case_decide as V; apply IH; [cbn; lia|].
    rewrite follow_queue. cbn. rewrite length_app, length_fmap.
    pose proof (ahead_visit ref visited valid V). unfold leading.
    pose proof (length_filter (fun edge => leads_on edge = true) (edges_from ref valid)). lia.
Qed.

Lemma walk_empties valid fuel visited s s' : walk fuel valid visited s = Some s' -> wk_queue s' = [].
Proof.
  revert visited s. induction fuel as [|fuel IH]; intros visited s; cbn [walk]; destruct (wk_queue s) eqn:Q; try done;
    [by intros [= <-]|by intros [= <-]|]. case_decide; apply IH.
Qed.

(** ** What the walk gathers *)

(** Reached from the roots along the edges that lead on. *)
Inductive reachable (roots : list ObjectVersionRef) (edges : list DependencyEdge) : ObjectVersionRef -> Prop :=
| reach_root ref : ref ∈ roots -> reachable roots edges ref
| reach_edge edge : edge ∈ edges -> leads_on edge = true -> reachable roots edges (de_Source edge) ->
    reachable roots edges (de_Target edge).

Section Walk.
Context (roots : list ObjectVersionRef) (valid : list DependencyEdge) (start : walking).
Hypothesis (Tr : forall ref, ref ∈ roots -> tidy ref) (Te : tidy_edges valid) (Ks : keyed (wk_impacts start)).

Lemma reachable_tidy ref : reachable roots valid ref -> tidy ref.
Proof. induction 1 as [ref Hr|edge He _ _ _]; [by apply Tr|]. by apply Te in He as (_ & ? & _). Qed.

Record progress (visited : gset string) (s : walking) : Prop := {
  pg_queue ref : ref ∈ wk_queue s -> reachable roots valid ref;
  pg_visited id : id ∈ visited -> exists ref, reachable roots valid ref /\ refIdentity ref = id;
  pg_roots ref : ref ∈ roots -> refIdentity ref ∈ visited \/ ref ∈ wk_queue s;
  pg_edges edge : edge ∈ valid -> leads_on edge = true -> refIdentity (de_Source edge) ∈ visited ->
    refIdentity (de_Target edge) ∈ visited \/ de_Target edge ∈ wk_queue s;
  pg_keyed : keyed (wk_impacts s);
  pg_facts f : facts (wk_impacts s) f <-> facts (wk_impacts start) f
    \/ exists edge, edge ∈ valid /\ refIdentity (de_Source edge) ∈ visited /\ f = edge_fact edge;
  pg_required id : id ∈ wk_required s <-> id ∈ wk_required start
    \/ exists edge, edge ∈ valid /\ refIdentity (de_Source edge) ∈ visited /\ leads_on edge = true /\ id ∈ ends edge
}.

Lemma progress_skip visited s ref queue : wk_queue s = ref :: queue -> refIdentity ref ∈ visited ->
  progress visited s -> progress visited (s <| wk_queue := queue |>).
Proof.
  intros Q V [P1 P2 P3 P4 P5 P6 P7]. split; cbn; try done.
  - intros r Hr. apply P1. rewrite Q. by right.
  - intros r Hr. destruct (P3 r Hr) as [|Hq]; [by left|]. rewrite Q in Hq. apply elem_of_cons in Hq as [->|]; [by left|by right].
  - intros e He Le Ve. destruct (P4 e He Le Ve) as [|Hq]; [by left|]. rewrite Q in Hq.
    apply elem_of_cons in Hq as [->|]; [by left|by right].
Qed.

Lemma progress_visit visited s ref queue : wk_queue s = ref :: queue -> progress visited s ->
  progress ({[ refIdentity ref ]} ∪ visited) (foldl (follow ref) (s <| wk_queue := queue |>) valid).
Proof.
  intros Q [P1 P2 P3 P4 P5 P6 P7].
  assert (reachable roots valid ref) as Rr by (apply P1; rewrite Q; by left).
  assert (forall edge, edge ∈ valid -> refIdentity (de_Source edge) = refIdentity ref -> de_Source edge = ref) as Same.
  { intros e He E. apply refIdentity_inj in E; [done|by apply Te|by apply reachable_tidy]. }
  set (s1 := s <| wk_queue := queue |>). destruct (follow_facts ref valid s1 P5 Te) as [K F].
  assert (forall edge, edge ∈ valid -> refIdentity (de_Source edge) ∈ ({[ refIdentity ref ]} ∪ visited : gset string)
            <-> de_Source edge = ref \/ refIdentity (de_Source edge) ∈ visited) as Vs.
  { intros e He. rewrite elem_of_union, elem_of_singleton. split; [|by intros [->|]; [left|right]].
    intros [E|]; [left; by apply Same|by right]. }
  split.
  - intros r. rewrite follow_queue. cbn. rewrite elem_of_app, list_elem_of_fmap.
    intros [Hr|(e & -> & He)]; [apply P1; rewrite Q; by right|].
    unfold leading, edges_from in He. rewrite !list_elem_of_filter in He. destruct He as (Le & Es & He). apply reach_edge; [done..|]. by rewrite Es.
  - intros id [->%elem_of_singleton|Hi]%elem_of_union; [by exists ref|by apply P2].
  - intros r Hr. rewrite follow_queue, elem_of_union, elem_of_app, elem_of_singleton. cbn.
    destruct (P3 r Hr) as [|Hq]; [by left; right|]. rewrite Q in Hq. apply elem_of_cons in Hq as [->|]; [by left; left|by right; left].
  - intros e He Le Ve. rewrite follow_queue, elem_of_union, elem_of_app, elem_of_singleton. cbn.
    apply Vs in Ve as [E|Ve]; [|destruct (P4 e He Le Ve) as [|Hq]; [by left; right|]; rewrite Q in Hq;
      apply elem_of_cons in Hq as [->|]; [by left; left|by right; left] |done].
    right. right. apply list_elem_of_fmap. exists e. split; [done|]. unfold leading, edges_from. by rewrite !list_elem_of_filter.
  - exact K.
  - intros f. rewrite F. cbn. rewrite P6. split.
    + intros [[|(e & He & Ve & ->)]|(e & He & Es & ->)]; [by left|right; exists e..].
      * split; [done|]. split; [|done]. apply Vs; [done|by right].
      * split; [done|]. split; [|done]. apply Vs; [done|by left].
    + intros [|(e & He & Ve & ->)]; [by left; left|]. apply Vs in Ve as [|]; [|left|done]; right; by exists e.
  - intros id. rewrite follow_required. cbn. rewrite P7. split.
    + intros [[|(e & He & Ve & R)]|(e & He & Es & R)]; [by left|right; exists e..].
      * split; [done|]. split; [|done]. apply Vs; [done|by right].
      * split; [done|]. split; [|done]. apply Vs; [done|by left].
    + intros [|(e & He & Ve & R)]; [by left; left|]. apply Vs in Ve as [|]; [|left|done]; right; by exists e.
Qed.

Lemma walk_progress fuel visited s s' : progress visited s -> walk fuel valid visited s = Some s' ->
  exists visited', progress visited' s' /\ wk_queue s' = [].
Proof.
  revert visited s. induction fuel as [|fuel IH]; intros visited s P; cbn [walk].
  - destruct (wk_queue s) eqn:Q; [|done]. intros [= <-]. by exists visited.
  - destruct (wk_queue s) as [|ref queue] eqn:Q; [intros [= <-]; by exists visited|].
    case_decide; apply IH; [by eapply progress_skip|by apply progress_visit].
Qed.

Lemma progress_done visited s : progress visited s -> wk_queue s = [] ->
  forall edge, edge ∈ valid -> refIdentity (de_Source edge) ∈ visited <-> reachable roots valid (de_Source edge).
Proof.
  intros [P1 P2 P3 P4 P5 P6 P7] Q edge He. split.
  - intros (ref & Rr & E)%P2. apply refIdentity_inj in E; [by subst|by apply reachable_tidy|by apply Te].
  - generalize (de_Source edge). clear edge He. induction 1 as [ref Hr|edge He Le _ IH].
    + destruct (P3 ref Hr) as [|Hq]; [done|]. rewrite Q in Hq. by apply not_elem_of_nil in Hq.
    + destruct (P4 edge He Le IH) as [|Hq]; [done|]. rewrite Q in Hq. by apply not_elem_of_nil in Hq.
Qed.

(** The walk of the whole queue. *)
Lemma walk_reaches s' : wk_queue start = roots -> walk (walk_fuel roots valid) valid ∅ start = Some s' ->
  keyed (wk_impacts s')
  /\ (forall f, facts (wk_impacts s') f <-> facts (wk_impacts start) f
        \/ exists edge, edge ∈ valid /\ reachable roots valid (de_Source edge) /\ f = edge_fact edge)
  /\ (forall id, id ∈ wk_required s' <-> id ∈ wk_required start
        \/ exists edge, edge ∈ valid /\ reachable roots valid (de_Source edge) /\ leads_on edge = true /\ id ∈ ends edge).
Proof.
  intros Q (visited & P & Qs)%walk_progress.
  - pose proof (progress_done visited s' P Qs) as D. destruct P as [_ _ _ _ K F R]. split; [done|]. split.
    + intros f. rewrite F. split; (intros [|(e & He & Ve & Hf)]; [by left|right; exists e; split; [done|]; split; [by apply D|done]]).
    + intros id. rewrite R. split; (intros [|(e & He & Ve & Hf)]; [by left|right; exists e; split; [done|]; split; [by apply D|done]]).
  - split.
    + rewrite Q. intros ref Hr. by apply reach_root.
    + intros id Hi%elem_of_empty. done.
    + intros ref Hr. right. by rewrite Q.
    + intros edge _ _ Hi%elem_of_empty. done.
    + exact Ks.
    + intros f. split; [by left|]. by intros [|(e & _ & Hi%elem_of_empty & _)].
    + intros id. split; [by left|]. by intros [|(e & _ & Hi%elem_of_empty & _)].
Qed.
End Walk.
