(* ===== verification/AssessmentTheorems.v ===== *)
(** The impact assessment of a change set is the reachability along the
    confirmed dependencies of the project, and building it always ends. *)

From stdpp Require Import pretty sorting.
From Stdlib Require Import Ascii String.
From S2P Require Import Prelude Effects OperationCore OperationStore Workspace Permission MemberStore Membership OperationRunner RoadmapModel RoadmapStore RouteObjects RoadmapSteps Roadmap RoadmapLaws RoadmapHistory RouteLaws RoadmapDemo ImpactStore ImpactStoreLaws ImpactDemo Assessment AssessmentLaws.

(** ** What is read *)

Section Parts.
Context {X : Type} `{Digester roadmap_any} (world : World X) `{!WorldLaws world} (checks : Checks) `{!ChecksLaws checks}.

(** The object is there, at the version named, and not stale. *)
Definition object_current (p : Project) (w : roadmap) (ref : ObjectVersionRef) : Prop :=
  exists state, currentImpactObject world p ref w = (w, Ok state).

Lemma current_run p ref w : currentImpactObject world p ref w = (w, (currentImpactObject world p ref w).2).
Proof. apply reads_run, reads_current_object. apply _. Qed.

Lemma value_names delta version value sources provenance w w' v :
  value_of delta version value sources provenance w = (w', Ok v) -> cs_Ref v = at_version (semanticRef delta) (pretty version).
Proof. unfold value_of. destruct (json_Marshal value); [|done]. intros E. by injection E as _ <-. Qed.

Definition delta_kinds : list string := ["RouteNode"; "RouteEdge"; "EvidenceCard"; "ResearchClaim"; "ProjectAssetScope"; "RuleBinding"].

Lemma semantic_value_names p delta w w' v : currentSemanticValue world checks p delta w = (w', Ok v) ->
  contains delta_kinds (sd_Kind delta) = true /\ cs_Ref v = at_version (semanticRef delta) (ref_Version (cs_Ref v)).
Proof.
  unfold currentSemanticValue.
  destruct (sd_Kind delta =? "RouteNode")%string eqn:K1.
  { intros (w1 & node & _ & E)%bind_ok. apply bind_ok in E as (w2 & sources & _ & E).
    apply value_names in E as ->. split; [|done]. by apply String.eqb_eq in K1 as ->. }
  destruct (sd_Kind delta =? "RouteEdge")%string eqn:K2.
  { intros (w1 & edge & _ & E)%bind_ok. apply value_names in E as ->. split; [|done]. by apply String.eqb_eq in K2 as ->. }
  destruct (contains semantic_kinds (sd_Kind delta)) eqn:K3; [|done].
  intros [E _]%on_tables_ok. apply (semantic_names (checks := checks)) in E. split; [|done].
  apply contains_spec in K3. apply contains_spec. by do 2 right.
Qed.

Lemma semantic_state_ok p delta w w' ref state : semantic_state world checks p delta w = (w', Ok (ref, state)) ->
  w' = w /\ ref = semanticRef delta /\ os_Ref state = ref /\ contains delta_kinds (sd_Kind delta) = true.
Proof.
  unfold semantic_state. intros (w1 & v & Ev & E)%bind_ok. pose proof (keeps_run _ _ _ _ _ (reads_semantic_value world checks p delta) Ev) as Ew. cbn in Ew. subst w1.
  apply semantic_value_names in Ev as [K N]. apply bind_ok in E as (w2 & [] & [Ve ->]%refuse_if_ok & E).
  apply bind_ok in E as (w3 & [] & [_ ->]%refuse_if_ok & E). apply bind_ok in E as (w4 & inputs & Ei & E).
  assert (w4 = w) as ->.
  { destruct (sd_ProposedRoute delta); [|by injection Ei]. eapply (keeps_run id); [|exact Ei]. apply reads_collect. auto with effects. }
  injection E as <- <- <-. split; [done|]. split; [|done]. apply negb_false_iff, String.eqb_eq in Ve. rewrite N, Ve. done.
Qed.

Lemma tidy_kind l ref : contains l (ref_Kind ref) = true -> forallb (fun k => negb (has_char slash k)) l = true ->
  no_slash (ref_Version ref) -> tidy ref.
Proof.
  intros K%contains_spec A V. split; [|done]. rewrite forallb_forall in A.
  apply negb_true_iff, A. by apply list_elem_of_In.
Qed.

Lemma semantic_ref_tidy delta : contains delta_kinds (sd_Kind delta) = true -> tidy (semanticRef delta).
Proof.
  intros K. apply (tidy_kind ("ProjectAsset" :: delta_kinds)); [|done|apply pretty_no_slash].
  apply contains_spec. cbn. destruct (_ =? _)%string; [by left|]. right. by apply contains_spec.
Qed.

Lemma semantic_states_ok p deltas w w' l : semantic_states world checks p deltas w = (w', Ok l) ->
  w' = w /\ l.*1 = semanticRef <$> deltas /\ Forall (fun entry => os_Ref entry.2 = entry.1 /\ tidy entry.1) l
  /\ forall delta, delta ∈ deltas -> contains delta_kinds (sd_Kind delta) = true.
Proof.
  revert w w' l. induction deltas as [|delta deltas IH]; intros w w' l; cbn.
  { intros E. injection E as <- <-. split_and!; [done..|]. by intros d Hd%not_elem_of_nil. }
  intros (w1 & [ref state] & (-> & -> & Er & K)%semantic_state_ok & E)%bind_ok.
  apply bind_ok in E as (w2 & l' & (-> & E1 & E2 & E3)%IH & E). injection E as <- <-.
  cbn. rewrite E1. split_and!; [done..| |].
  { constructor; [|done]. split; [done|]. by apply semantic_ref_tidy. }
  intros d [->|Hd]%elem_of_cons; [done|by apply E3].
Qed.

Lemma current_tidy p ref w : object_current p w ref -> no_slash (ref_Version ref) -> tidy ref.
Proof.
  intros (state & E). apply (current_object_names world) in E as [V _].
  unfold validObjectRef in V. apply andb_true_iff in V as [_ K]. by apply (tidy_kind object_kinds).
Qed.

End Parts.

Section Steps.
Context {X : Type} (world : World X) `{!WorldLaws world}.

(** *** States, by the identity of their reference *)

Definition named (states : state_map) : Prop :=
  forall key state, states !! key = Some state -> key = refIdentity (os_Ref state) /\ tidy (os_Ref state).

Lemma named_insert states state ref : os_Ref state = ref -> tidy ref -> named states -> named (<[refIdentity ref := state]> states).
Proof. intros <- T N key s. rewrite lookup_insert_Some. intros [[<- <-]|[_ F]]; [done|by apply N]. Qed.

Lemma index_named l : Forall (fun entry : ObjectVersionRef * ImpactObjectState => os_Ref entry.2 = entry.1 /\ tidy entry.1) l ->
  named (state_index l).
Proof.
  unfold state_index. assert (named ∅) as N by (intros key s F; by rewrite lookup_empty in F). revert N.
  generalize (∅ : state_map). induction l as [|[ref state] l IH]; intros m N F; [done|].
  apply Forall_cons in F as [[E T] F]. apply IH; [|done]. by apply named_insert.
Qed.

Lemma root_states_ok p semantic roots states w w' states' : named semantic -> named states ->
  (forall root, root ∈ roots -> tidy root) -> root_states world p semantic roots states w = (w', Ok states') ->
  w' = w /\ named states' /\ dom states' = dom states ∪ list_to_set (refIdentity <$> roots).
Proof.
  intros Ns. revert states w w'. induction roots as [|root roots IH]; intros states w w' N T; cbn.
  { intros E. injection E as <- <-. rewrite union_empty_r_L. done. }
  intros (w1 & state & Es & E)%bind_ok. assert (tidy root) as Tr by (apply T; by left).
  assert (w1 = w /\ os_Ref state = root) as [-> Er].
  { destruct (semantic !! refIdentity root) as [s|] eqn:F.
    - injection Es as <- <-. apply Ns in F as [F Ts]. split; [done|]. by apply refIdentity_inj.
    - pose proof (current_run world p root w) as Cr. rewrite Cr in Es. injection Es as <- Es. split; [done|].
      rewrite Es in Cr. by apply (current_object_names world) in Cr as [_ ->]. }
  apply IH in E as (-> & N' & D); [|by apply named_insert|intros; apply T; by right]. split_and!; [done..|].
  rewrite D, dom_insert_L. cbn. by rewrite (union_comm_L {[_]}), <- union_assoc_L.
Qed.

(** *** The eligible edges *)

Definition eligible (p : Project) (w : roadmap) (edge : DependencyEdge) : Prop :=
  contains [DependencyConfirmed; DependencySuggested] (de_Status edge) = true
  /\ object_current world p w (de_Source edge) /\ object_current world p w (de_Target edge).

Lemma eligible_edge_ok p edge w w' found : eligible_edge world p edge w = (w', Ok found) ->
  w' = w /\ match found with
            | Some (s, t) => currentImpactObject world p (de_Source edge) w = (w, Ok s)
                             /\ currentImpactObject world p (de_Target edge) w = (w, Ok t)
            | None => ~ (object_current world p w (de_Source edge) /\ object_current world p w (de_Target edge))
            end.
Proof.
  unfold eligible_edge, object_current. pose proof (reads_current_object world p) as R.
  rewrite (bind_run _ _ _ _ _ (attempt_read _ w (R (de_Source edge)))), (bind_run _ _ _ _ _ (attempt_read _ w (R (de_Target edge)))).
  pose proof (current_run world p (de_Source edge) w) as Es. pose proof (current_run world p (de_Target edge) w) as Et.
  destruct ((currentImpactObject world p (de_Source edge) w).2) as [s|e1], ((currentImpactObject world p (de_Target edge) w).2) as [t|e2];
    cbn; repeat case_match; intros E; unfold fail, mret, M_ret in E; simplify_eq; (split; [done|]);
    try done; intros [(s' & Es') (t' & Et')]; congruence.
Qed.

Lemma eligible_edges_ok p edges states w w' states' valid : named states ->
  (forall edge, edge ∈ edges -> no_slash (ref_Version (de_Source edge)) /\ no_slash (ref_Version (de_Target edge))) ->
  eligible_edges world p edges states w = (w', Ok (states', valid)) ->
  w' = w /\ named states' /\ (forall edge, edge ∈ valid <-> edge ∈ edges /\ eligible p w edge)
  /\ dom states ⊆ dom states' /\ (forall edge, edge ∈ valid -> ends edge ⊆ dom states').
Proof.
  revert states w w' valid. induction edges as [|edge edges IH]; intros states w w' valid N T; cbn [eligible_edges].
  { intros E. injection E as <- <- <-. split_and!; [done..| |done|by intros e He%not_elem_of_nil].
    intros e. split; [by intros He%not_elem_of_nil|by intros [He%not_elem_of_nil _]]. }
  assert (forall e, e ∈ edges -> no_slash (ref_Version (de_Source e)) /\ no_slash (ref_Version (de_Target e))) as T'
    by (intros e He; apply T; by right).
  destruct (contains _ (de_Status edge)) eqn:St; cycle 1.
  { intros (-> & N' & V & D & En)%IH; [|done..]. split_and!; [done..| |done|done]. intros e. rewrite V. split.
    - intros [He El]. by split; [right|].
    - intros [[->|He]%elem_of_cons El]; [|done]. destruct El as (St' & _). congruence. }
  intros (w1 & found & [-> F]%eligible_edge_ok & E)%bind_ok. destruct found as [[s t]|]; cycle 1.
  { apply IH in E as (-> & N' & V & D & En); [|done..]. split_and!; [done..| |done|done]. intros e. rewrite V. split.
    - intros [He El]. by split; [right|].
    - intros [[->|He]%elem_of_cons El]; [|done]. destruct El as (_ & El). done. }
  destruct F as [Fs Ft]. apply bind_ok in E as (w2 & [states2 valid2] & E & E2). injection E2 as <- <- <-.
  destruct (T edge (list_elem_of_here _ _)) as [Ts Tt].
  pose proof (current_object_names world _ _ _ _ _ Fs) as [_ Ns]. pose proof (current_object_names world _ _ _ _ _ Ft) as [_ Nt].
  assert (object_current world p w (de_Source edge) /\ object_current world p w (de_Target edge)) as [Cs Ct] by (split; by eexists).
  rewrite Ns, Nt in E. apply IH in E as (-> & N' & V & D & En); [| |done].
  2: { apply named_insert; [done|by eapply (current_tidy world)|]. apply named_insert; [done|by eapply (current_tidy world)|done]. }
  rewrite !dom_insert_L in D. split_and!; [done..| | |].
  - intros e. rewrite elem_of_cons, V. split.
    + intros [->|[He El]]; [by split; [left|]|by split; [right|]].
    + intros [[->|He]%elem_of_cons El]; [by left|by right].
  - etransitivity; [|exact D]. clear; set_solver.
  - intros e [->|He]%elem_of_cons; [|by apply En]. etransitivity; [|exact D]. unfold ends. clear; set_solver.
Qed.

(** *** The chapters named *)

Definition explicit_ref (change : ChangeSet) (ref : ObjectVersionRef) : Prop :=
  exists impact version, impact ∈ ch_Impacts change /\ ci_ChapterVersionID impact = Some version /\ ref = chapter_ref impact version.

Definition explicit_fact (p : Project) (change : ChangeSet) (impact : ChangeImpact) (version : string) : fact :=
  {| ft_Target := chapter_ref impact version; ft_Action := "REVIEW_REQUIRED"; ft_Certainty := "definite";
     ft_Cause := explicit_cause p change impact |}.

Lemma explicit_impacts_ok p change impacts states s w w' states' s' : named states -> keyed (wk_impacts s) ->
  (forall impact version, impact ∈ impacts -> ci_ChapterVersionID impact = Some version -> no_slash version) ->
  explicit_impacts world p change impacts states s w = (w', Ok (states', s')) ->
  w' = w /\ named states' /\ keyed (wk_impacts s') /\ dom states ⊆ dom states'
  /\ (forall f, facts (wk_impacts s') f <-> facts (wk_impacts s) f
        \/ exists impact version, impact ∈ impacts /\ ci_ChapterVersionID impact = Some version /\ f = explicit_fact p change impact version)
  /\ (forall id, id ∈ wk_required s' <-> id ∈ wk_required s
        \/ exists impact version, impact ∈ impacts /\ ci_ChapterVersionID impact = Some version /\ id = refIdentity (chapter_ref impact version))
  /\ (forall impact version, impact ∈ impacts -> ci_ChapterVersionID impact = Some version ->
        refIdentity (chapter_ref impact version) ∈ dom states').
Proof.
  revert states s w w'. induction impacts as [|impact impacts IH]; intros states s w w' N K T; cbn [explicit_impacts].
  { intros E. injection E as <- <- <-. split_and!; [done..| | |].
    - intros f. split; [by left|]. by intros [|(i & v & Hi%not_elem_of_nil & _)].
    - intros id. split; [by left|]. by intros [|(i & v & Hi%not_elem_of_nil & _)].
    - by intros i v Hi%not_elem_of_nil. }
  setoid_rewrite elem_of_cons. destruct (ci_ChapterVersionID impact) as [version|] eqn:V; cycle 1.
  { intros (-> & N' & K' & D & F & R & In)%IH; [|done..|intros i v Hi; apply T; by right]. split_and!; [done..| | |].
    - intros f. rewrite F. split; (intros [|(i & v & Hi & Vi & Q)]; [by left|]); [right; exists i, v; by split; [right|]|].
      destruct Hi as [->|Hi]; [congruence|right; by exists i, v].
    - intros f. rewrite R. split; (intros [|(i & v & Hi & Vi & Q)]; [by left|]); [right; exists i, v; by split; [right|]|].
      destruct Hi as [->|Hi]; [congruence|right; by exists i, v].
    - intros i v [->|Hi] Vi; [congruence|by apply In]. }
  intros (w1 & state & Es & E)%bind_ok. pose proof (current_run world p (chapter_ref impact version) w) as Cr.
  rewrite Cr in Es. injection Es as <- Es. rewrite Es in Cr.
  assert (tidy (chapter_ref impact version)) as Tc.
  { apply (current_tidy world p _ w); [by eexists|]. apply (T impact); [by left|done]. }
  pose proof (current_object_names world _ _ _ _ _ Cr) as [_ Nc].
  assert (plain (chapter_ref impact version) "REVIEW_REQUIRED" "definite") as Pl by done.
  pose proof (add_keyed _ _ _ (explicit_cause p change impact) _ K Pl) as Ka.
  pose proof (add_facts _ _ _ (explicit_cause p change impact) _ K Pl) as Fa.
  apply IH in E as (-> & N' & K' & D & F & R & In); [|by apply named_insert|exact Ka|intros i v Hi; apply T; by right].
  rewrite dom_insert_L in D. split_and!; [done..|clear -D; set_solver| | |].
  - intros f. rewrite F. cbn. rewrite Fa. split.
    + intros [[|Q]|(i & v & Hi & Vi & Q)]; [by left|right; exists impact, version; by split; [left|]|right; exists i, v; by split; [right|]].
    + intros [|(i & v & [->|Hi] & Vi & Q)]; [by left; left| |right; by exists i, v]. left. right. by simplify_eq.
  - intros id. rewrite R. cbn. rewrite elem_of_union, elem_of_singleton. split.
    + intros [[Q|]|(i & v & Hi & Vi & Q)]; [right; exists impact, version; by split; [left|]|by left|right; exists i, v; by split; [right|]].
    + intros [|(i & v & [->|Hi] & Vi & Q)]; [by left; right| |right; by exists i, v]. left. left. by simplify_eq.
  - intros i v [->|Hi] Vi; [|by apply In]. apply D. simplify_eq. clear; set_solver.
Qed.
(** *** The edges stored *)

Lemma dependencies_spec pid w edge :
  edge ∈ wd_dependency_order world (project_records rm_dependencies pid w).*2
  <-> exists key row, rm_dependencies w !! (pid, key) = Some row /\ vr_Body row = edge.
Proof.
  rewrite (dependency_order_perm (world := world)), list_elem_of_fmap. split.
  - intros ([key body] & -> & (row & F & E)%project_records_spec). by exists key, row.
  - intros (key & row & F & <-). exists (key, vr_Body row). split; [done|]. apply project_records_spec. by exists row.
Qed.

Definition delta_fact (change : ChangeSet) (delta : SemanticDelta) : fact :=
  {| ft_Target := semanticRef delta; ft_Action := delta_action delta; ft_Certainty := "definite"; ft_Cause := delta_cause change delta |}.

Lemma delta_impacts_spec change : (forall delta, delta ∈ ch_SemanticDeltas change -> contains delta_kinds (sd_Kind delta) = true) ->
  keyed (delta_impacts change)
  /\ forall f, facts (delta_impacts change) f <-> exists delta, delta ∈ ch_SemanticDeltas change /\ f = delta_fact change delta.
Proof.
  unfold delta_impacts. generalize (ch_SemanticDeltas change). intros deltas T.
  assert (forall m, keyed m -> let m' := foldl (fun impacts delta => add_impact (semanticRef delta) (delta_action delta) "definite" (delta_cause change delta) impacts) m deltas in
    keyed m' /\ forall f, facts m' f <-> facts m f \/ exists delta, delta ∈ deltas /\ f = delta_fact change delta) as G.
  { revert T. induction deltas as [|delta deltas IH]; intros T m K; cbn [foldl].
    { split; [done|]. intros f. split; [by left|]. by intros [|(d & Hd%not_elem_of_nil & _)]. }
    assert (plain (semanticRef delta) (delta_action delta) "definite") as Pl.
    { split; [apply semantic_ref_tidy, T; by left|]. split; [|done]. unfold delta_action. by repeat case_match. }
    destruct (IH ltac:(intros d Hd; apply T; by right) _ (add_keyed _ _ _ (delta_cause change delta) _ K Pl)) as [K' F].
    split; [done|]. intros f. rewrite F, (add_facts _ _ _ _ _ K Pl). setoid_rewrite elem_of_cons. split.
    - intros [[|Q]|(d & Hd & Q)]; [by left|right; exists delta; by split; [left|]|right; exists d; by split; [right|]].
    - intros [|(d & [->|Hd] & Q)]; [by left; left|by left; right|right; by exists d]. }
  destruct (G ∅ keyed_empty) as [K F]. split; [done|]. intros f. rewrite F. split; [|by right].
  intros [(key & i & E & _)|]; [by rewrite lookup_empty in E|done].
Qed.
End Steps.

Lemma by_key_spec {A} (m : gmap string A) a : a ∈ by_key m <-> exists key, m !! key = Some a.
Proof.
  unfold by_key. rewrite list_elem_of_omap. split; [intros (key & _ & F); by exists key|].
  intros (key & F). exists key. split; [|done]. rewrite merge_sort_Permutation, elem_of_elements, elem_of_dom. by eexists.
Qed.

Lemma reachable_ext roots edges edges' ref : (forall edge, edge ∈ edges -> edge ∈ edges') ->
  reachable roots edges ref -> reachable roots edges' ref.
Proof. intros S. induction 1 as [ref Hr|edge He Le _ IH]; [by apply reach_root|]. apply reach_edge; auto. Qed.

(** ** The assessment *)

Section Build.
Context {X : Type} `{Digester roadmap_any} (world : World X) `{!WorldLaws world} (checks : Checks) `{!ChecksLaws checks}.

(** What the stored edges, the rules and the chapters named have to be for the
    identities to tell references apart. *)
Record tidy_change (p : Project) (change : ChangeSet) (w : roadmap) : Prop := {
  tc_edges key row : rm_dependencies w !! (pr_ID p, key) = Some row -> let edge := vr_Body row in
    no_slash (ref_Version (de_Source edge)) /\ no_slash (ref_Version (de_Target edge)) /\ no_slash (de_Action edge);
  tc_rules copy : pr_TemplateCopy p = Some copy -> no_slash (tc_RulesetHash copy);
  tc_chapters impact version : impact ∈ ch_Impacts change -> ci_ChapterVersionID impact = Some version -> no_slash version
}.

Definition roots_of (p : Project) (change : ChangeSet) : list ObjectVersionRef :=
  change_roots p change (semanticRef <$> ch_SemanticDeltas change).

Lemma roots_tidy p change w : tidy_change p change w ->
  (forall delta, delta ∈ ch_SemanticDeltas change -> contains delta_kinds (sd_Kind delta) = true) ->
  forall root, root ∈ roots_of p change -> tidy root.
Proof.
  intros T K root. unfold roots_of, change_roots. rewrite !elem_of_app.
  assert (forall z : Z, no_slash (pretty z)) as Pn by apply pretty_no_slash.
  intros [Hr|[(delta & -> & Hd)%list_elem_of_fmap|Hr]].
  - destruct (touches_spec change); [|by apply not_elem_of_nil in Hr]. apply list_elem_of_singleton in Hr as ->. split; [done|apply Pn].
  - by apply semantic_ref_tidy, K.
  - unfold template_roots in Hr. destruct (ch_TemplateUpgrade change), (pr_TemplateCopy p) as [copy|] eqn:C;
      try by apply not_elem_of_nil in Hr.
    apply elem_of_cons in Hr as [->|Hr]; [split; [done|apply Pn]|]. apply list_elem_of_singleton in Hr as ->. split; [done|]. by apply (tc_rules _ _ _ T).
Qed.

(** The parts of an assessment. *)
Lemma build_parts p change w w' a : tidy_change p change w -> buildImpactAssessment world checks p change w = (w', Ok a) ->
  w' = w /\ exists states valid reached,
    (forall edge, edge ∈ valid <-> (exists key row, rm_dependencies w !! (pr_ID p, key) = Some row /\ vr_Body row = edge) /\ eligible world p w edge)
    /\ named states /\ tidy_edges valid
    /\ (forall id, id ∈ wk_required reached -> id ∈ dom states) /\ keyed (wk_impacts reached)
    /\ (forall f, facts (wk_impacts reached) f
          <-> (exists delta, delta ∈ ch_SemanticDeltas change /\ f = delta_fact change delta)
              \/ (exists edge, edge ∈ valid /\ reachable (roots_of p change) valid (de_Source edge) /\ f = edge_fact edge)
              \/ (exists impact version, impact ∈ ch_Impacts change /\ ci_ChapterVersionID impact = Some version
                   /\ f = explicit_fact p change impact version))
    /\ (forall id, id ∈ wk_required reached
          <-> id ∈ refIdentity <$> roots_of p change
              \/ (exists edge, edge ∈ valid /\ reachable (roots_of p change) valid (de_Source edge) /\ leads_on edge = true /\ id ∈ ends edge)
              \/ (exists impact version, impact ∈ ch_Impacts change /\ ci_ChapterVersionID impact = Some version
                   /\ id = refIdentity (chapter_ref impact version)))
    /\ (forall root, root ∈ roots_of p change -> tidy root)
    /\ ia_Edges a = merge_sort edge_id_le valid /\ ia_Impacts a = by_key (wk_impacts reached)
    /\ ia_Objects a = required_objects states (wk_required reached).
Proof.
  intros T. unfold buildImpactAssessment. intros (w1 & edges & [-> ->]%rm_query_ok & E)%bind_ok.
  apply bind_ok in E as (w1 & [] & [_ ->]%refuse_if_ok & E).
  apply bind_ok in E as (w1 & semantic & Se & E).
  apply (semantic_states_ok world checks) in Se as (-> & S1 & S2 & Kinds). cbv zeta in E. rewrite S1 in E. fold (roots_of p change) in E.
  pose proof (roots_tidy p change w T Kinds) as Tr.
  apply bind_ok in E as (w1 & states1 & Rs & E).
  apply (root_states_ok world) in Rs as (-> & N1 & D1); [|by apply index_named|intros k st F; by rewrite lookup_empty in F|exact Tr].
  apply bind_ok in E as (w1 & [states2 valid] & Ee & E).
  apply (eligible_edges_ok world) in Ee as (-> & N2 & V & D2 & En); [|done|].
  2: { intros edge (key & row & F & <-)%(dependencies_spec world). destruct (tc_edges _ _ _ T key row F) as (Ns & Nt & _). by split. }
  assert (forall edge, edge ∈ valid <-> (exists key row, rm_dependencies w !! (pr_ID p, key) = Some row /\ vr_Body row = edge)
            /\ eligible world p w edge) as V'.
  { intros edge. rewrite V. by rewrite (dependencies_spec world). }
  assert (tidy_edges valid) as Te.
  { intros edge ((key & row & F & <-) & (_ & Cs & Ct))%V'. destruct (tc_edges _ _ _ T key row F) as (Ns & Nt & Na).
    split_and!; [by eapply (current_tidy world)..|done]. }
  destruct (delta_impacts_spec change Kinds) as [Kd Fd].
  destruct (walk_ends valid (walk_fuel (roots_of p change) valid) ∅ (started change (roots_of p change))) as [reached1 Wk].
  { apply Nat.add_le_mono_l, length_filter. }
  unfold walked in E. rewrite Wk in E.
  destruct (walk_reaches (roots_of p change) valid (started change (roots_of p change)) Tr Te Kd reached1 eq_refl Wk) as (K1 & F1 & R1).
  apply bind_ok in E as (w1 & [states reached] & Ex & E).
  apply (explicit_impacts_ok world) in Ex as (-> & N3 & K3 & D3 & F3 & R3 & In3); [|done..|by apply (tc_chapters _ _ _ T)].
  unfold here in E. injection E as <- <-. split; [done|]. exists states, valid, reached. split_and!; try done.
  - intros id. rewrite R3, R1. cbn [started wk_required]. rewrite elem_of_list_to_set. intros [[Hr|(e & He & _ & _ & Hi)]|(i & v & Hi & Vi & ->)].
    + apply D3, D2. rewrite D1. apply elem_of_union. right. by apply elem_of_list_to_set.
    + apply D3. by apply (En e).
    + by apply In3.
  - intros f. rewrite F3, F1. cbn [started wk_impacts]. rewrite Fd. by rewrite Logic.or_assoc.
  - intros id. rewrite R3, R1. cbn [started wk_required]. rewrite elem_of_list_to_set. by rewrite Logic.or_assoc.
Qed.
(** *** What an assessment says *)

(** The impact of the assessment, for one of its causes. *)
Definition assessed (a : ImpactAssessment) (f : fact) : Prop :=
  exists impact, impact ∈ ia_Impacts a /\ ri_Target impact = ft_Target f /\ ri_Action impact = ft_Action f
    /\ ri_Certainty impact = ft_Certainty f /\ ft_Cause f ∈ ri_Causes impact.

Lemma assessed_facts m f : (exists impact, impact ∈ by_key m /\ ri_Target impact = ft_Target f /\ ri_Action impact = ft_Action f
    /\ ri_Certainty impact = ft_Certainty f /\ ft_Cause f ∈ ri_Causes impact) <-> facts m f.
Proof.
  unfold facts. setoid_rewrite by_key_spec. split.
  - intros (i & (key & F) & R). by exists key, i.
  - intros (key & i & F & R). exists i. split; [by exists key|done].
Qed.

Lemma objects_spec states required ref : named states -> (forall id, id ∈ required -> id ∈ dom states) ->
  ref ∈ os_Ref <$> required_objects states required <-> tidy ref /\ refIdentity ref ∈ required.
Proof.
  intros N D. unfold required_objects. rewrite list_elem_of_fmap. setoid_rewrite by_key_spec.
  setoid_rewrite map_lookup_filter_Some. cbn. split.
  - intros (state & -> & (key & F & Hr)). apply N in F as [-> T]. done.
  - intros [T Hr]. pose proof (D _ Hr) as [state F]%elem_of_dom. apply N in F as Nf. destruct Nf as [E Ts].
    apply refIdentity_inj in E as ->; [|done..]. exists state. split; [done|]. by exists (refIdentity (os_Ref state)).
Qed.
End Build.

(** ** The properties *)

(** C11. The assessment of a change set is reachability. It keeps the confirmed
    and suggested dependencies of the project whose two ends are there at the
    versions named. It states an impact with a cause exactly when a delta of
    the change set is that cause, or a chapter it names is, or a kept
    dependency is whose source is reached from the roots of the change along
    confirmed dependencies that call for an action. And it pins the objects
    that are roots, or ends of a dependency followed for certain, or chapters
    named. It writes nothing. *)
Theorem assessment_is_reachability {X} `{Digester roadmap_any} (world : World X) `{!WorldLaws world} (checks : Checks)
  `{!ChecksLaws checks} p change w w' a
  (Tidy : tidy_change p change w) (Build : buildImpactAssessment world checks p change w = (w', Ok a)) :
  w' = w
  /\ (forall edge, edge ∈ ia_Edges a
        <-> (exists key row, rm_dependencies w !! (pr_ID p, key) = Some row /\ vr_Body row = edge) /\ eligible world p w edge)
  /\ (forall f, assessed a f
        <-> (exists delta, delta ∈ ch_SemanticDeltas change /\ f = delta_fact change delta)
            \/ (exists edge, edge ∈ ia_Edges a /\ reachable (roots_of p change) (ia_Edges a) (de_Source edge) /\ f = edge_fact edge)
            \/ (exists impact version, impact ∈ ch_Impacts change /\ ci_ChapterVersionID impact = Some version
                 /\ f = explicit_fact p change impact version))
  /\ (forall ref, ref ∈ os_Ref <$> ia_Objects a
        <-> ref ∈ roots_of p change
            \/ (exists edge, edge ∈ ia_Edges a /\ reachable (roots_of p change) (ia_Edges a) (de_Source edge)
                 /\ leads_on edge = true /\ (ref = de_Source edge \/ ref = de_Target edge))
            \/ explicit_ref change ref).
Proof.
  destruct (build_parts world checks p change w w' a Tidy Build)
    as (-> & states & valid & reached & V & N & Te & D & K & F & R & Tr & Ea & Ei & Eo).
  assert (forall edge, edge ∈ ia_Edges a <-> edge ∈ valid) as Mv.
  { intros edge. rewrite Ea. by rewrite merge_sort_Permutation. }
  assert (forall ref, reachable (roots_of p change) (ia_Edges a) ref <-> reachable (roots_of p change) valid ref) as Rv.
  { intros ref. split; apply reachable_ext; apply Mv. }
  split; [done|]. setoid_rewrite Mv. setoid_rewrite Rv. split; [exact V|]. split.
  - intros f. unfold assessed. rewrite Ei, assessed_facts. apply F.
  - intros ref. rewrite Eo, objects_spec, R by done. unfold ends. split.
    + intros [T [Hr|[(edge & He & Re & Le & Hi)|(i & v & Hi & Vi & E)]]].
      * left. apply list_elem_of_fmap in Hr as (root & E & Hr). apply refIdentity_inj in E as ->; [done..|by apply Tr].
      * right. left. exists edge. split_and!; [done..|]. destruct (Te edge He) as (Ts & Tt & _).
        rewrite elem_of_union, !elem_of_singleton in Hi. destruct Hi as [E|E]; apply refIdentity_inj in E; auto.
      * right. right. exists i, v. split_and!; [done..|]. apply refIdentity_inj in E; [done..|].
        split; [done|]. by apply (tc_chapters _ _ _ Tidy i).
    + intros [Hr|[(edge & He & Re & Le & Hi)|(i & v & Hi & Vi & ->)]].
      * split; [by apply Tr|]. left. by apply list_elem_of_fmap_2.
      * destruct (Te edge He) as (Ts & Tt & _). split; [by destruct Hi as [->| ->]|]. right. left. exists edge.
        split_and!; [done..|]. rewrite elem_of_union, !elem_of_singleton. destruct Hi as [->| ->]; auto.
      * split; [split; [done|by apply (tc_chapters _ _ _ Tidy i)]|]. right. right. by exists i, v.
Qed.

(** The walk of an assessment ends: the fuel it is given is enough for any
    roots and any dependencies, cycles and repetitions among them included. *)
Theorem assessment_walk_ends change roots valid :
  walk (walk_fuel roots valid) valid ∅ (started change roots) = Some (walked change roots valid)
  /\ wk_queue (walked change roots valid) = [].
Proof.
  destruct (walk_ends valid (walk_fuel roots valid) ∅ (started change roots)) as [s E].
  { apply Nat.add_le_mono_l, length_filter. }
  unfold walked. rewrite E. split; [done|]. by eapply walk_empties.
Qed.

(** ** Witnesses *)

Module Chain.
#[local] Existing Instances Studio.text Studio.world_laws Desk.checks_laws.

(** A change of the first node; the second takes it in. *)
Definition change : ChangeSet :=
  Desk.change <| ch_Status := ChangeSetStatusDraft |> <| ch_TargetContextRevision := None |>
    <| ch_SemanticDeltas :=
         [{| sd_Kind := "RouteNode"; sd_TargetID := "plan"; sd_ExpectedVersion := 1; sd_BeforeHash := ""; sd_Before := "";
             sd_ProvenanceHash := ""; sd_SourceIDs := []; sd_ProposedCard := None; sd_ProposedClaim := None;
             sd_ProposedAssetPolicy := None; sd_ProposedBinding := None; sd_ProposedRoute := Some Studio.chosen;
             sd_ProposedEdge := None |}] |>.

Definition assessment : ImpactAssessment :=
  match buildImpactAssessment Studio.world Desk.checks Studio.project change Studio.start with
  | (_, Ok a) => a
  | _ => Desk.assessment
  end.

Lemma builds : buildImpactAssessment Studio.world Desk.checks Studio.project change Studio.start = (Studio.start, Ok assessment).
Proof. vm_compute. reflexivity. Qed.

Example affected : ri_Target <$> ia_Impacts assessment = [node_ref Studio.draft; node_ref Studio.plan].
Proof. vm_compute. reflexivity. Qed.

Lemma tidy : tidy_change Studio.project change Studio.start.
Proof.
  split; [|done|by intros i v Hi%not_elem_of_nil].
  intros key row. cbn [Studio.start rm_dependencies]. intros [[= <-] <-]%lookup_singleton_Some. by split_and!.
Qed.
End Chain.

Lemma assessment_is_reachability_witness :
  assessed Chain.assessment (edge_fact Studio.link)
  /\ reachable (roots_of Studio.project Chain.change) (ia_Edges Chain.assessment) (node_ref Studio.draft).
Proof.
  destruct (assessment_is_reachability (WorldLaws0 := Studio.world_laws) Studio.world (ChecksLaws0 := Desk.checks_laws) Desk.checks
              Studio.project Chain.change Studio.start Studio.start Chain.assessment Chain.tidy Chain.builds) as (_ & _ & F & _).
  assert (Studio.link ∈ ia_Edges Chain.assessment) as L by (vm_compute; left).
  assert (reachable (roots_of Studio.project Chain.change) (ia_Edges Chain.assessment) (node_ref Studio.plan)) as R
    by (apply reach_root; vm_compute; left).
  split.
  - apply F. right. left. exists Studio.link. split; [exact L|]. split; [exact R|reflexivity].
  - exact (reach_edge _ _ Studio.link L eq_refl R).
Defined.
