(* ===== verification/Stabilization.v ===== *)
(** The conditions under which a revision is stabilized, of
    [src/internal/lingdoc/workspacecore/{stabilization_conditions,release_gate}.go]
    with the blockers of [semantic_delta.go] and [impact_service.go].

    One evaluation serves two entries: the owner's stabilization, which wants
    every condition, and the read-only release gate, which stops at the first
    it rejects on. *)

From stdpp Require Import pretty sorting.
From Stdlib Require Import Ascii String.
From S2P Require Import Prelude Effects OperationCore OperationStore Workspace Permission MemberStore Membership OperationRunner RoadmapModel RoadmapStore RouteObjects Roadmap ImpactStore.

(** ** The conditions ([stabilization_conditions.go]) *)

Record stabilizationScope := {
  sk_ChangeID : string;
  sk_RecheckImpactedObjects : bool;
  sk_GateFailFast : bool;
  sk_ClosureSourcesOfResultTasks : bool
}.

Record stabilizationFailure := {
  sf_Code : string;
  sf_TargetID : string;
  sf_Reason : string;
  sf_GateError : option error;
  sf_StaleTransition : bool;
  sf_StaleReport : bool;
  sf_task : option ImpactTask
}.

Record stabilizationRepost := { rp_task : ImpactTask; rp_target : ObjectVersionRef }.

Set Primitive Projections.
Record stabilizationConditions := {
  sc_Project : Project;
  sc_Failures : list stabilizationFailure;
  sc_PreflightIDs : list string;
  sc_ClosureSourceIDs : list string;
  sc_StaleTransitions : list ImpactTask;
  sc_Reposts : list stabilizationRepost
}.
Unset Primitive Projections.

Definition OwnerBlockers (c : stabilizationConditions) : list ImpactBlocker :=
  omap (fun failure =>
          if (sf_Code failure =? "")%string then None
          else Some {| ib_Code := sf_Code failure; ib_TargetID := sf_TargetID failure; ib_Reason := sf_Reason failure |})
    (sc_Failures c).

Definition OwnerStaleTaskIDs (c : stabilizationConditions) : list string :=
  omap (fun failure => if sf_StaleReport failure then it_ID <$> sf_task failure else None) (sc_Failures c).

Definition GateError (c : stabilizationConditions) : option error := head (omap sf_GateError (sc_Failures c)).

(** A blocking condition, a report of a stale task, and the failure that has
    no owner's rendering. *)
Definition blocking (code target reason : string) (gate : option error) : stabilizationFailure :=
  {| sf_Code := code; sf_TargetID := target; sf_Reason := reason; sf_GateError := gate;
     sf_StaleTransition := false; sf_StaleReport := false; sf_task := None |}.

Definition stale_report (task : ImpactTask) (transition : bool) (gate : error) : stabilizationFailure :=
  {| sf_Code := ""; sf_TargetID := ""; sf_Reason := ""; sf_GateError := Some gate;
     sf_StaleTransition := transition; sf_StaleReport := true; sf_task := Some task |}.

(** [fmt.Errorf("%w: ...", ErrInvalidState, ...)] *)
Definition invalid_state (text : string) : error := Wrapped (Error ErrInvalidState +:+ ": " +:+ text) ErrInvalidState.

(** What a part of the evaluation ends in: it goes on with a value, or it
    returns the conditions gathered so far. *)
Inductive turn {A : Type} :=
| Go (a : A)
| Stop (c : stabilizationConditions).
Arguments turn : clear implicits.

(** [c.record(f, scope)], with the return its callers make of [true]. *)
Definition record (failure : stabilizationFailure) (scope : stabilizationScope) (c : stabilizationConditions)
  : turn stabilizationConditions :=
  let c := c <| sc_Failures := sc_Failures c ++ [failure] |> in
  if sk_GateFailFast scope && negb (is_nil (sf_GateError failure)) then Stop c else Go c.

Definition and_then {A B} (m : RM (turn A)) (k : A -> RM (turn B)) : RM (turn B) :=
  t ← m; match t with Go a => k a | Stop c => mret (Stop c) end.

(** A loop whose body may return from the function. *)
Fixpoint loop {A S} (body : A -> S -> RM (turn S)) (l : list A) (s : S) : RM (turn S) :=
  match l with
  | [] => mret (Go s)
  | a :: l' => and_then (body a s) (loop body l')
  end.

(** A read that has no error to answer with. *)
Definition asked {A} (f : tables -> A) : RM A := fun w => (w, Ok (f (rm_tables w))).

Section Conditions.
Context {X : Type}.
Variable world : World X.
Variable checks : Checks.

(** *** The tasks *)

Definition closure_actions : list string := ["REVIEW_REQUIRED"; "INVALIDATE_CONFIRMATION"; "REVALIDATE_EVIDENCE"].

(** The exception of a claim a person reviewed; read only when the rest of
    the condition holds. *)
Definition review_excused (p : Project) (task : ImpactTask) (ref : ObjectVersionRef) : RM bool :=
  if (it_Action task =? "REVIEW_REQUIRED")%string && (ref_Kind (it_Target task) =? "ResearchClaim")%string
     && (it_HumanDecision task =? "reviewed")%string
  then asked (ck_researchClaimReviewCurrent checks p ref) else mret false.

Definition replaced_reason (p : Project) (ref : ObjectVersionRef) : RM string :=
  current ← attempt (readImpactObjectState world p ref);
  mret ("闭环证据绑定的对象 " +:+ ref_Kind ref +:+ "/" +:+ ref_ID ref +:+ " 的版本 " +:+ ref_Version ref
        +:+ match current with
            | Ok state => " 已被新版本 " +:+ ref_Version (os_Ref state) +:+ " 替换，需重新处理"
            | Err _ => " 已被替换，需重新处理"
            end).

Definition repost_target (p : Project) (task : ImpactTask) : RM ObjectVersionRef :=
  current ← attempt (readImpactObjectState world p (it_Target task));
  mret match current with Ok state => os_Ref state | Err _ => it_Target task end.

(** The variables of the loop over the closure evidence of a task. *)
Set Primitive Projections.
Record closure := { cl_conditions : stabilizationConditions; cl_repost : option stabilizationRepost; cl_staled : bool }.
Unset Primitive Projections.

Definition and_record (failure : stabilizationFailure) (scope : stabilizationScope) (s : closure) : turn closure :=
  match record failure scope (cl_conditions s) with
  | Go c => Go (s <| cl_conditions := c |>)
  | Stop c => Stop c
  end.

Definition closure_ref (scope : stabilizationScope) (p : Project) (task : ImpactTask) (ref : ObjectVersionRef)
  (s : closure) : RM (turn closure) :=
  found ← attempt (currentImpactObject world p ref);
  match found with
  | Err e =>
      if errors_Is e ErrVersionConflict then
        reason ← replaced_reason p ref;
        target ← repost_target p task;
        mret (and_record (blocking "closure_stale" (it_ID task) reason (Some e)) scope
                (s <| cl_repost := Some {| rp_task := task; rp_target := target |} |>))
      else
        let c := cl_conditions s in
        mret (and_record (stale_report task true e) scope
                (s <| cl_conditions := c <| sc_StaleTransitions := sc_StaleTransitions c ++ [task] |> |>
                   <| cl_staled := true |>))
  | Ok state =>
      let c := cl_conditions s in
      let s := s <| cl_conditions := c <| sc_ClosureSourceIDs := sc_ClosureSourceIDs c ++ os_SourceIDs state |> |> in
      if contains closure_actions (it_Action task) && negb (os_Confirmed state) then
        excused ← review_excused p task ref;
        mret (if (excused : bool) then Go s
              else and_record (blocking "closure_stale" (it_ID task) "闭环证据已变化，需重新处理" (Some ErrInvalidState)) scope s)
      else mret (Go s)
  end.

Definition closure_refs (scope : stabilizationScope) (p : Project) (task : ImpactTask) (c : stabilizationConditions)
  : RM (turn stabilizationConditions) :=
  and_then (loop (closure_ref scope p task) (it_ClosureEvidence task)
              {| cl_conditions := c; cl_repost := None; cl_staled := false |})
    (fun s =>
       let c := cl_conditions s in
       mret (Go match cl_repost s with
                | Some repost => if cl_staled s then c else c <| sc_Reposts := sc_Reposts c ++ [repost] |>
                | None => c
                end)).

(** A task that is done and has its receipts to show, and then its evidence. *)
Definition result_task (scope : stabilizationScope) (p : Project) (task : ImpactTask) (c : stabilizationConditions)
  : RM (turn stabilizationConditions) :=
  verified ← attempt (on_tables (ck_verifyImpactActionResult checks p task (it_ClosureEvidence task)));
  match verified with
  | Err e => mret (record (blocking "result_receipt_stale" (it_ID task) "服务端结果回执未完成或已经过期" (Some e)) scope c)
  | Ok _ => if sk_ClosureSourcesOfResultTasks scope then closure_refs scope p task c else mret (Go c)
  end.

Definition done_task (scope : stabilizationScope) (p : Project) (task : ImpactTask) (c : stabilizationConditions)
  : RM (turn stabilizationConditions) :=
  and_then (mret (if is_nil (head (it_ClosureEvidence task))
                  then record (blocking "" "" "" (Some ErrInvalidState)) scope c else Go c))
    (fun c =>
       when (it_Action task =? "BLOCK_RELEASE")%string
       return mret (Go (c <| sc_PreflightIDs := sc_PreflightIDs c ++ (ref_ID <$> it_ClosureEvidence task) |>));
       if (it_Action task =? "RECOMPUTE")%string || (it_Action task =? "RETRIEVE_CANDIDATES")%string
       then result_task scope p task c else closure_refs scope p task c).

Definition in_scope (scope : stabilizationScope) (p : Project) (task : ImpactTask) : bool :=
  (it_TargetRevision task =? pr_CurrentContextRevision p)
  && ((sk_ChangeID scope =? "")%string || (it_ChangeSetID task =? sk_ChangeID scope)%string).

Definition task_condition (scope : stabilizationScope) (p : Project) (task : ImpactTask) (c : stabilizationConditions)
  : RM (turn stabilizationConditions) :=
  when negb (in_scope scope p task) return mret (Go c);
  when (it_Status task =? "STALE")%string
  return mret (record (stale_report task false
                 (invalid_state ("current impact task " +:+ it_ID task +:+ " is STALE (" +:+ it_StaleReason task +:+ ")"))) scope c);
  when impactSeverityBlocks (it_Severity task) && negb (it_Status task =? "DONE")%string
  return mret (record (blocking "impact_task_open" (it_ID task) (it_Action task)
                 (Some (invalid_state ("current impact task " +:+ it_ID task +:+ " remains " +:+ it_Status task)))) scope c);
  when negb (it_Status task =? "DONE")%string return mret (Go c);
  done_task scope p task c.

(** *** The impacted objects ([impact_service.go]) *)

Definition object_identity (ref : ObjectVersionRef) : string := ref_Kind ref +:+ "/" +:+ ref_ID ref.

Definition accountedFor (changeID : string) (invalidated : list string) (tasks : list ImpactTask) : list string :=
  mjoin ((fun task => object_identity <$> it_ClosureEvidence task) <$>
    base.filter (fun task => it_ChangeSetID task = changeID /\ it_Status task = "DONE" /\ it_ID task ∉ invalidated) tasks).

Definition object_stale (ref : ObjectVersionRef) : ImpactBlocker :=
  {| ib_Code := "impact_object_stale"; ib_TargetID := ref_ID ref; ib_Reason := "受影响对象的版本已被替换，需重新评估影响" |}.
Definition object_unconfirmed (ref : ObjectVersionRef) : ImpactBlocker :=
  {| ib_Code := "impact_object_unconfirmed"; ib_TargetID := ref_ID ref; ib_Reason := "受影响对象的当前确认已失效，需重新确认" |}.

Definition assessmentObjectsCurrent (p : Project) (ref : ObjectVersionRef) : RM ObjectVersionRef :=
  if negb (ref_Kind ref =? "ChapterVersion")%string then mret ref
  else
    found ← attempt (on_tables (ck_chapter_version checks (pr_ID p) (ref_ID ref)));
    mret match found with Ok (Some version) => at_version ref version | _ => ref end.

Definition impacted_object (p : Project) (changeID : string) (ref : ObjectVersionRef) : RM (option ImpactBlocker) :=
  if (ref_Kind ref =? "ProjectSpec")%string then
    found ← attempt (currentImpactObject world p (at_version ref (pretty (pr_SpecRevision p))));
    mret match found with Ok _ => None | Err _ => Some (object_stale ref) end
  else if (ref_Kind ref =? "TemplateCopy")%string then
    mret match ParseInt (ref_Version ref) with
         | Some assessed => if pr_TemplateCopyVersion p =? assessed +i 1 then None else Some (object_stale ref)
         | None => Some (object_stale ref)
         end
  else if (ref_Kind ref =? "ProjectAsset")%string then asked (ck_projectAssetVersionBlocker checks p changeID ref)
  else
    current ← assessmentObjectsCurrent p ref;
    found ← attempt (currentImpactObject world p current);
    mret match found with
         | Err _ => Some (object_stale ref)
         | Ok state => if os_Confirmed state then None else Some (object_unconfirmed ref)
         end.

Fixpoint impacted_objects (p : Project) (changeID : string) (accounted : list string) (refs : list ObjectVersionRef)
  : RM (list ImpactBlocker) :=
  match refs with
  | [] => mret []
  | ref :: refs' =>
      if contains accounted (object_identity ref) then impacted_objects p changeID accounted refs'
      else
        blocker ← impacted_object p changeID ref;
        blockers ← impacted_objects p changeID accounted refs';
        mret (match blocker with Some b => b :: blockers | None => blockers end)
  end.

Definition impactConfirmationBlockers (p : Project) (changeID : string) (invalidated : list string) : RM (list ImpactBlocker) :=
  found ← attempt (Store_ImpactAssessment world (pr_ID p) changeID);
  match found with
  | Err _ => mret []
  | Ok assessment =>
      tasks ← attempt (ImpactTasks world (pr_ID p));
      match tasks with
      | Err _ => mret []
      | Ok tasks => impacted_objects p changeID (accountedFor changeID invalidated tasks) (os_Ref <$> ia_Objects assessment)
      end
  end.

(** *** The routes ([semantic_delta.go]) *)

Definition route_blocker (node : RouteNode) : ImpactBlocker :=
  {| ib_Code := "required_route_not_current"; ib_TargetID := rn_ID node;
     ib_Reason := "必经技术路线未就绪、未复核或依赖版本已变化" |}.

Fixpoint route_blockers (p : Project) (nodes : list RouteNode) : RM (list ImpactBlocker) :=
  match nodes with
  | [] => mret []
  | node :: nodes' =>
      if negb (rn_Required node) && negb (wd_required world p (rn_ID node)) then route_blockers p nodes'
      else
        found ← attempt (currentRouteImpactObject world p (node_ref node));
        blockers ← route_blockers p nodes';
        mret match found with
             | Ok state => if os_Confirmed state then blockers else route_blocker node :: blockers
             | Err _ => route_blocker node :: blockers
             end
  end.

Definition RouteStabilizationBlockers (p : Project) : RM (list ImpactBlocker) :=
  nodes ← routeNodesOf world (pr_ID p);
  route_blockers p nodes.

(** *** The evaluation *)

Definition empty_conditions (p : Project) : stabilizationConditions :=
  {| sc_Project := p; sc_Failures := []; sc_PreflightIDs := []; sc_ClosureSourceIDs := []; sc_StaleTransitions := [];
     sc_Reposts := [] |}.

(** Every blocker as a failure, with the gate's error for it. *)
Definition record_blocker (scope : stabilizationScope) (gate : error) (blocker : ImpactBlocker) (c : stabilizationConditions)
  : RM (turn stabilizationConditions) :=
  mret (record (blocking (ib_Code blocker) (ib_TargetID blocker) (ib_Reason blocker) (Some gate)) scope c).

Definition recheck_objects (scope : stabilizationScope) (p : Project) (c : stabilizationConditions)
  : RM (turn stabilizationConditions) :=
  if sk_RecheckImpactedObjects scope then
    blockers ← impactConfirmationBlockers p (sk_ChangeID scope) (it_ID <$> sc_StaleTransitions c);
    mret (Go (c <| sc_Failures := sc_Failures c
                    ++ ((fun b => blocking (ib_Code b) (ib_TargetID b) (ib_Reason b) None) <$> blockers) |>))
  else mret (Go c).

Definition routes_condition (scope : stabilizationScope) (p : Project) (c : stabilizationConditions)
  : RM (turn stabilizationConditions) :=
  blockers ← RouteStabilizationBlockers p;
  loop (record_blocker scope ErrInvalidState) blockers c.

Definition template_bound (p : Project) : bool :=
  match pr_TemplateCopy p with Some copy => (tc_Status copy =? "bound")%string | None => false end.

Definition template_condition (scope : stabilizationScope) (p : Project) (c : stabilizationConditions)
  : RM (turn stabilizationConditions) :=
  mret (if template_bound p then Go c
        else record (blocking "template_unbound" "" "当前模板未绑定" (Some ErrInvalidState)) scope c).

Definition rules_condition (scope : stabilizationScope) (p : Project) (c : stabilizationConditions)
  : RM (turn stabilizationConditions) :=
  match ck_impactRules checks with
  | None =>
      mret (record (blocking "rules_checker_unavailable" "" "缺少当前规则检查器" (Some ErrImpactObjectUnavailable)) scope c)
  | Some check =>
      blockers ← on_tables (check p);
      loop (record_blocker scope (invalid_state "current rules block release")) blockers c
  end.

Definition evaluation (scope : stabilizationScope) (p : Project) : RM (turn stabilizationConditions) :=
  tasks ← ImpactTasks world (pr_ID p);
  and_then (loop (task_condition scope p) tasks (empty_conditions p)) (fun c =>
  and_then (recheck_objects scope p c) (fun c =>
  and_then (routes_condition scope p c) (fun c =>
  and_then (template_condition scope p c) (rules_condition scope p)))).

Definition stabilization_conditions (scope : stabilizationScope) (p : Project) : RM stabilizationConditions :=
  t ← evaluation scope p;
  mret match t with Go c => c | Stop c => c end.

(** *** The read-only gate ([release_gate.go]) *)

Definition gate_scope : stabilizationScope :=
  {| sk_ChangeID := ""; sk_RecheckImpactedObjects := false; sk_GateFailFast := true;
     sk_ClosureSourcesOfResultTasks := true |}.

Definition owner_scope (changeID : string) : stabilizationScope :=
  {| sk_ChangeID := changeID; sk_RecheckImpactedObjects := true; sk_GateFailFast := false;
     sk_ClosureSourcesOfResultTasks := false |}.

Definition ErrRevisionNotStable : error :=
  Wrapped "invalid_state: current formal changes require Owner stabilization" ErrInvalidState.
Definition not_stable (text : string) : error :=
  Wrapped (Error ErrRevisionNotStable +:+ ": " +:+ text) ErrRevisionNotStable.

(** The change sets that made the current revision, all of them stabilized;
    [found]: there is one. *)
Fixpoint stabilized_history (revision : Z) (history : list (string * option Z * string)) (found : bool)
  : option error :=
  match history with
  | [] =>
      when negb found && (1 <? revision) return Some (not_stable "no current stabilized ChangeSet");
      None
  | (id, target, status) :: history' =>
      if bool_decide (target = Some revision) && contains ChangeSetClosedStatuses status then
        when ChangeSetStatusCanMove "stabilize" status
        return Some (not_stable ("current applied ChangeSet " +:+ id +:+ " has not been stabilized by Owner"));
        stabilized_history revision history' true
      else stabilized_history revision history' found
  end.

(** What the history reads of a change set. *)
Definition standing (change : ChangeSet) : string * option Z * string :=
  (ch_ID change, ch_TargetContextRevision change, ch_Status change).

(** The read transaction of [AssertRevisionStabilized]: the basis, the
    conditions' preflight ids and their sources. *)
Definition gate_check (p : Project) : RM (string * list string * list string) :=
  basis ← on_tables (ck_preflightBasis checks p);
  history ← ChangeSets world checks (pr_ID p);
  _ ← returned (stabilized_history (pr_CurrentContextRevision p) (standing <$> history) false);
  conditions ← stabilization_conditions gate_scope p;
  _ ← returned (GateError conditions);
  mret (basis, sc_PreflightIDs conditions, sc_ClosureSourceIDs conditions).
End Conditions.
