(* ===== verification/StabilizationLaws.v ===== *)
(** How the stabilization evaluation is followed, step by step, in two ways.

    [judges]: a step on conditions adds no failure exactly when what it looks
    at holds, and every failure it adds is one the gate rejects on.
    [mirrors]: the run that stops at the first failure and the run that
    gathers them all agree for as long as there is none.

    Both relations compose along [and_then] and [loop], so that each condition
    of the evaluation is looked at once for each of them. *)

From S2P Require Import Prelude Effects OperationCore OperationStore Workspace Permission MemberStore Membership OperationRunner RoadmapModel RoadmapStore RouteObjects Roadmap RoadmapLaws RoadmapHistory RouteLaws ImpactStore ImpactStoreLaws Stabilization.

Lemma and_then_run {A B} (m : RM (turn A)) (k : A -> RM (turn B)) w w' a :
  m w = (w', Ok (Go a)) -> and_then m k w = k a w'.
Proof. intros E. unfold and_then. by rewrite (bind_run _ _ _ _ _ E). Qed.

(** ** What the gate sees of the failures *)

Definition gated (failure : stabilizationFailure) : Prop := is_Some (sf_GateError failure).

Definition first_error (failures : list stabilizationFailure) : option error := head (omap sf_GateError failures).

Lemma first_error_app l l' : first_error (l ++ l') = match first_error l with Some e => Some e | None => first_error l' end.
Proof.
  unfold first_error. rewrite omap_app. by destruct (omap sf_GateError l).
Qed.

Lemma first_error_gated l : Forall gated l -> first_error l = None -> l = [].
Proof. intros [|f l' [e G] _]; [done|]. unfold first_error. cbn. by rewrite G. Qed.

Lemma first_error_none l : Forall (fun f => sf_GateError f = None) l -> first_error l = None.
Proof. induction 1 as [|f l G _ IH]; [done|]. unfold first_error in *. cbn. by rewrite G. Qed.

(** Of the blockers of the objects rechecked. *)
Definition recheck_failures (blockers : list ImpactBlocker) : list stabilizationFailure :=
  (fun b => blocking (ib_Code b) (ib_TargetID b) (ib_Reason b) None) <$> blockers.

Lemma recheck_renders c blockers : sc_Failures c = recheck_failures blockers ->
  OwnerBlockers c = base.filter (fun blocker => ib_Code blocker <> "") blockers
  /\ OwnerStaleTaskIDs c = [] /\ GateError c = None.
Proof.
  unfold OwnerBlockers, OwnerStaleTaskIDs, GateError. intros ->.
  induction blockers as [|b blockers (IH & IH1 & IH2)]; [done|]. unfold recheck_failures in *. cbn [fmap list_fmap omap list_omap].
  rewrite filter_cons. cbn in *. split_and!; [|done|done].
  destruct (ib_Code b =? "")%string eqn:E; split_bools; case_decide; try done. f_equal; [by destruct b|done].
Qed.

(** ** A step judges what it looks at *)

Section Judges.
Context {A : Type}.
Variable conditions : A -> stabilizationConditions.

(** From [c], the step ends in [r] when it looks at [P]. *)
Definition judged (c : stabilizationConditions) (P : Prop) (r : res error (turn A)) : Prop :=
  match r with
  | Ok (Go a) =>
      exists l, sc_Failures (conditions a) = sc_Failures c ++ l /\ Forall gated l /\ (l = [] <-> P)
                /\ (l = [] -> sc_StaleTransitions (conditions a) = sc_StaleTransitions c)
  | Ok (Stop d) => ~ P /\ exists l, sc_Failures d = sc_Failures c ++ l /\ Forall gated l /\ l <> []
  | Err _ => ~ P
  end.

Definition judges (w : roadmap) (c : stabilizationConditions) (P : Prop) (m : RM (turn A)) : Prop :=
  exists r, m w = (w, r) /\ judged c P r.
End Judges.

Section Compose.
Context {A B : Type} (ca : A -> stabilizationConditions) (cb : B -> stabilizationConditions).

Lemma judges_iff w c (P Q : Prop) (m : RM (turn A)) : judges ca w c P m -> (P <-> Q) -> judges ca w c Q m.
Proof.
  intros (r & E & J) I. exists r. split; [done|]. destruct r as [[a|d]|e]; cbn in *; [|by rewrite <- I|by rewrite <- I].
  destruct J as (l & J). exists l. by rewrite <- I.
Qed.

Lemma judges_go w c a : sc_Failures (ca a) = sc_Failures c -> sc_StaleTransitions (ca a) = sc_StaleTransitions c ->
  judges ca w c True (mret (Go a)).
Proof. intros F S. exists (Ok (Go a)). split; [done|]. exists []. by rewrite app_nil_r. Qed.

Lemma judges_read {V} w c P (m : RM V) (k : V -> RM (turn A)) : reads m ->
  (forall v, m w = (w, Ok v) -> judges ca w c P (k v)) ->
  (forall e, m w = (w, Err e) -> ~ P) -> judges ca w c P (m ≫= k).
Proof.
  intros R K N. pose proof (reads_run m w R) as E. destruct (m w).2 as [v|e] eqn:V'.
  - destruct (K v E) as (r & F & J). exists r. by rewrite (bind_run _ _ _ _ _ E).
  - exists (Err e). split; [by apply bind_err|]. by apply (N e).
Qed.

Lemma judges_attempt {V} w c P (m : RM V) (k : res error V -> RM (turn A)) : reads m ->
  judges ca w c P (k (m w).2) -> judges ca w c P (attempt m ≫= k).
Proof.
  intros R (r & F & J). exists r. by rewrite (bind_run _ _ _ _ _ (attempt_read m w R)).
Qed.

Lemma judges_and_then w c (P Q : Prop) (m : RM (turn A)) (k : A -> RM (turn B)) :
  judges ca w c P m -> (forall a, judges cb w (ca a) Q (k a)) -> judges cb w c (P /\ Q) (and_then m k).
Proof.
  intros (r & E & J) K. unfold judges, and_then, mbind, M_bind. rewrite E.
  destruct r as [[a|d]|e]; cbn in J |- *.
  - destruct J as (l & F & G & I & S). destruct (K a) as (r & E' & J'). exists r. split; [done|].
    destruct r as [[b|d]|e]; cbn in *.
    + destruct J' as (l' & F' & G' & I' & S'). exists (l ++ l'). rewrite F', F, app_assoc, app_nil, I, I'.
      split_and!; [done|by apply Forall_app|done|]. intros [Hl Hl']. rewrite <- I in Hl. rewrite <- I' in Hl'. rewrite S', S; done.
    + destruct J' as (N & l' & F' & G' & Ne). split; [by intros [_ ?]|]. exists (l ++ l').
      rewrite F', F, app_assoc. split_and!; [done|by apply Forall_app|]. by intros [_ ?]%app_nil.
    + by intros [_ ?].
  - destruct J as (N & L). eexists. split; [done|]. split; [by intros [? _]|done].
  - eexists. split; [done|]. by intros [? _].
Qed.

End Compose.

(** What a step looks at holds: it goes on and leaves the failures alone. *)
Lemma judges_holds {A} (ca : A -> stabilizationConditions) w c (P : Prop) m : judges ca w c P m -> P ->
  exists a, m w = (w, Ok (Go a)) /\ sc_Failures (ca a) = sc_Failures c
  /\ sc_StaleTransitions (ca a) = sc_StaleTransitions c.
Proof.
  intros ([[a|d]|e] & E & J) HP; cbn in J; [|by destruct J|by destruct J]. destruct J as (l & F & _ & I & S).
  apply I in HP as ->. exists a. split; [done|]. split; [by rewrite F, app_nil_r|by apply S].
Qed.

Section Steps.
Context {A : Type} (ca : A -> stabilizationConditions).

Lemma judges_loop {V} w (P : V -> Prop) (body : V -> A -> RM (turn A)) l a :
  (forall v a, judges ca w (ca a) (P v) (body v a)) -> judges ca w (ca a) (Forall P l) (loop body l a).
Proof.
  intros J. revert a. induction l as [|v l IH]; intros a; cbn [loop].
  - eapply judges_iff; [by apply judges_go|]. split; [by constructor|done].
  - eapply judges_iff; [by eapply (judges_and_then ca ca)|]. symmetry. apply Forall_cons.
Qed.

Lemma judges_record w c d (P : Prop) failure scope : sc_Failures d = sc_Failures c -> gated failure -> ~ P ->
  judges id w c P (mret (record failure scope d)).
Proof.
  intros F [e G] N. eexists. split; [done|]. unfold record. rewrite G.
  assert (Forall gated [failure]) as Gs by (constructor; [by exists e|done]).
  destruct (_ && _); cbn; rewrite F; [split; [done|]|]; exists [failure]; [by split_and!|].
  split_and!; [done|done| |done]. by split; intros ?.
Qed.

(** A condition that is recorded when it fails. *)
Lemma judges_check w c (P : Prop) (holds : bool) failure scope : (holds = true <-> P) -> gated failure ->
  judges id w c P (mret (if holds then Go c else record failure scope c)).
Proof.
  intros I G. destruct holds.
  - eapply judges_iff; [by apply judges_go|]. split; [intros _; by apply I|done].
  - apply judges_record; [done|done|]. by intros HP%I.
Qed.
End Steps.

(** ** Stopping early and going on *)

Lemma gate_error_grows c d l : sc_Failures d = sc_Failures c ++ l ->
  GateError d = match GateError c with Some e => Some e | None => first_error l end.
Proof. unfold GateError. intros ->. apply first_error_app. Qed.

Section Mirrors.
Context {A : Type}.
Variable conditions : A -> stabilizationConditions.

(** Going on never stops, and gathers. *)
Definition gathers (c : stabilizationConditions) (slow : res error (turn A)) : Prop :=
  match slow with
  | Ok (Go a) => exists l, sc_Failures (conditions a) = sc_Failures c ++ l
  | Ok (Stop _) => False
  | Err _ => True
  end.

(** Stopping ends where going on does, or at the first error the gate sees. *)
Definition agree (slow fast : res error (turn A)) : Prop :=
  match slow with
  | Ok (Go a) =>
      match GateError (conditions a) with
      | None => fast = slow
      | Some e => exists d, fast = Ok (Stop d) /\ GateError d = Some e
      end
  | Ok (Stop _) => False
  | Err _ => fast = slow \/ exists d, fast = Ok (Stop d) /\ GateError d <> None
  end.

Definition mirrors (w : roadmap) (c : stabilizationConditions) (slow fast : RM (turn A)) : Prop :=
  exists s, slow w = (w, s) /\ gathers c s /\ (GateError c = None -> exists f, fast w = (w, f) /\ agree s f).
End Mirrors.

Section MirrorSteps.
Context {A B : Type} (ca : A -> stabilizationConditions) (cb : B -> stabilizationConditions).

Lemma mirrors_grow w c a l : sc_Failures (ca a) = sc_Failures c ++ l -> Forall (fun f => sf_GateError f = None) l ->
  mirrors ca w c (mret (Go a)) (mret (Go a)).
Proof.
  intros F N. exists (Ok (Go a)). split_and!; [done|by exists l|]. intros G. exists (Ok (Go a)). split; [done|].
  cbn. by rewrite (gate_error_grows _ _ _ F), G, first_error_none.
Qed.

Lemma mirrors_go w c a : sc_Failures (ca a) = sc_Failures c -> mirrors ca w c (mret (Go a)) (mret (Go a)).
Proof. intros F. apply (mirrors_grow w c a []); [by rewrite app_nil_r|constructor]. Qed.

Lemma mirrors_read {V} w c (m : RM V) (slow fast : V -> RM (turn A)) : reads m ->
  (forall v, mirrors ca w c (slow v) (fast v)) -> mirrors ca w c (m ≫= slow) (m ≫= fast).
Proof.
  intros R K. pose proof (reads_run m w R) as E. destruct (m w).2 as [v|e].
  - destruct (K v) as (s & F & G & M). exists s. rewrite (bind_run _ _ _ _ _ E). split_and!; [done..|].
    intros Gc. destruct (M Gc) as (f & F' & A'). exists f. by rewrite (bind_run _ _ _ _ _ E).
  - exists (Err e). split_and!; [by apply bind_err|done|]. intros _. exists (Err e). split; [by apply bind_err|by left].
Qed.

Lemma mirrors_and_then w c (slow fast : RM (turn A)) (next next' : A -> RM (turn B)) :
  mirrors ca w c slow fast -> (forall a, mirrors cb w (ca a) (next a) (next' a)) ->
  mirrors cb w c (and_then slow next) (and_then fast next').
Proof.
  intros (s & E & G & M) K. unfold mirrors, and_then, mbind, M_bind. rewrite E.
  destruct s as [[a|d]|e]; [|done|].
  - destruct G as (l & F). destruct (K a) as (s & Es & G' & M'). rewrite Es. exists s. split_and!; [done| |].
    { destruct s as [[b|d]|e]; [|done|done]. destruct G' as (l' & F'). exists (l ++ l'). by rewrite F', F, app_assoc. }
    intros Gc. destruct (M Gc) as (f & Ef & Ag). rewrite Ef. cbn in Ag. destruct (GateError (ca a)) as [e|] eqn:Ga.
    + destruct Ag as (d & -> & Gd). exists (Ok (Stop d)). split; [done|]. destruct s as [[b|d']|e']; cbn; [|done|].
      * destruct G' as (l' & F'). rewrite (gate_error_grows _ _ _ F'), Ga. by exists d.
      * right. exists d. by rewrite Gd.
    + subst f. by apply M'.
  - exists (Err e). split_and!; [done..|]. intros Gc. destruct (M Gc) as (f & Ef & [->|(d & -> & Gd)]); rewrite Ef.
    + exists (Err e). split; [done|by left].
    + exists (Ok (Stop d)). split; [done|]. right. by exists d.
Qed.
End MirrorSteps.

Section MirrorLoops.
Context {A : Type} (ca : A -> stabilizationConditions).

Lemma mirrors_loop {V} w (slow fast : V -> A -> RM (turn A)) l a :
  (forall v a, mirrors ca w (ca a) (slow v a) (fast v a)) -> mirrors ca w (ca a) (loop slow l a) (loop fast l a).
Proof.
  intros M. revert a. induction l as [|v l IH]; intros a; cbn [loop]; [by apply mirrors_go|].
  by apply (mirrors_and_then ca ca).
Qed.
End MirrorLoops.

(** The scope that gathers, and the scope that stops. *)
Definition slow (scope : stabilizationScope) : stabilizationScope :=
  {| sk_ChangeID := sk_ChangeID scope; sk_RecheckImpactedObjects := sk_RecheckImpactedObjects scope;
     sk_GateFailFast := false; sk_ClosureSourcesOfResultTasks := sk_ClosureSourcesOfResultTasks scope |}.
Definition fast (scope : stabilizationScope) : stabilizationScope :=
  {| sk_ChangeID := sk_ChangeID scope; sk_RecheckImpactedObjects := sk_RecheckImpactedObjects scope;
     sk_GateFailFast := true; sk_ClosureSourcesOfResultTasks := sk_ClosureSourcesOfResultTasks scope |}.

Lemma mirrors_record w c failure scope :
  mirrors id w c (mret (record failure (slow scope) c)) (mret (record failure (fast scope) c)).
Proof.
  set (d := c <| sc_Failures := sc_Failures c ++ [failure] |>).
  exists (Ok (Go d)). split_and!; [done|by exists [failure]|]. intros G.
  pose proof (gate_error_grows c d [failure] eq_refl) as Gd. rewrite G in Gd.
  eexists. split; [done|]. unfold record. cbn [sk_GateFailFast fast andb]. fold d. change (id d) with d.
  cbn [agree]. change (id d) with d. rewrite Gd. unfold first_error. cbn [omap list_omap].
  destruct (sf_GateError failure) as [e|] eqn:Ge; cbn; [|done]. exists d. split; [done|]. rewrite Gd. unfold first_error. cbn. by rewrite Ge.
Qed.
