(* ===== verification/StabilizationSteps.v ===== *)
(** The conditions of the stabilization evaluation, one by one: what each of
    them looks at, and that stopping early follows going on. *)

From stdpp Require Import pretty.
From S2P Require Import Prelude Effects OperationCore OperationStore Workspace Permission MemberStore Membership OperationRunner RoadmapModel RoadmapStore RouteObjects Roadmap RoadmapLaws RoadmapHistory RouteLaws ImpactStore ImpactStoreLaws Stabilization StabilizationLaws.

(** ** The evaluation reads *)

Section Reads.
Context {X : Type} (world : World X) `{!WorldLaws world} (checks : Checks) `{!ChecksLaws checks}.

Lemma reads_route p ref : reads (currentRouteImpactObject world p ref).
Proof.
  intros w. destruct (current_route_resolved world p ref w) as (r & _ & _ & ->). done.
Qed.

Lemma reads_review p task ref : reads (review_excused checks p task ref).
Proof.
  unfold review_excused. destruct (_ && _); [|apply keeps_ret]. apply reads_asked.
Qed.

Lemma reads_replaced p ref : reads (replaced_reason world p ref).
Proof. apply keeps_bind; [apply keeps_attempt, (reads_object world)|intros; apply keeps_ret]. Qed.

Lemma reads_repost p task : reads (repost_target world p task).
Proof. apply keeps_bind; [apply keeps_attempt, (reads_object world)|intros; apply keeps_ret]. Qed.

Lemma reads_receipts p task refs : reads (on_tables (ck_verifyImpactActionResult checks p task refs)).
Proof. apply reads_on_tables, receipt_reads. Qed.

Lemma reads_impacted p change ref : reads (impacted_object world checks p change ref).
Proof.
  pose proof (reads_current_object world p) as R. unfold impacted_object, assessmentObjectsCurrent.
  destruct (_ =? "ProjectSpec")%string; [apply keeps_bind; [by apply keeps_attempt|intros; apply keeps_ret]|].
  destruct (_ =? "TemplateCopy")%string; [apply keeps_ret|].
  destruct (_ =? "ProjectAsset")%string; [apply reads_asked|]. apply keeps_bind.
  - destruct (negb _); [apply keeps_ret|].
    apply keeps_bind; [apply keeps_attempt, reads_on_tables, chapter_reads|intros; apply keeps_ret].
  - intros current. apply keeps_bind; [by apply keeps_attempt|intros; apply keeps_ret].
Qed.

Lemma reads_recheck p change invalidated : reads (impactConfirmationBlockers world checks p change invalidated).
Proof.
  unfold impactConfirmationBlockers. apply keeps_bind; [apply keeps_attempt; auto with effects|].
  intros [assessment|]; [|apply keeps_ret]. apply keeps_bind; [apply keeps_attempt; auto with effects|].
  intros [tasks|]; [|apply keeps_ret]. generalize (os_Ref <$> ia_Objects assessment). intros objects. induction objects as [|o objects IH]; cbn [impacted_objects]; [apply keeps_ret|].
  destruct (contains _ _); [done|]. apply keeps_bind; [apply reads_impacted|intros b].
  apply keeps_bind; [done|intros; apply keeps_ret].
Qed.

Lemma impacted_answers p change ref w :
  exists blocker, impacted_object world checks p change ref w = (w, Ok blocker).
Proof.
  pose proof (reads_current_object world p) as R. unfold impacted_object, assessmentObjectsCurrent.
  destruct (_ =? "ProjectSpec")%string; [rewrite (bind_run _ _ _ _ _ (attempt_read _ w (R _))); by eexists|].
  destruct (_ =? "TemplateCopy")%string; [by eexists|]. destruct (_ =? "ProjectAsset")%string; [by eexists|].
  destruct (negb _).
  - erewrite bind_run by reflexivity. rewrite (bind_run _ _ _ _ _ (attempt_read _ w (R _))). by eexists.
  - erewrite bind_run; [rewrite (bind_run _ _ _ _ _ (attempt_read _ w (R _))); by eexists|].
    erewrite bind_run; [reflexivity|]. apply attempt_read, reads_on_tables, chapter_reads.
Qed.

Lemma recheck_answers p change invalidated w :
  exists blockers, impactConfirmationBlockers world checks p change invalidated w = (w, Ok blockers).
Proof.
  unfold impactConfirmationBlockers. rewrite (bind_run _ _ _ _ _ (attempt_read _ w (reads_assessment world _ _))).
  destruct (_.2) as [assessment|]; [|by eexists]. rewrite (bind_run _ _ _ _ _ (attempt_read _ w (reads_tasks world _))).
  destruct (_.2) as [tasks|]; [|by eexists]. generalize (os_Ref <$> ia_Objects assessment). intros objects. induction objects as [|o objects [blockers IH]]; cbn [impacted_objects]; [by eexists|].
  destruct (contains _ _); [by eexists|]. destruct (impacted_answers p change o w) as [b E].
  rewrite (bind_run _ _ _ _ _ E), (bind_run _ _ _ _ _ IH). by eexists.
Qed.

Lemma reads_routes p : reads (RouteStabilizationBlockers world p).
Proof.
  unfold RouteStabilizationBlockers. apply keeps_bind; [apply reads_list|]. intros nodes.
  induction nodes as [|node nodes IH]; cbn [route_blockers]; [apply keeps_ret|]. destruct (_ && _); [done|].
  apply keeps_bind; [apply keeps_attempt, reads_route|intros found]. apply keeps_bind; [done|intros; apply keeps_ret].
Qed.
End Reads.

#[export] Hint Resolve reads_route reads_review reads_replaced reads_repost reads_receipts
  reads_recheck reads_routes reads_current_object : effects.

(** ** Stopping early follows going on *)

Section Fidelity.
Context {X : Type} (world : World X) `{!WorldLaws world} (checks : Checks) `{!ChecksLaws checks}.
Variables (scope : stabilizationScope) (p : Project) (w : roadmap).

Lemma mirrors_from {A} (ca : A -> stabilizationConditions) c c' s f : sc_Failures c' = sc_Failures c ->
  mirrors ca w c s f -> mirrors ca w c' s f.
Proof.
  intros F (r & E & G & M). exists r. split_and!; [done| |].
  - destruct r as [[a|d]|e]; [|done|done]. destruct G as (l & G). exists l. by rewrite F.
  - unfold GateError in *. by rewrite F.
Qed.

Lemma mirrors_closure failure s :
  mirrors cl_conditions w (cl_conditions s) (mret (and_record failure (slow scope) s)) (mret (and_record failure (fast scope) s)).
Proof.
  destruct (mirrors_record w (cl_conditions s) failure scope) as (r & E & G & M). injection E as <-. cbn in G.
  eexists. split_and!; [done|done|]. intros Gc. destruct (M Gc) as (f & E & A). eexists. split; [done|].
  injection E as <-. unfold and_record, record in *. cbn [sk_GateFailFast slow fast andb] in A |- *.
  set (d := (cl_conditions s) <| sc_Failures := sc_Failures (cl_conditions s) ++ [failure] |>) in *.
  destruct (negb _); cbn [agree] in A |- *; change (id d) with d in A.
  - change (GateError (cl_conditions _)) with (GateError d). destruct (GateError d) as [e'|]; [|discriminate A].
    destruct A as (d' & [= <-] & Gd). by eexists.
  - change (GateError (cl_conditions _)) with (GateError d). destruct (GateError d) as [e'|]; [|done].
    destruct A as (d' & E & _). discriminate E.
Qed.

Lemma mirrors_closure_ref task ref s : mirrors cl_conditions w (cl_conditions s)
  (closure_ref world checks (slow scope) p task ref s) (closure_ref world checks (fast scope) p task ref s).
Proof.
  unfold closure_ref. apply mirrors_read; [auto with effects|]. intros [state|e].
  - destruct (_ && _); [|by apply mirrors_go]. apply mirrors_read; [auto with effects|]. intros [|]; [by apply mirrors_go|].
    by eapply mirrors_from; [|apply mirrors_closure].
  - destruct (errors_Is _ _).
    + apply mirrors_read; [auto with effects|intros reason]. apply mirrors_read; [auto with effects|intros target].
      by eapply mirrors_from; [|apply mirrors_closure].
    + by eapply mirrors_from; [|apply mirrors_closure].
Qed.

Lemma mirrors_closure_refs task c :
  mirrors id w c (closure_refs world checks (slow scope) p task c) (closure_refs world checks (fast scope) p task c).
Proof.
  unfold closure_refs. apply (mirrors_and_then cl_conditions id).
  - apply (mirrors_loop cl_conditions _ _ _ _ {| cl_conditions := c; cl_repost := None; cl_staled := false |}).
    intros ref s. apply mirrors_closure_ref.
  - intros s. apply mirrors_go. destruct (cl_repost s); [|done]. by destruct (cl_staled s).
Qed.

Lemma mirrors_done_task task c :
  mirrors id w c (done_task world checks (slow scope) p task c) (done_task world checks (fast scope) p task c).
Proof.
  unfold done_task. apply (mirrors_and_then id id).
  { destruct (is_nil _); [apply mirrors_record|by apply mirrors_go]. }
  intros d. destruct (_ =? _)%string; [by apply mirrors_go|]. destruct (_ || _); [|apply mirrors_closure_refs].
  unfold result_task. apply mirrors_read; [auto with effects|]. intros [_|e]; [|apply mirrors_record].
  cbn. destruct (sk_ClosureSourcesOfResultTasks scope); [apply mirrors_closure_refs|by apply mirrors_go].
Qed.

Lemma mirrors_task task c :
  mirrors id w c (task_condition world checks (slow scope) p task c) (task_condition world checks (fast scope) p task c).
Proof.
  unfold task_condition. change (in_scope (fast scope) p task) with (in_scope (slow scope) p task).
  destruct (negb (in_scope _ _ _)); [by apply mirrors_go|]. destruct (_ =? "STALE")%string; [apply mirrors_record|].
  destruct (_ && _); [apply mirrors_record|]. destruct (negb _); [by apply mirrors_go|]. apply mirrors_done_task.
Qed.

Lemma mirrors_blockers gate blockers c :
  mirrors id w c (loop (record_blocker (slow scope) gate) blockers c) (loop (record_blocker (fast scope) gate) blockers c).
Proof. apply (mirrors_loop id). intros blocker d. apply mirrors_record. Qed.

Lemma mirrors_recheck c :
  mirrors id w c (recheck_objects world checks (slow scope) p c) (recheck_objects world checks (fast scope) p c).
Proof.
  unfold recheck_objects. cbn. destruct (sk_RecheckImpactedObjects scope); [|by apply mirrors_go].
  apply mirrors_read; [by auto with effects|]. intros blockers. eapply mirrors_grow; [reflexivity|].
  by apply Forall_fmap, Forall_true.
Qed.

Lemma mirrors_evaluation :
  mirrors id w (empty_conditions p) (evaluation world checks (slow scope) p) (evaluation world checks (fast scope) p).
Proof.
  unfold evaluation. apply mirrors_read; [auto with effects|]. intros tasks.
  apply (mirrors_and_then id id); [apply (mirrors_loop id _ _ _ _ (empty_conditions p)); intros; apply mirrors_task|].
  intros c. apply (mirrors_and_then id id); [apply mirrors_recheck|]. intros c1. apply (mirrors_and_then id id).
  { unfold routes_condition. apply mirrors_read; [auto with effects|]. intros. apply mirrors_blockers. }
  intros c2. apply (mirrors_and_then id id); [|intros c3].
  - unfold template_condition. destruct (template_bound p); [by apply mirrors_go|apply mirrors_record].
  - unfold rules_condition. destruct (ck_impactRules checks) as [check|] eqn:R; [|apply mirrors_record].
    apply mirrors_read; [by eapply reads_on_tables, rules_read|]. intros. apply mirrors_blockers.
Qed.
End Fidelity.

(** ** What a revision owes before it is released *)

Section Release.
Context {X : Type} (world : World X) (checks : Checks).
Variables (p : Project) (w : roadmap).

Definition result_action (task : ImpactTask) : Prop :=
  it_Action task = "RECOMPUTE" \/ it_Action task = "RETRIEVE_CANDIDATES".

(** A claim a person has reviewed, at its current version. *)
Definition person_reviewed (task : ImpactTask) (ref : ObjectVersionRef) : Prop :=
  it_Action task = "REVIEW_REQUIRED" /\ ref_Kind (it_Target task) = "ResearchClaim" /\ it_HumanDecision task = "reviewed"
  /\ ck_researchClaimReviewCurrent checks p ref (rm_tables w) = true.

(** The object a closure names is still there, at the version named, and
    confirmed when the task was about its confirmation. *)
Definition upheld (task : ImpactTask) (ref : ObjectVersionRef) : Prop :=
  exists state, currentImpactObject world p ref w = (w, Ok state)
  /\ (it_Action task ∈ closure_actions -> os_Confirmed state = true \/ person_reviewed task ref).

(** [deep]: also the evidence of computations and searches, not their
    receipts alone. *)
Definition discharged (deep : bool) (task : ImpactTask) : Prop :=
  it_ClosureEvidence task <> []
  /\ (it_Action task <> "BLOCK_RELEASE" ->
      (result_action task -> (ck_verifyImpactActionResult checks p task (it_ClosureEvidence task) (rm_tables w)).2 = Ok tt)
      /\ (deep = true \/ ~ result_action task -> Forall (upheld task) (it_ClosureEvidence task))).

Definition settled (deep : bool) (task : ImpactTask) : Prop :=
  it_Status task <> "STALE"
  /\ (impactSeverityBlocks (it_Severity task) = true -> it_Status task = "DONE")
  /\ (it_Status task = "DONE" -> discharged deep task).

Definition concerns (changeID : string) (task : ImpactTask) : Prop :=
  it_TargetRevision task = pr_CurrentContextRevision p /\ (changeID = "" \/ it_ChangeSetID task = changeID).

Record releasable (changeID : string) (deep : bool) : Prop := {
  tasks_settled key row : rm_tasks w !! (pr_ID p, key) = Some row -> concerns changeID (vr_Body row) ->
    settled deep (vr_Body row);
  routes_reviewed id row : rm_nodes w !! (pr_ID p, id) = Some row ->
    rn_Required (vr_Body row) = true \/ wd_required world p id = true ->
    reviewed world p w (node_ref (vr_Body row));
  template_is_bound : exists copy, pr_TemplateCopy p = Some copy /\ tc_Status copy = "bound";
  rules_are_quiet : exists check, ck_impactRules checks = Some check /\ (check p (rm_tables w)).2 = Ok []
}.
End Release.

Section Judgement.
Context {X : Type} (world : World X) `{!WorldLaws world} (checks : Checks) `{!ChecksLaws checks}.
Variables (scope : stabilizationScope) (p : Project) (w : roadmap).

Lemma judges_closure_record c s (P : Prop) failure : sc_Failures (cl_conditions s) = sc_Failures c -> gated failure -> ~ P ->
  judges cl_conditions w c P (mret (and_record failure scope s)).
Proof.
  intros F G N. destruct (judges_record w c (cl_conditions s) P failure scope F G N) as (r & E & J). injection E as <-.
  eexists. split; [done|]. unfold and_record. by destruct (record _ _ _).
Qed.

Lemma excused_iff task ref :
  exists b, review_excused checks p task ref w = (w, Ok b) /\ (b = true <-> person_reviewed checks p w task ref).
Proof.
  unfold review_excused, person_reviewed. destruct (it_Action task =? "REVIEW_REQUIRED")%string eqn:E1; split_bools.
  2: { eexists. split; [done|]. by split; [|intros (A & _)]. }
  destruct (ref_Kind (it_Target task) =? "ResearchClaim")%string eqn:E2; split_bools.
  2: { eexists. split; [done|]. by split; [|intros (_ & A & _)]. }
  destruct (it_HumanDecision task =? "reviewed")%string eqn:E3; split_bools; cbn [andb].
  2: { eexists. split; [done|]. by split; [|intros (_ & _ & A & _)]. }
  eexists. split; [done|]. by split; [|intros (_ & _ & _ & A)].
Qed.

Lemma judges_closure_ref task ref s : judges cl_conditions w (cl_conditions s) (upheld world checks p w task ref)
  (closure_ref world checks scope p task ref s).
Proof.
  unfold closure_ref. pose proof (reads_run _ w (reads_current_object world p ref)) as E.
  apply judges_attempt; [auto with effects|]. destruct (_.2) as [state|e].
  - assert (upheld world checks p w task ref <->
      (it_Action task ∈ closure_actions -> os_Confirmed state = true \/ person_reviewed checks p w task ref)) as U.
    { unfold upheld. rewrite E. split; [by intros (state' & [= ->] & U)|intros U; by exists state]. }
    destruct (contains _ _ && _) eqn:C.
    + apply andb_true_iff in C as [C%contains_spec N%negb_true_iff].
      destruct (excused_iff task ref) as (b & Er & I). rewrite N in U.
      apply judges_read; [auto with effects| |by intros e Ex; rewrite Er in Ex].
      intros excused Ex. rewrite Er in Ex. injection Ex as <-. destruct b.
      * eapply judges_iff; [by apply judges_go|]. split; [|done]. intros _. apply U. intros _. right. by apply I.
      * apply judges_closure_record; [done|by eexists|]. rewrite U. intros Q. destruct (Q C) as [|P%I]; discriminate.
    + eapply judges_iff; [by apply judges_go|]. split; [|done]. intros _. apply U. intros A%contains_spec. rewrite A in C.
      left. by destruct (os_Confirmed state).
  - assert (~ upheld world checks p w task ref) as N by (intros (state & F & _); rewrite E in F; discriminate F).
    destruct (errors_Is _ _).
    + apply judges_read; [auto with effects| |done]. intros reason _. apply judges_read; [auto with effects| |done].
      intros target _. apply judges_closure_record; [done|by eexists|done].
    + apply judges_closure_record; [done|by eexists|done].
Qed.

Lemma judges_closure_refs task c : judges id w c (Forall (upheld world checks p w task) (it_ClosureEvidence task))
  (closure_refs world checks scope p task c).
Proof.
  unfold closure_refs. apply (judges_iff id w c (Forall (upheld world checks p w task) (it_ClosureEvidence task) /\ True)); [|tauto].
  apply (judges_and_then cl_conditions id).
  - apply (judges_loop cl_conditions w _ _ _ {| cl_conditions := c; cl_repost := None; cl_staled := false |}).
    intros ref s. apply judges_closure_ref.
  - intros s. apply judges_go; (destruct (cl_repost s); [by destruct (cl_staled s)|done]).
Qed.

Lemma judges_done_task task c :
  judges id w c (discharged world checks p w (sk_ClosureSourcesOfResultTasks scope) task) (done_task world checks scope p task c).
Proof.
  unfold done_task, discharged. apply (judges_and_then id id).
  { destruct (it_ClosureEvidence task); cbn; [apply judges_record; [done|by eexists|by intros []]|].
    eapply judges_iff; [by apply judges_go|done]. }
  intros d. destruct (it_Action task =? "BLOCK_RELEASE")%string eqn:B; split_bools.
  { eapply judges_iff; [by apply judges_go|]. by split. }
  destruct (_ || _) eqn:R.
  - assert (result_action task) as A by (apply orb_true_iff in R as [R|R]; split_bools; [by left|by right]).
    unfold result_task. apply judges_attempt; [auto with effects|]. rewrite (tables_run _ w (receipt_reads _ _ _)). cbn.
    destruct (_.2) as [[]|e] eqn:V; cbn; [|apply judges_record; [done|by eexists|]].
    + destruct (sk_ClosureSourcesOfResultTasks scope).
      * eapply judges_iff; [apply judges_closure_refs|]. split; [intros F _; split; [done|by intros _]|]. intros [_ F]; [done|]. by apply F; left.
      * eapply judges_iff; [by apply judges_go|]. split; [|done]. intros _ _. split; [done|]. by intros [|[]].
    + intros Q. destruct Q as [V' _]; [done|]. specialize (V' A). congruence.
  - assert (~ result_action task) as A.
    { apply orb_false_iff in R as [R1 R2]. by split_bools; intros [|]. }
    eapply judges_iff; [apply judges_closure_refs|]. split; [intros F _; split; [done|by intros _]|].
    intros [_ F]; [done|]. by apply F; right.
Qed.

Lemma judges_task task c :
  judges id w c (concerns p (sk_ChangeID scope) task -> settled world checks p w (sk_ClosureSourcesOfResultTasks scope) task)
    (task_condition world checks scope p task c).
Proof.
  unfold task_condition. destruct (in_scope scope p task) eqn:S; cbn [negb].
  2: { eapply judges_iff; [by apply judges_go|]. split; [|done]. intros _ [R C]. exfalso. unfold in_scope in S.
       rewrite (proj2 (Z.eqb_eq _ _) R) in S. cbn in S. apply orb_false_iff in S as [S1 S2]. split_bools. by destruct C. }
  assert (concerns p (sk_ChangeID scope) task) as Co.
  { unfold in_scope in S. apply andb_true_iff in S as [S1 S2]. apply orb_true_iff in S2. split; [by split_bools|].
    destruct S2; split_bools; [by left|by right]. }
  unfold settled. destruct (it_Status task =? "STALE")%string eqn:St; split_bools.
  { apply judges_record; [done|by eexists|]. intros Se. by destruct (Se Co) as [N _]. }
  destruct (impactSeverityBlocks _) eqn:Sv; cbn [andb];
    destruct (it_Status task =? "DONE")%string eqn:D; split_bools; cbn [negb].
  - eapply judges_iff; [apply judges_done_task|]. split; [intros Di _; by split_and!|].
    intros Se. destruct (Se Co) as (_ & _ & Di). by apply Di.
  - apply judges_record; [done|by eexists|]. intros Se. destruct (Se Co) as (_ & O & _). by apply D, O.
  - eapply judges_iff; [apply judges_done_task|]. split; [intros Di _; by split_and!|].
    intros Se. destruct (Se Co) as (_ & _ & Di). by apply Di.
  - eapply judges_iff; [by apply judges_go|]. by split.
Qed.

Lemma judges_blockers gate blockers c : judges id w c (blockers = []) (loop (record_blocker scope gate) blockers c).
Proof.
  eapply judges_iff; [apply (judges_loop id w (fun _ => False))|].
  - intros b d. apply judges_record; [done|by eexists|tauto].
  - split; [|by intros ->]. by inversion 1.
Qed.

(** *** The whole evaluation *)

Definition requires_review (node : RouteNode) : Prop :=
  rn_Required node = true \/ wd_required world p (rn_ID node) = true -> reviewed world p w (node_ref node).

Lemma route_blockers_run nodes : wf w -> answers world w ->
  (forall node, node ∈ nodes -> exists id row, rm_nodes w !! (pr_ID p, id) = Some row /\ vr_Body row = node) ->
  exists blockers, route_blockers world p nodes w = (w, Ok blockers) /\ (blockers = [] <-> Forall requires_review nodes).
Proof.
  intros W Db. induction nodes as [|node nodes IH]; intros In; cbn [route_blockers]; [by exists []|].
  destruct IH as (blockers & E & I); [intros n Hin; apply In; by right|]. setoid_rewrite Forall_cons.
  destruct (negb (rn_Required node) && _) eqn:R.
  { exists blockers. split; [done|]. rewrite I. apply andb_true_iff in R as [R1%negb_true_iff R2%negb_true_iff].
    split; [|by intros []]. intros F. split; [|done]. intros []; congruence. }
  assert (rn_Required node = true \/ wd_required world p (rn_ID node) = true) as Rq.
  { by destruct (rn_Required node), (wd_required world p (rn_ID node)); [left|left|right|]. }
  destruct (In node) as (id & row & Fr & <-); [by left|].
  pose proof (confirmed_iff world p id row w W Db Fr) as C. pose proof (reads_run _ w (reads_route world p (node_ref (vr_Body row)))) as Er.
  rewrite (bind_run _ _ _ _ _ (attempt_read _ w (reads_route world p _))), (bind_run _ _ _ _ _ E).
  eexists. split; [reflexivity|]. rewrite Er in C. unfold requires_review.
  destruct (_.2) as [state|e]; [destruct (os_Confirmed state) eqn:Cf|].
  - rewrite I. split; [|by intros []]. intros F. split; [|done]. intros _. apply C. by exists state.
  - split; [done|]. intros [Rv _]. apply C in Rv as (s & [= <-] & Cf'); [congruence|done].
  - split; [done|]. intros [Rv _]. by apply C in Rv as (s & [=] & _).
Qed.

Lemma judges_routes c : wf w -> answers world w ->
  judges id w c (forall id row, rm_nodes w !! (pr_ID p, id) = Some row ->
                   rn_Required (vr_Body row) = true \/ wd_required world p id = true ->
                   reviewed world p w (node_ref (vr_Body row)))
    (routes_condition world scope p c).
Proof.
  intros W Db. unfold routes_condition.
  destruct (route_blockers_run (wd_node_order world (project_records rm_nodes (pr_ID p) w).*2) W Db) as (blockers & E & I).
  { intros node. rewrite (node_order_perm (world := world)), list_elem_of_fmap. intros ([key body] & -> & Hin).
    apply project_records_spec in Hin as (row & Fr & <-). by exists key, row. }
  assert (RouteStabilizationBlockers world p w = (w, Ok blockers)) as Er.
  { unfold RouteStabilizationBlockers, routeNodesOf, listVersionedRecords, rm_query, rm_statement, mbind, M_bind. by rewrite Db. }
  destruct (judges_blockers ErrInvalidState blockers c) as (r & F & J). exists r. split; [by rewrite (bind_run _ _ _ _ _ Er)|].
  assert (judges id w c (blockers = []) (fun w => (w, r))) as J' by (by exists r).
  eapply judges_iff in J' as (r' & [= <-] & J'); [exact J'|]. rewrite I, Forall_forall. split.
  - intros A id row Fr Rq. destruct (wf_node w W _ _ _ Fr) as (_ & Ei & _). rewrite <- Ei in Rq. apply A in Rq; [done|].
    rewrite (node_order_perm (world := world)). apply list_elem_of_fmap. exists (id, vr_Body row). split; [done|].
    apply project_records_spec. by exists row.
  - intros A node. rewrite (node_order_perm (world := world)), list_elem_of_fmap. intros ([key body] & -> & Hin) Rq.
    apply project_records_spec in Hin as (row & Fr & <-). destruct (wf_node w W _ _ _ Fr) as (_ & Ei & _).
    apply (A key row Fr). cbn in Rq. by rewrite <- Ei.
Qed.

Lemma judges_template c :
  judges id w c (exists copy, pr_TemplateCopy p = Some copy /\ tc_Status copy = "bound") (template_condition scope p c).
Proof.
  apply judges_check; [|by eexists]. unfold template_bound. destruct (pr_TemplateCopy p) as [copy|].
  - rewrite String.eqb_eq. split; [intros B; by exists copy|by intros (? & [= <-] & B)].
  - split; [done|by intros (? & [=] & _)].
Qed.

Lemma judges_rules c :
  judges id w c (exists check, ck_impactRules checks = Some check /\ (check p (rm_tables w)).2 = Ok [])
    (rules_condition checks scope p c).
Proof.
  unfold rules_condition. destruct (ck_impactRules checks) as [check|] eqn:R.
  - pose proof (rules_read check p R) as Rd. pose proof (tables_run (check p) w Rd) as E.
    apply judges_read; [by apply reads_on_tables| |].
    + intros blockers Eb. rewrite E in Eb. injection Eb as Eb. eapply judges_iff; [apply judges_blockers|]. split.
      * intros ->. by exists check.
      * intros (? & [= <-] & Q). rewrite Q in Eb. by injection Eb.
    + intros e Eb (? & [= <-] & Q). rewrite E, Q in Eb. discriminate Eb.
  - apply judges_record; [done|by eexists|]. by intros (? & [=] & _).
Qed.

(** The tasks of the scope. *)
Lemma judges_tasks : answers world w -> exists tasks, ImpactTasks world (pr_ID p) w = (w, Ok tasks)
  /\ judges id w (empty_conditions p)
       (forall key row, rm_tasks w !! (pr_ID p, key) = Some row -> concerns p (sk_ChangeID scope) (vr_Body row) ->
          settled world checks p w (sk_ClosureSourcesOfResultTasks scope) (vr_Body row))
       (loop (task_condition world checks scope p) tasks (empty_conditions p)).
Proof.
  intros Db. eexists. split.
  { unfold ImpactTasks, listVersionedRecords, rm_query, rm_statement. by rewrite Db. }
  eapply judges_iff.
  { apply (judges_loop id w (fun task => concerns p (sk_ChangeID scope) task ->
             settled world checks p w (sk_ClosureSourcesOfResultTasks scope) task) _ _ (empty_conditions p)).
    intros; apply judges_task. }
  rewrite Forall_forall. split.
  - intros A key row Fr. apply A. rewrite (task_order_perm (world := world)). apply list_elem_of_fmap.
    exists (key, vr_Body row). split; [done|]. apply project_records_spec. by exists row.
  - intros A task. rewrite (task_order_perm (world := world)), list_elem_of_fmap. intros ([key body] & -> & Hin).
    apply project_records_spec in Hin as (row & Fr & <-). by apply (A key).
Qed.

(** The conditions after the objects are rechecked. *)
Lemma judges_rest c : wf w -> answers world w ->
  judges id w c
    ((forall id row, rm_nodes w !! (pr_ID p, id) = Some row -> rn_Required (vr_Body row) = true \/ wd_required world p id = true ->
        reviewed world p w (node_ref (vr_Body row)))
     /\ (exists copy, pr_TemplateCopy p = Some copy /\ tc_Status copy = "bound")
     /\ (exists check, ck_impactRules checks = Some check /\ (check p (rm_tables w)).2 = Ok []))
    (and_then (routes_condition world scope p c) (fun c =>
       and_then (template_condition scope p c) (rules_condition checks scope p))).
Proof.
  intros W Db. apply (judges_and_then id id); [by apply judges_routes|]. intros c2.
  apply (judges_and_then id id); [apply judges_template|intros c3; apply judges_rules].
Qed.

Lemma judges_evaluation : wf w -> answers world w -> sk_RecheckImpactedObjects scope = false ->
  judges id w (empty_conditions p) (releasable world checks p w (sk_ChangeID scope) (sk_ClosureSourcesOfResultTasks scope))
    (evaluation world checks scope p).
Proof.
  intros W Db Rc. destruct (judges_tasks Db) as (tasks & Et & Jt). unfold evaluation.
  apply judges_read; [auto with effects| |by intros e Ee; rewrite Et in Ee]. intros tasks' Et'. rewrite Et in Et'.
  injection Et' as <-. eapply judges_iff.
  - apply (judges_and_then id id); [exact Jt|]. intros c. apply (judges_and_then id id).
    { unfold recheck_objects. rewrite Rc. by apply judges_go. }
    intros c1. by apply judges_rest.
  - split; [intros (A & _ & B & C & D); by split|]. intros [A B C D]. by split_and!.
Qed.
End Judgement.
