(* ===== verification/StabilizationTheorems.v ===== *)
(** The properties of stabilization: stopping at the first failure changes no
    verdict, the release gate lets through exactly the revisions that owe
    nothing, and what it lets through leaves the owner only the objects to
    recheck. *)

From stdpp Require Import pretty.
From Stdlib Require Import Ascii String.
From S2P Require Import Prelude Effects OperationCore OperationStore Workspace Permission MemberStore Membership MembershipDemo OperationRunner RoadmapModel RoadmapStore RouteObjects Roadmap RoadmapLaws RoadmapHistory RouteLaws RoadmapDemo ImpactStore ImpactStoreLaws ImpactDemo Stabilization StabilizationLaws StabilizationSteps.

(** ** The history of a revision *)

Lemma can_stabilize status : ChangeSetStatusCanMove "stabilize" status = true <-> status = ChangeSetStatusApplied.
Proof.
  unfold ChangeSetStatusCanMove.
  assert (ChangeSetStatusMoves !! "stabilize"
          = Some {| mv_From := [ChangeSetStatusApplied]; mv_To := ChangeSetStatusStabilized |}) as -> by reflexivity.
  rewrite contains_spec. cbn. by rewrite list_elem_of_singleton.
Qed.

(** Every change set that made the revision is stabilized, and one did, past
    the first revision. *)
Definition revision_stabilized (revision : Z) (history : list (string * option Z * string)) : Prop :=
  (forall id status, (id, Some revision, status) ∈ history -> status ∈ ChangeSetClosedStatuses ->
     status = ChangeSetStatusStabilized)
  /\ (1 < revision -> exists id status, (id, Some revision, status) ∈ history /\ status ∈ ChangeSetClosedStatuses).

Lemma stabilized_history_iff revision history found :
  stabilized_history revision history found = None
  <-> (forall id status, (id, Some revision, status) ∈ history -> status ∈ ChangeSetClosedStatuses ->
         status = ChangeSetStatusStabilized)
      /\ (1 < revision -> found = true \/ exists id status, (id, Some revision, status) ∈ history /\ status ∈ ChangeSetClosedStatuses).
Proof.
  revert found. induction history as [|[[id target] status] history IH]; intros found; cbn [stabilized_history].
  - destruct found; cbn [negb andb]; [|destruct (1 <? revision) eqn:R; split_bools].
    + split; [|done]. intros _. split; [|by left]. by intros i s Hin%not_elem_of_nil.
    + split; [done|]. intros [_ A]. destruct (A R) as [|(i & s & Hin%not_elem_of_nil & _)]; done.
    + split; [|done]. intros _. split; [by intros i s Hin%not_elem_of_nil|lia].
  - destruct (bool_decide (target = Some revision) && contains _ _) eqn:C.
    + apply andb_true_iff in C as [->%bool_decide_eq_true C%contains_spec].
      destruct (ChangeSetStatusCanMove "stabilize" status) eqn:M.
      * apply can_stabilize in M as ->. split; [done|]. intros [A _]. by specialize (A id _ (list_elem_of_here _ _) C).
      * rewrite IH. split; intros [A B]; split.
        -- intros i s [[= -> ->]|Hin]%elem_of_cons Cs; [|by apply (A i)].
           destruct (decide (status = ChangeSetStatusApplied)) as [Ap|N]; [apply can_stabilize in Ap; congruence|].
           unfold ChangeSetClosedStatuses in C. by apply elem_of_cons in C as [| ->%list_elem_of_singleton].
        -- intros _. right. exists id, status. split; [by left|done].
        -- intros i s Hin. apply (A i). by right.
        -- by left.
    + rewrite IH. assert (forall i s, (i, Some revision, s) ∈ (id, target, status) :: history -> s ∈ ChangeSetClosedStatuses ->
        (i, Some revision, s) ∈ history) as Skip.
      { intros i s [[= -> <- ->]|Hin]%elem_of_cons Cs; [|done]. apply contains_spec in Cs.
        rewrite bool_decide_true in C by done. rewrite Cs in C. discriminate C. }
      split; intros [A B]; split; try (intros R; destruct (B R) as [|(i & s & Hin & Cs)]; [by left|right; exists i, s]).
      * intros i s Hin Cs. by apply (A i); [apply Skip|].
      * split; [by right|done].
      * intros i s Hin. apply (A i). by right.
      * split; [by apply Skip|done].
Qed.

(** ** The verdict of an evaluation *)

Section Verdict.
Context {X : Type} (world : World X) `{!WorldLaws world} (checks : Checks) `{!ChecksLaws checks}.

Lemma verdict w p scope : wf w -> answers world w -> sk_RecheckImpactedObjects scope = false ->
  (exists c, stabilization_conditions world checks scope p w = (w, Ok c) /\ GateError c = None)
  <-> releasable world checks p w (sk_ChangeID scope) (sk_ClosureSourcesOfResultTasks scope).
Proof.
  intros W Db Rc. destruct (judges_evaluation world checks scope p w W Db Rc) as (r & E & J).
  unfold stabilization_conditions. destruct r as [[a|d]|e]; cbn in J.
  - rewrite (bind_run _ _ _ _ _ E). destruct J as (l & F & G & I & _). rewrite <- I.
    assert (GateError a = first_error l) as Ga by (unfold GateError; by rewrite F). split.
    + intros (c & [= <-] & Gc). apply (first_error_gated l G). congruence.
    + intros ->. by exists a.
  - rewrite (bind_run _ _ _ _ _ E). destruct J as (N & l & F & G & Ne). split; [|done].
    assert (GateError d = first_error l) as Gd by (unfold GateError; by rewrite F).
    intros (c & [= <-] & Gc). destruct Ne. apply (first_error_gated l G). congruence.
  - rewrite (bind_err _ _ _ _ _ E). split; [by intros (c & [=] & _)|done].
Qed.

(** What is asked of every task is asked of the tasks of one change set. *)
Lemma releasable_of_change p w changeID : releasable world checks p w "" true -> releasable world checks p w changeID false.
Proof.
  intros [A B C D]. split; [|done..]. intros key row Fr [R _].
  destruct (A key row Fr) as (St & Op & Di); [by split; [|left]|]. split_and!; [done..|]. intros Dn.
  destruct (Di Dn) as [Ne Q]. split; [done|]. intros Nb. destruct (Q Nb) as [Q1 Q2]. split; [done|].
  intros [|Nr]; [done|]. by apply Q2; left.
Qed.

Lemma gate_check_passes p w : wf w -> answers world w ->
  (exists answer, gate_check world checks p w = (w, Ok answer))
  <-> ((exists basis, (ck_preflightBasis checks p (rm_tables w)).2 = Ok basis)
       /\ (exists history, (ChangeSets world checks (pr_ID p) w).2 = Ok history
            /\ revision_stabilized (pr_CurrentContextRevision p) (standing <$> history))
       /\ releasable world checks p w "" true).
Proof.
  intros W Db. rewrite <- (verdict w p gate_scope W Db eq_refl). unfold gate_check.
  pose proof (tables_run _ w (basis_reads p)) as Eb. pose proof (reads_run _ w (reads_changes world checks (pr_ID p))) as Eh.
  destruct ((ck_preflightBasis _ _ _).2) as [basis|e].
  2: { rewrite (bind_err _ _ _ _ _ Eb). split; [by intros (? & [=])|by intros ((? & [=]) & _)]. }
  rewrite (bind_run _ _ _ _ _ Eb). destruct ((ChangeSets _ _ _ _).2) as [history|e].
  2: { rewrite (bind_err _ _ _ _ _ Eh). split; [by intros (? & [=])|by intros (_ & (? & [=] & _) & _)]. }
  rewrite (bind_run _ _ _ _ _ Eh). pose proof (stabilized_history_iff (pr_CurrentContextRevision p) (standing <$> history) false) as Hi.
  assert (stabilized_history (pr_CurrentContextRevision p) (standing <$> history) false = None
          <-> revision_stabilized (pr_CurrentContextRevision p) (standing <$> history)) as Rs.
  { rewrite Hi. unfold revision_stabilized. split; intros [A B]; (split; [done|]); intros R; [|by right; apply B].
    by destruct (B R) as [|]. }
  split.
  - intros (answer & (w1 & [] & [Sh ->]%returned_run & F)%bind_ok). apply bind_ok in F as (w1 & c & F & G).
    apply bind_ok in G as (w2 & [] & [Gc ->]%returned_run & G). injection G as -> _.
    split_and!; [by exists basis|exists history; split; [done|by apply Rs]|by exists c].
  - intros (_ & (? & [= <-] & Sh%Rs) & (c & E & Gc)). rewrite Sh. eexists. etransitivity; [by apply (bind_run _ _ w w tt)|].
    cbv beta. rewrite (bind_run _ _ _ _ _ E), Gc. reflexivity.
Qed.
End Verdict.

(** ** The properties *)

(** The run of the evaluation that stops at the first condition the gate
    rejects on and the run that gathers every failure give the same verdict:
    the same first error for the gate; the same conditions, when there is
    none; and where gathering ends in an error of a read, stopping ends in the
    same error or has already rejected. Neither writes. *)
Theorem fail_fast_is_faithful {X} (world : World X) `{!WorldLaws world} (checks : Checks) `{!ChecksLaws checks} scope p w :
  exists all first,
    stabilization_conditions world checks (slow scope) p w = (w, all)
    /\ stabilization_conditions world checks (fast scope) p w = (w, first)
    /\ match all, first with
       | Ok c, Ok d => GateError d = GateError c /\ (GateError c = None -> d = c)
       | Ok _, Err _ => False
       | Err e, Err e' => e' = e
       | Err _, Ok d => GateError d <> None
       end.
Proof.
  destruct (mirrors_evaluation world checks scope p w) as (s & E & G & M).
  destruct (M eq_refl) as (f & F & Ag). unfold stabilization_conditions. destruct s as [[a|d]|e]; [|done|].
  - rewrite (bind_run _ _ _ _ _ E). cbn in Ag. change (id a) with a in Ag. destruct (GateError a) as [e|] eqn:Ga.
    + destruct Ag as (d & -> & Gd). rewrite (bind_run _ _ _ _ _ F). exists (Ok a), (Ok d). by rewrite Ga.
    + subst f. rewrite (bind_run _ _ _ _ _ F). by exists (Ok a), (Ok a).
  - rewrite (bind_err _ _ _ _ _ E). destruct Ag as [->|(d & -> & Gd)].
    + rewrite (bind_err _ _ _ _ _ F). by exists (Err e), (Err e).
    + rewrite (bind_run _ _ _ _ _ F). by exists (Err e), (Ok d).
Qed.


(** What the gate lets through leaves the owner's stabilization of any
    change set only the objects it rechecks: no stale task to report or to
    mark, and no other blocker. *)
Theorem gate_pass_satisfies_owner {X} (world : World X) `{!WorldLaws world} (checks : Checks) `{!ChecksLaws checks}
  changeID p w answer (W : wf w) (Db : answers world w) (Pass : gate_check world checks p w = (w, Ok answer)) :
  exists c blockers,
    stabilization_conditions world checks (owner_scope changeID) p w = (w, Ok c)
    /\ impactConfirmationBlockers world checks p changeID [] w = (w, Ok blockers)
    /\ OwnerBlockers c = base.filter (fun blocker => ib_Code blocker <> "") blockers
    /\ OwnerStaleTaskIDs c = [] /\ sc_StaleTransitions c = [] /\ GateError c = None.
Proof.
  assert (releasable world checks p w changeID false) as [A B C D].
  { apply releasable_of_change. eapply (gate_check_passes world checks); [done|done|by exists answer]. }
  destruct (judges_tasks world checks (owner_scope changeID) p w Db) as (tasks & Et & Jt).
  destruct (judges_holds id w _ _ _ Jt A) as (c1 & E1 & F1 & S1). change (id c1) with c1 in *.
  destruct (recheck_answers world checks p changeID [] w) as [blockers Eb].
  set (c2 := c1 <| sc_Failures := sc_Failures c1 ++ recheck_failures blockers |>).
  destruct (judges_holds id w c2 _ _ (judges_rest world checks (owner_scope changeID) p w c2 W Db)) as (c & E & F & S).
  { by split_and!. }
  change (id c) with c in *. destruct (recheck_renders c blockers) as (Ob & Os & Og).
  { rewrite F. unfold c2. by rewrite F1. }
  exists c, blockers. split_and!; [|done..|by rewrite S|done].
  assert (recheck_objects world checks (owner_scope changeID) p c1 w = (w, Ok (Go c2))) as E2.
  { unfold recheck_objects. cbn [owner_scope sk_RecheckImpactedObjects sk_ChangeID]. rewrite S1. by rewrite (bind_run _ _ _ _ _ Eb). }
  assert (evaluation world checks (owner_scope changeID) p w = (w, Ok (Go c))) as Ev.
  { unfold evaluation. rewrite (bind_run _ _ _ _ _ Et), (and_then_run _ _ _ _ _ E1), (and_then_run _ _ _ _ _ E2). exact E. }
  unfold stabilization_conditions. by rewrite (bind_run _ _ _ _ _ Ev).
Qed.

(** ** Witnesses *)

Module Release.
#[local] Existing Instances Studio.text Studio.world_laws Desk.checks_laws.
Import Desk.

Lemma done_wf : wf done.
Proof. destruct Studio.start_wf. by split. Qed.

Lemma passes : gate_check Studio.world checks project done = (done, Ok ("basis", [], [])).
Proof. vm_compute. reflexivity. Qed.

(** A task still open: the gate answers with its error. *)
Example open_refused :
  (gate_check Studio.world checks project (with_task "OPEN")).2
  = Err (invalid_state "current impact task t-1 remains OPEN").
Proof. vm_compute. reflexivity. Qed.
End Release.

Lemma fail_fast_is_faithful_witness :
  exists all first,
    stabilization_conditions Studio.world Desk.checks (slow gate_scope) Desk.project (Desk.with_task "OPEN")
    = (Desk.with_task "OPEN", all)
    /\ stabilization_conditions Studio.world Desk.checks (fast gate_scope) Desk.project (Desk.with_task "OPEN")
       = (Desk.with_task "OPEN", first)
    /\ match all, first with
       | Ok c, Ok d => GateError d = GateError c /\ (GateError c = None -> d = c)
       | Ok _, Err _ => False
       | Err e, Err e' => e' = e
       | Err _, Ok d => GateError d <> None
       end.
Proof.
  exact (fail_fast_is_faithful (WorldLaws0 := Studio.world_laws) Studio.world (ChecksLaws0 := Desk.checks_laws) Desk.checks
           gate_scope Desk.project (Desk.with_task "OPEN")).
Defined.


Lemma gate_pass_satisfies_owner_witness :
  exists c blockers,
    stabilization_conditions Studio.world Desk.checks (owner_scope "change-1") Desk.project Desk.done = (Desk.done, Ok c)
    /\ impactConfirmationBlockers Studio.world Desk.checks Desk.project "change-1" [] Desk.done = (Desk.done, Ok blockers)
    /\ OwnerBlockers c = base.filter (fun blocker => ib_Code blocker <> "") blockers
    /\ OwnerStaleTaskIDs c = [] /\ sc_StaleTransitions c = [] /\ GateError c = None.
Proof.
  exact (gate_pass_satisfies_owner (WorldLaws0 := Studio.world_laws) Studio.world (ChecksLaws0 := Desk.checks_laws) Desk.checks
           "change-1" Desk.project Desk.done _ Release.done_wf eq_refl Release.passes).
Defined.
