(* ===== verification/Impact.v ===== *)
(** Dependency edges and impact tasks: how they are proposed, decided, raised
    when a change set is applied, worked, re-raised and invalidated
    ([src/internal/lingdoc/workspacecore/{impact_service,impact_preflight}.go]).

    Each definition here is the business write of an operation, or a part of
    one; [ImpactService] puts the operations together. *)

From stdpp Require Import pretty sorting.
From Stdlib Require Import Ascii String SpecFloat.
From S2P Require Import Prelude Effects OperationCore OperationStore OperationTheorems Workspace Permission MemberStore Membership OperationRunner RoadmapModel RoadmapStore RouteObjects Templates Roadmap ImpactStore Assessment Stabilization.

(** What these use outside the roadmap: the writer of tasks the service was
    given, the confirmations of chapters, the hints a task carries, how templates
    are read, and what the sources of a change need besides its
    objects. *)
Record ImpactPorts {X : Type} := {
  ip_writer : option (Z -> ImpactTask -> RM unit);
  (* InvalidateChapterConfirmations *)
  ip_invalidate : string -> list string -> T unit;
  (* the chapter of a task, when there are values to look for: its location hints *)
  ip_hints : ChangeSet -> Project -> ObjectVersionRef -> T string;
  ip_reader : TemplateReader;
  (* validateCurrentCardClaimBatch; the sources of a proposed card and of the chapter a rule is bound to *)
  ip_card_batch : Project -> list SemanticDelta -> T unit;
  ip_delta_sources : Project -> SemanticDelta -> T (list string);
  (* s.impactPreflight.Recheck, s.GetProject *)
  ip_preflight : option (Context X -> Actor -> string -> string -> T ImpactPreflightEvidence);
  ip_project : Context X -> Actor -> string -> T Project
}.
Arguments ImpactPorts : clear implicits.

Definition ErrDependencyDecided : error := Sentinel "dependency edge already decided".

(** ** Dependency edges *)

(** [math.IsNaN(c) || c < 0 || c > 1] *)
Definition float_one : float64 := S754_finite false 4503599627370496 (-52).
Definition bad_confidence (c : float64) : bool :=
  match c with S754_nan => true | _ => false end || SFltb c float_zero || SFltb float_one c.

Definition dependency_origins : list string := ["user"; "rule"; "ai"].

Definition bad_dependency_input (input : DependencyEdgeInput) : bool :=
  negb (validObjectRef (di_Source input)) || negb (validObjectRef (di_Target input))
  || negb (validImpactAction (di_Action input)) || blank (di_Reason input) || (di_Relation input =? "")%string
  || bad_confidence (di_Confidence input) || negb (contains dependency_origins (di_Origin input)).

Definition bad_decision_input (input : DependencyDecisionInput) : bool :=
  (dd_ExpectedVersion input <? 1) || negb (contains ["confirm"; "reject"; "modify"] (dd_Decision input))
  || blank (dd_Reason input)
  || if (dd_Decision input =? "modify")%string
     then (is_nil (dd_Relation input) && is_nil (dd_Action input) && is_nil (dd_Confidence input))
          || match dd_Relation input with Some r => blank r || (128 <? len r) | None => false end
          || match dd_Action input with Some a => negb (validImpactAction a) | None => false end
          || match dd_Confidence input with Some c => bad_confidence c | None => false end
     else some (dd_Relation input) || some (dd_Action input) || some (dd_Confidence input).

Section Writes.
Context {X : Type} `{Digester roadmap_any}.
Variable world : World X.
Variable checks : Checks.
Variable ports : ImpactPorts X.
Abbreviation service := (wd_service world).

Definition same_ends (input : DependencyEdgeInput) (edge : DependencyEdge) : bool :=
  bool_decide (de_Source edge = di_Source input) && bool_decide (de_Target edge = di_Target input).

Definition same_proposal (input : DependencyEdgeInput) (edge : DependencyEdge) : bool :=
  same_ends input edge && (de_Relation edge =? di_Relation input)%string && (de_Action edge =? di_Action input)%string.

(** The tuple a person replaced when they modified the edge. *)
Definition replaced_by_person (input : DependencyEdgeInput) (edge : DependencyEdge) : bool :=
  same_ends input edge && (de_SupersededRelation edge =? di_Relation input)%string
  && (de_SupersededAction edge =? di_Action input)%string.

Definition create_dependency (actor : Actor) (pid : string) (input : DependencyEdgeInput) (p : Project)
  : RM (DependencyEdge * Z) :=
  _ ← refuse_if (negb (pr_CurrentContextRevision p =? di_ExpectedContextRevision input)) ErrVersionConflict;
  edges ← DependencyEdges world pid;
  match base.filter (fun edge => same_proposal input edge = true) edges with
  | edge :: _ => mret (edge, OperationStatusOK)
  | [] =>
      _ ← refuse_if ((di_Origin input =? "ai")%string && existsb (replaced_by_person input) edges) ErrDependencyDecided;
      here (fun w =>
        let status := if (di_Origin input =? "ai")%string then DependencySuggested else DependencyConfirmed in
        let edge :=
          {| de_ID := wd_uuid world w; de_ProjectID := pid; de_Source := di_Source input; de_Target := di_Target input;
             de_Relation := di_Relation input; de_Action := di_Action input; de_Origin := di_Origin input;
             de_Reason := di_Reason input; de_Status := status; de_SupersededRelation := ""; de_SupersededAction := "";
             de_Confidence := di_Confidence input; de_ActorID := ac_UserID actor; de_Version := 1;
             de_CreatedAt := wd_now world w; de_UpdatedAt := wd_now world w |} in
        _ ← PutDependencyEdge world edge;
        _ ← recordAuditEvent world actor pid "dependency.create" (de_ID edge)
              {[ "status" := status; "source" := refIdentity (de_Source edge); "target" := refIdentity (de_Target edge);
                 "action" := de_Action edge; "reason" := de_Reason edge ]};
        mret (edge, OperationStatusCreated))
  end.

(** The edge a decision makes of a suggestion. *)
Definition decided (actor : Actor) (input : DependencyDecisionInput) (now : Z) (old : DependencyEdge) : DependencyEdge :=
  let modify := (dd_Decision input =? "modify")%string in
  let chosen {A} (o : option A) (kept : A) := if modify then match o with Some a => a | None => kept end else kept in
  {| de_ID := de_ID old; de_ProjectID := de_ProjectID old; de_Source := de_Source old; de_Target := de_Target old;
     de_Relation := chosen (dd_Relation input) (de_Relation old); de_Action := chosen (dd_Action input) (de_Action old);
     de_Origin := de_Origin old; de_Reason := dd_Reason input;
     de_Status := if modify || (dd_Decision input =? "confirm")%string then DependencyConfirmed else "rejected";
     de_SupersededRelation := if modify then de_Relation old else de_SupersededRelation old;
     de_SupersededAction := if modify then de_Action old else de_SupersededAction old;
     de_Confidence := chosen (dd_Confidence input) (de_Confidence old); de_ActorID := ac_UserID actor;
     de_Version := de_Version old +i 1; de_CreatedAt := de_CreatedAt old; de_UpdatedAt := now |}.

Definition decide_dependency (actor : Actor) (pid id : string) (input : DependencyDecisionInput) : RM DependencyEdge :=
  old ← Store_DependencyEdge world pid id;
  _ ← refuse_if (negb (de_Version old =? dd_ExpectedVersion input)) ErrVersionConflict;
  _ ← refuse_if (negb (de_Status old =? DependencySuggested)%string) ErrInvalidState;
  here (fun w =>
    let next := decided actor input (wd_now world w) old in
    _ ← UpdateDependencyEdge world old next;
    _ ← recordAuditEvent world actor pid ("dependency." +:+ dd_Decision input) id
          {[ "version" := pretty (de_Version next); "action" := de_Action next; "reason" := de_Reason next ]};
    mret next).

(** ** Tasks *)

(** *** Staleness *)

Definition staleTargetReason (p : Project) (target : ObjectVersionRef) : RM string :=
  if negb (validObjectRef target) then mret ImpactTaskStaleTargetReplaced
  else
    found ← attempt (currentImpactObject world p target);
    mret match found with
         | Ok _ => ""
         | Err err => if moved_on err then ImpactTaskStaleTargetReplaced else ""
         end.

Definition impactTaskVersionNeutralActions : list string := ["complete"; "assign"; "wait"].

Definition as_user (actor : Actor) (user : string) : Actor :=
  {| ac_TenantID := ac_TenantID actor; ac_UserID := user; ac_TenantRole := ac_TenantRole actor;
     ac_SystemAdmin := ac_SystemAdmin actor; ac_Role := ac_Role actor |}.

Definition impactTaskStaleReason (ctx : Context X) (actor : Actor) (p : Project) (task : ImpactTask) (action : string) : RM string :=
  when negb (it_TargetRevision task =? pr_CurrentContextRevision p) return mret ImpactTaskStaleTargetReplaced;
  revoked ← (if negb (it_AssigneeID task =? "")%string && negb (it_AssigneeID task =? ac_UserID actor)%string
             then found ← attempt (on_tables (service_authorizeProject service ctx
                                     (project_request (as_user actor (it_AssigneeID task)) (pr_ID p) "write")));
                  mret match found with Ok _ => false | Err _ => true end
             else mret false);
  if (revoked : bool) then mret ImpactTaskStaleAssigneeRevoked
  else
    reason ← staleTargetReason p (it_Target task);
    mret (if negb (reason =? "")%string && negb (contains impactTaskVersionNeutralActions action) then reason else "").

Definition staled (reason : string) (now : Z) (task : ImpactTask) : ImpactTask :=
  task <| it_Status := "STALE" |> <| it_StaleReason := reason |> <| it_StaleAt := now |> <| it_UpdatedAt := now |>
       <| it_Version := it_Version task +i 1 |>.

Definition markImpactTaskStale (actor : Actor) (p : Project) (task : ImpactTask) (reason : string) : RM ImpactTask :=
  when (it_Status task =? "STALE")%string return mret task;
  here (fun w =>
    let stale := staled reason (wd_now world w) task in
    _ ← UpdateImpactTask world task stale;
    _ ← recordAuditEvent world actor (pr_ID p) "impact_task.stale" (it_ID task)
          {[ "status" := it_Status stale; "stale_reason" := reason; "target_revision" := pretty (it_TargetRevision stale);
             "target" := refIdentity (it_Target stale) ]};
    mret stale).

Definition reopened (target : ObjectVersionRef) (now : Z) (task : ImpactTask) : ImpactTask :=
  task <| it_Target := target |> <| it_Status := "OPEN" |> <| it_ClosureEvidence := [] |> <| it_HumanDecision := "" |>
       <| it_Disposition := "" |> <| it_Version := it_Version task +i 1 |> <| it_UpdatedAt := now |>.

Definition repostImpactTask (actor : Actor) (p : Project) (repost : stabilizationRepost) : RM ImpactTask :=
  let task := rp_task repost in
  here (fun w =>
    let next := reopened (rp_target repost) (wd_now world w) task in
    _ ← UpdateImpactTask world task next;
    _ ← recordAuditEvent world actor (pr_ID p) "impact_task.repost" (it_ID next)
          {[ "status" := it_Status next; "target" := refIdentity (it_Target next);
             "target_revision" := pretty (it_TargetRevision next); "replaced_target" := refIdentity (it_Target task) ]};
    mret next).

(** *** Raising the tasks of an applied change set *)

(** A definite impact that is more than recorded. *)
Definition obliges (impact : ResolvedImpact) : bool :=
  (ri_Certainty impact =? "definite")%string && negb (ri_Action impact =? ImpactActionNoAction)%string.

Fixpoint touched_chapters (p : Project) (impacts : list ResolvedImpact) : RM (list string) :=
  match impacts with
  | [] => mret []
  | impact :: impacts' =>
      let target := ri_Target impact in
      if obliges impact && (ref_Kind target =? "ChapterVersion")%string then
        version ← on_tables (ck_chapter_version checks (pr_ID p) (ref_ID target));
        chapters ← touched_chapters p impacts';
        mret (if bool_decide (version = Some (ref_Version target)) then ref_ID target :: chapters else chapters)
      else touched_chapters p impacts'
  end.

Definition impact_domain (action : string) : string :=
  if contains ["BLOCK_RELEASE"; "RECOMPUTE"] action then "C"
  else if contains ["REVALIDATE_EVIDENCE"; "RETRIEVE_CANDIDATES"] action then "A" else "B".

(** The target of a delta is named at the version it has now. *)
Fixpoint retarget (p : Project) (deltas : list SemanticDelta) (target : ObjectVersionRef) : RM ObjectVersionRef :=
  match deltas with
  | [] => mret target
  | delta :: deltas' =>
      if decide (target = semanticRef delta)
      then value ← currentSemanticValue world checks p delta; retarget p deltas' (cs_Ref value)
      else retarget p deltas' target
  end.

Definition raised (p : Project) (change : ChangeSet) (impact : ResolvedImpact) (target : ObjectVersionRef) (now : Z) : ImpactTask :=
  let task :=
    {| it_ID := ""; it_ProjectID := pr_ID p; it_ChangeSetID := ch_ID change; it_Target := target;
       it_TargetRevision := pr_CurrentContextRevision p; it_Action := ri_Action impact;
       it_Severity := DeriveImpactSeverity (ri_Action impact); it_ResponsibilityDomain := impact_domain (ri_Action impact);
       it_AssigneeID := ""; it_Status := "OPEN"; it_Causes := ri_Causes impact; it_Attachments := ""; it_Version := 1;
       it_Disposition := ""; it_HumanDecision := ""; it_ClosureEvidence := []; it_StaleReason := ""; it_StaleAt := 0;
       it_CreatedAt := now; it_UpdatedAt := now |} in
  task <| it_ID := impactTaskID world (pr_ID p) (ImpactTaskIdentity task) |>.

(** A target that has been replaced already. *)
Definition born (reason : string) (now : Z) (task : ImpactTask) : ImpactTask :=
  if (reason =? "")%string then task
  else task <| it_Status := "STALE" |> <| it_StaleReason := reason |> <| it_StaleAt := now |>.

Definition write_task (writer : option (Z -> ImpactTask -> RM unit)) (tenant : Z) (task : ImpactTask) : RM unit :=
  match writer with Some write => write tenant task | None => InsertImpactTask world task end.

Definition commit_impact (writer : option (Z -> ImpactTask -> RM unit)) (tenant : Z) (p : Project) (change : ChangeSet)
  (impact : ResolvedImpact) : RM unit :=
  when negb (obliges impact) return mret tt;
  target ← retarget p (ch_SemanticDeltas change) (ri_Target impact);
  here (fun w =>
    let now := wd_now world w in
    reason ← staleTargetReason p target;
    hints ← (if (ref_Kind target =? "ChapterVersion")%string then on_tables (ip_hints ports change p target) else mret "");
    let task := born reason now (raised p change impact target now) <| it_Attachments := hints |> in
    _ ← write_task writer tenant task;
    InsertImpactHandoff world task).

Definition commitChangeImpactTasks (writer : option (Z -> ImpactTask -> RM unit)) (tenant : Z) (p : Project) (change : ChangeSet)
  : RM unit :=
  assessment ← Store_ImpactAssessment world (pr_ID p) (ch_ID change);
  chapters ← touched_chapters p (ia_Impacts assessment);
  _ ← (if nonempty chapters then on_tables (ip_invalidate ports (pr_ID p) (sortedImpactSourceIDs chapters)) else mret tt);
  _ ← rm_each (ia_Impacts assessment) (commit_impact writer tenant p change);
  RecordContextRevision world p change.

(** *** Working a task *)

(** The evidence of a completion that is not a receipt: the task follows the
    evidence for its own target. *)
Fixpoint follow_evidence (p : Project) (input : ImpactTaskActionInput) (refs : list ObjectVersionRef) (task : ImpactTask)
  (matched : bool) : RM (ImpactTask * bool) :=
  match refs with
  | [] => mret (task, matched)
  | ref :: refs' =>
      state ← currentImpactObject world p ref;
      if (ref_Kind ref =? ref_Kind (it_Target task))%string && (ref_ID ref =? ref_ID (it_Target task))%string then
        task ← (if (it_Action task =? "REVIEW_REQUIRED")%string && (ref_Kind (it_Target task) =? "ResearchClaim")%string
                then reviewed ← asked (ck_researchClaimReviewCurrent checks p ref);
                     _ ← refuse_if (negb (ta_HumanDecision input =? "reviewed")%string || negb reviewed) ErrInvalidState;
                     mret (task <| it_HumanDecision := ta_HumanDecision input |>)
                else _ ← refuse_if (contains closure_actions (it_Action task) && negb (os_Confirmed state)) ErrInvalidState;
                     mret task);
        _ ← refuse_if ((it_Action task =? "REGENERATE")%string
                       && (ref_Version ref =? ref_Version (it_Target task))%string) ErrInvalidState;
        follow_evidence p input refs' (task <| it_Target := ref |>) true
      else follow_evidence p input refs' task matched
  end.

Definition closed_with (input : ImpactTaskActionInput) (task : ImpactTask) : ImpactTask :=
  task <| it_Status := "DONE" |> <| it_ClosureEvidence := ta_ClosureEvidence input |>.

Definition complete_task (p : Project) (input : ImpactTaskActionInput) (task : ImpactTask) : RM ImpactTask :=
  _ ← refuse_if ((it_Action task =? "BLOCK_RELEASE")%string || negb (nonempty (ta_ClosureEvidence input))) ErrInvalidState;
  if (it_Action task =? "RECOMPUTE")%string || (it_Action task =? "RETRIEVE_CANDIDATES")%string then
    _ ← on_tables (ck_verifyImpactActionResult checks p task (ta_ClosureEvidence input));
    mret (closed_with input task)
  else
    '(task, matched) ← follow_evidence p input (ta_ClosureEvidence input) task false;
    _ ← refuse_if (negb matched) ErrInvalidState;
    mret (closed_with input task).

(** The [switch] on the action. *)
Definition act (ctx : Context X) (actor : Actor) (pid : string) (p : Project) (input : ImpactTaskActionInput) (task : ImpactTask)
  : RM ImpactTask :=
  let action := ta_Action input in
  if (action =? "assign")%string then
    _ ← refuse_if (ta_AssigneeID input =? "")%string ErrInvalidRequest;
    _ ← on_tables (service_authorizeProject service ctx (project_request (as_user actor (ta_AssigneeID input)) pid "write"));
    mret (task <| it_AssigneeID := ta_AssigneeID input |>)
  else if (action =? "start")%string then mret (task <| it_Status := "IN_PROGRESS" |>)
  else if (action =? "wait")%string then mret (task <| it_Status := "WAITING_USER" |>)
  else if (action =? "dismiss")%string then
    _ ← refuse_if (impactSeverityBlocks (it_Severity task)) ErrInvalidState;
    mret (task <| it_Status := "DISMISSED" |>)
  else if (action =? "complete")%string then complete_task p input task
  else mret task.

Definition acted (input : ImpactTaskActionInput) (now : Z) (task : ImpactTask) : ImpactTask :=
  task <| it_Version := it_Version task +i 1 |> <| it_Disposition := ta_Reason input |> <| it_UpdatedAt := now |>.

(** The task can be worked: the action is done and stored. *)
Definition work_task (ctx : Context X) (actor : Actor) (pid id : string) (p : Project) (input : ImpactTaskActionInput)
  (task : ImpactTask) : RM ImpactTask :=
  _ ← refuse_if (negb (it_TargetRevision task =? pr_CurrentContextRevision p)
                 || negb (ta_TargetRevision input =? pr_CurrentContextRevision p)) ErrVersionConflict;
  _ ← refuse_if (contains ImpactTaskClosedStatuses (it_Status task) || (it_Status task =? "STALE")%string) ErrInvalidState;
  _ ← (if contains ["assign"; "dismiss"] (ta_Action input)
       then _ ← on_tables (service_authorizeProject service ctx (project_request actor pid "manage")); mret tt
       else refuse_if (negb (it_AssigneeID task =? ac_UserID actor)%string) ErrNotFound);
  next ← act ctx actor pid p input task;
  here (fun w =>
    let next := acted input (wd_now world w) next in
    _ ← UpdateImpactTask world task next;
    _ ← recordAuditEvent world actor pid ("impact_task." +:+ ta_Action input) id
          {[ "status" := it_Status next; "target_revision" := pretty (it_TargetRevision next) ]};
    mret next).

Definition act_on_task (ctx : Context X) (actor : Actor) (pid id : string) (input : ImpactTaskActionInput) (p : Project)
  : RM ImpactTask :=
  task ← Store_ImpactTask world pid id;
  _ ← refuse_if (negb (it_Version task =? ta_ExpectedVersion input)) ErrVersionConflict;
  reason ← (if (it_Status task =? "STALE")%string then mret ""
            else impactTaskStaleReason ctx actor p task (ta_Action input));
  if (reason =? "")%string then work_task ctx actor pid id p input task
  else markImpactTaskStale actor p task reason.

(** *** Acknowledging a preflight ([impact_preflight.go]) *)

Definition impactPreflightProofID (proof : ImpactPreflightEvidence) : string :=
  if (pf_ProofID proof =? "")%string then pf_SnapshotID proof else pf_ProofID proof.

Definition validImpactPreflight (p : Project) (id : string) (proof : ImpactPreflightEvidence) : bool :=
  (impactPreflightProofID proof =? id)%string && negb (pf_SnapshotDigest proof =? "")%string
  && (pf_Status proof =? "passed")%string && pf_IsCurrent proof && (pf_ProjectVersion proof =? pr_ProjectVersion p)
  && (pf_ContextRevision proof =? pr_CurrentContextRevision p)
  && (pf_TemplateCopyVersion proof =? pr_TemplateCopyVersion p)
  && match pr_TemplateCopy p with Some copy => (pf_RulesetHash proof =? tc_RulesetHash copy)%string | None => false end.

Definition proof_closure (id : string) (proof : ImpactPreflightEvidence) : ObjectVersionRef :=
  {| ref_Kind := if (pf_ProofKind proof =? "check_receipt")%string then "DeliveryPreflight" else "ReleaseSnapshot";
     ref_ID := id; ref_Version := pf_SnapshotDigest proof |}.

Definition acknowledged (closure : ObjectVersionRef) (now : Z) (task : ImpactTask) : ImpactTask :=
  task <| it_Status := "DONE" |> <| it_Version := it_Version task +i 1 |> <| it_ClosureEvidence := [closure] |>
       <| it_Disposition := "当前领域Preflight通过" |> <| it_UpdatedAt := now |>.

(** The tasks a proof closes: those that block the release of the change set,
    whatever their status, unless they are closed by this very proof. *)
Definition awaits_proof (p : Project) (changeID : string) (closure : ObjectVersionRef) (task : ImpactTask) : bool :=
  (it_ChangeSetID task =? changeID)%string && (it_TargetRevision task =? pr_CurrentContextRevision p)
  && (it_Action task =? "BLOCK_RELEASE")%string
  && negb ((it_Status task =? "DONE")%string && bool_decide (it_ClosureEvidence task = [closure])).

Definition acknowledge_write (actor : Actor) (pid changeID id : string) (proof : ImpactPreflightEvidence) (p : Project)
  : RM ImpactPreflightAcknowledgement :=
  _ ← refuse_if (negb (validImpactPreflight p id proof)) ErrVersionConflict;
  change ← Store_ChangeSet world checks pid changeID;
  _ ← refuse_if (negb (bool_decide (ch_TargetContextRevision change = Some (pr_CurrentContextRevision p)))) ErrVersionConflict;
  tasks ← ImpactTasks world pid;
  let closure := proof_closure id proof in
  let open := base.filter (fun task => awaits_proof p changeID closure task = true) tasks in
  _ ← rm_each open (fun task => here (fun w => UpdateImpactTask world task (acknowledged closure (wd_now world w) task)));
  _ ← recordAuditEvent world actor pid "impact_task.preflight" changeID
        {[ "proof_id" := id; "snapshot_digest" := pf_SnapshotDigest proof ]};
  mret {| pa_ClosedTaskIDs := it_ID <$> open; pa_ProofID := id; pa_ContextRevision := pr_CurrentContextRevision p |}.

(** ** Assessing a change set *)

Definition assess_write (actor : Actor) (pid changeID : string) (p : Project) : RM ChangeSet :=
  change ← Store_ChangeSet world checks pid changeID;
  _ ← refuse_if (negb (ChangeSetStatusCanMove "assess" (ch_Status change))) ErrInvalidState;
  _ ← refuse_if (negb (ch_BaseContextRevision change =? pr_CurrentContextRevision p)
                 || negb (ch_BaseSpecRevision change =? pr_SpecRevision p)) ErrVersionConflict;
  _ ← returned (validateChangeTemplateFields (ip_reader ports) p (ch_Fields change));
  _ ← AssessChangeImpact world checks p change;
  let next := change <| ch_Status := ChangeSetStatusAssessed |> in
  _ ← UpdateChangeSet world change next;
  _ ← recordAuditEvent world actor pid "change_set.assess" changeID ∅;
  mret next.
End Writes.
