(* ===== verification/ImpactService.v ===== *)
(** The operations on impacts: their checks, the sources they re-authorize, the
    write of each under the pipeline, the stabilization of a revision by its
    owner, and the reads
    ([src/internal/lingdoc/workspacecore/{impact_service,impact_source_operation,impact_preflight,impact_visibility,stabilization_audit,release_gate}.go]). *)

From stdpp Require Import pretty sorting.
From Stdlib Require Import Ascii String.
From S2P Require Import Prelude Effects OperationCore OperationStore OperationTheorems Workspace Permission MemberStore Membership OperationRunner RoadmapModel RoadmapStore RouteObjects Roadmap ImpactStore Lineage Assessment Stabilization Impact.

(** ** The audit of a stabilization ([stabilization_audit.go]) *)

Record stabilizationAuditRecord := {
  sa_UserID : string;
  sa_TenantID : Z;
  sa_Role : string;
  sa_Method : string;
  sa_Capability : string;
  sa_ProjectOwner : bool;
  sa_HumanDecisionGate : string;
  sa_ChannelClass : string;
  sa_PrincipalType : string;
  sa_PrincipalID : string;
  sa_OccurredAt : Z;
  sa_ProjectID : string;
  sa_ChangeSetID : string;
  sa_ContextRevision : Z;
  sa_ClosureEvidence : list ObjectVersionRef;
  sa_PreflightProofs : list string;
  sa_RepostedTaskIDs : list string;
  sa_Verdict : string;
  sa_VerdictSource : string;
  sa_Blockers : list ImpactBlocker;
  sa_AuditCorrelationID : string
}.

Definition stabilizationUnprovable := "unprovable".

(** The class of the credential, its type and its id. *)
Definition stabilizationChannel {X} (ctx : Context X) : string * string * string :=
  match ctx_Principal ctx with
  | Some principal =>
      if Principal_Valid principal then
        let kind := p_Type principal in
        let class :=
          if (kind =? PrincipalWebUser)%string then "user_session"
          else if (kind =? PrincipalIMUser)%string then "im"
          else if contains [PrincipalAPITenant; PrincipalAPIPlatform; PrincipalAPIExternalUser] kind then "api_key"
          else if contains [PrincipalEmbedChannel; PrincipalEmbedSession; PrincipalEmbedVisitor] kind then "embed"
          else "unknown_principal" in
        (class, kind, p_ID principal)
      else ("unbound_context", stabilizationUnprovable, "")
  | None => ("unbound_context", stabilizationUnprovable, "")
  end.

Definition present (s : string) : bool := negb (s =? "")%string.

Definition stabilizationAuditComplete (r : stabilizationAuditRecord) : bool :=
  present (sa_UserID r) && present (sa_Method r) && present (sa_Capability r) && present (sa_HumanDecisionGate r)
  && present (sa_ChannelClass r) && present (sa_PrincipalType r) && negb (sa_OccurredAt r =? 0) && present (sa_ProjectID r)
  && present (sa_ChangeSetID r) && present (sa_Verdict r) && present (sa_VerdictSource r) && present (sa_AuditCorrelationID r).

Section Service.
Context {X : Type} `{Digester roadmap_any}.
Variable world : World X.
Variable checks : Checks.
Variable ports : ImpactPorts X.
Abbreviation service := (wd_service world).
Abbreviation db := (sv_db (wd_service world)).

(** ** The sources an operation stands on ([impact_source_operation.go]) *)

Definition ProjectForImpact (pid : string) : RM Project :=
  on_tables (row ← map_error storageError (take db "select lingdoc_projects" (fun w => tb_projects w !! pid));
             projectView db pid row).

(** What a resolver hands back: references and identifiers. *)
Abbreviation contribution := (list ObjectVersionRef * list string)%type.

Fixpoint delta_source_ids (p : Project) (deltas : list SemanticDelta) : RM (list string) :=
  match deltas with
  | [] => mret []
  | delta :: deltas' =>
      current ← currentSemanticValue world checks p delta;
      proposed ← on_tables (ip_delta_sources ports p delta);
      inputs ← match sd_ProposedRoute delta with
               | Some node => rm_collect (current_sources world p) (rn_Inputs node)
               | None => mret []
               end;
      rest ← delta_source_ids p deltas';
      mret (sd_SourceIDs delta ++ cs_SourceIDs current ++ proposed ++ inputs ++ rest)
  end.

Definition semanticSourceIDs (p : Project) (deltas : list SemanticDelta) : RM (list string) :=
  _ ← on_tables (ip_card_batch ports p deltas);
  ids ← delta_source_ids p deltas;
  mret (sortedImpactSourceIDs ids).

Definition assessedSourceIDs (p : Project) (change : ChangeSet) : RM (list string) :=
  assessment ← buildImpactAssessment world checks p change;
  mret (mjoin (os_SourceIDs <$> ia_Objects assessment)).

(** [resolveStoredChangeSet(false, false)] *)
Definition resolve_assessed (id : string) (p : Project) : RM contribution :=
  change ← Store_ChangeSet world checks (pr_ID p) id;
  ids ← semanticSourceIDs p (ch_SemanticDeltas change);
  assessed ← assessedSourceIDs p change;
  mret ([], ids ++ assessed).

Definition resolveStabilizationTasks (id : string) (p : Project) : RM contribution :=
  tasks ← ImpactTasks world (pr_ID p);
  mret (mjoin ((fun task =>
    if (it_ChangeSetID task =? id)%string && (it_TargetRevision task =? pr_CurrentContextRevision p)
    then (if (it_Action task =? "BLOCK_RELEASE")%string then [] else [it_Target task]) ++ it_ClosureEvidence task
    else []) <$> tasks), []).

Definition resolveImpactTaskAction (input : ImpactTaskActionInput) (id : string) (p : Project) : RM contribution :=
  task ← Store_ImpactTask world (pr_ID p) id;
  mret (it_Target task :: ta_ClosureEvidence input, []).

Definition resolveNewDependencyEdge (input : DependencyEdgeInput) (_ : string) (_ : Project) : RM contribution :=
  mret ([di_Source input; di_Target input], []).

Definition resolveDependencyEdgeDecision (id : string) (p : Project) : RM contribution :=
  edge ← Store_DependencyEdge world (pr_ID p) id;
  mret ([de_Source edge; de_Target edge], []).

Definition resolveAcknowledgedPreflight (proofID : string) (_ : string) (_ : Project) : RM contribution :=
  _ ← refuse_if (proofID =? "")%string ErrInvalidRequest;
  mret ([{| ref_Kind := "DeliveryPreflight"; ref_ID := proofID; ref_Version := "" |}], []).

Definition OperationSourceIDs (resolver : string -> Project -> RM contribution) (target pid : string) : RM (list string) :=
  p ← ProjectForImpact pid;
  if negb (pr_Status p =? "active")%string then mret []
  else
    '(refs, ids) ← resolver (last_segment target target) p;
    resolved ← impactSourceIDsForRefs world checks p refs;
    mret (sortedImpactSourceIDs (ids ++ resolved)).

(** ** Checked writes ([impact_service.go]) *)

Definition impactTaskSourceUnavailable (cause : error) : error :=
  Wrapped ("impact_task_source_unavailable: " +:+ Error cause) cause.

Definition run_impact (ctx : Context X) (actor : Actor) (name target key : string) (body : roadmap_any)
  (request : AuthorizationRequest) (resolver : string -> Project -> RM contribution)
  (write : Project -> RM (roadmap_any * Z)) : RM (string * Z * bool) :=
  run_operation world ctx actor name target key body request
    (Some (fun _ _ => OperationSourceIDs resolver target (rq_ProjectID request)))
    (fun p => '(value, status) ← write p; mret (value, "", status)).

Definition impact_sources (ctx : Context X) (name : string) (actor : Actor) (pid : string) (ids : list string) : RM unit :=
  map_error (fun err => if (name =? "actOnImpactTask")%string then impactTaskSourceUnavailable err else err)
    (on_tables (checkSources service actor pid ids)).

(** The objects are as they were read before the sources were checked. *)
Fixpoint unchanged (p : Project) (basis : list (ObjectVersionRef * ImpactObjectState)) : RM unit :=
  match basis with
  | [] => mret tt
  | (ref, state) :: basis' =>
      current ← currentImpactObject world p ref;
      _ ← refuse_if (negb (hashImpactValue (AnyState current) =? hashImpactValue (AnyState state))%string) ErrVersionConflict;
      unchanged p basis'
  end.

Definition read_basis (ctx : Context X) (request : AuthorizationRequest) (refs : list ObjectVersionRef)
  : RM (Project * list (ObjectVersionRef * ImpactObjectState)) :=
  transaction world (zero_project, []) read_only
    (p ← on_tables (service_authorizeProject service ctx request);
     states ← rm_traverse (fun ref => state ← currentImpactObject world p ref; mret (ref, state)) refs;
     mret (p, states)).

Definition checkedImpactWrite (ctx : Context X) (actor : Actor) (name target key : string) (body : roadmap_any)
  (refs : list ObjectVersionRef) (request : AuthorizationRequest) (resolver : string -> Project -> RM contribution)
  (write : Project -> RM (roadmap_any * Z)) : RM (string * Z * bool) :=
  '(basis, states) ← read_basis ctx request refs;
  _ ← impact_sources ctx name actor (rq_ProjectID request) (mjoin ((fun entry => os_SourceIDs entry.2) <$> states));
  run_impact ctx actor name target key body request resolver (fun p =>
    _ ← refuse_if (negb (pr_ProjectVersion p =? pr_ProjectVersion basis)) ErrVersionConflict;
    _ ← unchanged p states;
    write p).

(** ** The operations *)

Definition CreateDependencyEdge (ctx : Context X) (actor : Actor) (pid key : string) (input : DependencyEdgeInput)
  : RM (string * Z * bool) :=
  _ ← (if negb (di_Origin input =? "ai")%string then RequireHuman ctx else mret tt);
  _ ← refuse_if (bad_dependency_input input) ErrInvalidRequest;
  checkedImpactWrite ctx actor "createDependencyEdge" pid key (AnyEdgeInput input) [di_Source input; di_Target input]
    (project_request actor pid "write") (resolveNewDependencyEdge input)
    (fun p => '(edge, status) ← create_dependency world actor pid input p; mret (AnyDependency edge, status)).

Definition zero_dependency : DependencyEdge :=
  {| de_ID := ""; de_ProjectID := ""; de_Source := {| ref_Kind := ""; ref_ID := ""; ref_Version := "" |};
     de_Target := {| ref_Kind := ""; ref_ID := ""; ref_Version := "" |}; de_Relation := ""; de_Action := ""; de_Origin := "";
     de_Reason := ""; de_Status := ""; de_SupersededRelation := ""; de_SupersededAction := ""; de_Confidence := float_zero;
     de_ActorID := ""; de_Version := 0; de_CreatedAt := 0; de_UpdatedAt := 0 |}.

Definition DecideDependencyEdge (ctx : Context X) (actor : Actor) (pid id key : string) (input : DependencyDecisionInput)
  : RM (string * Z * bool) :=
  _ ← RequireHuman ctx;
  _ ← refuse_if (bad_decision_input input) ErrInvalidRequest;
  edge ← transaction world zero_dependency read_only
           (_ ← on_tables (service_authorizeProject service ctx (project_request actor pid "write"));
            Store_DependencyEdge world pid id);
  checkedImpactWrite ctx actor "decideDependencyEdge" (pid +:+ "/" +:+ id) key (AnyDecision input)
    [de_Source edge; de_Target edge] (project_request actor pid "write") resolveDependencyEdgeDecision
    (fun _ => edge ← decide_dependency world actor pid id input; mret (AnyDependency edge, OperationStatusOK)).

Definition task_actions : list string := ["assign"; "start"; "wait"; "complete"; "dismiss"].

Definition bad_task_action (input : ImpactTaskActionInput) : bool :=
  (ta_ExpectedVersion input <? 1) || (ta_TargetRevision input <? 1) || blank (ta_Reason input)
  || negb (contains task_actions (ta_Action input)).

Definition ActOnImpactTask (ctx : Context X) (actor : Actor) (pid id key : string) (input : ImpactTaskActionInput)
  : RM (string * Z * bool) :=
  _ ← RequireHuman ctx;
  _ ← refuse_if (bad_task_action input) ErrInvalidRequest;
  checkedImpactWrite ctx actor "actOnImpactTask" (pid +:+ "/" +:+ id) key (AnyTaskAction input) (ta_ClosureEvidence input)
    (project_request actor pid "write") (resolveImpactTaskAction input)
    (fun p => task ← act_on_task world checks ctx actor pid id input p; mret (AnyTask task, OperationStatusOK)).

Definition recheckImpactPreflight (ctx : Context X) (actor : Actor) (pid id : string) : RM ImpactPreflightEvidence :=
  match ip_preflight ports with
  | None => fail ErrInvalidState
  | Some recheck =>
      p ← on_tables (ip_project ports ctx actor pid);
      proof ← on_tables (recheck ctx actor pid id);
      _ ← refuse_if (negb (validImpactPreflight p id proof)) ErrVersionConflict;
      _ ← on_tables (checkSources service actor pid (pf_SourceIDs proof));
      mret proof
  end.

Definition AcknowledgeImpactPreflight (ctx : Context X) (actor : Actor) (pid changeID id key : string) : RM (string * Z * bool) :=
  _ ← RequireHuman ctx;
  _ ← refuse_if ((id =? "")%string || (changeID =? "")%string) ErrInvalidRequest;
  _ ← on_tables (Service_Authorize service ctx actor pid "manage");
  proof ← recheckImpactPreflight ctx actor pid id;
  run_impact ctx actor "acknowledgeImpactPreflight" (pid +:+ "/" +:+ changeID) key
    (AnyStrings [("change_set_id", changeID); ("proof_id", id)]) (project_request actor pid "manage")
    (resolveAcknowledgedPreflight id)
    (fun p => result ← acknowledge_write world checks actor pid changeID id proof p;
              mret (AnyAcknowledgement result, OperationStatusOK)).

Definition AssessChangeSet (ctx : Context X) (actor : Actor) (pid changeID key : string) : RM (string * Z * bool) :=
  let target := pid +:+ "/" +:+ changeID in
  run_operation world ctx actor "assessChangeSet" target key (AnyStrings [("change_set_id", changeID)])
    (project_request actor pid "write")
    (Some (fun _ _ => _ ← inverseOperationAccess world checks actor pid target; OperationSourceIDs resolve_assessed target pid))
    (fun p => change ← assess_write world checks ports actor pid changeID p; mret (AnyChange change, "", OperationStatusOK)).

(** ** Stabilizing a revision *)

(** The sources of a closure are those of the version that is live now. *)
Definition closure_sources (p : Project) (ref : ObjectVersionRef) : RM (list string) :=
  found ← attempt (currentImpactObject world p ref);
  match found with
  | Ok state => mret (os_SourceIDs state)
  | Err err =>
      if errors_Is err ErrVersionConflict
      then state ← readImpactObjectState world p ref; mret (os_SourceIDs state)
      else fail err
  end.

(** The proofs, the evidence and the sources of the closed tasks. *)
Definition closed_tasks (p : Project) (changeID : string) (tasks : list ImpactTask) : list ImpactTask :=
  base.filter (fun task => it_ChangeSetID task = changeID /\ it_TargetRevision task = pr_CurrentContextRevision p
                           /\ it_Status task = "DONE") tasks.

Definition is_block (task : ImpactTask) : bool := (it_Action task =? "BLOCK_RELEASE")%string.

Definition closure_read (p : Project) (changeID : string) : RM (list string * list ObjectVersionRef * list string) :=
  tasks ← ImpactTasks world (pr_ID p);
  let closed := closed_tasks p changeID tasks in
  let proofs := mjoin ((fun task => if is_block task then ref_ID <$> it_ClosureEvidence task else []) <$> closed) in
  let evidence := mjoin (it_ClosureEvidence <$> closed) in
  sources ← rm_collect (fun task => if is_block task then mret [] else rm_collect (closure_sources p) (it_ClosureEvidence task)) closed;
  mret (proofs, evidence, sources).

Definition audit_record (ctx : Context X) (actor : Actor) (pid changeID : string) (p : Project) (result : StabilizationResult)
  (evidence : list ObjectVersionRef) (proofs reposted : list string) (now : Z) (uuid : string) : stabilizationAuditRecord :=
  let '(class, kind, id) := stabilizationChannel ctx in
  {| sa_UserID := ac_UserID actor; sa_TenantID := ac_TenantID actor; sa_Role := ac_Role actor;
     sa_Method := "project_membership_capability_and_owner_check"; sa_Capability := "manage"; sa_ProjectOwner := true;
     sa_HumanDecisionGate := "passed_not_a_machine_principal"; sa_ChannelClass := class; sa_PrincipalType := kind;
     sa_PrincipalID := id; sa_OccurredAt := now; sa_ProjectID := pid; sa_ChangeSetID := changeID;
     sa_ContextRevision := pr_CurrentContextRevision p; sa_ClosureEvidence := evidence; sa_PreflightProofs := proofs;
     sa_RepostedTaskIDs := reposted; sa_Verdict := sr_Status result; sa_VerdictSource := "machine_evaluation";
     sa_Blockers := sr_Blockers result; sa_AuditCorrelationID := uuid |}.

(** Of the details, the credential and the ids of the tasks raised again. *)
Definition writeStabilizationAudit (actor : Actor) (r : stabilizationAuditRecord) : RM unit :=
  on_tables (RecordAudit db
    {| ae_ID := sa_AuditCorrelationID r; ae_ProjectID := sa_ProjectID r; ae_ActorID := ac_UserID actor;
       ae_Action := "revision.stabilize"; ae_Target := sa_ChangeSetID r;
       ae_Details := {[ "status" := sa_Verdict r; "channel" := sa_ChannelClass r;
                        "reposted_task_ids" := String.concat "," (sa_RepostedTaskIDs r) ]};
       ae_CreatedAt := sa_OccurredAt r; ae_TenantID := ac_TenantID actor; ae_UserID := ac_UserID actor;
       ae_Role := ac_Role actor; ae_Capability := sa_Capability r; ae_Decision := sa_Verdict r; ae_Reason := "" |}).

Definition stabilized_result (changeID : string) (p : Project) (conditions : stabilizationConditions) (now : Z) : StabilizationResult :=
  {| sr_ChangeSetID := changeID; sr_ContextRevision := pr_CurrentContextRevision p;
     sr_Status := if nonempty (OwnerBlockers conditions) then "BLOCKED" else "STABILIZED";
     sr_Blockers := OwnerBlockers conditions; sr_StaleTaskIDs := OwnerStaleTaskIDs conditions; sr_CheckedAt := now |}.

(** What the owner's entry writes for the conditions it was handed. *)
Definition settle (actor : Actor) (p : Project) (change : ChangeSet) (conditions : stabilizationConditions) : RM (list string) :=
  _ ← rm_each (sc_StaleTransitions conditions) (fun task =>
        _ ← markImpactTaskStale world actor p task ImpactTaskStaleTargetReplaced; mret tt);
  reposted ← rm_traverse (repostImpactTask world actor p) (sc_Reposts conditions);
  _ ← (if negb (nonempty (OwnerBlockers conditions)) && ChangeSetStatusNeeds "stabilize" (ch_Status change)
       then UpdateChangeSet world change (change <| ch_Status := ChangeSetStatusStabilized |>) else mret tt);
  mret (it_ID <$> reposted).

Definition stabilize_write (ctx : Context X) (actor : Actor) (pid changeID : string) (proofs : list ImpactPreflightEvidence)
  (proofIDs : list string) (evidence : list ObjectVersionRef) (p : Project) : RM StabilizationResult :=
  _ ← refuse_if (negb (forallb (fun proof => validImpactPreflight p (impactPreflightProofID proof) proof) proofs)) ErrVersionConflict;
  _ ← refuse_if (negb (projectOwner p (ac_UserID actor))) ErrNotFound;
  change ← Store_ChangeSet world checks pid changeID;
  _ ← refuse_if (negb (bool_decide (ch_TargetContextRevision change = Some (pr_CurrentContextRevision p)))
                 || negb (contains ChangeSetClosedStatuses (ch_Status change))) ErrVersionConflict;
  here (fun w =>
    let now := wd_now world w in
    conditions ← stabilization_conditions world checks (owner_scope changeID) p;
    let result := stabilized_result changeID p conditions now in
    reposted ← settle actor p change conditions;
    let record := audit_record ctx actor pid changeID p result evidence proofIDs reposted now (wd_uuid world w) in
    _ ← refuse_if (negb (stabilizationAuditComplete record)) ErrInvalidState;
    _ ← writeStabilizationAudit actor record;
    mret result).

Definition StabilizeRevision (ctx : Context X) (actor : Actor) (pid changeID key : string) : RM (string * Z * bool) :=
  _ ← RequireHuman ctx;
  '(proofIDs, evidence, sources) ← transaction world ([], [], []) read_only
    (p ← on_tables (service_authorizeProject service ctx (project_request actor pid "manage")); closure_read p changeID);
  _ ← on_tables (checkSources service actor pid sources);
  proofs ← rm_traverse (recheckImpactPreflight ctx actor pid) proofIDs;
  checkedImpactWrite ctx actor "stabilizeRevision" (pid +:+ "/" +:+ changeID) key (AnyStrings [("change_set_id", changeID)]) []
    (project_request actor pid "manage") resolveStabilizationTasks
    (fun p => result ← stabilize_write ctx actor pid changeID proofs proofIDs evidence p;
              mret (AnyStabilization result, OperationStatusOK)).

(** ** Reads *)

Definition readable {A} (m : RM A) : RM bool :=
  found ← attempt m;
  mret match found with Ok _ => true | Err _ => false end.

(** The elements a check lets through, one by one. *)
Fixpoint visible {A} (check : A -> RM bool) (l : list A) : RM (list A) :=
  match l with
  | [] => mret []
  | a :: l' => ok ← check a; rest ← visible check l'; mret (if (ok : bool) then a :: rest else rest)
  end.

Definition edge_readable (actor : Actor) (pid : string) (p : Project) (edge : DependencyEdge) : RM bool :=
  readable (sources ← transaction world [] read_only (rm_collect (current_sources world p) [de_Source edge; de_Target edge]);
            on_tables (checkSources service actor pid sources)).

Definition ListDependencyEdges (ctx : Context X) (actor : Actor) (pid : string) : RM (list DependencyEdge) :=
  '(p, edges) ← transaction world (zero_project, []) read_only
    (p ← on_tables (service_authorizeProject service ctx (project_request actor pid "read"));
     edges ← DependencyEdges world pid; mret (p, edges));
  visible (edge_readable actor pid p) edges.

Definition task_readable (ctx : Context X) (actor : Actor) (pid : string) (task : ImpactTask) : RM bool :=
  readable (sources ← transaction world [] read_only
              (current ← on_tables (service_authorizeProject service ctx
                 {| rq_Actor := actor; rq_ProjectID := pid; rq_Action := "read"; rq_Resource := ref_ID (it_Target task) |});
               impactSourceIDsForRefs world checks current (it_Target task :: it_ClosureEvidence task));
            on_tables (checkSources service actor pid sources)).

Definition visibleImpactTasks (ctx : Context X) (actor : Actor) (p : Project) (tasks : list ImpactTask) : RM (list ImpactTask) :=
  visible (task_readable ctx actor (pr_ID p)) tasks.

Definition ListImpactTasks (ctx : Context X) (actor : Actor) (pid : string) : RM (list ImpactTask) :=
  '(p, tasks) ← transaction world (zero_project, []) read_only
    (p ← on_tables (service_authorizeProject service ctx (project_request actor pid "read"));
     tasks ← ImpactTasks world pid; mret (p, tasks));
  visibleImpactTasks ctx actor p tasks.

(** Every reference an assessment shows. *)
Definition assessment_refs (a : ImpactAssessment) : list ObjectVersionRef :=
  (os_Ref <$> ia_Objects a)
  ++ mjoin ((fun edge => [de_Source edge; de_Target edge]) <$> ia_Edges a)
  ++ mjoin ((fun impact => ri_Target impact :: (ic_Source <$> ri_Causes impact)) <$> ia_Impacts a).

(** One reference of each identity, in an order the map does not promise. *)
Definition distinct_refs (refs : list ObjectVersionRef) : list ObjectVersionRef :=
  snd <$> map_to_list (foldl (fun m ref => <[refIdentity ref := ref]> m) (∅ : gmap string ObjectVersionRef) refs).

Definition zero_assessment : ImpactAssessment :=
  {| ia_ChangeSetID := ""; ia_ProjectID := ""; ia_ContextRevision := 0; ia_TemplateCopyVersion := 0; ia_RulesetHash := "";
     ia_InputHash := ""; ia_Objects := []; ia_Edges := []; ia_Impacts := []; ia_SemanticHash := ""; ia_AssessedAt := 0 |}.

Definition GetImpactAssessment (ctx : Context X) (actor : Actor) (pid changeID : string) : RM ImpactAssessment :=
  '(p, assessment) ← transaction world (zero_project, zero_assessment) read_only
    (p ← on_tables (service_authorizeProject service ctx (project_request actor pid "read"));
     assessment ← Store_ImpactAssessment world pid changeID; mret (p, assessment));
  sources ← transaction world [] read_only (rm_collect (current_sources world p) (distinct_refs (assessment_refs assessment)));
  _ ← on_tables (checkSources service actor pid sources);
  mret assessment.
End Service.
