(* ===== verification/FaultInjection.v ===== *)
(** The writer of impact tasks as a port, its production implementation and
    the one that fails for a named tenant
    ([src/internal/lingdoc/workspacecore/fault_injection.go]). *)

From Stdlib Require Import Ascii String.
From S2P Require Import Prelude Effects OperationCore OperationStore Workspace Permission MemberStore Membership OperationRunner RoadmapModel RoadmapStore RoadmapLaws.

(** ** The configuration *)

Definition FaultPointImpactTaskWrite := "impact_task_write".
Definition FaultPointAuditWrite := "audit_write".
Definition FaultPointAuthorization := "authorization".

Record FaultInjection := { fi_Point : string; fi_TenantID : Z; fi_Action : string; fi_Reason : string }.

Definition ErrInjectedFault : error := Sentinel "injected_fault".

Definition Enabled (f : FaultInjection) : bool := negb (fi_Point f =? "")%string && negb (fi_TenantID f =? 0).

Definition KnownPoint (f : FaultInjection) : bool :=
  contains [FaultPointImpactTaskWrite; FaultPointAuditWrite; FaultPointAuthorization] (fi_Point f).

Definition fault_reason (f : FaultInjection) : string :=
  if (fi_Reason f =? "")%string then "受控故障注入已启用" else fi_Reason f.

(** [&InjectedFaultError{...}], which unwraps to [ErrInjectedFault] *)
Definition InjectedFaultError (f : FaultInjection) : error :=
  Wrapped ("injected_fault[" +:+ fi_Point f +:+ "]: " +:+ fault_reason f) ErrInjectedFault.

Definition IsInjectedFault (err : error) : bool := errors_Is err ErrInjectedFault.

Definition faultTargetsTenant (fault : FaultInjection) (tenant : Z) : bool :=
  negb (fi_TenantID fault =? 0) && (tenant =? fi_TenantID fault).

(** ** The writers *)

Abbreviation ImpactTaskWriter := (Z -> ImpactTask -> RM unit).
Abbreviation BusinessAuditWriter := (AuditEvent -> RM unit).

Section Writers.
Context {X : Type}.
Variable world : World X.

Definition transactionImpactTaskWriter : ImpactTaskWriter := fun _ task => InsertImpactTask world task.

Definition transactionBusinessAuditWriter : BusinessAuditWriter := fun event =>
  on_tables (RecordAudit (sv_db (wd_service world)) event).

Definition faultImpactTaskWriter (fault : FaultInjection) (inner : ImpactTaskWriter) : ImpactTaskWriter := fun tenant task =>
  when negb (faultTargetsTenant fault tenant) return inner tenant task;
  fail (InjectedFaultError fault).

Definition faultBusinessAuditWriter (fault : FaultInjection) (inner : BusinessAuditWriter) : BusinessAuditWriter := fun event =>
  when negb (fi_Action fault =? "")%string && negb (ae_Action event =? fi_Action fault)%string return inner event;
  when negb (faultTargetsTenant fault (ae_TenantID event)) return inner event;
  fail (InjectedFaultError fault).

(** The two writer fields of the service. *)
Definition InstallFaultInjection (fault : FaultInjection) (writers : option ImpactTaskWriter * option BusinessAuditWriter)
  : option ImpactTaskWriter * option BusinessAuditWriter :=
  when negb (Enabled fault) || negb (KnownPoint fault) return writers;
  let '(tasks, audit) := writers in
  if (fi_Point fault =? FaultPointImpactTaskWrite)%string
  then (Some (faultImpactTaskWriter fault transactionImpactTaskWriter), audit)
  else if (fi_Point fault =? FaultPointAuditWrite)%string
  then (tasks, Some (faultBusinessAuditWriter fault transactionBusinessAuditWriter))
  else writers.

(** ** What the clients rely on *)

(** A write of a task delivers it, or fails and does nothing. *)
Class TaskWriter (write : ImpactTaskWriter) := {
  writer_delivers tenant task w :
    write tenant task w = InsertImpactTask world task w \/ exists err, write tenant task w = (w, Err err)
}.

#[export] Instance transaction_writer : TaskWriter transactionImpactTaskWriter.
Proof. split. by left. Qed.

#[export] Instance fault_writer fault inner `{!TaskWriter inner} : TaskWriter (faultImpactTaskWriter fault inner).
Proof.
  split. intros tenant task w. unfold faultImpactTaskWriter. destruct (negb _); [apply writer_delivers|]. right. by exists (InjectedFaultError fault).
Qed.

Lemma fault_is_injected fault : IsInjectedFault (InjectedFaultError fault) = true.
Proof. unfold IsInjectedFault, InjectedFaultError. cbn [errors_Is ErrInjectedFault]. by rewrite (bool_decide_true (Sentinel _ = _)), orb_true_r. Qed.

(** Whatever is installed over a writer that delivers still delivers. *)
Lemma installed_writer fault writers write :
  (forall inner, writers.1 = Some inner -> TaskWriter inner) ->
  (InstallFaultInjection fault writers).1 = Some write -> TaskWriter write.
Proof.
  intros W. unfold InstallFaultInjection. destruct writers as [tasks audit]. destruct (_ || _); [by apply W|].
  destruct (_ =? _)%string; [intros [= <-]; apply _|]. by destruct (_ =? _)%string; apply W.
Qed.
End Writers.
