(* ===== verification/ImpactLaws.v ===== *)
(** What the writes on impacts do to tasks and dependency edges: the shape of
    what is stored ([duties_ok]), the moves a task and an edge can make
    ([task_change], [edge_change]), and that every write makes only those. *)

From stdpp Require Import pretty sorting.
From S2P Require Import Prelude Effects OperationCore OperationStore OperationTheorems Workspace Permission MemberStore Membership OperationRunner RoadmapModel RoadmapStore RouteObjects Roadmap RoadmapLaws RoadmapHistory RoadmapSound RoadmapCommit RoadmapSteps RouteLaws ImpactStore ImpactStoreLaws Assessment Stabilization StabilizationSteps Impact.

(** ** The moves of a task *)

(** The statuses of a task that is being worked. *)
Definition open_statuses : list string := ["OPEN"; "IN_PROGRESS"; "WAITING_USER"].
Definition working (task : ImpactTask) : Prop := it_Status task ∈ open_statuses.

(** A reference to a preflight that passed. *)
Definition proves (ref : ObjectVersionRef) : Prop := ref_Kind ref = "DeliveryPreflight" \/ ref_Kind ref = "ReleaseSnapshot".

(** What no write changes of a task; its causes only grow. *)
Record same_task (old next : ImpactTask) : Prop := {
  st_id : it_ID next = it_ID old;
  st_project : it_ProjectID next = it_ProjectID old;
  st_change : it_ChangeSetID next = it_ChangeSetID old;
  st_kind : ref_Kind (it_Target next) = ref_Kind (it_Target old);
  st_target : ref_ID (it_Target next) = ref_ID (it_Target old);
  st_revision : it_TargetRevision next = it_TargetRevision old;
  st_action : it_Action next = it_Action old;
  st_severity : it_Severity next = it_Severity old;
  st_domain : it_ResponsibilityDomain next = it_ResponsibilityDomain old;
  st_created : it_CreatedAt next = it_CreatedAt old;
  st_causes : it_Causes old ⊆ it_Causes next
}.

(** The table of a task's statuses. *)
Inductive status_step (old next : ImpactTask) : Prop :=
| step_kept : it_Status next = it_Status old -> it_ClosureEvidence next = it_ClosureEvidence old -> status_step old next
| step_worked : working old -> working next -> status_step old next
| step_done : working old -> it_Status next = "DONE" -> it_Action old <> "BLOCK_RELEASE" -> it_ClosureEvidence next <> [] ->
    status_step old next
| step_dismissed : working old -> it_Status next = "DISMISSED" -> impactSeverityBlocks (it_Severity old) = false ->
    status_step old next
| step_staled : it_Status old <> "STALE" -> it_Status next = "STALE" -> status_step old next
| step_reposted : it_Status old = "DONE" -> it_Action old <> "BLOCK_RELEASE" -> it_Status next = "OPEN" -> status_step old next
| step_proved ref : it_Action old = "BLOCK_RELEASE" -> proves ref -> it_Status next = "DONE" ->
    it_ClosureEvidence next = [ref] -> status_step old next.

Record task_change (old next : ImpactTask) : Prop := {
  tc_same : same_task old next;
  tc_version : it_Version next = it_Version old +i 1;
  tc_step : status_step old next
}.

Lemma same_task_identity old next : same_task old next -> ImpactTaskIdentity next = ImpactTaskIdentity old.
Proof. intros S. unfold ImpactTaskIdentity. by rewrite (st_change _ _ S), (st_kind _ _ S), (st_target _ _ S), (st_revision _ _ S), (st_action _ _ S). Qed.

#[export] Instance same_task_preorder : PreOrder same_task.
Proof.
  split; [by intros t|]. intros a b c [A1 A2 A3 A4 A5 A6 A7 A8 A9 A10 A11] [B1 B2 B3 B4 B5 B6 B7 B8 B9 B10 B11].
  split; try congruence. by etransitivity.
Qed.

(** ** The moves of a dependency edge *)

(** What a decision makes of a suggestion: the same edge, decided; a tuple that
    was replaced is remembered. *)
Record settled (old next : DependencyEdge) : Prop := {
  se_id : de_ID next = de_ID old;
  se_project : de_ProjectID next = de_ProjectID old;
  se_source : de_Source next = de_Source old;
  se_target : de_Target next = de_Target old;
  se_origin : de_Origin next = de_Origin old;
  se_created : de_CreatedAt next = de_CreatedAt old;
  se_version : de_Version next = de_Version old +i 1;
  se_status : de_Status next = DependencyConfirmed \/ de_Status next = "rejected";
  se_tuple :
    (de_Relation next = de_Relation old /\ de_Action next = de_Action old)
    \/ (de_Status next = DependencyConfirmed /\ de_SupersededRelation next = de_Relation old
        /\ de_SupersededAction next = de_Action old)
}.

(** Only a suggestion is decided, and only once. *)
Definition edge_change (old next : DependencyEdge) : Prop :=
  next = old \/ de_Status old = DependencySuggested /\ settled old next.

(** What an edge is at each stage: suggested by a model, entered by a person
    or a rule, or decided. *)
Definition edge_stage (edge : DependencyEdge) : Prop :=
  (de_Status edge = DependencySuggested /\ de_Origin edge = "ai" /\ de_Version edge = 1)
  \/ (de_Status edge = DependencyConfirmed /\ de_Origin edge <> "ai" /\ de_Version edge = 1)
  \/ ((de_Status edge = DependencyConfirmed \/ de_Status edge = "rejected") /\ de_Origin edge = "ai" /\ de_Version edge = 2).

Lemma settled_stage old next : de_Status old = DependencySuggested -> edge_stage old -> settled old next -> edge_stage next.
Proof.
  intros Es [(_ & O & V)|[(C & _)|([C|C] & _)]] S; [|by rewrite C in Es..]. right. right.
  rewrite (se_origin _ _ S), (se_version _ _ S), V. split_and!; [apply S|done|done].
Qed.

#[export] Instance edge_change_preorder : PreOrder edge_change.
Proof.
  split; [by left|]. intros a b c [->|[Sa Sb]] [->|[Sb' Sc]]; [by left|by right|by right|].
  destruct (se_status _ _ Sb) as [E|E]; by rewrite E in Sb'.
Qed.

(** ** What is stored *)

Section Duties.
Context {X : Type} (world : World X).

(** A task is stored by its identity, closed only for what closes it. *)
Record task_ok (pid key : string) (row : versionedRecord ImpactTask) : Prop := {
  to_project : it_ProjectID (vr_Body row) = pid;
  to_key : ImpactTaskIdentity (vr_Body row) = key;
  to_id : it_ID (vr_Body row) = impactTaskID world pid key;
  to_version : vr_Version row = it_Version (vr_Body row);
  to_status : it_Status (vr_Body row) ∈ ImpactTaskStatuses;
  to_severity : it_Severity (vr_Body row) = DeriveImpactSeverity (it_Action (vr_Body row));
  to_done : it_Status (vr_Body row) = "DONE" -> it_ClosureEvidence (vr_Body row) <> [];
  to_proved : it_Status (vr_Body row) = "DONE" -> it_Action (vr_Body row) = "BLOCK_RELEASE" ->
    exists ref, it_ClosureEvidence (vr_Body row) = [ref] /\ proves ref;
  to_dismissed : it_Status (vr_Body row) = "DISMISSED" -> impactSeverityBlocks (it_Severity (vr_Body row)) = false
}.

Record edge_ok (pid id : string) (row : versionedRecord DependencyEdge) : Prop := {
  eo_project : de_ProjectID (vr_Body row) = pid;
  eo_id : de_ID (vr_Body row) = id;
  eo_version : vr_Version row = de_Version (vr_Body row);
  eo_stage : edge_stage (vr_Body row)
}.

Record duties_ok (w : roadmap) : Prop := {
  ok_tasks pid key row : rm_tasks w !! (pid, key) = Some row -> task_ok pid key row;
  ok_edges pid id row : rm_dependencies w !! (pid, id) = Some row -> edge_ok pid id row
}.

Lemma working_status task : working task -> it_Status task ∈ ImpactTaskStatuses.
Proof. unfold working, open_statuses, ImpactTaskStatuses. rewrite !elem_of_cons. intuition auto. Qed.

Lemma working_not task s : working task -> it_Status task = s -> s ∉ open_statuses -> False.
Proof. unfold working. intros W E N. apply N. by rewrite <- E. Qed.

Lemma task_change_ok pid key row row' : task_ok pid key row -> vr_Version row' = vr_Version row +i 1 ->
  task_change (vr_Body row) (vr_Body row') -> task_ok pid key row'.
Proof.
  intros [O1 O2 O3 O4 O5 O6 O7 O8 O9] Ev [S V St]. pose proof (same_task_identity _ _ S) as Ei.
  assert (forall s, working (vr_Body row') -> it_Status (vr_Body row') = s -> s ∉ open_statuses -> False) as Nw
    by (intros s; apply working_not).
  split; rewrite ?(st_action _ _ S), ?(st_severity _ _ S), ?(st_id _ _ S), ?Ei; try done.
  - by rewrite (st_project _ _ S).
  - by rewrite Ev, V, O4.
  - destruct St as [E _|_ W|_ E _ _|_ E _|_ E|_ _ E|ref _ _ E _]; rewrite ?E; [done|by apply working_status|by apply (bool_decide_unpack _)..].
  - destruct St as [E Ec|_ W|_ E _ Ne|_ E _|_ E|_ _ E|ref _ _ E Ec]; intros D; rewrite ?E in D; try done.
    + rewrite Ec. by apply O7.
    + destruct (Nw _ W D). by apply (bool_decide_unpack _).
    + by rewrite Ec.
  - destruct St as [E Ec|_ W|_ E Na _|_ E _|_ E|_ _ E|ref _ P E Ec]; intros D A; rewrite ?E in D; try done.
    + rewrite Ec. by apply O8.
    + destruct (Nw _ W D). by apply (bool_decide_unpack _).
    + exists ref. by rewrite Ec.
  - destruct St as [E Ec|_ W|_ E _ _|_ E B|_ E|_ _ E|ref _ _ E _]; intros D; rewrite ?E in D; try done.
    + by apply O9.
    + destruct (Nw _ W D). by apply (bool_decide_unpack _).
Qed.

(** ** Along a run *)

Definition duties (w : roadmap) := (rm_tasks w, rm_dependencies w).

(** No task and no edge disappears; each moves along its table. *)
Record advances (w w' : roadmap) : Prop := {
  adv_tasks k row : rm_tasks w !! k = Some row ->
    exists row', rm_tasks w' !! k = Some row' /\ rtc task_change (vr_Body row) (vr_Body row');
  adv_edges k row : rm_dependencies w !! k = Some row ->
    exists row', rm_dependencies w' !! k = Some row' /\ edge_change (vr_Body row) (vr_Body row')
}.

#[export] Instance advances_preorder : PreOrder advances.
Proof.
  split.
  - intros w. split; intros k row F; exists row; by split; [|constructor].
  - intros a b c [A1 A2] [B1 B2]. split; intros k row F.
    + apply A1 in F as (r1 & F & E1). apply B1 in F as (r2 & F & E2). exists r2. split; [done|by etransitivity].
    + apply A2 in F as (r1 & F & E1). apply B2 in F as (r2 & F & E2). exists r2. split; [done|by etransitivity].
Qed.

Definition moved (w w' : roadmap) : Prop := advances w w' /\ (duties_ok w -> duties_ok w').

#[export] Instance moved_preorder : PreOrder moved.
Proof. split; [intros w; by split|]. intros a b c [A1 A2] [B1 B2]. split; [by etransitivity|auto]. Qed.

Lemma duties_moved w w' : duties w' = duties w -> moved w w'.
Proof.
  unfold duties. intros E. injection E as E1 E2. split.
  - split; rewrite ?E1, ?E2; intros k row F; exists row; by split; [|constructor].
  - intros [T D]. split; rewrite ?E1, ?E2; [exact T|exact D].
Qed.

Lemma own_duties w w' : elsewhere w w' -> duties w' = duties w.
Proof. intros (_ & _ & _ & _ & E5 & E6 & _)%elsewhere_fields. unfold duties. by rewrite E5, E6. Qed.

#[export] Instance moved_guide : Guide duties_ok moved.
Proof. split; [apply _|by intros w w' [_ G]|]. intros w w' E. by apply duties_moved, own_duties. Qed.

Abbreviation dutiful := (guided duties_ok moved).

Lemma dutiful_keeps {A} (m : RM A) : keeps duties m -> dutiful m.
Proof. intros K w w' a F _. apply duties_moved. by apply (keeps_run duties) in F. Qed.

Lemma keeps_duties {A} (m : RM A) : keeps own m -> keeps duties m.
Proof. apply keeps_own. intros w w' E. by apply own_duties. Qed.

(** *** Writes from a listing

    The tasks a write works from were read before it: each stored task is as
    it was then, or has been changed once since. *)

Definition patched (w0 w : roadmap) : Prop :=
  rm_dependencies w = rm_dependencies w0
  /\ forall k, rm_tasks w !! k = rm_tasks w0 !! k
     \/ exists row0 row, rm_tasks w0 !! k = Some row0 /\ rm_tasks w !! k = Some row
        /\ vr_Version row = vr_Version row0 +i 1 /\ task_change (vr_Body row0) (vr_Body row).

Definition listed (w : roadmap) (task : ImpactTask) : Prop :=
  exists row, rm_tasks w !! (it_ProjectID task, ImpactTaskIdentity task) = Some row /\ vr_Body row = task.

Lemma patched_refl w : patched w w.
Proof. split; [done|]. intros k. by left. Qed.

Lemma patched_duties w0 w w' : duties w' = duties w -> patched w0 w -> patched w0 w'.
Proof.
  unfold duties. intros E [P1 P2]. injection E as E1 E2. split; [by rewrite E2|]. intros k. rewrite E1. apply P2.
Qed.

Lemma patched_moved w0 w : duties_ok w0 -> patched w0 w -> moved w0 w.
Proof.
  intros Ok [E P]. split.
  - split; [|rewrite E; intros k row F; exists row; by split; [|left]]. intros k row F.
    destruct (P k) as [Ek|(row0 & row1 & F0 & F1 & _ & C)]; [exists row; rewrite Ek; by split; [|constructor]|].
    exists row1. split; [done|]. assert (row0 = row) as -> by congruence. by apply rtc_once.
  - intros _. split; [|rewrite E; apply Ok]. intros pid key row F.
    destruct (P (pid, key)) as [Ek|(row0 & row1 & F0 & F1 & Ev & C)]; [rewrite Ek in F; by apply Ok|].
    assert (row1 = row) as -> by congruence. eapply task_change_ok; [by apply (ok_tasks _ Ok)|done..].
Qed.

Definition patches {A} (w0 : roadmap) (m : RM A) : Prop := forall w w' a, patched w0 w -> m w = (w', Ok a) -> patched w0 w'.

Lemma patches_keeps {A} w0 (m : RM A) : keeps duties m -> patches w0 m.
Proof. intros K w w' a P F. eapply patched_duties; [|done]. by apply (keeps_run duties) in F. Qed.

Lemma patches_bind {A B} w0 (m : RM A) (k : A -> RM B) : patches w0 m -> (forall a, patches w0 (k a)) -> patches w0 (m ≫= k).
Proof. intros Pm Pk w w' b P (w1 & a & F1 & F2)%bind_ok. eapply Pk; [|exact F2]. by eapply Pm. Qed.

Lemma patches_here {A} w0 (f : roadmap -> RM A) : (forall w, patches w0 (f w)) -> patches w0 (here f).
Proof. intros Pf w w' a P F. by eapply Pf. Qed.

Lemma patches_each {A} w0 (l : list A) f : (forall a, a ∈ l -> patches w0 (f a)) -> patches w0 (rm_each l f).
Proof.
  induction l as [|a l IH]; cbn; intros P; [by apply patches_keeps, keeps_ret|].
  apply patches_bind; [apply P; by left|intros _]. apply IH. intros b Hb. apply P. by right.
Qed.

Lemma patches_traverse {A B} w0 (f : A -> RM B) l : (forall a, a ∈ l -> patches w0 (f a)) -> patches w0 (rm_traverse f l).
Proof.
  induction l as [|a l IH]; cbn; intros P; [by apply patches_keeps, keeps_ret|].
  apply patches_bind; [apply P; by left|intros b].
  apply patches_bind; [apply IH; intros c Hc; apply P; by right|intros bs; by apply patches_keeps, keeps_ret].
Qed.

Context `{!WorldLaws world}.

Lemma patches_update w0 old next : duties_ok w0 -> listed w0 old -> task_change old next ->
  patches w0 (UpdateImpactTask world old next).
Proof.
  intros Ok (row0 & F0 & <-) C w w' u [Ed P] F. unfold UpdateImpactTask in F.
  apply swap_record_ok in F as (row & F & V & ->). split; [exact Ed|]. intros k. cbn.
  destruct (decide ((it_ProjectID (vr_Body row0), ImpactTaskIdentity (vr_Body row0)) = k)) as [<-|N];
    [|rewrite lookup_insert_ne by done; apply P].
  pose proof (to_version _ _ _ (ok_tasks _ Ok _ _ _ F0)) as V0. right. exists row0. eexists. split; [done|].
  split; [apply lookup_insert_eq|]. cbn. split; [|done]. by rewrite V0.
Qed.

Lemma list_listed w pid w' tasks : duties_ok w -> ImpactTasks world pid w = (w', Ok tasks) ->
  w' = w /\ forall task, task ∈ tasks <-> it_ProjectID task = pid /\ listed w task.
Proof.
  intros Ok [-> ->]%rm_query_ok. split; [done|]. intros task. rewrite (task_order_perm (world := world)), list_elem_of_fmap. split.
  - intros ((key & body) & -> & (row & F & E)%project_records_spec). cbn in *. pose proof (ok_tasks _ Ok _ _ _ F) as O.
    subst body. split; [apply O|]. exists row. by rewrite (to_project _ _ _ O), (to_key _ _ _ O).
  - intros [Ep (row & F & E)]. exists (ImpactTaskIdentity task, task). split; [done|]. apply project_records_spec.
    exists row. by rewrite <- Ep.
Qed.

Lemma task_listed w pid id w' task : duties_ok w -> Store_ImpactTask world pid id w = (w', Ok task) ->
  w' = w /\ it_ProjectID task = pid /\ it_ID task = id /\ listed w task.
Proof.
  intros Ok. unfold Store_ImpactTask. intros (w1 & tasks & L & F)%bind_ok. apply list_listed in L as [-> L]; [|done].
  destruct (base.filter _ tasks) as [|t l] eqn:E; [done|]. injection F as <- <-.
  assert (t ∈ t :: l) as Hin by by left. rewrite <- E in Hin. apply list_elem_of_filter in Hin as [Ei Hin]. apply L in Hin as [Ep Hl].
  by split_and!.
Qed.
End Duties.
