(* ===== verification/ImpactWrites.v ===== *)
(** Every write that touches tasks or dependency edges makes only the moves of
    [ImpactLaws]: the roadmap's, the application and the raising of a change
    set, the work on a task, the preflight and the stabilization. *)

From stdpp Require Import pretty sorting.
From S2P Require Import Prelude Effects OperationCore OperationStore OperationTheorems Workspace Permission MemberStore Membership OperationRunner RoadmapModel RoadmapStore RouteObjects Roadmap RoadmapLaws RoadmapHistory RoadmapSound RoadmapCommit RoadmapSteps RouteLaws ImpactStore ImpactStoreLaws Assessment Stabilization StabilizationSteps Impact ImpactLaws.

#[export] Instance duties_sessionless : Sessionless duties.
Proof. split; [intros w w'; apply own_duties|done]. Qed.

Section Writes.
Context {X : Type} `{Digester roadmap_any} (world : World X) `{!WorldLaws world}.
Abbreviation dutiful := (guided (duties_ok world) (moved world)).

Lemma dutiful_own {A} (m : RM A) : keeps own m -> dutiful m.
Proof. intros K. by apply dutiful_keeps, keeps_duties. Qed.

Lemma dutiful_reads {A} (m : RM A) : reads m -> dutiful m.
Proof. apply guided_reads, _. Qed.

Lemma dutiful_bind {A B} (m : RM A) (k : A -> RM B) : dutiful m -> (forall a, dutiful (k a)) -> dutiful (m ≫= k).
Proof. apply guided_bind, _. Qed.

Lemma dutiful_each {A} (l : list A) f : (forall a, dutiful (f a)) -> dutiful (rm_each l f).
Proof. apply guided_each, _. Qed.

Lemma dutiful_here {A} (f : roadmap -> RM A) : (forall w, dutiful (f w)) -> dutiful (here f).
Proof. apply guided_here. Qed.

(** ** Delivering a task *)

Lemma insert_task_dutiful task :
  task_ok world (it_ProjectID task) (ImpactTaskIdentity task) {| vr_Version := it_Version task; vr_Body := task |} ->
  dutiful (InsertImpactTask world task).
Proof.
  intros Ot w w' u F Ok. unfold InsertImpactTask in F. apply bind_ok in F as (w1 & found & F1 & F).
  rewrite (attempt_read _ w (reads_row world rm_tasks _ _)) in F1. injection F1 as <- <-.
  destruct (readVersionedRecord world rm_tasks (it_ProjectID task) (ImpactTaskIdentity task) w) as [w1 [row|e]] eqn:E; cbn [snd] in F.
  - apply read_record_ok in E as [_ Fr]. destruct (merge_causes _ _) as [causes merged] eqn:M.
    pose proof (ok_tasks _ _ Ok _ _ _ Fr) as O. destruct merged; cbn [negb] in F; [|injection F as <-; by apply duties_moved].
    apply patched_moved; [done|]. unfold here in F. apply swap_record_ok in F as (row' & Fr' & _ & ->).
    split; [done|]. intros k. cbn. destruct (decide ((it_ProjectID task, ImpactTaskIdentity task) = k)) as [<-|N];
      [|rewrite lookup_insert_ne by done; by left].
    right. exists row. eexists. split; [done|]. split; [apply lookup_insert_eq|]. split; [done|]. cbn.
    split; [split; try done| |by apply step_kept].
    + intros cause Hc. pose proof (merge_causes_spec (it_Causes (vr_Body row)) (it_Causes task) cause) as [Sp _].
      rewrite M in Sp. apply Sp. by left.
    + cbn. by rewrite (to_version _ _ _ _ O).
  - case_decide; [|done]. apply insert_record_ok in F as [Fresh ->]. split.
    + split; cbn; intros k row F; (exists row; split; [|by constructor]); [|done].
      rewrite lookup_insert_ne; [done|]. by intros <-; congruence.
    + intros _. split; cbn; intros pid key row F; [|by apply Ok].
      apply lookup_insert_Some in F as [[Ek <-]|[_ F]]; [|by apply Ok]. by injection Ek as <- <-.
Qed.

Lemma handoff_dutiful task : dutiful (InsertImpactHandoff world task).
Proof. apply dutiful_keeps. by apply handoff_keeps. Qed.

(** ** Entering an edge *)

Lemma put_edge_dutiful edge : edge_stage edge -> dutiful (PutDependencyEdge world edge).
Proof.
  intros St w w' u F Ok. apply insert_record_ok in F as [Fresh ->]. split.
  - split; cbn; intros k row F; (exists row; split; [|by constructor]); [done|].
    rewrite lookup_insert_ne; [done|]. by intros <-; congruence.
  - intros _. split; cbn; intros pid id row F; [by apply Ok|].
    apply lookup_insert_Some in F as [[E <-]|[_ F]]; [|by apply Ok]. injection E as <- <-. by split.
Qed.

Lemma dependency_dutiful edge : dutiful (StoreConfirmedDependency world edge).
Proof.
  intros w w' u F Ok. unfold StoreConfirmedDependency in F. apply bind_ok in F as (w1 & u1 & [G ->]%refuse_if_ok & F).
  apply bind_ok in F as (w1 & edges & [-> _]%rm_query_ok & F). destruct (existsb _ _); [injection F as <-; by apply duties_moved|].
  unfold here in F. eapply put_edge_dutiful; [|exact F|done]. right. left. cbn. split_bools. by split_and!.
Qed.

(** ** The roadmap *)

Lemma roadmap_task_ok p session next now edge : let task := roadmap_task world p session next now edge in
  task_ok world (it_ProjectID task) (ImpactTaskIdentity task) {| vr_Version := it_Version task; vr_Body := task |}.
Proof. cbn. split; try done. by apply (bool_decide_unpack _). Qed.

Lemma create_tasks_dutiful p session old next : dutiful (createRoadmapImpactTasks world p session old next).
Proof.
  unfold createRoadmapImpactTasks. apply dutiful_bind; [by apply dutiful_reads, reads_dependencies|intros edges].
  apply dutiful_here. intros w. apply dutiful_each. intros edge.
  apply dutiful_bind; [apply insert_task_dutiful, roadmap_task_ok|intros _; apply handoff_dutiful].
Qed.

Lemma append_duties old next : keeps duties (AppendRouteNode world old next).
Proof.
  unfold AppendRouteNode. apply keeps_bind; [apply keeps_refuse_if|intros _].
  apply keeps_bind; [by apply keeps_insert_record|intros _]. destruct (_ =? _); [by apply keeps_insert_record|by apply keeps_swap_record].
Qed.

Lemma revision_duties p change : keeps duties (recordContextRevisionSnapshot world p change).
Proof.
  unfold recordContextRevisionSnapshot. apply keeps_bind; [apply reads_kept, keeps_attempt, reads_row; apply _|].
  intros [row|e]; [apply keeps_refuse_if|]. apply keeps_bind; [apply keeps_refuse_if|intros _].
  apply keeps_bind; [by apply keeps_on_tables|intros snapshot]. apply keeps_here. intros w. by apply keeps_insert_record.
Qed.

Lemma released_change now temporary task : it_Status task <> "STALE" -> task_change task (released now temporary task).
Proof. intros N. split; [by split|done|by apply step_staled]. Qed.

Lemma release_dutiful actor p temporary : dutiful (releaseRoadmapTemporaryRefs world actor p temporary).
Proof.
  intros w w' u F Ok. unfold releaseRoadmapTemporaryRefs in F. destruct (is_nil _); [injection F as <-; by apply duties_moved|].
  apply bind_ok in F as (w1 & tasks & L & F). apply list_listed in L as [-> L]; [|done..].
  apply patched_moved; [done|]. unfold here in F. revert F. apply (patches_each w); [|by apply patched_refl]. intros task Hin.
  destruct (closed_task task) eqn:C; [by apply patches_keeps, keeps_ret|]. destruct (negb _); [by apply patches_keeps, keeps_ret|].
  apply patches_bind; [|intros _; by apply patches_keeps, keeps_duties, audit_own].
  apply patches_update; [done|by apply L|]. apply released_change. intros E. unfold closed_task in C. by rewrite E in C.
Qed.

Lemma cancel_dutiful actor pid id input p : dutiful (cancel_write world actor pid id input p).
Proof.
  unfold cancel_write. apply dutiful_bind; [apply dutiful_reads, reads_to_close; apply _|intros session].
  apply dutiful_bind; [apply release_dutiful|intros _].
  apply dutiful_bind; [by apply dutiful_keeps, save_kept; apply _|intros closed].
  apply dutiful_bind; [by apply dutiful_own, audit_own|intros _]. by apply dutiful_reads, keeps_ret.
Qed.

Lemma dutiful_traverse {A B} (f : A -> RM B) l : (forall a, dutiful (f a)) -> dutiful (rm_traverse f l).
Proof. apply guided_traverse, _. Qed.

Lemma freeze_dutiful actor pid p session now proposal : dutiful (freeze world actor pid p session now proposal).
Proof.
  unfold freeze. apply dutiful_bind; [by apply dutiful_reads, reads_node|intros old].
  apply dutiful_bind; [apply dutiful_keeps, append_duties|intros _].
  apply dutiful_bind; [apply create_tasks_dutiful|intros _]. by apply dutiful_reads, keeps_ret.
Qed.

Lemma frozen_dutiful actor pid id input p : dutiful (frozen_write world actor pid id input p).
Proof.
  unfold frozen_write. apply dutiful_bind; [apply dutiful_reads, reads_to_close; apply _|intros session].
  apply dutiful_bind; [by apply dutiful_reads, reads_verify|intros _].
  apply dutiful_bind; [by apply dutiful_reads|intros now].
  apply dutiful_bind; [apply dutiful_traverse; intros; apply freeze_dutiful|intros applied].
  apply dutiful_bind; [apply dutiful_keeps|intros _].
  { unfold UpdateRoadmapSession. apply keeps_rm_statement. intros w. destruct (rm_sessions w !! _); [|done]. by destruct (_ && _). }
  apply dutiful_bind; [|intros _; apply dutiful_bind; [by apply dutiful_own, audit_own|intros _; by apply dutiful_reads, keeps_ret]].
  destruct (is_nil _); [by apply dutiful_reads, keeps_ret|].
  apply dutiful_keeps, keeps_bind; [apply revision_duties|intros _; by apply keeps_on_tables].
Qed.

Lemma call_dutiful ctx call : steered (duties_ok world) (moved world) (perform world ctx call).
Proof.
  apply (call_steered world (duties_ok world) (moved world)); intros.
  - by apply dutiful_keeps, begin_kept; apply _.
  - by apply dutiful_keeps, propose_node_kept; apply _.
  - by apply dutiful_keeps, propose_edge_kept; apply _.
  - apply frozen_dutiful.
  - by apply dutiful_keeps, close_kept; apply _.
  - apply cancel_dutiful.
Qed.

(** ** Applying a change set *)

Lemma apply_delta_dutiful actor before next reason delta : dutiful (apply_delta world actor before next reason delta).
Proof.
  unfold apply_delta. apply dutiful_bind; [|intros _; by apply dutiful_own, audit_own].
  destruct (_ =? _)%string; [|destruct (_ =? _)%string; [|by apply dutiful_own, on_tables_own]].
  - unfold apply_route_node. apply dutiful_bind; [by apply dutiful_reads, reads_found_or_new, reads_node|intros old].
    destruct (sd_ProposedRoute delta) as [proposed|]; [|by apply dutiful_reads, keeps_fail].
    apply dutiful_here. intros w. apply dutiful_bind; [apply dutiful_keeps, append_duties|intros _].
    apply dutiful_each. intros ref. apply dependency_dutiful.
  - unfold apply_route_edge. apply dutiful_bind; [by apply dutiful_reads, reads_found_or_new, reads_edge|intros old].
    destruct (sd_ProposedEdge delta) as [proposed|]; [|by apply dutiful_reads, keeps_fail].
    apply dutiful_here. intros w. apply dutiful_keeps. unfold InsertRouteEdge. apply keeps_rm_statement. intros w'.
    by destruct (rm_edges w' !! _).
Qed.

Lemma apply_dutiful actor before next reason deltas : dutiful (apply_deltas world actor before next reason deltas).
Proof. apply dutiful_each. intros delta. apply apply_delta_dutiful. Qed.

(** ** Edges *)

Lemma create_dutiful actor pid input p : dutiful (create_dependency world actor pid input p).
Proof.
  unfold create_dependency. apply dutiful_bind; [by apply dutiful_reads, keeps_refuse_if|intros _].
  apply dutiful_bind; [by apply dutiful_reads, reads_dependencies|intros edges].
  destruct (base.filter _ edges); [|by apply dutiful_reads, keeps_ret].
  apply dutiful_bind; [by apply dutiful_reads, keeps_refuse_if|intros _]. apply dutiful_here. intros w.
  apply dutiful_bind; [|intros _; apply dutiful_bind; [by apply dutiful_own, audit_own|intros _; by apply dutiful_reads, keeps_ret]].
  apply put_edge_dutiful. unfold edge_stage. cbn. destruct (di_Origin input =? "ai")%string eqn:E; split_bools; [by left|].
  right. by left.
Qed.

Lemma decided_settles actor input now old : settled old (decided actor input now old).
Proof.
  unfold decided. destruct (dd_Decision input =? "modify")%string eqn:M; [|destruct (dd_Decision input =? "confirm")%string];
    split; try done; cbn; (by left) || (by right).
Qed.

Lemma decide_dutiful actor pid id input : dutiful (decide_dependency world actor pid id input).
Proof.
  intros w w' edge F Ok. unfold decide_dependency, Store_DependencyEdge in F. apply bind_ok in F as (w1 & old & L & F).
  apply bind_ok in L as (w2 & row & [-> Fr]%read_record_ok & L). injection L as <- <-.
  apply bind_ok in F as (w1 & u1 & [_ ->]%refuse_if_ok & F). apply bind_ok in F as (w1 & u2 & [S ->]%refuse_if_ok & F).
  unfold here in F. apply bind_ok in F as (w1 & u3 & Up & F). apply bind_ok in F as (w2 & u4 & Au & F). injection F as <- _.
  apply (keeps_run duties) in Au; [|by apply keeps_duties, audit_own]. transitivity w1; [|by apply duties_moved].
  apply swap_record_ok in Up as (row' & Fr' & V & ->). pose proof (ok_edges _ _ Ok _ _ _ Fr) as O.
  rewrite (eo_project _ _ _ O), (eo_id _ _ _ O) in Fr' |- *. assert (row' = row) as -> by congruence. split_bools.
  pose proof (decided_settles actor input (wd_now world w) (vr_Body row)) as Se. split.
  - split; cbn; intros k r F; [exists r; split; [done|constructor]|].
    destruct (decide ((pid, id) = k)) as [<-|N]; [|rewrite lookup_insert_ne by done; exists r; split; [done|by left]].
    assert (r = row) as -> by congruence. eexists. split; [apply lookup_insert_eq|]. right. by split.
  - intros _. split; cbn; intros pid' k r F; [by apply Ok|].
    apply lookup_insert_Some in F as [[Ek <-]|[_ F]]; [|by apply Ok]. injection Ek as <- <-. split; cbn; [apply O|apply O|done|].
    eapply settled_stage; [|apply O|exact Se]. done.
Qed.
End Writes.
