(* ===== verification/ImpactMoves.v ===== *)
(** The writes of the impact operations make only the moves of [ImpactLaws]:
    raising the tasks of a change set, working and acknowledging them, and
    stabilizing a revision. *)

From stdpp Require Import pretty sorting.
From S2P Require Import Prelude Effects OperationCore OperationStore OperationTheorems Workspace Permission MemberStore Membership OperationRunner RoadmapModel RoadmapStore RouteObjects Roadmap RoadmapLaws RoadmapHistory RoadmapSound RoadmapCommit RoadmapSteps RouteLaws ImpactStore ImpactStoreLaws Assessment Stabilization StabilizationSteps Impact ImpactService FaultInjection ImpactLaws ImpactWrites.

Section Moves.
Context {X : Type} `{Digester roadmap_any} (world : World X) `{!WorldLaws world} (checks : Checks) `{!ChecksLaws checks}
  (ports : ImpactPorts X).
Abbreviation dutiful := (guided (duties_ok world) (moved world)).

(** ** Raising *)

Lemma raised_ok p change impact target now reason later hints :
  let task := born reason later (raised world p change impact target now) <| it_Attachments := hints |> in
  task_ok world (it_ProjectID task) (ImpactTaskIdentity task) {| vr_Version := it_Version task; vr_Body := task |}.
Proof. cbn. unfold born. destruct (_ =? _)%string; split; try done; by apply (bool_decide_unpack _). Qed.

Lemma write_task_dutiful writer tenant task : (forall write, writer = Some write -> TaskWriter world write) ->
  task_ok world (it_ProjectID task) (ImpactTaskIdentity task) {| vr_Version := it_Version task; vr_Body := task |} ->
  dutiful (write_task world writer tenant task).
Proof.
  intros W O w w' [] F. pose proof (insert_task_dutiful world task O) as I. unfold write_task in F.
  destruct writer as [write|]; [|by apply (I w w' tt)].
  pose proof (W write eq_refl). destruct (writer_delivers world (write := write) tenant task w) as [E|[e E]]; rewrite E in F; [by apply (I w w' tt)|done].
Qed.

Lemma touched_own p impacts : keeps own (touched_chapters checks p impacts).
Proof.
  induction impacts as [|impact impacts IH]; cbn; [apply keeps_ret|]. destruct (_ && _); [|exact IH].
  apply keeps_bind; [apply on_tables_own|intros version]. apply keeps_bind; [exact IH|intros chapters; apply keeps_ret].
Qed.

Lemma reads_retarget p deltas target : reads (retarget world checks p deltas target).
Proof.
  revert target. induction deltas as [|delta deltas IH]; intros target; cbn; [apply keeps_ret|].
  destruct (decide _); [|apply IH]. apply keeps_bind; [by apply reads_semantic_value|intros value; apply IH].
Qed.

Lemma reads_stale_target p target : reads (staleTargetReason world p target).
Proof.
  unfold staleTargetReason. destruct (negb _); [apply keeps_ret|].
  apply keeps_bind; [by apply keeps_attempt, reads_current_object|]. intros [s|e]; apply keeps_ret.
Qed.

Lemma commit_impact_dutiful writer tenant p change impact : (forall write, writer = Some write -> TaskWriter world write) ->
  dutiful (commit_impact world checks ports writer tenant p change impact).
Proof.
  intros W. unfold commit_impact. destruct (negb _); [by apply dutiful_reads, keeps_ret|].
  apply dutiful_bind; [apply dutiful_reads, reads_retarget; done|intros target]. apply dutiful_here. intros w.
  apply dutiful_bind; [by apply dutiful_reads, reads_stale_target|intros reason].
  apply dutiful_bind; [ |intros hints].
  { destruct (_ =? _)%string; [by apply dutiful_own, on_tables_own|by apply dutiful_reads, keeps_ret]. }
  apply dutiful_bind; [ |intros _; by apply handoff_dutiful]. apply write_task_dutiful; [done|apply raised_ok].
Qed.

Lemma raise_dutiful writer tenant p change : (forall write, writer = Some write -> TaskWriter world write) ->
  dutiful (commitChangeImpactTasks world checks ports writer tenant p change).
Proof.
  intros W. unfold commitChangeImpactTasks. apply dutiful_bind; [by apply dutiful_reads, reads_assessment|intros assessment].
  apply dutiful_bind; [by apply dutiful_own, touched_own|intros chapters].
  apply dutiful_bind; [ |intros _].
  { destruct (nonempty chapters); [by apply dutiful_own, on_tables_own|by apply dutiful_reads, keeps_ret]. }
  apply dutiful_bind; [apply dutiful_each; intros; by apply commit_impact_dutiful|intros _].
  by apply dutiful_keeps, revision_duties.
Qed.

(** ** Working a task *)

(** What following the evidence leaves of a task: all but its target's version
    and the person's decision. *)
Record followed (old next : ImpactTask) : Prop := {
  fo_same : same_task old next;
  fo_version : it_Version next = it_Version old;
  fo_status : it_Status next = it_Status old
}.

Lemma followed_trans a b c : followed a b -> followed b c -> followed a c.
Proof. intros [A1 A2 A3] [B1 B2 B3]. split; [by etransitivity|congruence|congruence]. Qed.

Lemma follow_evidence_ok p input refs task matched w w' r : follow_evidence world checks p input refs task matched w = (w', Ok r) ->
  w' = w /\ followed task r.1.
Proof.
  revert task matched w. induction refs as [|ref refs IH]; intros task matched w; cbn.
  { intros F. injection F as <- <-. by split. }
  intros (w1 & state & F1 & F)%bind_ok. apply reads_ok in F1 as ->; [|by apply reads_current_object].
  destruct (_ && _) eqn:E; [|by apply IH in F].
  apply bind_ok in F as (w1 & t & F1 & F). apply bind_ok in F as (w2 & [] & [_ ->]%refuse_if_ok & F).
  assert (w1 = w /\ followed task t /\ it_Target t = it_Target task) as (-> & Fo & Et).
  { destruct (_ && (_ =? "ResearchClaim")%string).
    - apply bind_ok in F1 as (w3 & b & F3 & F1). injection F3 as <- _. apply bind_ok in F1 as (w3 & [] & [_ ->]%refuse_if_ok & F1).
      by injection F1 as <- <-.
    - apply bind_ok in F1 as (w3 & [] & [_ ->]%refuse_if_ok & F1). by injection F1 as <- <-. }
  apply IH in F as [-> Fo']. split; [done|]. eapply followed_trans; [exact Fo|]. eapply followed_trans; [|exact Fo'].
  split_bools. split; [split|..]; cbn; rewrite ?Et; try done; by symmetry.
Qed.

(** What an action makes of a task before it is stored. *)
Definition act_result (task next : ImpactTask) : Prop :=
  same_task task next /\ it_Version next = it_Version task
  /\ (working next \/ it_Status next = "DONE" /\ it_Action task <> "BLOCK_RELEASE" /\ it_ClosureEvidence next <> []
      \/ it_Status next = "DISMISSED" /\ impactSeverityBlocks (it_Severity task) = false).

Lemma complete_ok p input task w w' next : complete_task world checks p input task w = (w', Ok next) ->
  duties w' = duties w /\ same_task task next /\ it_Version next = it_Version task
  /\ it_Status next = "DONE" /\ it_Action task <> "BLOCK_RELEASE" /\ it_ClosureEvidence next <> [].
Proof.
  unfold complete_task. intros (w1 & [] & [G ->]%refuse_if_ok & F)%bind_ok. split_bools.
  assert (ta_ClosureEvidence input <> []) as Ne by (by destruct (ta_ClosureEvidence input)).
  destruct (_ || _).
  - apply bind_ok in F as (w1 & [] & F1 & F). injection F as <- <-.
    apply (keeps_run duties) in F1; [|by apply keeps_on_tables]. by split_and!.
  - apply bind_ok in F as (w1 & [t m] & F1 & F). apply follow_evidence_ok in F1 as [-> [S V St]]. cbn in S, V, St.
    apply bind_ok in F as (w1 & [] & [_ ->]%refuse_if_ok & F). injection F as <- <-.
    split_and!; try done. by destruct S.
Qed.

Lemma act_ok ctx actor pid p input task w w' next : working task -> act world checks ctx actor pid p input task w = (w', Ok next) ->
  duties w' = duties w /\ act_result task next.
Proof.
  intros Wk. unfold act. destruct (_ =? "assign")%string.
  { intros (w1 & [] & [_ ->]%refuse_if_ok & F)%bind_ok. apply bind_ok in F as (w2 & q & F1 & F). injection F as <- <-.
    apply (keeps_run duties) in F1; [|by apply keeps_on_tables]. split; [done|]. split; [by split|]. split; [done|by left]. }
  destruct (_ =? "start")%string; [intros F; injection F as <- <-; split; [done|]; split; [by split|]; split; [done|left; by apply (bool_decide_unpack _)]|].
  destruct (_ =? "wait")%string; [intros F; injection F as <- <-; split; [done|]; split; [by split|]; split; [done|left; by apply (bool_decide_unpack _)]|].
  destruct (_ =? "dismiss")%string.
  { intros (w1 & [] & [G ->]%refuse_if_ok & F)%bind_ok. injection F as <- <-. split; [done|]. split; [by split|]. split; [done|].
    right. by right. }
  destruct (_ =? "complete")%string; [|intros F; injection F as <- <-; split; [done|]; split; [done|]; split; [done|by left]].
  intros (D & S & V & St)%complete_ok. split; [done|]. split; [done|]. split; [done|]. right. by left.
Qed.

Lemma acted_change input now task next : working task -> act_result task next -> task_change task (acted input now next).
Proof.
  intros Wk ([S1 S2 S3 S4 S5 S6 S7 S8 S9 S10 S11] & V & St). split; [by split|by cbn; rewrite V|].
  destruct St as [W|[(E & A & Ne)|[E B]]]; [by apply step_worked|by apply step_done|by apply step_dismissed].
Qed.

Lemma not_closed_working task : it_Status task ∈ ImpactTaskStatuses ->
  contains ImpactTaskClosedStatuses (it_Status task) || (it_Status task =? "STALE")%string = false -> working task.
Proof.
  unfold working, ImpactTaskStatuses. rewrite !elem_of_cons. intros [E|[E|[E|[E|[E|[E|[]%not_elem_of_nil]]]]]];
    rewrite E; [by apply (bool_decide_unpack _)..|done|done|done].
Qed.

Lemma listed_status w task : duties_ok world w -> listed w task -> it_Status task ∈ ImpactTaskStatuses.
Proof. intros Ok (row & F & <-). by apply (to_status _ _ _ _ (ok_tasks _ _ Ok _ _ _ F)). Qed.

Lemma permit_own ctx actor pid task (manages : bool) : keeps own (if manages
  then _ ← on_tables (service_authorizeProject (wd_service world) ctx (project_request actor pid "manage")); mret tt
  else refuse_if (negb (it_AssigneeID task =? ac_UserID actor)%string) ErrNotFound).
Proof.
  destruct manages; [|apply keeps_refuse_if]. apply keeps_bind; [apply on_tables_own|intros q; apply keeps_ret].
Qed.

Lemma patches_work w0 ctx actor pid id p input task : duties_ok world w0 -> listed w0 task ->
  patches w0 (work_task world checks ctx actor pid id p input task).
Proof.
  intros Ok L. unfold work_task. apply patches_bind; [apply patches_keeps, keeps_refuse_if|intros _].
  intros w w' r P F. apply bind_ok in F as (w1 & [] & [G ->]%refuse_if_ok & F).
  assert (working task) as Wk by (apply not_closed_working; [by eapply listed_status|done]).
  apply bind_ok in F as (w1 & [] & A & F).
  assert (patched w0 w1) as P1.
  { eapply patched_duties; [|exact P]. eapply (keeps_run duties); [apply keeps_duties, permit_own|exact A]. }
  apply bind_ok in F as (w2 & next & Ac & F). apply act_ok in Ac as [D R]; [|done].
  apply (patched_duties w0) in D; [|done]. revert F. apply (patches_here w0); [|done]. intros wn.
  apply patches_bind; [apply patches_update; [done..|by apply acted_change]|intros _].
  apply patches_keeps, keeps_bind; [by apply keeps_duties, audit_own|intros _; apply keeps_ret].
Qed.

Lemma patches_stale w0 actor p task reason : duties_ok world w0 -> listed w0 task ->
  patches w0 (markImpactTaskStale world actor p task reason).
Proof.
  intros Ok L. unfold markImpactTaskStale. destruct (_ =? _)%string eqn:E; [apply patches_keeps, keeps_ret|].
  apply patches_here. intros wn. apply patches_bind; [|intros _].
  - apply patches_update; [done..|]. split; [by split|done|]. apply step_staled; [by split_bools|done].
  - apply patches_keeps, keeps_bind; [by apply keeps_duties, audit_own|intros _; apply keeps_ret].
Qed.

Lemma stale_reason_own ctx actor p task action : keeps own (impactTaskStaleReason world ctx actor p task action).
Proof.
  unfold impactTaskStaleReason. destruct (negb _); [apply keeps_ret|]. apply keeps_bind.
  - destruct (_ && _); [|apply keeps_ret]. apply keeps_bind; [apply keeps_attempt, on_tables_own|intros; apply keeps_ret].
  - intros [|]; [apply keeps_ret|]. apply keeps_bind; [|intros; apply keeps_ret].
    intros w. by rewrite (reads_run _ w (reads_stale_target p _)).
Qed.

Lemma act_dutiful ctx actor pid id input p : dutiful (act_on_task world checks ctx actor pid id input p).
Proof.
  intros w w' r F Ok. unfold act_on_task in F. apply bind_ok in F as (w1 & task & L & F).
  apply task_listed in L as (-> & _ & _ & L); [|done..]. apply bind_ok in F as (w1 & [] & [_ ->]%refuse_if_ok & F).
  apply bind_ok in F as (w1 & reason & Re & F). apply patched_moved; [done|].
  assert (patched w w1) as P.
  { eapply patched_duties; [|apply patched_refl]. eapply (keeps_run duties); [apply keeps_duties|exact Re].
    destruct (_ =? _)%string; [apply keeps_ret|apply stale_reason_own]. }
  destruct (reason =? "")%string; [by eapply (patches_work w) in F|by eapply (patches_stale w) in F].
Qed.

(** ** Proving and stabilizing *)

Lemma acknowledge_dutiful actor pid change id proof p : dutiful (acknowledge_write world checks actor pid change id proof p).
Proof.
  intros w w' r F Ok. unfold acknowledge_write in F. apply bind_ok in F as (w1 & [] & [_ ->]%refuse_if_ok & F).
  apply bind_ok in F as (w1 & ch & R & F). apply reads_ok in R as ->; [|by apply reads_change].
  apply bind_ok in F as (w1 & [] & [_ ->]%refuse_if_ok & F). apply bind_ok in F as (w1 & tasks & L & F).
  apply list_listed in L as [-> L]; [|done..]. apply patched_moved; [done|].
  apply bind_ok in F as (w1 & [] & Ea & F). apply (patches_each w) in Ea; [|clear Ea|apply patched_refl].
  - apply bind_ok in F as (w2 & [] & Au & F). injection F as <- _. eapply patched_duties; [|exact Ea].
    eapply (keeps_run duties); [|exact Au]. by apply keeps_duties, audit_own.
  - intros task [Aw Hin]%list_elem_of_filter. apply patches_here. intros wn. apply patches_update; [done|by apply L|].
    unfold awaits_proof in Aw. split_bools. split; [by split|done|]. apply (step_proved _ _ (proof_closure id proof)); [done| |done|done].
    unfold proves, proof_closure. cbn [ref_Kind]. destruct (pf_ProofKind proof =? "check_receipt")%string; [by left|by right].
Qed.

(** The tasks an evaluation wants marked and raised again are tasks it read,
    and what it raises again is done. *)
Definition worth_reposting (w : roadmap) (repost : stabilizationRepost) : Prop :=
  listed w (rp_task repost) /\ it_Status (rp_task repost) = "DONE"
  /\ it_Action (rp_task repost) <> "BLOCK_RELEASE" /\ ref_Kind (rp_target repost) = ref_Kind (it_Target (rp_task repost))
  /\ ref_ID (rp_target repost) = ref_ID (it_Target (rp_task repost)).

Definition drawn (w : roadmap) (c : stabilizationConditions) : Prop :=
  Forall (listed w) (sc_StaleTransitions c)
  /\ Forall (worth_reposting w) (sc_Reposts c).

Lemma repost_change now repost : it_Status (rp_task repost) = "DONE" -> it_Action (rp_task repost) <> "BLOCK_RELEASE" ->
  ref_Kind (rp_target repost) = ref_Kind (it_Target (rp_task repost)) ->
  ref_ID (rp_target repost) = ref_ID (it_Target (rp_task repost)) ->
  task_change (rp_task repost) (reopened (rp_target repost) now (rp_task repost)).
Proof. intros E A K I. split; [by split|done|by apply step_reposted]. Qed.

Lemma settle_patches w0 actor p change conditions : duties_ok world w0 -> drawn w0 conditions ->
  patches w0 (settle world actor p change conditions).
Proof.
  intros Ok [Ds Dr]. unfold settle. apply patches_bind; [|intros _].
  { apply patches_each. intros task Hin. apply patches_bind; [|intros; apply patches_keeps, keeps_ret].
    apply patches_stale; [done|]. rewrite Forall_forall in Ds. by apply Ds. }
  apply patches_bind; [|intros reposted; apply patches_keeps].
  - apply patches_traverse. intros repost Hin. rewrite Forall_forall in Dr. destruct (Dr _ Hin) as (L & E & A & K & I).
    apply patches_here. intros wn. apply patches_bind; [by apply patches_update; [..|apply repost_change]|intros _].
    apply patches_keeps, keeps_bind; [by apply keeps_duties, audit_own|intros _; apply keeps_ret].
  - apply keeps_bind; [|intros _; apply keeps_ret]. destruct (_ && _); [|apply keeps_ret].
    apply keeps_rm_statement. intros w. destruct (rm_changes w !! _); [|done]. by destruct (_ && _).
Qed.

(** *** What an evaluation draws *)

(** From any store, the step ends in [Q], or stops with conditions that are
    drawn from [w]. *)
Definition ends {A} (w : roadmap) (Q : A -> Prop) (m : RM (turn A)) : Prop := forall w1 w2 t, m w1 = (w2, Ok t) ->
  match t with Go a => Q a | Stop c => drawn w c end.

Lemma ends_go {A} w (Q : A -> Prop) a : Q a -> ends w Q (mret (Go a)).
Proof. intros HQ w1 w2 t F. by injection F as _ <-. Qed.

Lemma ends_and_then {A B} w (Q : A -> Prop) (Q' : B -> Prop) m k : ends w Q m -> (forall a, Q a -> ends w Q' (k a)) ->
  ends w Q' (and_then m k).
Proof.
  intros Em Ek w1 w2 t F. apply bind_ok in F as (w3 & [a|c] & F1 & F); apply Em in F1; [by eapply Ek|by injection F as _ <-].
Qed.

Lemma ends_loop {A V} w (Q : A -> Prop) (body : V -> A -> RM (turn A)) l a :
  (forall v a, v ∈ l -> Q a -> ends w Q (body v a)) -> Q a -> ends w Q (loop body l a).
Proof.
  revert a. induction l as [|v l IH]; intros a Eb Qa; cbn [loop]; [by apply ends_go|].
  apply (ends_and_then _ Q); [apply Eb; [by left|done]|]. intros b Qb. apply IH; [|done]. intros v' c Hin. apply Eb. by right.
Qed.

Lemma ends_bind {A V} w (Q : A -> Prop) (m : RM V) (k : V -> RM (turn A)) :
  (forall w1 w2 v, m w1 = (w2, Ok v) -> ends w Q (k v)) -> ends w Q (m ≫= k).
Proof. intros Ek w1 w2 t (w3 & v & F1 & F)%bind_ok. by eapply Ek. Qed.

Lemma ends_record w failure scope c : drawn w c -> ends w (drawn w) (mret (record failure scope c)).
Proof. intros D w1 w2 t F. injection F as _ <-. unfold record. by destruct (_ && _). Qed.

Definition closing (w : roadmap) (s : closure) : Prop :=
  drawn w (cl_conditions s) /\ forall repost, cl_repost s = Some repost -> worth_reposting w repost.

Lemma ends_closing w failure scope s : closing w s -> ends w (closing w) (mret (and_record failure scope s)).
Proof. intros [D R] w1 w2 t F. injection F as _ <-. unfold and_record, record. by destruct (_ && _). Qed.

Lemma repost_target_ok p task w1 w2 target : repost_target world p task w1 = (w2, Ok target) ->
  ref_Kind target = ref_Kind (it_Target task) /\ ref_ID target = ref_ID (it_Target task).
Proof.
  unfold repost_target, attempt, mbind, M_bind. destruct (readImpactObjectState world p (it_Target task) w1) as [w3 [state|e]] eqn:R;
    intros F; injection F as _ <-; [|done]. by apply (object_state_names world) in R as (_ & K & I).
Qed.

Lemma ends_closure_ref w scope p task ref s : listed w task -> it_Status task = "DONE" -> it_Action task <> "BLOCK_RELEASE" ->
  closing w s -> ends w (closing w) (closure_ref world checks scope p task ref s).
Proof.
  intros L E A [D R]. apply ends_bind. intros w1 w2 [state|e] _.
  - destruct (_ && _); [|by apply ends_go]. apply ends_bind. intros _ _ [|] _; [by apply ends_go|by apply ends_closing].
  - destruct (errors_Is e ErrVersionConflict).
    + apply ends_bind. intros _ _ reason _. apply ends_bind. intros w3 w4 target [K I]%repost_target_ok.
      apply ends_closing. split; [done|]. cbn. intros repost [= <-]. by split_and!.
    + apply ends_closing. split; [|done]. destruct D as [Ds Dr]. split; [|done]. cbn. by apply Forall_app, conj, Forall_singleton.
Qed.

Lemma ends_closure_refs w scope p task c : listed w task -> it_Status task = "DONE" -> it_Action task <> "BLOCK_RELEASE" ->
  drawn w c -> ends w (drawn w) (closure_refs world checks scope p task c).
Proof.
  intros L E A D. apply (ends_and_then _ (closing w)).
  - apply ends_loop; [|by split]. intros ref s _ C. by apply ends_closure_ref.
  - intros s [[Ds Dr] R]. apply ends_go. destruct (cl_repost s) as [repost|]; [|by split].
    destruct (cl_staled s); [by split|]. split; [done|]. cbn. apply Forall_app. split; [done|].
    apply Forall_singleton. by apply R.
Qed.

Lemma ends_task w scope p task c : listed w task -> drawn w c -> ends w (drawn w) (task_condition world checks scope p task c).
Proof.
  intros L D. unfold task_condition. destruct (negb (in_scope _ _ _)); [by apply ends_go|].
  destruct (it_Status task =? "STALE")%string; [by apply ends_record|]. destruct (_ && _); [by apply ends_record|].
  destruct (it_Status task =? "DONE")%string eqn:E; [|by apply ends_go]. split_bools. cbn [negb]. unfold done_task.
  apply (ends_and_then _ (drawn w)); [destruct (is_nil _); [by apply ends_record|by apply ends_go]|]. intros d Dd.
  destruct (it_Action task =? "BLOCK_RELEASE")%string eqn:B; [by apply ends_go|]. split_bools.
  destruct (_ || _); [|by apply ends_closure_refs]. apply ends_bind. intros _ _ [u|e] _; [|by apply ends_record].
  destruct (sk_ClosureSourcesOfResultTasks scope); [by apply ends_closure_refs|by apply ends_go].
Qed.

Lemma ends_blockers w scope gate blockers c : drawn w c -> ends w (drawn w) (loop (record_blocker scope gate) blockers c).
Proof. apply ends_loop. intros b d _ Dd. by apply ends_record. Qed.

Lemma ends_evaluation w scope p tasks : (forall task, task ∈ tasks -> listed w task) ->
  ends w (drawn w) (and_then (loop (task_condition world checks scope p) tasks (empty_conditions p)) (fun c =>
    and_then (recheck_objects world checks scope p c) (fun c => and_then (routes_condition world scope p c) (fun c =>
    and_then (template_condition scope p c) (rules_condition checks scope p))))).
Proof.
  intros L. apply (ends_and_then _ (drawn w)).
  { apply ends_loop; [|by split]. intros task d Hin Dd. apply ends_task; [by apply L|done]. }
  intros c1 D1. apply (ends_and_then _ (drawn w)); [|intros c2 D2; apply (ends_and_then _ (drawn w));
    [|intros c3 D3; apply (ends_and_then _ (drawn w)); [|intros c4 D4]]].
  - unfold recheck_objects. destruct (sk_RecheckImpactedObjects scope); [|by apply ends_go].
    apply ends_bind. intros _ _ blockers _. by apply ends_go.
  - apply ends_bind. intros _ _ blockers _. by apply ends_blockers.
  - unfold template_condition. destruct (template_bound p); [by apply ends_go|by apply ends_record].
  - unfold rules_condition. destruct (ck_impactRules checks); [|by apply ends_record].
    apply ends_bind. intros _ _ blockers _. by apply ends_blockers.
Qed.

Lemma conditions_drawn w scope p c w' : duties_ok world w -> stabilization_conditions world checks scope p w = (w', Ok c) -> drawn w c.
Proof.
  intros Ok (w1 & t & F & G)%bind_ok. injection G as _ <-. unfold evaluation in F. apply bind_ok in F as (w2 & tasks & L & F).
  apply list_listed in L as [-> L]; [|done..]. apply (ends_evaluation w) in F; [by destruct t|]. intros task Hin. by apply L.
Qed.
End Moves.

(** ** The stabilization of a revision, and the assessment of a change set *)

Section Stabilizing.
Context {X : Type} `{Digester roadmap_any} (world : World X) `{!WorldLaws world} (checks : Checks) `{!ChecksLaws checks}
  (ports : ImpactPorts X).
Abbreviation dutiful := (guided (duties_ok world) (moved world)).

Lemma reads_owner_conditions changeID p : reads (stabilization_conditions world checks (owner_scope changeID) p).
Proof.
  intros w. destruct (mirrors_evaluation world checks (owner_scope changeID) p w) as (s & E & _).
  change (StabilizationLaws.slow (owner_scope changeID)) with (owner_scope changeID) in E.
  unfold stabilization_conditions, mbind, M_bind. rewrite E. by destruct s as [[c|c]|e].
Qed.

(** What a stabilization that answers evaluated, answered and wrote. *)
Definition audited (actor : Actor) (pid changeID status : string) (w : roadmap) : Prop :=
  exists event, event ∈ tb_audit (rm_tables w) /\ ae_Action event = "revision.stabilize" /\ ae_ProjectID event = pid
  /\ ae_Target event = changeID /\ ae_UserID event = ac_UserID actor /\ ae_Decision event = status.

Lemma stabilize_ok ctx actor pid changeID proofs proofIDs evidence p w w' result :
  stabilize_write world checks ctx actor pid changeID proofs proofIDs evidence p w = (w', Ok result) ->
  exists change conditions reposted w1,
    Forall (fun proof => validImpactPreflight p (impactPreflightProofID proof) proof = true) proofs
    /\ projectOwner p (ac_UserID actor) = true
    /\ Store_ChangeSet world checks pid changeID w = (w, Ok change)
    /\ ch_TargetContextRevision change = Some (pr_CurrentContextRevision p)
    /\ contains ChangeSetClosedStatuses (ch_Status change) = true
    /\ stabilization_conditions world checks (owner_scope changeID) p w = (w, Ok conditions)
    /\ result = stabilized_result changeID p conditions (wd_now world w)
    /\ settle world actor p change conditions w = (w1, Ok reposted)
    /\ beyond w' = beyond w1
    /\ audited actor pid changeID (sr_Status result) w'.
Proof.
  unfold stabilize_write. intros (w1 & [] & [G1 ->]%refuse_if_ok & F)%bind_ok.
  apply bind_ok in F as (w1 & [] & [G2 ->]%refuse_if_ok & F). apply bind_ok in F as (w1 & change & C & F).
  pose proof C as Rc. apply reads_ok in Rc as ->; [|by apply reads_change].
  apply bind_ok in F as (w1 & [] & [G3 ->]%refuse_if_ok & F). unfold here in F.
  apply bind_ok in F as (w1 & conditions & E & F). pose proof E as Re. apply reads_ok in Re as ->; [|apply reads_owner_conditions].
  apply bind_ok in F as (w1 & reposted & S & F). apply bind_ok in F as (w2 & [] & [_ ->]%refuse_if_ok & F).
  apply bind_ok in F as (w2 & [] & Au & F). injection F as <- <-.
  exists change, conditions, reposted, w1. split_bools. split_and!; try done.
  - by apply Forall_forall; intros proof Hin; eapply forallb_forall in G1; [|by apply list_elem_of_In].
  - by eapply bool_decide_eq_true_1.
  - apply (keeps_run beyond) in Au; [exact Au|]. by apply keeps_on_tables.
  - unfold writeStabilizationAudit in Au. apply on_tables_ok in Au as [Au _]. unfold RecordAudit, exec, statement, modify in Au.
    destruct (db_fault _ _ _); [done|]. injection Au as Au. unfold audited. rewrite <- Au. eexists. cbn.
    rewrite elem_of_app, list_elem_of_singleton. split; [by right|]. unfold audit_record. by destruct (stabilizationChannel ctx) as [[class kind] id].
Qed.

Lemma stabilize_dutiful ctx actor pid changeID proofs proofIDs evidence p :
  dutiful (stabilize_write world checks ctx actor pid changeID proofs proofIDs evidence p).
Proof.
  intros w w' result F Ok. apply stabilize_ok in F as (change & conditions & reposted & w1 & _ & _ & _ & _ & _ & E & _ & S & B & _).
  transitivity w1; [|apply duties_moved; unfold beyond, own in B; injection B; intros; unfold duties; congruence].
  apply patched_moved; [done|]. eapply settle_patches; [done| |apply patched_refl|exact S]. by eapply conditions_drawn.
Qed.

(** *** Assessing *)

Lemma audit_beyond actor pid action target details : keeps beyond (recordAuditEvent world actor pid action target details).
Proof. unfold recordAuditEvent. apply keeps_here. intros w. by apply keeps_on_tables. Qed.

Lemma reads_semantic_states p deltas : reads (semantic_states world checks p deltas).
Proof.
  induction deltas as [|delta deltas IH]; cbn; [apply keeps_ret|].
  apply keeps_bind; [|intros s; apply keeps_bind; [done|intros ss; apply keeps_ret]]. unfold semantic_state.
  apply keeps_bind; [by apply reads_semantic_value|intros value]. apply keeps_bind; [apply keeps_refuse_if|intros _].
  apply keeps_bind; [apply keeps_refuse_if|intros _]. apply keeps_bind; [|intros; apply keeps_ret].
  destruct (sd_ProposedRoute delta); [|apply keeps_ret]. apply reads_collect. intros; by apply reads_current_sources.
Qed.

Lemma reads_root_states p semantic roots states : reads (root_states world p semantic roots states).
Proof.
  revert states. induction roots as [|root roots IH]; intros states; cbn; [apply keeps_ret|].
  apply keeps_bind; [|intros state; apply IH]. destruct (semantic !! _); [apply keeps_ret|by apply reads_current_object].
Qed.

Lemma reads_eligible p edges states : reads (eligible_edges world p edges states).
Proof.
  assert (forall edge, reads (eligible_edge world p edge)) as R.
  { intros edge. unfold eligible_edge. apply keeps_bind; [by apply keeps_attempt, reads_current_object|intros source].
    apply keeps_bind; [by apply keeps_attempt, reads_current_object|intros target].
    destruct source, target; repeat (destruct (negb _)); apply keeps_ret || apply keeps_fail. }
  revert states. induction edges as [|edge edges IH]; intros states; cbn [eligible_edges]; [apply keeps_ret|].
  destruct (contains _ _); [|apply IH]. apply keeps_bind; [apply R|]. intros [[source target]|]; [|apply IH].
  apply keeps_bind; [apply IH|]. intros [states' valid]. apply keeps_ret.
Qed.

Lemma reads_explicit p change impacts states s : reads (explicit_impacts world p change impacts states s).
Proof.
  revert states s. induction impacts as [|impact impacts IH]; intros states s; cbn; [apply keeps_ret|].
  destruct (ci_ChapterVersionID impact); [|apply IH]. apply keeps_bind; [by apply reads_current_object|intros state; apply IH].
Qed.

Lemma reads_build p change : reads (buildImpactAssessment world checks p change).
Proof.
  unfold buildImpactAssessment. apply keeps_bind; [by apply reads_dependencies|intros edges].
  apply keeps_bind; [apply keeps_refuse_if|intros _]. apply keeps_bind; [apply reads_semantic_states|intros semantic].
  apply keeps_bind; [apply reads_root_states|intros states]. apply keeps_bind; [apply reads_eligible|intros [states' valid]].
  apply keeps_bind; [apply reads_explicit|intros [states2 reached]]. apply reads_here. intros w. apply keeps_ret.
Qed.

Lemma update_change_ok previous next w w' u : UpdateChangeSet world previous next w = (w', Ok u) ->
  exists row row', rm_changes w !! ch_ID previous = Some row /\ ch_Status row = ch_Status previous
  /\ ch_Status row' = ch_Status next /\ ch_ID row' = ch_ID row /\ w' = w <| rm_changes := <[ch_ID previous := row']> (rm_changes w) |>.
Proof.
  unfold UpdateChangeSet. intros F%rm_statement_ok. destruct (rm_changes w !! ch_ID previous) as [row|]; [|done].
  destruct (_ && _) eqn:E; [|done]. split_bools. injection F as <-. exists row. eexists. split; [done|]. split; [done|]. split; [|by split; [|reflexivity]]. done.
Qed.

Lemma save_assessment_ok value w w' u : SaveImpactAssessment world value w = (w', Ok u) ->
  exists version, w' = put_assessments (<[(ia_ProjectID value, ia_ChangeSetID value) :=
    {| vr_Version := version; vr_Body := value |}]> (rm_assessments w)) w.
Proof.
  unfold SaveImpactAssessment. intros (w1 & found & F1 & F)%bind_ok.
  rewrite (attempt_read _ w (reads_row world rm_assessments _ _)) in F1. injection F1 as <- <-. destruct (_.2) as [row|e].
  - apply swap_record_ok in F as (row' & _ & _ & ->). by eexists.
  - destruct (decide (e = ErrNotFound)); [|done]. apply insert_record_ok in F as [_ ->]. by eexists.
Qed.

(** An assessment that answers: the change set was one to assess, at the
    revision the project is at; what was built of it is stored, and its status
    moves. *)
Lemma assess_ok actor pid changeID p w w' next : assess_write world checks ports actor pid changeID p w = (w', Ok next) ->
  exists change assessment w1,
    Store_ChangeSet world checks pid changeID w = (w, Ok change)
    /\ ChangeSetStatusCanMove "assess" (ch_Status change) = true
    /\ ch_BaseContextRevision change = pr_CurrentContextRevision p /\ ch_BaseSpecRevision change = pr_SpecRevision p
    /\ buildImpactAssessment world checks p change w = (w, Ok assessment)
    /\ recordContextRevisionSnapshot world p (ch_ID change) w = (w1, Ok tt)
    /\ (exists version, rm_assessments w' = <[(ia_ProjectID assessment, ia_ChangeSetID assessment) :=
          {| vr_Version := version; vr_Body := assessment |}]> (rm_assessments w1))
    /\ (exists row row', rm_changes w1 !! ch_ID change = Some row /\ ch_Status row = ch_Status change
          /\ ch_ID row' = ch_ID row /\ ch_Status row' = ChangeSetStatusAssessed /\ rm_changes w' = <[ch_ID change := row']> (rm_changes w1))
    /\ duties w' = duties w1
    /\ (rm_candidates w' = rm_candidates w1 /\ rm_batches w' = rm_batches w1).
Proof.
  unfold assess_write. intros (w1 & change & C & F)%bind_ok. pose proof C as Rc. apply reads_ok in Rc as ->; [|by apply reads_change].
  apply bind_ok in F as (w1 & [] & [G1 ->]%refuse_if_ok & F). apply bind_ok in F as (w1 & [] & [G2 ->]%refuse_if_ok & F).
  apply bind_ok in F as (w1 & [] & [_ ->]%returned_run & F). unfold AssessChangeImpact in F. apply bind_ok in F as (w3 & [] & A & F).
  apply bind_ok in A as (w1 & assessment & B & A). pose proof B as Rb. apply reads_ok in Rb as ->; [|apply reads_build].
  apply bind_ok in A as (w1 & [] & R & A). apply save_assessment_ok in A as [version ->].
  apply bind_ok in F as (w3 & [] & U & F). apply update_change_ok in U as (row & row' & Fr & Es & Es' & Ei & ->).
  apply bind_ok in F as (w3 & [] & Au & F). injection F as <- _.
  apply (keeps_run beyond) in Au; [|apply audit_beyond]. unfold beyond, own in Au. injection Au as A1 A2 A3 A4 A5 A6 A7 A8 A9 A10 A11 A12 A13.
  exists change, assessment, w1. split_bools. split_and!; try done.
  - exists version. by rewrite A11.
  - exists row, row'. by rewrite A9.
  - unfold duties. by rewrite A5, A6.
Qed.

Lemma assess_dutiful actor pid changeID p : dutiful (assess_write world checks ports actor pid changeID p).
Proof.
  intros w w' next F _. apply assess_ok in F as (change & assessment & w1 & _ & _ & _ & _ & _ & R & _ & _ & D & _).
  apply duties_moved. rewrite D. by apply (keeps_run duties) in R; [|apply revision_duties].
Qed.
End Stabilizing.
