(* ===== verification/ImpactCalls.v ===== *)
(** The operations on impacts as the calls of one machine: a call leaves
    everything but the workspace's tables as it was, or did one business write
    ([call_outcome]); and how tasks, edges and change sets move over every
    history of calls. *)

From stdpp Require Import pretty sorting.
From S2P Require Import Prelude Effects OperationCore OperationStore OperationTheorems OperationEffect Workspace Permission MemberStore Membership OperationRunner RoadmapModel RoadmapStore RouteObjects Roadmap RoadmapLaws RoadmapHistory RoadmapSound RoadmapCommit RoadmapSteps RouteLaws ImpactStore ImpactStoreLaws Lineage Assessment Stabilization StabilizationSteps Impact ImpactService FaultInjection ImpactLaws ImpactWrites ImpactMoves.

Inductive impact_call :=
| CallCreateEdge (actor : Actor) (pid key : string) (input : DependencyEdgeInput)
| CallDecideEdge (actor : Actor) (pid id key : string) (input : DependencyDecisionInput)
| CallAct (actor : Actor) (pid id key : string) (input : ImpactTaskActionInput)
| CallAcknowledge (actor : Actor) (pid changeID id key : string)
| CallAssess (actor : Actor) (pid changeID key : string)
| CallStabilize (actor : Actor) (pid changeID key : string).

Section Calls.
Context {X : Type} `{Digester roadmap_any} (world : World X) `{!WorldLaws world} (checks : Checks) `{!ChecksLaws checks}
  (ports : ImpactPorts X).

Definition serve (ctx : Context X) (call : impact_call) : RM (string * Z * bool) :=
  match call with
  | CallCreateEdge actor pid key input => CreateDependencyEdge world checks ctx actor pid key input
  | CallDecideEdge actor pid id key input => DecideDependencyEdge world checks ctx actor pid id key input
  | CallAct actor pid id key input => ActOnImpactTask world checks ctx actor pid id key input
  | CallAcknowledge actor pid changeID id key => AcknowledgeImpactPreflight world checks ports ctx actor pid changeID id key
  | CallAssess actor pid changeID key => AssessChangeSet world checks ports ctx actor pid changeID key
  | CallStabilize actor pid changeID key => StabilizeRevision world checks ports ctx actor pid changeID key
  end.

(** The business write of a call, on the project it was authorized for. *)
Inductive business (ctx : Context X) : impact_call -> Project -> roadmap -> roadmap -> Prop :=
| business_create actor pid key input p w w' edge :
    bad_dependency_input input = false -> create_dependency world actor pid input p w = (w', Ok edge) ->
    business ctx (CallCreateEdge actor pid key input) p w w'
| business_decide actor pid id key input p w w' edge :
    bad_decision_input input = false -> decide_dependency world actor pid id input w = (w', Ok edge) ->
    business ctx (CallDecideEdge actor pid id key input) p w w'
| business_act actor pid id key input p w w' task :
    bad_task_action input = false -> act_on_task world checks ctx actor pid id input p w = (w', Ok task) ->
    business ctx (CallAct actor pid id key input) p w w'
| business_acknowledge actor pid changeID id key proof p w w' result :
    acknowledge_write world checks actor pid changeID id proof p w = (w', Ok result) ->
    business ctx (CallAcknowledge actor pid changeID id key) p w w'
| business_assess actor pid changeID key p w w' next :
    assess_write world checks ports actor pid changeID p w = (w', Ok next) ->
    business ctx (CallAssess actor pid changeID key) p w w'
| business_stabilize actor pid changeID key proofs proofIDs evidence p w w' result :
    stabilize_write world checks ctx actor pid changeID proofs proofIDs evidence p w = (w', Ok result) ->
    business ctx (CallStabilize actor pid changeID key) p w w'.

(** ** What only reads, or only touches the workspace's tables *)

Lemma beyond_tables {A} (m : T A) : keeps beyond (on_tables m).
Proof. by apply keeps_on_tables. Qed.

Lemma beyond_reads {A} (m : RM A) : reads m -> keeps beyond m.
Proof. intros R w. by rewrite (reads_run m w R). Qed.

Lemma beyond_collect {A B} (f : A -> RM (list B)) l : (forall a, keeps beyond (f a)) -> keeps beyond (rm_collect f l).
Proof.
  intros K. induction l as [|a l IH]; cbn; [apply keeps_ret|]. apply keeps_bind; [done|intros bs].
  apply keeps_bind; [done|intros; apply keeps_ret].
Qed.

Lemma beyond_human (ctx : Context X) : keeps beyond (RequireHuman ctx).
Proof. intros w. unfold RequireHuman. by destruct (RequireHumanDecision _ _). Qed.

Lemma beyond_deltas p deltas : keeps beyond (delta_source_ids world checks ports p deltas).
Proof.
  induction deltas as [|delta deltas IH]; cbn; [apply keeps_ret|].
  apply keeps_bind; [by apply beyond_reads, reads_semantic_value|intros current].
  apply keeps_bind; [apply beyond_tables|intros proposed]. apply keeps_bind; [|intros; apply keeps_bind; [done|intros; apply keeps_ret]].
  destruct (sd_ProposedRoute delta); [|apply keeps_ret]. apply beyond_reads, reads_collect. intros; by apply reads_current_sources.
Qed.

Lemma beyond_assessed id p : keeps beyond (resolve_assessed world checks ports id p).
Proof.
  unfold resolve_assessed. apply keeps_bind; [by apply beyond_reads, reads_change|intros change].
  apply keeps_bind; [|intros ids; apply keeps_bind; [|intros; apply keeps_ret]].
  - unfold semanticSourceIDs. apply keeps_bind; [apply beyond_tables|intros _]. apply keeps_bind; [apply beyond_deltas|intros; apply keeps_ret].
  - unfold assessedSourceIDs. apply keeps_bind; [by apply beyond_reads, reads_build|intros; apply keeps_ret].
Qed.

Lemma beyond_source_access actor pid id : keeps beyond (source_access world checks actor pid id).
Proof.
  unfold source_access. destruct (_ =? _)%string; [apply keeps_ret|]. apply keeps_bind; [apply beyond_tables|intros p].
  apply keeps_bind; [by apply beyond_reads, reads_source_access|intros; apply keeps_ret].
Qed.

Lemma beyond_inverse actor pid target : keeps beyond (inverseOperationAccess world checks actor pid target).
Proof.
  unfold inverseOperationAccess. apply keeps_bind; [by apply beyond_reads, reads_change|intros change].
  apply keeps_bind; [by apply beyond_reads, reads_lineage|intros source]. apply beyond_source_access.
Qed.

Lemma beyond_sources resolver target pid : (forall id p, keeps beyond (resolver id p)) ->
  keeps beyond (OperationSourceIDs world checks resolver target pid).
Proof.
  intros R. unfold OperationSourceIDs, ProjectForImpact. apply keeps_bind; [apply beyond_tables|intros p].
  destruct (negb _); [apply keeps_ret|]. apply keeps_bind; [apply R|intros [refs ids]].
  apply keeps_bind; [by apply beyond_reads, reads_refs_sources|intros; apply keeps_ret].
Qed.

Lemma beyond_transaction {A} zero options (body : RM A) : to_RetryLocks options = false -> keeps beyond body ->
  keeps beyond (transaction world zero options body).
Proof.
  intros N K w. destruct (transaction world zero options body w) as [w' r] eqn:F.
  apply (transaction_outcome world) in F; [|done]. destruct r as [a|e]; [|by subst]. destruct F as [F _].
  by apply (keeps_run beyond) in F.
Qed.

Lemma reads_unchanged p states : reads (unchanged world p states).
Proof.
  induction states as [|[ref state] states IH]; cbn; [apply keeps_ret|].
  apply keeps_bind; [by apply reads_current_object|intros current].
  apply keeps_bind; [apply keeps_refuse_if|by intros _].
Qed.

Lemma beyond_basis ctx request refs : keeps beyond (read_basis world ctx request refs).
Proof.
  apply beyond_transaction; [done|]. apply keeps_bind; [apply beyond_tables|intros p].
  apply keeps_bind; [|intros; apply keeps_ret]. apply keeps_rm_traverse. intros ref.
  apply keeps_bind; [by apply beyond_reads, reads_current_object|intros; apply keeps_ret].
Qed.

(** ** A call *)

(** The write of a call ran, or nothing did. *)
Definition moved_by (P : Project -> roadmap -> roadmap -> Prop) (w w' : roadmap) : Prop :=
  beyond w' = beyond w \/ exists p w0 w1, beyond w0 = beyond w /\ P p w0 w1 /\ beyond w' = beyond w1.

Lemma moved_by_before P w w0 w' : beyond w0 = beyond w -> moved_by P w0 w' -> moved_by P w w'.
Proof.
  intros E [E'|(p & w1 & w2 & E1 & HP & E2)]; [left; congruence|]. right. exists p, w1, w2. split_and!; [congruence|done..].
Qed.

Lemma moved_by_bind {A} (P : Project -> roadmap -> roadmap -> Prop) (m : RM A) (k : A -> RM (string * Z * bool)) :
  keeps beyond m -> (forall a w w' r, k a w = (w', r) -> moved_by P w w') ->
  forall w w' r, (m ≫= k) w = (w', r) -> moved_by P w w'.
Proof.
  intros Km Pk w w' r. unfold mbind, M_bind. destruct (m w) as [w1 [a|e]] eqn:F; apply (keeps_run beyond) in F; [|done| |done].
  - intros G. eapply moved_by_before; [exact F|]. by eapply Pk.
  - intros G. injection G as <- _. by left.
Qed.

Lemma run_moved (P : Project -> roadmap -> roadmap -> Prop) ctx actor name target key body request sources
  (write : Project -> RM (roadmap_any * string * Z)) w w' r : rq_Actor request = actor ->
  (forall decode, sources = Some decode -> forall o b, keeps beyond (decode o b)) ->
  (forall p w w' a, write p w = (w', Ok a) -> P p w w') ->
  run_operation world ctx actor name target key body request sources write w = (w', r) -> moved_by P w w'.
Proof.
  intros Ea Cs HP F. apply (operation_moves world beyond) in F; [|done..]. destruct F as [F|F]; [by left|]. right.
  apply (ran_as_project world beyond) in F as (w0 & w1 & p & a & Ep & E0 & F & E1).
  exists p, w0, w1. split_and!; try done. by eapply HP.
Qed.

Lemma run_impact_moved (P : Project -> roadmap -> roadmap -> Prop) ctx actor name target key body request resolver
  (write : Project -> RM (roadmap_any * Z)) w w' r : rq_Actor request = actor ->
  (forall id p, keeps beyond (resolver id p)) ->
  (forall p w w' a, write p w = (w', Ok a) -> P p w w') ->
  run_impact world checks ctx actor name target key body request resolver write w = (w', r) -> moved_by P w w'.
Proof.
  intros Ea R HP. apply run_moved; [done| |].
  - intros decode E o b. injection E as <-. by apply beyond_sources.
  - intros p w1 w2 a (w3 & [value status] & F & G)%bind_ok. injection G as <- _. by eapply HP.
Qed.

Lemma checked_moved (P : Project -> roadmap -> roadmap -> Prop) ctx actor name target key body refs request resolver
  (write : Project -> RM (roadmap_any * Z)) w w' r : rq_Actor request = actor ->
  (forall id p, keeps beyond (resolver id p)) ->
  (forall p w w' a, write p w = (w', Ok a) -> P p w w') ->
  checkedImpactWrite world checks ctx actor name target key body refs request resolver write w = (w', r) -> moved_by P w w'.
Proof.
  intros Ea R HP. unfold checkedImpactWrite. apply moved_by_bind; [apply beyond_basis|]. intros [basis states] w1 w2 r2.
  revert w1 w2 r2. apply moved_by_bind; [by apply keeps_map_error, beyond_tables|]. intros _ w1 w2 r2.
  apply run_impact_moved; [done..|]. intros p w3 w4 a (w5 & [] & [_ ->]%refuse_if_ok & F)%bind_ok.
  apply bind_ok in F as (w5 & [] & U & F). apply reads_ok in U as ->; [|apply reads_unchanged]. by eapply HP.
Qed.

Lemma refused_moved P (c : bool) err (k : unit -> RM (string * Z * bool)) :
  (c = false -> forall w w' r, k tt w = (w', r) -> moved_by P w w') ->
  forall w w' r, (refuse_if c err ≫= k) w = (w', r) -> moved_by P w w'.
Proof. intros K w w' r. destruct c; [|by apply K]. intros F. injection F as <- _. by left. Qed.

Lemma beyond_task_action input id p : keeps beyond (resolveImpactTaskAction world input id p).
Proof. apply beyond_reads. unfold resolveImpactTaskAction. apply keeps_bind; [by apply reads_task|intros task; apply keeps_ret]. Qed.

Lemma beyond_stabilization id p : keeps beyond (resolveStabilizationTasks world id p).
Proof. apply beyond_reads. unfold resolveStabilizationTasks. apply keeps_bind; [by apply reads_tasks|intros tasks; apply keeps_ret]. Qed.

Lemma beyond_decision id p : keeps beyond (resolveDependencyEdgeDecision world id p).
Proof. apply beyond_reads. unfold resolveDependencyEdgeDecision. apply keeps_bind; [by apply reads_dependency|intros edge; apply keeps_ret]. Qed.

Lemma beyond_recheck ctx actor pid id : keeps beyond (recheckImpactPreflight world ports ctx actor pid id).
Proof.
  unfold recheckImpactPreflight. destruct (ip_preflight ports); [|apply keeps_fail].
  apply keeps_bind; [apply beyond_tables|intros p]. apply keeps_bind; [apply beyond_tables|intros proof].
  apply keeps_bind; [apply keeps_refuse_if|intros _]. apply keeps_bind; [apply beyond_tables|intros; apply keeps_ret].
Qed.

Lemma beyond_closure p changeID : keeps beyond (closure_read world p changeID).
Proof.
  unfold closure_read. apply keeps_bind; [by apply beyond_reads, reads_tasks|intros tasks].
  apply keeps_bind; [|intros sources; apply keeps_ret]. apply beyond_collect. intros task.
  destruct (is_block task); [apply keeps_ret|]. apply beyond_collect. intros ref. apply beyond_reads. unfold closure_sources.
  apply keeps_bind; [by apply keeps_attempt, reads_current_object|]. intros [state|e]; [apply keeps_ret|].
  destruct (errors_Is _ _); [|apply keeps_fail]. apply keeps_bind; [by apply reads_object|intros; apply keeps_ret].
Qed.

(** Inversion of the answer a write is wrapped in. *)
Ltac answered F := apply bind_ok in F as (? & ? & F & G); injection G as <- _.

Lemma create_moved ctx actor pid key input w w' r : serve ctx (CallCreateEdge actor pid key input) w = (w', r) ->
  moved_by (business ctx (CallCreateEdge actor pid key input)) w w'.
Proof.
  apply moved_by_bind; [destruct (negb _); [apply beyond_human|apply keeps_ret]|intros _].
  apply refused_moved. intros B w1 w2 r2. apply checked_moved; [done|intros; apply keeps_ret|].
  intros p w3 w4 a (w5 & [edge status] & F & G)%bind_ok. injection G as <- _. by eapply business_create.
Qed.

Lemma decide_moved ctx actor pid id key input w w' r : serve ctx (CallDecideEdge actor pid id key input) w = (w', r) ->
  moved_by (business ctx (CallDecideEdge actor pid id key input)) w w'.
Proof.
  apply moved_by_bind; [apply beyond_human|intros _]. apply refused_moved. intros B. apply moved_by_bind.
  - apply beyond_transaction; [done|]. apply keeps_bind; [apply beyond_tables|intros; by apply beyond_reads, reads_dependency].
  - intros edge w1 w2 r2. apply checked_moved; [done|apply beyond_decision|].
    intros p w3 w4 a F. answered F. by eapply business_decide.
Qed.

Lemma act_moved ctx actor pid id key input w w' r : serve ctx (CallAct actor pid id key input) w = (w', r) ->
  moved_by (business ctx (CallAct actor pid id key input)) w w'.
Proof.
  apply moved_by_bind; [apply beyond_human|intros _]. apply refused_moved. intros B w1 w2 r2.
  apply checked_moved; [done|apply beyond_task_action|]. intros p w3 w4 a F. answered F. by eapply business_act.
Qed.

Lemma acknowledge_moved ctx actor pid changeID id key w w' r : serve ctx (CallAcknowledge actor pid changeID id key) w = (w', r) ->
  moved_by (business ctx (CallAcknowledge actor pid changeID id key)) w w'.
Proof.
  apply moved_by_bind; [apply beyond_human|intros _]. apply refused_moved. intros _.
  apply moved_by_bind; [apply beyond_tables|intros _]. apply moved_by_bind; [apply beyond_recheck|intros proof w1 w2 r2].
  apply run_impact_moved; [done| |].
  - intros ? p. unfold resolveAcknowledgedPreflight. apply keeps_bind; [apply keeps_refuse_if|intros _; apply keeps_ret].
  - intros p w3 w4 a F. answered F. by eapply business_acknowledge.
Qed.

Lemma assess_moved ctx actor pid changeID key w w' r : serve ctx (CallAssess actor pid changeID key) w = (w', r) ->
  moved_by (business ctx (CallAssess actor pid changeID key)) w w'.
Proof.
  cbn [serve]. unfold AssessChangeSet. apply run_moved; [done| |].
  - intros decode E o b. injection E as <-. apply keeps_bind; [apply beyond_inverse|intros _]. apply beyond_sources, beyond_assessed.
  - intros p w3 w4 a F. answered F. by eapply business_assess.
Qed.

Lemma stabilize_moved ctx actor pid changeID key w w' r : serve ctx (CallStabilize actor pid changeID key) w = (w', r) ->
  moved_by (business ctx (CallStabilize actor pid changeID key)) w w'.
Proof.
  apply moved_by_bind; [apply beyond_human|intros _]. apply moved_by_bind.
  - apply beyond_transaction; [done|]. apply keeps_bind; [apply beyond_tables|intros p; apply beyond_closure].
  - intros [[proofIDs evidence] sources]. apply moved_by_bind; [apply beyond_tables|intros _]. apply moved_by_bind.
    + apply keeps_rm_traverse. intros id. apply beyond_recheck.
    + intros proofs w1 w2 r2. apply checked_moved; [done|apply beyond_stabilization|].
      intros p w3 w4 a F. answered F. by eapply business_stabilize.
Qed.

(** Every call. *)
Lemma call_outcome ctx call w w' r : serve ctx call w = (w', r) -> moved_by (business ctx call) w w'.
Proof.
  destruct call; [apply create_moved|apply decide_moved|apply act_moved|apply acknowledge_moved|apply assess_moved|apply stabilize_moved].
Qed.

Lemma business_dutiful ctx call p w w' : business ctx call p w w' -> duties_ok world w -> moved world w w'.
Proof.
  intros [actor pid key input q w1 w2 edge _ F|actor pid id key input q w1 w2 edge _ F|actor pid id key input q w1 w2 task _ F
    |actor pid changeID id key proof q w1 w2 result F|actor pid changeID key q w1 w2 next F
    |actor pid changeID key proofs proofIDs evidence q w1 w2 result F] Ok.
  - by eapply (create_dutiful world).
  - by eapply (decide_dutiful world).
  - by eapply (act_dutiful world checks).
  - by eapply (acknowledge_dutiful world checks).
  - by eapply (assess_dutiful world checks ports).
  - by eapply (stabilize_dutiful world checks).
Qed.

Lemma beyond_moved w w' : beyond w' = beyond w -> moved world w w'.
Proof. intros E. apply (R_elsewhere (ok := duties_ok world)). unfold beyond in E. injection E. intros. unfold elsewhere, own. congruence. Qed.

(** ** How impacts move *)

(** A call on impacts, a call of the roadmap, the application of a change set
    with the raising of its tasks, or anything that leaves tasks and edges
    alone. *)
Inductive impact_step (w w' : roadmap) : Prop :=
| impact_served ctx call r : serve ctx call w = (w', r) -> impact_step w w'
| impact_roadmap ctx call r : perform world ctx call w = (w', r) -> impact_step w w'
| impact_applied actor before next reason deltas r :
    transaction world tt read_write (apply_deltas world actor before next reason deltas) w = (w', r) -> impact_step w w'
| impact_raised tenant p change r : (forall write, ip_writer ports = Some write -> TaskWriter world write) ->
    transaction world tt read_write (commitChangeImpactTasks world checks ports (ip_writer ports) tenant p change) w = (w', r) ->
    impact_step w w'
| impact_other : duties w' = duties w -> impact_step w w'.

Lemma step_moved w w' : impact_step w w' -> duties_ok world w -> moved world w w'.
Proof.
  intros [ctx call r F|ctx call r F|actor before next reason deltas r F|tenant p change r W F|E] Ok.
  - apply call_outcome in F as [E|(p & w0 & w1 & E0 & B & E1)]; [by apply beyond_moved|].
    transitivity w0; [by apply beyond_moved|]. transitivity w1; [|by apply beyond_moved].
    eapply business_dutiful; [done|]. eapply (R_ok (R := moved world)); [by apply beyond_moved|done].
  - by eapply (call_dutiful world).
  - by eapply (steered_transaction (duties_ok world) (moved world) world); [|apply (apply_dutiful world)|exact F|].
  - by eapply (steered_transaction (duties_ok world) (moved world) world); [|apply (raise_dutiful world checks ports)|exact F|].
  - by apply duties_moved.
Qed.

Lemma steps_moved w w' : rtc impact_step w w' -> duties_ok world w -> moved world w w'.
Proof.
  induction 1 as [w|w w1 w' S _ IH]; intros Ok; [done|]. apply step_moved in S; [|done].
  transitivity w1; [exact S|]. apply IH. by apply S.
Qed.
End Calls.
