(* ===== verification/ImpactExact.v ===== *)
(** What one business write on impacts does exactly: the work on a task, the
    closing of the release blocks by a proof, the verdict of a stabilization,
    and the raising of the tasks of a change set. *)

From stdpp Require Import pretty sorting.
From Stdlib Require Import Ascii String.
From S2P Require Import Prelude Effects OperationCore OperationStore OperationTheorems Workspace Permission MemberStore Membership OperationRunner RoadmapModel RoadmapStore RouteObjects Roadmap RoadmapLaws RoadmapHistory RoadmapSound RoadmapCommit RoadmapSteps RouteLaws ImpactStore ImpactStoreLaws Assessment AssessmentTheorems Stabilization StabilizationSteps Impact ImpactService FaultInjection ImpactLaws ImpactWrites ImpactMoves ImpactCalls.

(** Everything of the roadmap but its tasks. *)
Definition beside_tasks (w : roadmap) :=
  (rm_sessions w, rm_edges w, rm_nodes w, rm_versions w, rm_dependencies w, rm_revisions w, rm_handoffs w,
   rm_changes w, rm_plans w, rm_assessments w).

Lemma beyond_split w w' : beyond w' = beyond w -> rm_tasks w' = rm_tasks w /\ beside_tasks w' = beside_tasks w.
Proof. unfold beyond, own, beside_tasks. intros E. injection E. intros. split; congruence. Qed.

Lemma beyond_fields w w' : beyond w' = beyond w -> rm_changes w' = rm_changes w /\ rm_assessments w' = rm_assessments w
  /\ rm_handoffs w' = rm_handoffs w /\ rm_dependencies w' = rm_dependencies w /\ rm_revisions w' = rm_revisions w.
Proof. unfold beyond, own. intros E. injection E. intros. split_and!; done. Qed.

Section Exact.
Context {X : Type} `{Digester roadmap_any} (world : World X) `{!WorldLaws world} (checks : Checks) `{!ChecksLaws checks}.

(** ** Working a task *)

(** The one task of a project with an identifier and a version. *)
Definition task_at (w : roadmap) (pid id : string) (version : Z) (row : versionedRecord ImpactTask) : Prop :=
  rm_tasks w !! (pid, ImpactTaskIdentity (vr_Body row)) = Some row /\ it_ID (vr_Body row) = id
  /\ it_Version (vr_Body row) = version.

(** What a person's action makes of a task: it is marked stale, as its
    revision, its target or its assignee is gone; or it was being worked, at
    the revision the person saw, and takes the step of the action. *)
Inductive task_outcome (actor : Actor) (p : Project) (input : ImpactTaskActionInput) (task : ImpactTask) : ImpactTask -> Prop :=
| outcome_stale reason now : reason = ImpactTaskStaleTargetReplaced \/ reason = ImpactTaskStaleAssigneeRevoked ->
    it_Status task <> "STALE" -> task_outcome actor p input task (staled reason now task)
| outcome_worked now mid : working task -> it_TargetRevision task = pr_CurrentContextRevision p ->
    ta_TargetRevision input = pr_CurrentContextRevision p ->
    (contains ["assign"; "dismiss"] (ta_Action input) = false -> it_AssigneeID task = ac_UserID actor) ->
    act_result task mid -> task_outcome actor p input task (acted input now mid).

Lemma update_exact row next pid w w' u : rm_tasks w !! (pid, ImpactTaskIdentity (vr_Body row)) = Some row ->
  it_ProjectID (vr_Body row) = pid -> UpdateImpactTask world (vr_Body row) next w = (w', Ok u) ->
  vr_Version row = it_Version (vr_Body row) ->
  rm_tasks w' = <[(pid, ImpactTaskIdentity (vr_Body row)) := {| vr_Version := vr_Version row +i 1; vr_Body := next |}]> (rm_tasks w)
  /\ beside_tasks w' = beside_tasks w.
Proof.
  intros F <- U V. apply swap_record_ok in U as (row' & F' & _ & ->). split; [|done]. cbn. by rewrite V.
Qed.

Lemma stale_reason_beyond ctx actor p task action : keeps beyond (impactTaskStaleReason world ctx actor p task action).
Proof.
  unfold impactTaskStaleReason. destruct (negb _); [apply keeps_ret|]. apply keeps_bind.
  - destruct (_ && _); [|apply keeps_ret]. apply keeps_bind; [apply keeps_attempt, beyond_tables|intros; apply keeps_ret].
  - intros [|]; [apply keeps_ret|]. apply keeps_bind; [by apply beyond_reads, reads_stale_target|intros; apply keeps_ret].
Qed.

Lemma stale_reason_ok ctx actor p task action w w' reason :
  impactTaskStaleReason world ctx actor p task action w = (w', Ok reason) ->
  beyond w' = beyond w /\ (reason = "" \/ reason = ImpactTaskStaleTargetReplaced \/ reason = ImpactTaskStaleAssigneeRevoked).
Proof.
  intros F. split; [by apply (keeps_run beyond) in F; [|apply stale_reason_beyond]|].
  revert F. unfold impactTaskStaleReason. destruct (negb _); [intros F; injection F as _ <-; by right; left|].
  intros (w1 & [|] & _ & F)%bind_ok; [injection F as _ <-; by right; right|].
  apply bind_ok in F as (w2 & r & S & F). injection F as _ <-.
  assert (r = "" \/ r = ImpactTaskStaleTargetReplaced) as Hr.
  { revert S. unfold staleTargetReason. destruct (negb (validObjectRef _)); [intros [= <-]; by right|].
    intros (w3 & [s|e] & _ & G)%bind_ok; injection G as _ <-; [by left|]. destruct (moved_on e); [by right|by left]. }
  match goal with |- context [if ?b then r else _] => destruct b end; [|by left].
  destruct Hr; [by left|by right; left].
Qed.

Lemma act_keeps ctx actor pid p input task : keeps beyond (act world checks ctx actor pid p input task).
Proof.
  assert (forall refs t matched, reads (follow_evidence world checks p input refs t matched)) as Rf.
  { induction refs as [|ref refs IH]; intros t matched; cbn [follow_evidence]; [apply keeps_ret|].
    apply keeps_bind; [by apply reads_current_object|intros state]. destruct (_ && (_ =? _)%string); [|apply IH].
    apply keeps_bind; [|intros t'; apply keeps_bind; [apply keeps_refuse_if|intros _; apply IH]].
    destruct (_ && _); (apply keeps_bind; [|intros]); try apply keeps_refuse_if; try apply keeps_ret; [by intros w|].
    apply keeps_bind; [apply keeps_refuse_if|intros _; apply keeps_ret]. }
  unfold act. destruct (_ =? "assign")%string.
  { apply keeps_bind; [apply keeps_refuse_if|intros _]. apply keeps_bind; [apply beyond_tables|intros; apply keeps_ret]. }
  destruct (_ =? "start")%string; [apply keeps_ret|]. destruct (_ =? "wait")%string; [apply keeps_ret|].
  destruct (_ =? "dismiss")%string; [apply keeps_bind; [apply keeps_refuse_if|intros _; apply keeps_ret]|].
  destruct (_ =? "complete")%string; [|apply keeps_ret].
  unfold complete_task. apply keeps_bind; [apply keeps_refuse_if|intros _]. destruct (_ || _).
  - apply keeps_bind; [apply beyond_tables|intros; apply keeps_ret].
  - apply keeps_bind; [by apply beyond_reads|intros [t m]]. apply keeps_bind; [apply keeps_refuse_if|intros; apply keeps_ret].
Qed.

Lemma act_exact ctx actor pid id input p w w' next : duties_ok world w ->
  act_on_task world checks ctx actor pid id input p w = (w', Ok next) ->
  exists row, task_at w pid id (ta_ExpectedVersion input) row /\ task_outcome actor p input (vr_Body row) next
  /\ rm_tasks w' = <[(pid, ImpactTaskIdentity (vr_Body row)) := {| vr_Version := vr_Version row +i 1; vr_Body := next |}]> (rm_tasks w)
  /\ beside_tasks w' = beside_tasks w.
Proof.
  intros Ok F. unfold act_on_task in F. apply bind_ok in F as (w1 & task & L & F).
  apply task_listed in L as (-> & Ep & Ei & row & Fr & <-); [|done..]. apply bind_ok in F as (w1 & [] & [V ->]%refuse_if_ok & F).
  apply bind_ok in F as (w1 & reason & Re & F). pose proof (to_version _ _ _ _ (ok_tasks _ _ Ok _ _ _ Fr)) as Vr. rewrite Ep in Fr.
  assert (beyond w1 = beyond w /\ (reason <> "" -> it_Status (vr_Body row) <> "STALE" /\
    (reason = ImpactTaskStaleTargetReplaced \/ reason = ImpactTaskStaleAssigneeRevoked))) as [B Hr].
  { destruct (_ =? "STALE")%string eqn:Es; [by injection Re as <- <-|]. apply stale_reason_ok in Re as [B R]. split_bools.
    split; [done|]. intros N. split; [done|]. by destruct R. }
  apply beyond_split in B as [Bt Bb]. exists row. split; [by split_bools|].
  destruct (reason =? "")%string eqn:Er; split_bools.
  - revert F. unfold work_task. intros (w2 & [] & [Rv ->]%refuse_if_ok & F)%bind_ok.
    apply bind_ok in F as (w2 & [] & [St ->]%refuse_if_ok & F). apply bind_ok in F as (w2 & [] & A & F).
    apply bind_ok in F as (w3 & mid & Ac & F). unfold here in F. apply bind_ok in F as (w4 & [] & U & F).
    apply bind_ok in F as (w5 & [] & Au & F). injection F as <- <-.
    assert (working (vr_Body row)) as Wk by (apply not_closed_working; [by apply (to_status _ _ _ _ (ok_tasks _ _ Ok _ _ _ Fr))|done]).
    assert (beyond w2 = beyond w1) as B2.
    { eapply (keeps_run beyond); [|exact A]. destruct (contains _ (ta_Action input)); [|apply keeps_refuse_if].
      apply keeps_bind; [apply beyond_tables|intros; apply keeps_ret]. }
    pose proof Ac as B3. apply (keeps_run beyond) in B3; [|apply act_keeps]. destruct (act_ok world checks _ _ _ _ _ _ _ _ _ Wk Ac) as [_ R].
    apply beyond_split in B2 as [T2 O2], B3 as [T3 O3]. 
    assert (rm_tasks w3 !! (pid, ImpactTaskIdentity (vr_Body row)) = Some row) as F3 by by rewrite T3, T2, Bt.
    destruct (update_exact _ _ _ _ _ _ F3 Ep U Vr) as [T4 O4].
    apply (keeps_run beyond) in Au; [|apply audit_beyond]. apply beyond_split in Au as [T5 O5].
    split_bools. split; [|split; [by rewrite T5, T4, T3, T2, Bt|congruence]]. apply outcome_worked; try done.
    intros N. rewrite N in A. apply refuse_if_ok in A as [A _]. by split_bools.
  - destruct (Hr Er) as [Ns R]. revert F. unfold markImpactTaskStale. destruct (_ =? "STALE")%string eqn:Es; [by split_bools|].
    unfold here. intros (w2 & [] & U & F)%bind_ok. apply bind_ok in F as (w3 & [] & Au & F). injection F as <- <-.
    assert (rm_tasks w1 !! (pid, ImpactTaskIdentity (vr_Body row)) = Some row) as F1 by by rewrite Bt.
    destruct (update_exact _ _ _ _ _ _ F1 Ep U Vr) as [T4 O4].
    apply (keeps_run beyond) in Au; [|apply audit_beyond]. apply beyond_split in Au as [T5 O5].
    split; [by apply outcome_stale|]. split; [by rewrite T5, T4, Bt|congruence].
Qed.

(** ** Closing the release blocks *)

Definition key_of (task : ImpactTask) : string * string := (it_ProjectID task, ImpactTaskIdentity task).

Lemma each_update_exact (f : Z -> ImpactTask -> ImpactTask) l w0 w w' u : duties_ok world w0 -> (forall task, task ∈ l -> listed w0 task) ->
  rm_each l (fun task => here (fun w => UpdateImpactTask world task (f (wd_now world w) task))) w = (w', Ok u) ->
  beside_tasks w' = beside_tasks w
  /\ (forall k, k ∉ key_of <$> l -> rm_tasks w' !! k = rm_tasks w !! k)
  /\ (forall task, task ∈ l -> exists row now, rm_tasks w0 !! key_of task = Some row /\ vr_Body row = task
        /\ rm_tasks w' !! key_of task = Some {| vr_Version := vr_Version row +i 1; vr_Body := f now task |}).
Proof.
  intros Ok. revert w. induction l as [|task l IH]; intros w L; cbn [rm_each].
  { intros F. injection F as <-. split; [done|]. split; [done|]. by intros task Hin%not_elem_of_nil. }
  unfold here at 1. intros (w1 & [] & U & F)%bind_ok. apply IH in F as (B & O & I); [|intros t Hin; apply L; by right].
  apply swap_record_ok in U as (row & Fr & V & ->). split; [exact B|]. split.
  - intros k N. rewrite fmap_cons, not_elem_of_cons in N. destruct N as [N1 N2]. rewrite O by done. cbn.
    by rewrite lookup_insert_ne by (intros E; by apply N1).
  - intros t [->|Hin]%elem_of_cons; [|by apply I]. destruct (decide (key_of task ∈ key_of <$> l)) as [Hk|Hk].
    + apply list_elem_of_fmap in Hk as (t & Ek & Hin). destruct (I t Hin) as (row0 & now & F0 & Eb & F1).
      destruct (L task) as (row1 & F2 & Eb1); [by left|]. change (rm_tasks w0 !! key_of task = Some row1) in F2.
      rewrite <- Ek in F0, F1. assert (row1 = row0) as -> by congruence. assert (t = task) as -> by congruence.
      by exists row0, now.
    + destruct (L task) as (row1 & F2 & Eb1); [by left|]. exists row1, (wd_now world w). split; [done|]. split; [done|].
      rewrite O by done. cbn. change (it_ProjectID task, ImpactTaskIdentity task) with (key_of task). rewrite lookup_insert_eq.
      do 2 f_equal. rewrite <- Eb1. by rewrite (to_version _ _ _ _ (ok_tasks _ _ Ok _ _ _ F2)).
Qed.

Lemma acknowledge_exact actor pid changeID id proof p w w' result : duties_ok world w ->
  acknowledge_write world checks actor pid changeID id proof p w = (w', Ok result) ->
  validImpactPreflight p id proof = true /\ beside_tasks w' = beside_tasks w
  /\ forall pid' key row, rm_tasks w !! (pid', key) = Some row ->
       if bool_decide (pid' = pid) && awaits_proof p changeID (proof_closure id proof) (vr_Body row)
       then exists now, rm_tasks w' !! (pid', key)
         = Some {| vr_Version := vr_Version row +i 1; vr_Body := acknowledged (proof_closure id proof) now (vr_Body row) |}
       else rm_tasks w' !! (pid', key) = Some row.
Proof.
  intros Ok F. unfold acknowledge_write in F. apply bind_ok in F as (w1 & [] & [G ->]%refuse_if_ok & F).
  apply bind_ok in F as (w1 & ch & R & F). apply reads_ok in R as ->; [|by apply reads_change].
  apply bind_ok in F as (w1 & [] & [_ ->]%refuse_if_ok & F). apply bind_ok in F as (w1 & tasks & L & F).
  apply list_listed in L as [-> L]; [|done..]. apply bind_ok in F as (w1 & [] & Ea & F).
  apply bind_ok in F as (w2 & [] & Au & F). injection F as <- _.
  apply (keeps_run beyond) in Au; [|apply audit_beyond]. apply beyond_split in Au as [T2 O2].
  apply (each_update_exact (fun now task => acknowledged (proof_closure id proof) now task) _ w) in Ea as (B & O & I); [|done|].
  2: { intros task [_ Hin]%list_elem_of_filter. by apply L. }
  split_bools. split; [done|]. split; [congruence|]. intros pid' key row Fr. pose proof (ok_tasks _ _ Ok _ _ _ Fr) as To.
  assert (key_of (vr_Body row) = (pid', key)) as Ek by (unfold key_of; by rewrite (to_project _ _ _ _ To), (to_key _ _ _ _ To)).
  assert (forall task, task ∈ tasks -> key_of task = (pid', key) -> task = vr_Body row) as Un.
  { intros task [_ (row1 & F1 & <-)]%L E. unfold key_of in E. rewrite E in F1. by assert (row1 = row) as -> by congruence. }
  rewrite T2. destruct (bool_decide _ && _) eqn:A.
  - apply andb_true_iff in A as [Ep%bool_decide_eq_true_1 A]. subst pid'. destruct (I (vr_Body row)) as (row1 & now & F1 & Eb & E).
    { apply list_elem_of_filter. split; [done|]. apply L. split; [apply To|]. exists row. split; [|done].
      change (rm_tasks w !! key_of (vr_Body row) = Some row). by rewrite Ek. }
    rewrite Ek in F1, E. assert (row1 = row) as -> by congruence. by exists now.
  - rewrite O; [done|]. intros (task & E & [Aw Hin]%list_elem_of_filter)%list_elem_of_fmap. pose proof Hin as [Ep _]%L.
    rewrite <- (Un task Hin (eq_sym E)), Aw, andb_true_r in A. apply bool_decide_eq_false_1 in A. apply A.
    unfold key_of in E. injection E as -> _. exact Ep.
Qed.

(** ** Change sets *)

(** Change sets are stored by their id. *)
Definition changes_keyed (w : roadmap) : Prop := forall id change, rm_changes w !! id = Some change -> ch_ID change = id.

Lemma change_ok pid id w w' change : Store_ChangeSet world checks pid id w = (w', Ok change) ->
  exists row, rm_changes w !! id = Some row /\ ch_ID change = ch_ID row /\ ch_Status change = ch_Status row
  /\ ch_ProjectID row = pid /\ ch_ProjectID change = pid /\ ch_TargetContextRevision change = ch_TargetContextRevision row.
Proof.
  unfold Store_ChangeSet. intros (w1 & found & [-> ->]%rm_query_ok & F)%bind_ok.
  destruct (rm_changes w !! id) as [row|]; [|done]. apply bind_ok in F as (w1 & [] & [G ->]%refuse_if_ok & F).
  apply bind_ok in F as (w1 & c & Hy & F). unfold HydrateSemanticChange in Hy. apply bind_ok in Hy as (w2 & plan & _ & Hy).
  injection Hy as -> <-. exists row. split_bools. split; [done|]. revert F. unfold withCurrentImpactStatus.
  destruct (ch_TargetSpecRevision _) as [target|]; [|intros F; by injection F as _ <-].
  destruct (ch_Status _ =? ChangeSetStatusApplied)%string; [|intros F; by injection F as _ <-].
  intros (w3 & impacts & _ & F)%bind_ok. by injection F as _ <-.
Qed.

(** What the writes on tasks and edges leave alone: change sets, and the
    candidates of edges. *)
Definition pool (w : roadmap) := (rm_candidates w, rm_batches w).
Definition filed (w : roadmap) := (rm_changes w, pool w).

Lemma filed_split w w' : filed w' = filed w -> rm_changes w' = rm_changes w /\ pool w' = pool w.
Proof. intros E. split; [exact (f_equal fst E)|exact (f_equal snd E)]. Qed.

Lemma beyond_filed w w' : beyond w' = beyond w -> filed w' = filed w.
Proof. unfold beyond, filed, pool. intros E. injection E. intros. congruence. Qed.

(** The moves of change sets that the calls on impacts make. *)
Definition change_move (from to : string) : Prop := exists move declared, (move = "assess" \/ move = "stabilize")
  /\ ChangeSetStatusMoves !! move = Some declared /\ from ∈ mv_From declared /\ to = mv_To declared.

Lemma can_move_assess from : ChangeSetStatusCanMove "assess" from = true -> change_move from ChangeSetStatusAssessed.
Proof.
  unfold ChangeSetStatusCanMove. destruct (ChangeSetStatusMoves !! "assess") as [declared|] eqn:E; [|done].
  intros C%contains_spec. exists "assess", declared. split_and!; [by left|done|done|].
  change (Some {| mv_From := [ChangeSetStatusDraft; ChangeSetStatusAssessed]; mv_To := ChangeSetStatusAssessed |} = Some declared) in E.
  by injection E as <-.
Qed.

Lemma stabilize_moves from : contains ChangeSetClosedStatuses from = true -> ChangeSetStatusNeeds "stabilize" from = true ->
  change_move from ChangeSetStatusStabilized.
Proof.
  intros C%contains_spec N. exists "stabilize", {| mv_From := [ChangeSetStatusApplied]; mv_To := ChangeSetStatusStabilized |}.
  split_and!; [by right|done| |done]. cbn. rewrite list_elem_of_singleton.
  unfold ChangeSetClosedStatuses in C. rewrite elem_of_cons, list_elem_of_singleton in C. by destruct C as [->| ->].
Qed.

Lemma keeps_changes {A} (m : RM A) : keeps beyond m -> keeps filed m.
Proof. intros K w. apply beyond_filed, K. Qed.

Lemma audit_changes actor pid action target details : keeps filed (recordAuditEvent world actor pid action target details).
Proof. apply keeps_changes, audit_beyond. Qed.

Lemma update_changes old next : keeps filed (UpdateImpactTask world old next).
Proof. by apply keeps_swap_record. Qed.

Lemma marks_keep_changes actor p task reason : keeps filed (markImpactTaskStale world actor p task reason).
Proof.
  unfold markImpactTaskStale. destruct (_ =? _)%string; [apply keeps_ret|]. apply keeps_here. intros w.
  apply keeps_bind; [apply update_changes|intros _]. apply keeps_bind; [apply audit_changes|intros; apply keeps_ret].
Qed.

Lemma act_changes ctx actor pid id input p : keeps filed (act_on_task world checks ctx actor pid id input p).
Proof.
  unfold act_on_task. apply keeps_bind; [by apply reads_kept, reads_task|intros task]. apply keeps_bind; [apply keeps_refuse_if|intros _].
  apply keeps_bind; [apply keeps_changes|intros reason].
  { destruct (_ =? _)%string; [apply keeps_ret|apply stale_reason_beyond]. }
  destruct (_ =? _)%string; [|apply marks_keep_changes]. unfold work_task. do 2 (apply keeps_bind; [apply keeps_refuse_if|intros _]).
  apply keeps_bind; [apply keeps_changes|intros _].
  { destruct (contains _ _); [|apply keeps_refuse_if]. apply keeps_bind; [apply beyond_tables|intros; apply keeps_ret]. }
  apply keeps_bind; [apply keeps_changes, act_keeps|intros next]. apply keeps_here. intros w.
  apply keeps_bind; [apply update_changes|intros _]. apply keeps_bind; [apply audit_changes|intros; apply keeps_ret].
Qed.

Lemma revision_changes p change : keeps filed (recordContextRevisionSnapshot world p change).
Proof.
  unfold recordContextRevisionSnapshot. apply keeps_bind; [by apply reads_kept, keeps_attempt, reads_row|].
  intros [row|e]; [apply keeps_refuse_if|]. apply keeps_bind; [apply keeps_refuse_if|intros _].
  apply keeps_bind; [by apply keeps_on_tables|intros snapshot]. apply keeps_here. intros w. by apply keeps_insert_record.
Qed.

Lemma edge_changes actor pid input p : keeps filed (create_dependency world actor pid input p).
Proof.
  unfold create_dependency. apply keeps_bind; [apply keeps_refuse_if|intros _].
  apply keeps_bind; [by apply reads_kept, reads_dependencies|intros edges]. destruct (base.filter _ edges); [|apply keeps_ret].
  apply keeps_bind; [apply keeps_refuse_if|intros _]. apply keeps_here. intros w.
  apply keeps_bind; [by apply keeps_insert_record|intros _]. apply keeps_bind; [apply audit_changes|intros; apply keeps_ret].
Qed.

Lemma decision_changes actor pid id input : keeps filed (decide_dependency world actor pid id input).
Proof.
  unfold decide_dependency. apply keeps_bind; [by apply reads_kept, reads_dependency|intros old].
  do 2 (apply keeps_bind; [apply keeps_refuse_if|intros _]). apply keeps_here. intros w.
  apply keeps_bind; [by apply keeps_swap_record|intros _]. apply keeps_bind; [apply audit_changes|intros; apply keeps_ret].
Qed.

Lemma acknowledge_changes actor pid changeID id proof p : keeps filed (acknowledge_write world checks actor pid changeID id proof p).
Proof.
  unfold acknowledge_write. apply keeps_bind; [apply keeps_refuse_if|intros _]. apply keeps_bind; [by apply reads_kept, reads_change|intros change].
  apply keeps_bind; [apply keeps_refuse_if|intros _]. apply keeps_bind; [by apply reads_kept, reads_tasks|intros tasks].
  apply keeps_bind; [|intros _; apply keeps_bind; [apply audit_changes|intros; apply keeps_ret]].
  apply keeps_rm_each. intros task. apply keeps_here. intros w. apply update_changes.
Qed.

Lemma settle_changes actor p change conditions w w' r : settle world actor p change conditions w = (w', Ok r) ->
  pool w' = pool w
  /\ if negb (nonempty (OwnerBlockers conditions)) && ChangeSetStatusNeeds "stabilize" (ch_Status change)
     then exists row row', rm_changes w !! ch_ID change = Some row /\ ch_Status row = ch_Status change
            /\ ch_ID row' = ch_ID row /\ ch_Status row' = ChangeSetStatusStabilized
            /\ rm_changes w' = <[ch_ID change := row']> (rm_changes w)
     else rm_changes w' = rm_changes w.
Proof.
  unfold settle. intros (w1 & [] & F1 & F)%bind_ok. apply bind_ok in F as (w2 & reposted & F2 & F).
  apply bind_ok in F as (w3 & [] & F3 & F). injection F as <- _.
  apply (keeps_run filed) in F1; [|apply keeps_rm_each; intros task; apply keeps_bind; [apply marks_keep_changes|intros; apply keeps_ret]].
  apply (keeps_run filed) in F2.
  2: { apply keeps_rm_traverse. intros repost. unfold repostImpactTask. apply keeps_here. intros w0.
       apply keeps_bind; [apply update_changes|intros _]. apply keeps_bind; [apply audit_changes|intros; apply keeps_ret]. }
  assert (filed w2 = filed w) as [E Ep]%filed_split by (etransitivity; [exact F2|exact F1]).
  destruct (_ && _); [|by injection F3 as <-]. apply update_change_ok in F3 as (row & row' & Fr & Es & Es' & Ei & ->).
  split; [by rewrite <- Ep|]. exists row, row'. rewrite E in Fr |- *. by split_and!.
Qed.

(** What a call's write does to change sets: nothing, or one of them moves. It
    leaves the candidates of edges alone. *)
Lemma business_changes ports ctx call p w w' : business world checks ports ctx call p w w' ->
  pool w' = pool w
  /\ (rm_changes w' = rm_changes w
      \/ exists id row row', rm_changes w !! id = Some row /\ rm_changes w' = <[id := row']> (rm_changes w)
           /\ ch_ID row' = ch_ID row /\ change_move (ch_Status row) (ch_Status row')).
Proof.
  intros [actor pid key input q w1 w2 edge _ F|actor pid id key input q w1 w2 edge _ F|actor pid id key input q w1 w2 task _ F
    |actor pid changeID id key proof q w1 w2 result F|actor pid changeID key q w1 w2 next F
    |actor pid changeID key proofs proofIDs evidence q w1 w2 result F].
  - apply (keeps_run filed) in F as [E Ep]%filed_split; [|apply edge_changes]. by split; [|left].
  - apply (keeps_run filed) in F as [E Ep]%filed_split; [|apply decision_changes]. by split; [|left].
  - apply (keeps_run filed) in F as [E Ep]%filed_split; [|apply act_changes]. by split; [|left].
  - apply (keeps_run filed) in F as [E Ep]%filed_split; [|apply acknowledge_changes]. by split; [|left].
  - apply (assess_ok world checks ports) in F as (change & a & w3 & C & M & _ & _ & _ & R & _ & (row & row' & Fr & Es & Ei & Es' & E) & _ & P1 & P2).
    apply (keeps_run filed) in R as [E3 Ep]%filed_split; [|by apply revision_changes].
    split; [unfold pool; rewrite P1, P2; exact Ep|]. right. rewrite E3 in Fr, E.
    exists (ch_ID change), row, row'. split_and!; try done. rewrite Es, Es'. by apply can_move_assess.
  - apply (stabilize_ok world checks) in F as (change & c & reposted & w3 & _ & _ & _ & _ & Cl & _ & _ & S & B & _).
    apply beyond_filed, filed_split in B as [B Bp]. apply settle_changes in S as [Sp S]. split; [congruence|]. rewrite B.
    destruct (_ && _) eqn:N; [|by left]. right.
    destruct S as (row & row' & Fr & Es & Ei & Es' & E). exists (ch_ID change), row, row'. split_and!; try done.
    rewrite Es, Es'. apply andb_true_iff in N as [_ N]. by apply stabilize_moves.
Qed.
End Exact.
