(* ===== verification/ImpactRaising.v ===== *)
(** The tasks an applied change set raises: exactly those its assessment
    obliges to, delivered once however often they are delivered; and a fault
    injected into their writer. *)

From stdpp Require Import pretty sorting.
From Stdlib Require Import Ascii String.
From S2P Require Import Prelude Effects OperationCore OperationStore OperationTheorems Workspace Permission MemberStore Membership OperationRunner RoadmapModel RoadmapStore RouteObjects Roadmap RoadmapLaws RoadmapHistory RoadmapSound RoadmapCommit RoadmapSteps RouteLaws ImpactStore ImpactStoreLaws Assessment AssessmentTheorems Stabilization StabilizationSteps Impact ImpactService FaultInjection ImpactLaws ImpactWrites ImpactMoves ImpactCalls ImpactExact.

Section Raising.
Context {X : Type} `{Digester roadmap_any} (world : World X) `{!WorldLaws world} (checks : Checks) `{!ChecksLaws checks}
  (ports : ImpactPorts X).

(** The key of the task an impact obliges to. *)
Definition duty_key (p : Project) (change : ChangeSet) (impact : ResolvedImpact) : string :=
  ch_ID change +:+ "/" +:+ ref_Kind (ri_Target impact) +:+ "/" +:+ ref_ID (ri_Target impact) +:+ "/"
  +:+ pretty (pr_CurrentContextRevision p) +:+ "/" +:+ ri_Action impact.

(** The project has the task, it names the causes, and it was handed off. *)
Definition on_duty (w : roadmap) (pid key : string) (causes : list ImpactCause) : Prop :=
  is_Some (rm_tasks w !! (pid, key)) /\ (forall cause, cause ∈ causes -> caused w pid key cause) /\ (pid, key) ∈ rm_handoffs w.

(** Tasks, their causes and their handoffs only grow. *)
Definition grown (w w' : roadmap) : Prop :=
  (forall k, is_Some (rm_tasks w !! k) -> is_Some (rm_tasks w' !! k))
  /\ (forall pid key cause, caused w pid key cause -> caused w' pid key cause) /\ rm_handoffs w ⊆ rm_handoffs w'.

#[export] Instance grown_preorder : PreOrder grown.
Proof. split; [by intros w|]. intros a b c (A1 & A2 & A3) (B1 & B2 & B3). split_and!; [auto|auto|by etransitivity]. Qed.

Lemma on_duty_grown w w' pid key causes : grown w w' -> on_duty w pid key causes -> on_duty w' pid key causes.
Proof. intros (G1 & G2 & G3) (D1 & D2 & D3). split_and!; auto. Qed.

Lemma same_grown w w' : rm_tasks w' = rm_tasks w -> rm_handoffs w' = rm_handoffs w -> grown w w'.
Proof. intros E1 E2. unfold grown, caused. rewrite E1, E2. by split_and!. Qed.

(** ** Delivering *)

Lemma insert_task_keys task w w' u : InsertImpactTask world task w = (w', Ok u) ->
  is_Some (rm_tasks w' !! key_of task)
  /\ (forall k, is_Some (rm_tasks w' !! k) <-> is_Some (rm_tasks w !! k) \/ k = key_of task)
  /\ rm_handoffs w' = rm_handoffs w.
Proof.
  unfold InsertImpactTask. intros (w1 & found & F1 & F)%bind_ok.
  rewrite (attempt_read _ w (reads_row world rm_tasks _ _)) in F1. injection F1 as <- <-.
  assert (forall row w1, w1 = put_tasks (<[key_of task := row]> (rm_tasks w)) w ->
    is_Some (rm_tasks w1 !! key_of task)
    /\ (forall k, is_Some (rm_tasks w1 !! k) <-> is_Some (rm_tasks w !! k) \/ k = key_of task)
    /\ rm_handoffs w1 = rm_handoffs w) as Put.
  { intros row w1 ->. cbn. split; [rewrite lookup_insert_eq; by eexists|]. split; [|done]. intros k.
    rewrite lookup_insert_is_Some. destruct (decide (key_of task = k)) as [<-|N]; [intuition|]. split; [intros [?|[_ ?]]; [done|by left]|].
    intros [?| ->]; [by right|done]. }
  destruct (readVersionedRecord world rm_tasks (it_ProjectID task) (ImpactTaskIdentity task) w) as [w1 [row|e]] eqn:E; cbn [snd] in F.
  - apply read_record_ok in E as [_ Fr]. destruct (merge_causes _ _) as [causes merged]. destruct merged; cbn [negb] in F.
    + unfold here in F. apply swap_record_ok in F as (row' & _ & _ & ->). by eapply Put.
    + injection F as <-. split; [by eexists|]. split; [|done]. intros k. split; [by left|]. intros [?| ->]; [done|by eexists].
  - case_decide; [|done]. apply insert_record_ok in F as [_ ->]. by eapply Put.
Qed.

Lemma handoff_ok task w w' u : InsertImpactHandoff world task w = (w', Ok u) ->
  rm_tasks w' = rm_tasks w /\ rm_handoffs w' = {[ key_of task ]} ∪ rm_handoffs w.
Proof. intros F%rm_statement_ok. by injection F as <-. Qed.

Lemma deliver_ok task w w1 w' u u' : InsertImpactTask world task w = (w1, Ok u) -> InsertImpactHandoff world task w1 = (w', Ok u') ->
  grown w w' /\ on_duty w' (it_ProjectID task) (ImpactTaskIdentity task) (it_Causes task)
  /\ (forall k, is_Some (rm_tasks w' !! k) -> is_Some (rm_tasks w !! k) \/ k = key_of task).
Proof.
  intros F G%handoff_ok. pose proof F as (C & M & _)%insert_task_ok. apply insert_task_keys in F as (S & K & Hh). destruct G as [E1 E2].
  assert (forall pid key cause, caused w1 pid key cause -> caused w' pid key cause) as M1 by (unfold caused; by rewrite E1).
  split_and!.
  - split_and!; [|auto|rewrite E2, Hh; apply union_subseteq_r]. intros k Hk. rewrite E1. apply K. by left.
  - split_and!; [by rewrite E1|auto|rewrite E2; by apply elem_of_union_l, elem_of_singleton_2].
  - intros k. rewrite E1. apply K.
Qed.

(** ** Raising *)

Lemma retarget_names p deltas target w w' target' : retarget world checks p deltas target w = (w', Ok target') ->
  ref_Kind target' = ref_Kind target /\ ref_ID target' = ref_ID target.
Proof.
  revert target w. induction deltas as [|delta deltas IH]; intros target w; cbn; [intros F; by injection F as _ <-|].
  destruct (decide _) as [->|_]; [|apply IH]. intros (w1 & value & V & F)%bind_ok.
  apply (semantic_value_names world checks) in V as [_ V]. apply IH in F as [-> ->]. by rewrite V.
Qed.

(** A writer that delivers, or the store's own insertion. *)
Definition delivering (writer : option ImpactTaskWriter) : Prop := forall write, writer = Some write -> TaskWriter world write.

Lemma write_task_ok writer tenant task w w' u : delivering writer -> write_task world writer tenant task w = (w', Ok u) ->
  InsertImpactTask world task w = (w', Ok u).
Proof.
  unfold write_task. destruct writer as [write|]; [|done]. intros W. pose proof (W write eq_refl).
  by destruct (writer_delivers world (write := write) tenant task w) as [E|[e E]]; rewrite E.
Qed.

Lemma born_fields reason now hints task : let task' := born reason now (task <| it_Attachments := hints |>) in
  key_of task' = key_of task /\ it_Causes task' = it_Causes task.
Proof. cbn. unfold born. by destruct (_ =? _)%string. Qed.

Lemma commit_impact_ok writer tenant p change impact w w' : delivering writer -> obliges impact = true ->
  commit_impact world checks ports writer tenant p change impact w = (w', Ok tt) ->
  grown w w' /\ on_duty w' (pr_ID p) (duty_key p change impact) (ri_Causes impact)
  /\ (forall k, is_Some (rm_tasks w' !! k) -> is_Some (rm_tasks w !! k) \/ k = (pr_ID p, duty_key p change impact)).
Proof.
  intros W O. unfold commit_impact. rewrite O. cbn [negb]. intros (w1 & target & R & F)%bind_ok.
  pose proof R as Rr. apply reads_ok in Rr as ->; [|by apply reads_retarget]. apply retarget_names in R as [K I].
  unfold here in F. apply bind_ok in F as (w1 & reason & R & F). apply reads_ok in R as ->; [|by apply reads_stale_target].
  apply bind_ok in F as (w1 & hints & B & F).
  assert (beyond w1 = beyond w) as E.
  { eapply (keeps_run beyond); [|exact B]. destruct (_ =? _)%string; [apply beyond_tables|apply keeps_ret]. }
  apply bind_ok in F as (w2 & [] & Wr & F). apply write_task_ok in Wr; [|done].
  destruct (deliver_ok _ _ _ _ _ _ Wr F) as (G & D & N).
  destruct (born_fields reason (wd_now world w) hints (raised world p change impact target (wd_now world w))) as [Ek Ec].
  assert (key_of (raised world p change impact target (wd_now world w)) = (pr_ID p, duty_key p change impact)) as Er.
  { unfold key_of, ImpactTaskIdentity, duty_key. cbn. by rewrite K, I. }
  rewrite Er in Ek. unfold key_of in Ek. injection Ek as Ep Ei. rewrite Ec, Ep, Ei in D. unfold key_of in N. rewrite Ep, Ei in N.
  apply beyond_split in E as Et. destruct Et as [Et _]. apply beyond_fields in E as (_ & _ & Eh & _).
  split; [|split; [done|intros k; rewrite <- Et; apply N]]. transitivity w1; [by apply same_grown|done].
Qed.

Lemma raise_each writer tenant p change impacts w w' : delivering writer ->
  rm_each impacts (commit_impact world checks ports writer tenant p change) w = (w', Ok tt) ->
  grown w w'
  /\ (forall impact, impact ∈ impacts -> obliges impact = true -> on_duty w' (pr_ID p) (duty_key p change impact) (ri_Causes impact))
  /\ (forall k, is_Some (rm_tasks w' !! k) -> is_Some (rm_tasks w !! k)
        \/ exists impact, impact ∈ impacts /\ obliges impact = true /\ k = (pr_ID p, duty_key p change impact)).
Proof.
  intros W. revert w. induction impacts as [|impact impacts IH]; intros w; cbn [rm_each].
  { intros F. injection F as <-. split; [done|]. split; [by intros i Hin%not_elem_of_nil|]. by left. }
  intros (w1 & [] & C & F)%bind_ok. apply IH in F as (G & D & N). destruct (obliges impact) eqn:O.
  - apply commit_impact_ok in C as (G1 & D1 & N1); [|done..]. split; [by transitivity w1|]. split.
    + intros i [->|Hin]%elem_of_cons Oi; [by eapply on_duty_grown|by apply D].
    + intros k [Hk|(i & Hin & Oi & E)]%N; [|right; exists i; split; [by right|done]]. apply N1 in Hk as [Hk| ->]; [by left|].
      right. exists impact. split; [by left|done].
  - unfold commit_impact in C. rewrite O in C. injection C as <-. split; [done|]. split.
    + intros i [->|Hin]%elem_of_cons Oi; [congruence|by apply D].
    + intros k [Hk|(i & Hin & Oi & E)]%N; [by left|]. right. exists i. split; [by right|done].
Qed.

(** A writer that always fails lets no duty be written. *)
Lemma faulty_each writer tenant p change impacts impact w w' u : (forall task w, exists err, write_task world writer tenant task w = (w, Err err)) ->
  impact ∈ impacts -> obliges impact = true ->
  rm_each impacts (commit_impact world checks ports writer tenant p change) w = (w', Ok u) -> False.
Proof.
  intros W. revert w. induction impacts as [|i impacts IH]; intros w Hin O; [by apply not_elem_of_nil in Hin|]. cbn [rm_each].
  intros (w1 & [] & C & F)%bind_ok. apply elem_of_cons in Hin as [->|Hin]; [|by eapply IH]. clear F IH. revert C.
  unfold commit_impact. rewrite O. cbn [negb]. intros (w2 & target & _ & F)%bind_ok. unfold here in F.
  apply bind_ok in F as (w3 & reason & _ & F). apply bind_ok in F as (w4 & hints & _ & F).
  apply bind_ok in F as (w5 & [] & Wr & _). destruct (W (born reason (wd_now world w2)
    (raised world p change i target (wd_now world w2)) <| it_Attachments := hints |>) w4) as [e E]. by rewrite E in Wr.
Qed.

(** ** Delivering again *)

Definition deliver (task : ImpactTask) : RM unit := _ ← InsertImpactTask world task; InsertImpactHandoff world task.

Lemma merge_present old new : (forall cause, cause ∈ new -> cause ∈ old) -> merge_causes old new = (old, false).
Proof.
  unfold merge_causes. induction new as [|cause new IH]; intros P; [done|]. cbn [foldl].
  rewrite decide_True by (apply P; by left). apply IH. intros c Hc. apply P. by right.
Qed.

(** A task that is on duty is delivered to no effect. *)
Lemma deliver_again task w : on_duty w (it_ProjectID task) (ImpactTaskIdentity task) (it_Causes task) -> (deliver task w).1 = w.
Proof.
  intros ([row Fr] & C & Hh). unfold deliver, mbind, M_bind.
  assert ((InsertImpactTask world task w).1 = w) as E.
  { unfold InsertImpactTask, mbind, M_bind. rewrite (attempt_read _ w (reads_row world rm_tasks _ _)).
    destruct (readVersionedRecord world rm_tasks (it_ProjectID task) (ImpactTaskIdentity task) w) as [w1 [row'|e]] eqn:E; cbn [snd].
    - apply read_record_ok in E as [_ Fr']. assert (row' = row) as -> by congruence.
      rewrite merge_present; [done|]. intros cause Hc. destruct (C cause Hc) as (r & F & Hin). by assert (r = row) as -> by congruence.
    - case_decide; [|done]. unfold insertVersionedRecord, rm_statement. destruct (db_fault _ _ _); [done|].
      by destruct (_ !! _). }
  destruct (InsertImpactTask world task w) as [w1 [[]|e]]; cbn in E; subst w1; [|done].
  unfold InsertImpactHandoff, rm_statement, modify. destruct (db_fault _ _ _); [done|]. cbn.
  assert ({[(it_ProjectID task, ImpactTaskIdentity task)]} ∪ rm_handoffs w = rm_handoffs w) as ->.
  { apply subseteq_union_1_L. intros k ->%elem_of_singleton. exact Hh. }
  by destruct w.
Qed.

Lemma deliver_each tasks w w' u : rm_each tasks deliver w = (w', Ok u) ->
  grown w w' /\ forall task, task ∈ tasks -> on_duty w' (it_ProjectID task) (ImpactTaskIdentity task) (it_Causes task).
Proof.
  revert w. induction tasks as [|task tasks IH]; intros w; cbn [rm_each].
  { intros F. injection F as <-. split; [done|]. by intros t Hin%not_elem_of_nil. }
  intros (w1 & [] & D & F)%bind_ok. apply bind_ok in D as (w2 & [] & D1 & D2). destruct (deliver_ok _ _ _ _ _ _ D1 D2) as (G1 & O1 & _).
  apply IH in F as [G O]. split; [by transitivity w1|]. intros t [->|Hin]%elem_of_cons; [by eapply on_duty_grown|by apply O].
Qed.

Lemma redeliver_each again w : (forall task, task ∈ again -> on_duty w (it_ProjectID task) (ImpactTaskIdentity task) (it_Causes task)) ->
  (rm_each again deliver w).1 = w.
Proof.
  induction again as [|task again IH]; intros O; [done|]. cbn [rm_each]. unfold mbind, M_bind.
  pose proof (deliver_again task w (O task ltac:(by left))) as E.
  destruct (deliver task w) as [w1 [[]|e]]; cbn in E; subst w1; [|done]. apply IH. intros t Hin. apply O. by right.
Qed.

(** ** The parts of a commit *)

Lemma touched_beyond p impacts : keeps beyond (touched_chapters checks p impacts).
Proof.
  induction impacts as [|impact impacts IH]; cbn; [apply keeps_ret|]. destruct (_ && _); [|exact IH].
  apply keeps_bind; [apply beyond_tables|intros version]. apply keeps_bind; [exact IH|intros chapters; apply keeps_ret].
Qed.

Definition raised_tables (w : roadmap) := (rm_tasks w, rm_handoffs w).

Lemma snapshot_kept p change w w' u : recordContextRevisionSnapshot world p change w = (w', Ok u) ->
  rm_tasks w' = rm_tasks w /\ rm_handoffs w' = rm_handoffs w.
Proof.
  intros F. enough (raised_tables w' = raised_tables w) as E by (unfold raised_tables in E; by injection E).
  eapply (keeps_run raised_tables); [|exact F]. unfold recordContextRevisionSnapshot.
  apply keeps_bind; [by apply reads_kept, keeps_attempt, reads_row|]. intros [row|e]; [apply keeps_refuse_if|].
  apply keeps_bind; [apply keeps_refuse_if|intros _]. apply keeps_bind; [by apply keeps_on_tables|intros snapshot].
  apply keeps_here. intros w0. by apply keeps_insert_record.
Qed.

Lemma installed_fault fault : Enabled fault = true -> fi_Point fault = FaultPointImpactTaskWrite ->
  InstallFaultInjection world fault (None, None) = (Some (faultImpactTaskWriter fault (transactionImpactTaskWriter world)), None).
Proof. intros A P. unfold InstallFaultInjection, KnownPoint. by rewrite A, P. Qed.

Lemma faulty_commit fault p change assessment impact w w' u : Enabled fault = true ->
  Store_ImpactAssessment world (pr_ID p) (ch_ID change) w = (w, Ok assessment) -> impact ∈ ia_Impacts assessment ->
  obliges impact = true ->
  commitChangeImpactTasks world checks ports (Some (faultImpactTaskWriter fault (transactionImpactTaskWriter world)))
    (fi_TenantID fault) p change w = (w', Ok u) -> False.
Proof.
  intros A S Hin O. unfold commitChangeImpactTasks. intros (w1 & a & S' & F)%bind_ok. rewrite S in S'. injection S' as <- <-.
  apply bind_ok in F as (w2 & chapters & _ & F). apply bind_ok in F as (w3 & [] & _ & F). apply bind_ok in F as (w4 & [] & F & _).
  eapply faulty_each; [|exact Hin|exact O|exact F]. intros task w0. exists (InjectedFaultError fault).
  unfold write_task, faultImpactTaskWriter, faultTargetsTenant. rewrite Z.eqb_refl. unfold Enabled in A.
  apply andb_true_iff in A as [_ A]. by rewrite A.
Qed.
End Raising.
