(* ===== verification/ImpactCounter.v ===== *)
(** A project with open duties, on the workspace of [Studio]: its template is
    bound, a change set was applied, and its impacts have their tasks. *)

From stdpp Require Import pretty sorting countable.
From Stdlib Require Import Ascii String.
From S2P Require Import Prelude Effects OperationCore OperationLaws OperationStore OperationTheorems Workspace Permission PermissionTheorems MemberStore MemberLaws Membership MembershipDemo OperationRunner RunnerLaws RunnerTheorems RoadmapModel RoadmapStore RouteObjects Templates Roadmap RoadmapLaws RoadmapHistory RoadmapSound RoadmapCommit RoadmapDemo FaultInjection ImpactStore ImpactStoreLaws ImpactDemo Assessment Stabilization Impact ImpactService ImpactLaws ImpactWrites ImpactMoves ImpactCalls ImpactExact ImpactRaising.

Module Counter.
#[local] Existing Instances Workshop.tables_eq_dec Workshop.transaction_atomic Studio.transaction_atomic Studio.text Desk.checks_laws.

(** The demonstration database, with a bound template. *)
Definition db : Database := {|
  db_fault := db_fault demo_db; db_order := db_order demo_db; db_project_order := db_project_order demo_db;
  db_record_order := db_record_order demo_db; db_transfer_order := db_transfer_order demo_db; db_spec := db_spec demo_db;
  db_template := fun _ _ => Ok (Some Desk.copy); db_persist := db_persist demo_db; db_spec_json := db_spec_json demo_db
|}.

#[export] Instance db_laws : DatabaseLaws db.
Proof. split; by intros. Qed.

Definition service : Service unit roadmap_any := {|
  sv_db := db; sv_transaction := Workshop.transaction; sv_clock := calm_clock;
  sv_mode := AuthorizationModeEnforce; sv_audit := true; sv_requireActivationRead := false;
  sv_runtimeMode := "mock";
  sv_stamp := fun w => ("audit-" +:+ pretty (length (tb_audit w)), 1000);
  sv_sink := fun _ => mret tt; sv_sources := None; sv_reverses := fun _ => ""; sv_switching := fun _ => false;
  sv_cached := fun ctx _ _ _ _ => mret (ctx, false); sv_prepare := fun ctx _ _ _ _ _ => mret ctx;
  sv_validate := fun _ _ _ _ => mret tt; sv_pins := fun _ _ => mret tt;
  sv_reverse_sources := fun _ _ => mret tt; sv_provenance := fun _ _ _ => mret tt;
  sv_projection := fun _ _ _ _ body => mret body;
  sv_RuntimeControls := fun _ => mret []; sv_RecordRuntime := fun _ _ _ _ _ => mret tt;
  sv_ObserveRuntime := fun _ _ _ _ _ _ => mret tt;
  sv_emit := fun _ => mret tt; sv_EmitAuditFailureAlert := fun _ _ _ _ _ => mret tt;
  sv_ResourceExists := fun _ _ _ => mret true; sv_Chapters := fun _ => mret [];
  sv_HasAPIKey := fun _ _ => mret true; sv_VerifyMachineNativeKey := fun _ _ => mret tt
|}.

#[export] Instance service_laws : ServiceLaws service.
Proof. split; try exact _; try done; by intros. Qed.

(** Names without a slash stand for hashes; new edges are named after how many
    there are. *)
Fixpoint dashed (s : string) : string :=
  match s with
  | EmptyString => ""
  | String c s' => String (if Ascii.eqb c "/"%char then "-"%char else c) (dashed s')
  end.

Definition world : World unit := {|
  wd_service := service; wd_transaction := Studio.transaction;
  wd_session_order := fun l => l; wd_node_order := fun l => l; wd_version_order := fun l => l;
  wd_dependency_order := fun l => l; wd_task_order := fun l => l;
  wd_batch_order := fun l => l; wd_candidate_order := fun l => l;
  wd_required := fun _ id => (id =? "plan")%string;
  wd_object := fun _ _ => fail ErrNotFound;
  wd_provenance := fun _ => mret "provenance";
  wd_draft := fun _ _ _ _ _ => mret ("change-1", 1);
  wd_apply := fun _ _ _ _ _ => mret tt;
  wd_sha1 := dashed;
  wd_uuid := fun w => "edge-" +:+ pretty (size (rm_dependencies w) + size (rm_candidates w))%nat;
  wd_now := fun _ => 1000
|}.

#[export] Instance world_laws : WorldLaws world.
Proof. split; try exact _; try done; by intros. Qed.

Definition proof : ImpactPreflightEvidence :=
  {| pf_ProofID := "proof-1"; pf_ProofKind := "check_receipt"; pf_SnapshotID := ""; pf_SnapshotDigest := "digest";
     pf_ProjectVersion := 3; pf_ContextRevision := 1; pf_TemplateCopyVersion := 0; pf_RulesetHash := "rules";
     pf_Status := "passed"; pf_IsCurrent := true; pf_SourceIDs := [] |}.

(** Templates of one text field; a literal is read as zero. *)
Definition reader : TemplateReader := {|
  tr_Definition := fun _ => ([{| tf_ID := "topic"; tf_Type := "text"; tf_Required := true; tf_Options := [] |}], ["topic"]);
  tr_ParseFloat := fun _ => Some float_zero; tr_IsInt := fun _ => true
|}.

Definition ports : ImpactPorts unit := {|
  ip_writer := Some (transactionImpactTaskWriter world); ip_invalidate := fun _ _ => mret tt; ip_hints := fun _ _ _ => mret "";
  ip_reader := reader; ip_card_batch := fun _ _ => mret tt; ip_delta_sources := fun _ _ => mret [];
  ip_preflight := Some (fun _ _ _ _ => mret proof);
  ip_project := fun _ actor pid => authorizeCurrentProject (policy_tx db) (project_request actor pid "read")
|}.

(** An applied change set: one node is to be reviewed, another blocks the
    release, and a third impact is only recorded. *)
Definition change : ChangeSet := Desk.change <| ch_Status := ChangeSetStatusApplied |>.
Definition cause : ImpactCause := {| ic_EdgeID := "link"; ic_Source := node_ref Studio.plan; ic_Reason := "start" |}.
Definition impact (node : RouteNode) (action : string) : ResolvedImpact :=
  {| ri_Target := node_ref node; ri_Action := action; ri_Certainty := "definite"; ri_Causes := [cause] |}.
Definition review : ResolvedImpact := impact Studio.draft "REVIEW_REQUIRED".
Definition block : ResolvedImpact := impact Studio.plan "BLOCK_RELEASE".
Definition assessment : ImpactAssessment :=
  {| ia_ChangeSetID := "change-1"; ia_ProjectID := "p-1"; ia_ContextRevision := 0; ia_TemplateCopyVersion := 0;
     ia_RulesetHash := "rules"; ia_InputHash := ""; ia_Objects := []; ia_Edges := [];
     ia_Impacts := [review; block; impact Studio.plan "NO_ACTION"]; ia_SemanticHash := ""; ia_AssessedAt := 10 |}.

Definition start : roadmap :=
  Studio.start <| rm_changes := {[ "change-1" := change ]} |>
    <| rm_assessments := {[ ("p-1", "change-1") := {| vr_Version := 1; vr_Body := assessment |} ]} |>.

(** Its tasks are raised, and worked. *)
Definition raise : RM unit := commitChangeImpactTasks world Desk.checks ports (ip_writer ports) 7 Desk.project change.
Definition raised : roadmap := (transaction world tt read_write raise start).1.
Definition do (call : impact_call) (w : roadmap) : roadmap := (serve world Desk.checks ports Studio.ctx call w).1.
Definition answer (call : impact_call) (w : roadmap) := (serve world Desk.checks ports Studio.ctx call w).2.

Definition review_id : string := impactTaskID world "p-1" (duty_key Desk.project change review).
Definition action (name : string) (version : Z) (evidence : list ObjectVersionRef) : ImpactTaskActionInput :=
  {| ta_HumanDecision := ""; ta_ExpectedVersion := version; ta_TargetRevision := 1; ta_Action := name; ta_AssigneeID := "ann";
     ta_Reason := "agreed"; ta_ClosureEvidence := evidence |}.
Definition assign : impact_call := CallAct Studio.ann "p-1" review_id "key-0101" (action "assign" 1 []).
Definition complete : impact_call := CallAct Studio.ann "p-1" review_id "key-0102" (action "complete" 2 [node_ref Studio.draft]).
Definition acknowledge : impact_call := CallAcknowledge Studio.ann "p-1" "change-1" "proof-1" "key-0103".
Definition stabilize : impact_call := CallStabilize Studio.ann "p-1" "change-1" "key-0104".

(** A model suggests an edge, and a person takes it over otherwise. *)
Definition suggestion : DependencyEdgeInput :=
  {| di_ExpectedContextRevision := 1; di_Source := node_ref Studio.plan; di_Target := node_ref Studio.draft;
     di_Relation := "mentions"; di_Action := "REGENERATE"; di_Origin := "ai"; di_Reason := "similar"; di_Confidence := float_zero |}.
Definition takeover : DependencyDecisionInput :=
  {| dd_ExpectedVersion := 1; dd_Decision := "modify"; dd_Reason := "rather"; dd_Relation := Some "constrains";
     dd_Action := None; dd_Confidence := None |}.
Definition suggest (key : string) : impact_call := CallCreateEdge Studio.ann "p-1" key suggestion.
Definition take_over : impact_call := CallDecideEdge Studio.ann "p-1" "edge-1" "key-0106" takeover.

Definition assigned : roadmap := do assign raised.
Definition completed : roadmap := do complete assigned.
Definition proved : roadmap := do acknowledge completed.
Definition suggested : roadmap := do (suggest "key-0105") proved.
Definition taken : roadmap := do take_over suggested.
Definition repeated : roadmap := do (suggest "key-0107") taken.
Definition stabilized : roadmap := do stabilize proved.

Example calls_answered :
  (transaction world tt read_write raise start).2 = Ok tt
  /\ answer assign raised = Ok ("value", 200, false) /\ answer complete assigned = Ok ("value", 200, false)
  /\ answer acknowledge completed = Ok ("value", 200, false) /\ answer stabilize proved = Ok ("value", 200, false)
  /\ answer (suggest "key-0105") proved = Ok ("value", 201, false) /\ answer take_over suggested = Ok ("value", 200, false)
  /\ answer (suggest "key-0107") taken = Err ErrDependencyDecided.
Proof. vm_compute. by split_and!. Qed.

Example stabilized_once :
  (ch_Status <$> rm_changes stabilized !! "change-1") = Some ChangeSetStatusStabilized
  /\ (it_Status <$> (vr_Body <$> rm_tasks stabilized !! ("p-1", duty_key Desk.project change review))) = Some "DONE"
  /\ (ch_Status <$> rm_changes (do stabilize raised) !! "change-1") = Some ChangeSetStatusApplied.
Proof. vm_compute. by split_and!. Qed.

(** *** Its history *)

Lemma start_ok : duties_ok world start.
Proof.
  split; [by intros pid key row|]. intros pid id row F. change (({[ ("p-1", "link") := {| vr_Version := 1; vr_Body := Studio.link |} ]}
    : records DependencyEdge) !! (pid, id) = Some row) in F.
  apply lookup_singleton_Some in F as [E <-]. injection E as <- <-. split; [done..|]. right. by left.
Qed.

Lemma keyed : changes_keyed start.
Proof.
  intros id c F. change (({[ "change-1" := change ]} : gmap string ChangeSet) !! id = Some c) in F.
  by apply lookup_singleton_Some in F as [<- <-].
Qed.

Abbreviation step := (impact_step world Desk.checks ports).

Lemma writes write : ip_writer ports = Some write -> TaskWriter world write.
Proof. intros E. injection E as <-. apply transaction_writer. Qed.

Lemma first : step start raised.
Proof. eapply impact_raised; [exact writes|]. apply surjective_pairing. Qed.

Lemma next call w : step w (do call w).
Proof. eapply impact_served. apply surjective_pairing. Qed.

Lemma worked : rtc step raised proved.
Proof. eapply rtc_l; [apply (next assign)|]. eapply rtc_l; [apply (next complete)|]. apply rtc_once, (next acknowledge). Qed.

Lemma history_taken : rtc step start taken.
Proof.
  eapply rtc_l; [apply first|]. etransitivity; [apply worked|]. eapply rtc_l; [apply (next (suggest "key-0105"))|].
  apply rtc_once, (next take_over).
Qed.

Lemma raised_duties : duties_ok world raised.
Proof. apply (step_moved world Desk.checks ports start); [apply first|apply start_ok..]. Qed.

Lemma reached_ok w : rtc step raised w -> duties_ok world w.
Proof. intros S. apply (steps_moved world Desk.checks ports raised); [exact S|apply raised_duties..]. Qed.

Lemma taken_ok : duties_ok world taken.
Proof. apply (steps_moved world Desk.checks ports start); [apply history_taken|apply start_ok..]. Qed.

Definition stored {B} (zero : B) (t : records B) (k : string * string) : versionedRecord B :=
  default {| vr_Version := 0; vr_Body := zero |} (t !! k).
Definition review_key : string * string := ("p-1", duty_key Desk.project change review).
Definition review_row : versionedRecord ImpactTask := stored (Desk.task "") (rm_tasks raised) review_key.
Definition edge_row : versionedRecord DependencyEdge := stored Studio.link (rm_dependencies taken) ("p-1", "edge-1").

Lemma review_stored : rm_tasks raised !! review_key = Some review_row.
Proof. by vm_compute. Qed.

Lemma edge_stored : rm_dependencies taken !! ("p-1", "edge-1") = Some edge_row.
Proof. by vm_compute. Qed.

Lemma completed_ok : duties_ok world completed.
Proof.
  apply reached_ok. eapply rtc_l; [apply (next assign)|]. apply rtc_once, (next complete).
Qed.

Lemma proved_keyed : changes_keyed proved.
Proof.
  intros id c F.
  assert (rm_changes proved = {[ "change-1" := change ]}) as E by by vm_compute.
  rewrite E in F. by apply lookup_singleton_Some in F as [<- <-].
Qed.

(** The task of the review, for a list of deliveries. *)
Definition delivered : list ImpactTask := [vr_Body review_row].

(** The fault of the demonstration tenant. *)
Definition armed : FaultInjection := {| fi_Point := FaultPointImpactTaskWrite; fi_TenantID := 7; fi_Action := ""; fi_Reason := "" |}.
Definition faulted : RM unit :=
  commitChangeImpactTasks world Desk.checks ports (InstallFaultInjection world armed (None, None)).1 7
    Desk.project change.
End Counter.
