(* ===== verification/ImpactTheorems.v ===== *)
(** The properties of impacts: what tasks, edges and change sets can become
    over every history of calls, and what each call does. *)

From stdpp Require Import pretty sorting.
From Stdlib Require Import Ascii String.
From S2P Require Import Prelude Effects OperationCore OperationLaws OperationStore OperationTheorems Workspace Permission PermissionTheorems MemberStore MemberLaws Membership MembershipDemo OperationRunner RunnerLaws RunnerTheorems RoadmapModel RoadmapStore RouteObjects Roadmap RoadmapLaws RoadmapHistory RoadmapSound RoadmapCommit RoadmapSteps RouteLaws RoadmapDemo ImpactStore ImpactStoreLaws ImpactDemo Assessment Stabilization StabilizationSteps Impact ImpactService FaultInjection ImpactLaws ImpactWrites ImpactMoves ImpactCalls ImpactExact ImpactRaising ImpactCounter.

(** ** Tasks *)

(** A stale task is worked no more, unless it blocks the release. *)
Lemma stale_sticks task task' : rtc task_change task task' -> it_Status task = "STALE" -> it_Action task <> "BLOCK_RELEASE" ->
  it_Status task' = "STALE".
Proof.
  induction 1 as [task|task mid task' [S V St] _ IH]; intros E A; [done|]. apply IH; [|by rewrite (st_action _ _ S)].
  destruct St as [K _|W _|W _ _ _|W _ _|N _|D _ _|ref B _ _ _]; try congruence;
    (unfold working in W; rewrite E in W; by apply (bool_decide_pack _) in W).
Qed.

(** A task that was dismissed never asks for work again. *)
Lemma dismissed_sticks task task' : rtc task_change task task' -> it_Status task = "DISMISSED" \/ it_Status task = "STALE" ->
  it_Action task <> "BLOCK_RELEASE" -> it_Status task' = "DISMISSED" \/ it_Status task' = "STALE".
Proof.
  induction 1 as [task|task mid task' [S V St] _ IH]; intros E A; [done|]. apply IH; [|by rewrite (st_action _ _ S)].
  assert (~ working task) as Nw.
  { intros W. unfold working in W. destruct E as [E|E]; rewrite E in W; by apply (bool_decide_pack _) in W. }
  destruct St as [K _|W _|W _ _ _|W _ _|_ N|D _ _|ref B _ _ _]; try done; [by rewrite K|by right|].
  destruct E; congruence.
Qed.

Section History.
Context {X : Type} `{Digester roadmap_any} (world : World X) `{!WorldLaws world} (checks : Checks) `{!ChecksLaws checks}
  (ports : ImpactPorts X).

(** A task that blocks the release is not dismissed. *)
Lemma dismissed_not_block pid key row : task_ok world pid key row -> it_Status (vr_Body row) = "DISMISSED" ->
  it_Action (vr_Body row) <> "BLOCK_RELEASE".
Proof. intros O D B. pose proof (to_dismissed _ _ _ _ O D) as N. by rewrite (to_severity _ _ _ _ O), B in N. Qed.

(** A closed change set stays closed. *)
Lemma closed_sticks from to : rtc change_move from to -> from ∈ ChangeSetClosedStatuses -> to ∈ ChangeSetClosedStatuses.
Proof.
  induction 1 as [s|s mid to (move & declared & [-> | ->] & E & Hin & ->) _ IH]; intros C; [done|apply IH..].
  - change (Some {| mv_From := [ChangeSetStatusDraft; ChangeSetStatusAssessed]; mv_To := ChangeSetStatusAssessed |} = Some declared) in E.
    injection E as <-. cbn in *. unfold ChangeSetClosedStatuses in C. rewrite elem_of_cons, list_elem_of_singleton in C, Hin.
    by destruct C as [->| ->], Hin.
  - change (Some {| mv_From := [ChangeSetStatusApplied]; mv_To := ChangeSetStatusStabilized |} = Some declared) in E.
    injection E as <-. right. by left.
Qed.

Lemma served_changes ctx call w w' r id row : changes_keyed w -> rm_changes w !! id = Some row ->
  serve world checks ports ctx call w = (w', r) ->
  changes_keyed w' /\ exists row', rm_changes w' !! id = Some row' /\ rtc change_move (ch_Status row) (ch_Status row').
Proof.
  intros K Fr S. apply (call_outcome world checks ports) in S as [B|(p & w0 & w1 & E0 & B & E1)].
  { apply beyond_fields in B as [B _]. unfold changes_keyed. rewrite B. split; [done|]. exists row. by split; [|constructor]. }
  apply beyond_fields in E0 as [E0 _], E1 as [E1 _]. unfold changes_keyed. rewrite E1.
  apply (business_changes world checks) in B as [_ [B|(id' & row0 & row' & F0 & E & Ei & C)]].
  - rewrite B, E0. split; [done|]. exists row. by split; [|constructor].
  - rewrite E0 in F0, E. rewrite E. split.
    + intros i c [[<- <-]|[_ Fi]]%lookup_insert_Some; [|by apply K]. rewrite Ei. by apply K.
    + destruct (decide (id' = id)) as [->|N]; [|rewrite lookup_insert_ne by done; exists row; by split; [|constructor]].
      exists row'. rewrite lookup_insert_eq. split; [done|]. assert (row0 = row) as -> by congruence. by apply rtc_once.
Qed.
End History.

(** C15. Whatever is called, in whatever order and with whatever outcome, the
    stored tasks and dependency edges stay well formed: a task is stored under
    the key its identity gives, with the severity of its action; it is done
    only with evidence, and a release block only with the one proof that
    closed it; it is dismissed only when its severity does not block; an edge a
    model proposed is a suggestion until a person decided it. *)
Theorem impacts_stay_wellformed {X} `{Digester roadmap_any} (world : World X) `{!WorldLaws world} (checks : Checks)
  `{!ChecksLaws checks} (ports : ImpactPorts X) w w' (Ok : duties_ok world w) (Steps : rtc (impact_step world checks ports) w w') :
  duties_ok world w'.
Proof. by apply (steps_moved world checks ports) in Steps as [_ D]; [apply D|]. Qed.

(** C10. A task never disappears and never becomes another one; from each
    status it goes only where the table of its moves leads: a stale task stays
    stale, unless it blocks the release and a proof closes it, and a dismissed
    task asks for no more work. *)
Theorem tasks_follow_their_table {X} `{Digester roadmap_any} (world : World X) `{!WorldLaws world} (checks : Checks)
  `{!ChecksLaws checks} (ports : ImpactPorts X) w w' pid key row (Ok : duties_ok world w)
  (Steps : rtc (impact_step world checks ports) w w') (Stored : rm_tasks w !! (pid, key) = Some row) :
  exists row', rm_tasks w' !! (pid, key) = Some row' /\ rtc task_change (vr_Body row) (vr_Body row')
  /\ (it_Status (vr_Body row) = "STALE" -> it_Action (vr_Body row) <> "BLOCK_RELEASE" -> it_Status (vr_Body row') = "STALE")
  /\ (it_Status (vr_Body row) = "DISMISSED" -> it_Status (vr_Body row') = "DISMISSED" \/ it_Status (vr_Body row') = "STALE").
Proof.
  apply (steps_moved world checks ports) in Steps as [[T _] _]; [|done]. apply T in Stored as F.
  destruct F as (row' & F & C). exists row'. split; [done|]. split; [done|]. split; [by apply stale_sticks|].
  intros D. eapply dismissed_sticks; [exact C|by left|]. by eapply dismissed_not_block; [apply Ok|].
Qed.


(** A model's proposal of a tuple a person replaced adds no edge. *)
Lemma create_replaced {X} `{Digester roadmap_any} (world : World X) `{!WorldLaws world} actor pid input p w w' r id row :
  rm_dependencies w !! (pid, id) = Some row -> replaced_by_person input (vr_Body row) = true -> di_Origin input = "ai" ->
  create_dependency world actor pid input p w = (w', Ok r) -> rm_dependencies w' = rm_dependencies w.
Proof.
  intros Fr R O. unfold create_dependency. intros (w1 & [] & [_ ->]%refuse_if_ok & F)%bind_ok.
  apply bind_ok in F as (w1 & edges & [-> ->]%rm_query_ok & F).
  assert (vr_Body row ∈ wd_dependency_order world (project_records rm_dependencies pid w).*2) as Hin.
  { rewrite (dependency_order_perm (world := world)). apply list_elem_of_fmap. exists (id, vr_Body row). split; [done|].
    apply project_records_spec. by exists row. }
  destruct (base.filter _ _); [|by injection F as <- _]. apply bind_ok in F as (w1 & [] & [G ->]%refuse_if_ok & _).
  rewrite O in G. cbn in G. assert (existsb (replaced_by_person input) (wd_dependency_order world (project_records rm_dependencies pid w).*2) = true) as E.
  { apply existsb_exists. exists (vr_Body row). split; [by apply list_elem_of_In|done]. }
  by rewrite E in G.
Qed.

(** What a person replaced stays replaced: once an edge is confirmed with a
    relation and action that superseded a suggestion's, then whatever is called
    after on impacts and the roadmap, a proposal of a model that repeats the
    superseded tuple between the same objects adds and changes no edge. *)
Theorem replaced_suggestion_stays_out {X} `{Digester roadmap_any} (world : World X) `{!WorldLaws world} (checks : Checks)
  `{!ChecksLaws checks} (ports : ImpactPorts X) w w1 w' pid id row ctx actor key input r (Ok : duties_ok world w)
  (Stored : rm_dependencies w !! (pid, id) = Some row) (Decided : de_Status (vr_Body row) = DependencyConfirmed)
  (Repeats : replaced_by_person input (vr_Body row) = true) (Model : di_Origin input = "ai")
  (Steps : rtc (impact_step world checks ports) w w1)
  (Run : serve world checks ports ctx (CallCreateEdge actor pid key input) w1 = (w', r)) :
  rm_dependencies w' = rm_dependencies w1.
Proof.
  apply (steps_moved world checks ports) in Steps as [[_ D] _]; [|done]. apply D in Stored as (row1 & F & C).
  assert (vr_Body row1 = vr_Body row) as E by (destruct C as [E|[S _]]; [done|by rewrite Decided in S]).
  assert (forall a b, beyond a = beyond b -> rm_dependencies a = rm_dependencies b) as Eb
    by (intros a b Eq; unfold beyond, own in Eq; by injection Eq).
  apply (call_outcome world checks ports) in Run as [B|(p & w2 & w3 & E2 & B & E3)]; [by apply Eb|].
  apply Eb in E2, E3. rewrite E3, <- E2.
  inversion B as [? ? ? ? ? ? ? edge _ Cr| | | | |]; subst. by eapply (create_replaced world _ _ _ _ _ _ _ id row1); [rewrite E2|rewrite E| |exact Cr].
Qed.

(** ** What each call does *)


(** A proof closes every block: an acknowledged preflight changes nothing of
    the roadmap but tasks, and of these exactly those that block the release of
    that change set at the current revision and are not closed by this very
    proof; each of them is done, with the proof as its one evidence. *)
Theorem proof_closes_every_block {X} `{Digester roadmap_any} (world : World X) `{!WorldLaws world} (checks : Checks)
  `{!ChecksLaws checks} (ports : ImpactPorts X) ctx actor pid changeID id key w w' r (Ok : duties_ok world w)
  (Run : serve world checks ports ctx (CallAcknowledge actor pid changeID id key) w = (w', r)) :
  beyond w' = beyond w
  \/ exists p proof, validImpactPreflight p id proof = true /\ beside_tasks w' = beside_tasks w
       /\ forall pid' key' row, rm_tasks w !! (pid', key') = Some row ->
            if bool_decide (pid' = pid) && awaits_proof p changeID (proof_closure id proof) (vr_Body row)
            then exists now, rm_tasks w' !! (pid', key') = Some
                   {| vr_Version := vr_Version row +i 1; vr_Body := acknowledged (proof_closure id proof) now (vr_Body row) |}
            else rm_tasks w' !! (pid', key') = Some row.
Proof.
  apply (call_outcome world checks ports) in Run as [B|(p & w0 & w1 & E0 & B & E1)]; [by left|]. right.
  inversion B as [| | |? ? ? ? ? proof ? ? ? result F| |]; subst.
  assert (duties_ok world w0) as Ok0 by by apply (beyond_moved world w w0 E0).
  apply beyond_split in E0 as [T0 O0], E1 as [T1 O1]. apply (acknowledge_exact world checks) in F as (V & O & T); [|done].
  exists p, proof. split; [done|]. split; [congruence|]. intros pid' key' row Fr. rewrite <- T0 in Fr. rewrite T1. by apply T.
Qed.


(** Calls on impacts alone close change sets: over every history of them no change set disappears, and the status of each is reached
    by assessments and stabilizations alone, so that a closed one is never
    opened again. *)
Theorem impact_calls_close_change_sets {X} `{Digester roadmap_any} (world : World X) `{!WorldLaws world} (checks : Checks)
  `{!ChecksLaws checks} (ports : ImpactPorts X) w w' id row (Keyed : changes_keyed w)
  (Steps : rtc (fun w w' => exists ctx call r, serve world checks ports ctx call w = (w', r)) w w')
  (Stored : rm_changes w !! id = Some row) :
  changes_keyed w' /\ exists row', rm_changes w' !! id = Some row' /\ rtc change_move (ch_Status row) (ch_Status row')
  /\ (ch_Status row ∈ ChangeSetClosedStatuses -> ch_Status row' ∈ ChangeSetClosedStatuses).
Proof.
  enough (changes_keyed w' /\ exists row', rm_changes w' !! id = Some row' /\ rtc change_move (ch_Status row) (ch_Status row'))
    as [K (row' & F & C)] by (split; [done|]; exists row'; split; [done|]; split; [done|by apply closed_sticks]).
  revert row Stored. induction Steps as [w|w w1 w' (ctx & call & r & S) _ IH]; intros row Fr.
  { split; [done|]. exists row. by split; [|constructor]. }
  assert (changes_keyed w1 /\ exists row1, rm_changes w1 !! id = Some row1 /\ rtc change_move (ch_Status row) (ch_Status row1)) as [K1 (row1 & F1 & C1)].
  { eapply (served_changes world checks ports); [done|done|exact S]. }
  destruct (IH K1 row1 F1) as [K' (row' & F' & C')]. split; [done|]. exists row'. split; [done|]. by transitivity (ch_Status row1).
Qed.


(** A delivered task is delivered once: once the tasks of a list were
    stored and handed off, delivering any of them again, in any order and any
    number of times, leaves the store exactly as it is, faults of the database
    included. *)
Theorem redelivery_changes_nothing {X} (world : World X) `{!WorldLaws world} tasks again w w'
  (Delivered : rm_each tasks (deliver world) w = (w', Ok tt)) (Same : again ⊆ tasks) :
  (rm_each again (deliver world) w').1 = w'.
Proof. apply (deliver_each world) in Delivered as [_ O]. apply (redeliver_each world). intros task Hin. by apply O, Same. Qed.


(** ** Witnesses, on the project of [Counter] *)

#[local] Existing Instances Workshop.tables_eq_dec Workshop.transaction_atomic Studio.transaction_atomic Studio.text Desk.checks_laws Counter.world_laws.

Lemma impacts_stay_wellformed_witness : duties_ok Counter.world Counter.taken.
Proof.
  exact (impacts_stay_wellformed Counter.world Desk.checks Counter.ports Counter.start Counter.taken Counter.start_ok Counter.history_taken).
Defined.

Lemma tasks_follow_their_table_witness :
  exists row', rm_tasks Counter.proved !! Counter.review_key = Some row'
  /\ rtc task_change (vr_Body Counter.review_row) (vr_Body row')
  /\ (it_Status (vr_Body Counter.review_row) = "STALE" -> it_Action (vr_Body Counter.review_row) <> "BLOCK_RELEASE" ->
      it_Status (vr_Body row') = "STALE")
  /\ (it_Status (vr_Body Counter.review_row) = "DISMISSED" ->
      it_Status (vr_Body row') = "DISMISSED" \/ it_Status (vr_Body row') = "STALE").
Proof.
  exact (tasks_follow_their_table Counter.world Desk.checks Counter.ports Counter.raised Counter.proved "p-1"
    (duty_key Desk.project Counter.change Counter.review) Counter.review_row Counter.raised_duties Counter.worked Counter.review_stored).
Defined.


Lemma replaced_suggestion_stays_out_witness : rm_dependencies Counter.repeated = rm_dependencies Counter.taken.
Proof.
  refine (replaced_suggestion_stays_out Counter.world Desk.checks Counter.ports Counter.taken Counter.taken Counter.repeated
    "p-1" "edge-1" Counter.edge_row Studio.ctx Studio.ann "key-0107" Counter.suggestion
    (Counter.answer (Counter.suggest "key-0107") Counter.taken) Counter.taken_ok Counter.edge_stored _ _ _ (rtc_refl _ _) _).
  - by vm_compute.
  - by vm_compute.
  - reflexivity.
  - apply surjective_pairing.
Defined.


Lemma proof_closes_every_block_witness :
  beyond Counter.proved = beyond Counter.completed
  \/ exists p proof, validImpactPreflight p "proof-1" proof = true /\ beside_tasks Counter.proved = beside_tasks Counter.completed
       /\ forall pid' key' row, rm_tasks Counter.completed !! (pid', key') = Some row ->
            if bool_decide (pid' = "p-1") && awaits_proof p "change-1" (proof_closure "proof-1" proof) (vr_Body row)
            then exists now, rm_tasks Counter.proved !! (pid', key') = Some
                   {| vr_Version := vr_Version row +i 1; vr_Body := acknowledged (proof_closure "proof-1" proof) now (vr_Body row) |}
            else rm_tasks Counter.proved !! (pid', key') = Some row.
Proof.
  refine (proof_closes_every_block Counter.world Desk.checks Counter.ports Studio.ctx Studio.ann "p-1" "change-1" "proof-1" "key-0103"
    Counter.completed Counter.proved (Counter.answer Counter.acknowledge Counter.completed) Counter.completed_ok _).
  apply surjective_pairing.
Defined.


Lemma impact_calls_close_change_sets_witness :
  changes_keyed Counter.stabilized /\ exists row', rm_changes Counter.stabilized !! "change-1" = Some row'
  /\ rtc change_move ChangeSetStatusApplied (ch_Status row')
  /\ (ChangeSetStatusApplied ∈ ChangeSetClosedStatuses -> ch_Status row' ∈ ChangeSetClosedStatuses).
Proof.
  refine (impact_calls_close_change_sets Counter.world Desk.checks Counter.ports Counter.proved Counter.stabilized "change-1"
    Counter.change Counter.proved_keyed (rtc_once _ _ _) _).
  - exists Studio.ctx, Counter.stabilize, (Counter.answer Counter.stabilize Counter.proved). apply surjective_pairing.
  - by vm_compute.
Defined.


Lemma redelivery_changes_nothing_witness :
  (rm_each (Counter.delivered ++ Counter.delivered) (deliver Counter.world) (rm_each Counter.delivered (deliver Counter.world) Counter.start).1).1
  = (rm_each Counter.delivered (deliver Counter.world) Counter.start).1.
Proof.
  refine (redelivery_changes_nothing Counter.world Counter.delivered (Counter.delivered ++ Counter.delivered) Counter.start _ _ _).
  - assert ((rm_each Counter.delivered (deliver Counter.world) Counter.start).2 = Ok tt) as E by (vm_compute; reflexivity).
    rewrite <- E. apply surjective_pairing.
  - intros task Hin. apply elem_of_app in Hin as [Hin|Hin]; exact Hin.
Defined.

