(* ===== verification/Candidates.v ===== *)
(** Candidates of dependencies: what a model proposes in batches, and what a
    person decides about each of them
    ([src/internal/lingdoc/workspacecore/impact_dependency_candidate.go] and
    [impact_dependency_candidate_store.go]). *)

From stdpp Require Import pretty sorting.
From Stdlib Require Import Ascii String.
From S2P Require Import Prelude Effects OperationCore OperationStore OperationTheorems Workspace Permission MemberStore Membership OperationRunner RoadmapModel RoadmapStore RouteObjects Roadmap ImpactStore Assessment Stabilization Impact ImpactService.

Definition DependencyCandidateStatusProposed := "proposed".
Definition DependencyCandidateStatusConfirmed := "confirmed".
Definition DependencyCandidateStatusModified := "modified".
Definition DependencyCandidateStatusRejected := "rejected".
Definition DependencyCandidateStatusStale := "stale".

Definition DependencyCandidateSuppressedRejected := "rejected_in_same_version".
Definition DependencyCandidateSuppressedModified := "modified_in_same_version".
Definition DependencyCandidateSuppressedConfirmed := "confirmed_in_same_version".
Definition DependencyCandidateSuppressedProposed := "already_proposed".

Definition ErrDependencyCandidateStale : error := Sentinel "dependency candidate requires re-evaluation".

(** The presentation of the error, whose cause it unwraps to. *)
Definition dependencyCandidateStaleError : error := Wrapped (Error ErrDependencyCandidateStale) ErrDependencyCandidateStale.

(** ** What a batch may hold *)

Definition dependencyCandidateBatchLimit : Z := 200.
Definition dependencyCandidateTextLimit : Z := 2000.
Definition dependencyCandidateRelationLimit : Z := 128.

Definition validDependencyCandidateInput (candidate : DependencyCandidateInput) : bool :=
  when negb (validObjectRef (ki_Source candidate)) || negb (validObjectRef (ki_Target candidate)) return false;
  when blank (ki_Relation candidate) || (dependencyCandidateRelationLimit <? len (ki_Relation candidate)) return false;
  when negb (validImpactAction (ki_Action candidate)) return false;
  when blank (ki_Evidence candidate) || (dependencyCandidateTextLimit <? len (ki_Evidence candidate)) return false;
  when blank (ki_Reason candidate) || (dependencyCandidateTextLimit <? len (ki_Reason candidate)) return false;
  negb (bad_confidence (ki_Confidence candidate)).

Definition dependencyCandidateScopeAllows (scope : DependencyCandidateScope) (candidate : DependencyCandidateInput) : bool :=
  when nonempty (sp_Objects scope)
       && negb (bool_decide (ki_Source candidate ∈ sp_Objects scope) && bool_decide (ki_Target candidate ∈ sp_Objects scope))
  return false;
  when nonempty (sp_TargetKinds scope) && negb (contains (sp_TargetKinds scope) (ref_Kind (ki_Target candidate))) return false;
  true.

Definition validateDependencyCandidateBatchInput (input : DependencyCandidateBatchInput) : option error :=
  when (kb_ExpectedContextRevision input <? 0) || blank (kb_Reason input) || (dependencyCandidateTextLimit <? len (kb_Reason input))
  return Some ErrInvalidRequest;
  when negb (nonempty (kb_Candidates input)) || (dependencyCandidateBatchLimit <? Z.of_nat (length (kb_Candidates input)))
  return Some ErrInvalidRequest;
  when 128 <? len (kb_IdempotencyKey input) return Some ErrInvalidRequest;
  when negb (forallb (fun candidate => validDependencyCandidateInput candidate
                                       && dependencyCandidateScopeAllows (kb_Scope input) candidate) (kb_Candidates input))
  return Some ErrInvalidRequest;
  None.

(** ** The tuple a candidate stands for *)

Record dependencyCandidateTuple := {
  tu_source : ObjectVersionRef;
  tu_target : ObjectVersionRef;
  tu_relation : string;
  tu_action : string
}.

#[export] Instance tuple_eq_dec : EqDecision dependencyCandidateTuple.
Proof. solve_decision. Defined.

Definition dependencyCandidateTupleOf (candidate : DependencyCandidateInput) : dependencyCandidateTuple :=
  {| tu_source := ki_Source candidate; tu_target := ki_Target candidate; tu_relation := ki_Relation candidate;
     tu_action := ki_Action candidate |}.

Definition dependencyCandidateTupleOfRow (candidate : DependencyCandidate) : dependencyCandidateTuple :=
  {| tu_source := dc_Source candidate; tu_target := dc_Target candidate; tu_relation := dc_Relation candidate;
     tu_action := dc_Action candidate |}.

(** A later project version, or the same one and a later moment. *)
Definition supersedes (old latest : DependencyCandidate) : bool :=
  (dc_ProjectVersion latest <? dc_ProjectVersion old)
  || (dc_ProjectVersion old =? dc_ProjectVersion latest) && (dc_CreatedAt latest <? dc_CreatedAt old).

(** The loop that keeps the latest candidate of a tuple. *)
Fixpoint latest_of (tuple : dependencyCandidateTuple) (prior : list DependencyCandidate) (latest : option DependencyCandidate)
  : option DependencyCandidate :=
  match prior with
  | [] => latest
  | old :: prior' =>
      when negb (bool_decide (dependencyCandidateTupleOfRow old = tuple)) return latest_of tuple prior' latest;
      latest_of tuple prior' (match latest with
                              | None => Some old
                              | Some kept => Some (if supersedes old kept then old else kept)
                              end)
  end.

Definition suppression_reason (status : string) : string :=
  if (status =? DependencyCandidateStatusRejected)%string then DependencyCandidateSuppressedRejected
  else if (status =? DependencyCandidateStatusModified)%string then DependencyCandidateSuppressedModified
  else if (status =? DependencyCandidateStatusConfirmed)%string then DependencyCandidateSuppressedConfirmed
  else DependencyCandidateSuppressedProposed.

Definition suppressDependencyCandidate (prior : list DependencyCandidate) (version : Z) (candidate : DependencyCandidateInput)
  : option DependencyCandidateSuppression :=
  match latest_of (dependencyCandidateTupleOf candidate) prior None with
  | None => None
  | Some latest =>
      when negb (dc_ProjectVersion latest =? version) return None;
      Some {| ds_Source := ki_Source candidate; ds_Target := ki_Target candidate; ds_Relation := ki_Relation candidate;
              ds_Action := ki_Action candidate; ds_Reason := suppression_reason (dc_Status latest);
              ds_PreviousCandidateID := dc_ID latest; ds_PreviousStatus := dc_Status latest;
              ds_PreviousProjectVersion := dc_ProjectVersion latest |}
  end.

Section Candidates.
Context {X : Type} `{Digester roadmap_any}.
Variable world : World X.
Variable checks : Checks.
Abbreviation service := (wd_service world).

Definition dependencyCandidateContentHash (input : DependencyCandidateBatchInput) : string :=
  match json_Marshal (AnyCandidates (kb_Candidates input)) with
  | Err _ => ""
  | Ok raw => sha256_hex raw
  end.

(** ** The tables ([impact_dependency_candidate_store.go])

    A row of the batches holds no candidates, and the key of a batch is unique
    per project and actor. *)

Definition same_batch_key (project actor key : string) (batch : DependencyCandidateBatch) : bool :=
  (cb_ProjectID batch =? project)%string && (cb_ActorID batch =? actor)%string && (cb_IdempotencyKey batch =? key)%string.

Definition batch_rows (w : roadmap) : list DependencyCandidateBatch := (map_to_list (rm_batches w)).*2.
Definition candidate_rows (w : roadmap) : list DependencyCandidate := (map_to_list (rm_candidates w)).*2.

Definition InsertDependencyCandidateBatch (batch : DependencyCandidateBatch) : RM unit :=
  rm_statement world "insert lingdoc_g3_dependency_candidate_batches" (fun w =>
    if some (rm_batches w !! cb_ID batch)
       || existsb (same_batch_key (cb_ProjectID batch) (cb_ActorID batch) (cb_IdempotencyKey batch)) (batch_rows w)
    then (w, Err duplicate_key)
    else (w <| rm_batches := <[cb_ID batch := batch <| cb_Candidates := [] |>]> (rm_batches w) |>, Ok tt)).

Definition DependencyCandidatesOfBatch (project batchID : string) : RM (list DependencyCandidate) :=
  rm_query world "select lingdoc_g3_dependency_candidates" (fun w =>
    wd_candidate_order world
      (base.filter (fun row => dc_ProjectID row = project /\ dc_BatchID row = batchID) (candidate_rows w))).

Definition with_candidates (project : string) (row : DependencyCandidateBatch) : RM DependencyCandidateBatch :=
  candidates ← DependencyCandidatesOfBatch project (cb_ID row);
  mret (row <| cb_Candidates := candidates |>).

Definition DependencyCandidateBatchByKey (project actor key : string) : RM DependencyCandidateBatch :=
  found ← rm_query world "select lingdoc_g3_dependency_candidate_batches"
            (fun w => base.filter (fun row => same_batch_key project actor key row = true) (batch_rows w));
  match found with
  | row :: _ => with_candidates project row
  | [] => fail ErrNotFound
  end.

Definition DependencyCandidateBatches (project : string) : RM (list DependencyCandidateBatch) :=
  rows ← rm_query world "select lingdoc_g3_dependency_candidate_batches"
           (fun w => wd_batch_order world (base.filter (fun row => cb_ProjectID row = project) (batch_rows w)));
  rm_traverse (with_candidates project) rows.

Definition InsertDependencyCandidate (candidate : DependencyCandidate) : RM unit :=
  rm_statement world "insert lingdoc_g3_dependency_candidates" (fun w =>
    match rm_candidates w !! dc_ID candidate with
    | Some _ => (w, Err duplicate_key)
    | None => (w <| rm_candidates := <[dc_ID candidate := candidate]> (rm_candidates w) |>, Ok tt)
    end).

Definition Store_DependencyCandidate (project id : string) : RM DependencyCandidate :=
  found ← rm_query world "select lingdoc_g3_dependency_candidates" (fun w => rm_candidates w !! id);
  match found with
  | Some row => if (dc_ProjectID row =? project)%string then mret row else fail ErrNotFound
  | None => fail ErrNotFound
  end.

Definition DependencyCandidates (project : string) : RM (list DependencyCandidate) :=
  rm_query world "select lingdoc_g3_dependency_candidates" (fun w =>
    wd_candidate_order world (base.filter (fun row => dc_ProjectID row = project) (candidate_rows w))).

(** The columns of the update. *)
Definition updated_candidate (next row : DependencyCandidate) : DependencyCandidate :=
  row <| dc_Status := dc_Status next |> <| dc_Decision := dc_Decision next |> <| dc_DecisionReason := dc_DecisionReason next |>
      <| dc_DecidedBy := dc_DecidedBy next |> <| dc_DecidedAt := dc_DecidedAt next |> <| dc_EdgeID := dc_EdgeID next |>
      <| dc_SupersededRelation := dc_SupersededRelation next |> <| dc_SupersededAction := dc_SupersededAction next |>
      <| dc_Confidence := dc_Confidence next |> <| dc_Reason := dc_Reason next |> <| dc_Version := dc_Version next |>
      <| dc_UpdatedAt := dc_UpdatedAt next |>.

Definition UpdateDependencyCandidate (previous next : DependencyCandidate) : RM unit :=
  rm_statement world "update lingdoc_g3_dependency_candidates" (fun w =>
    match rm_candidates w !! dc_ID previous with
    | Some row =>
        if (dc_ProjectID row =? dc_ProjectID previous)%string && (dc_Version row =? dc_Version previous)
        then (w <| rm_candidates := <[dc_ID previous := updated_candidate next row]> (rm_candidates w) |>, Ok tt)
        else (w, Err ErrVersionConflict)
    | None => (w, Err ErrVersionConflict)
    end).

(** ** Submitting a batch *)

Definition proposed (actor : Actor) (pid batchID : string) (p : Project) (now : Z) (id : string) (candidate : DependencyCandidateInput)
  : DependencyCandidate :=
  {| dc_ID := id; dc_ProjectID := pid; dc_BatchID := batchID; dc_Source := ki_Source candidate; dc_Target := ki_Target candidate;
     dc_Relation := ki_Relation candidate; dc_Action := ki_Action candidate; dc_Evidence := ki_Evidence candidate;
     dc_Reason := ki_Reason candidate; dc_Confidence := ki_Confidence candidate; dc_Status := DependencyCandidateStatusProposed;
     dc_Decision := ""; dc_DecisionReason := ""; dc_DecidedBy := ""; dc_DecidedAt := None; dc_EdgeID := "";
     dc_SupersededRelation := ""; dc_SupersededAction := ""; dc_ProjectVersion := pr_ProjectVersion p;
     dc_ContextRevision := pr_CurrentContextRevision p; dc_ModelRunID := ki_ModelRunID candidate; dc_ActorID := ac_UserID actor;
     dc_Version := 1; dc_CreatedAt := now; dc_UpdatedAt := now |}.

(** The loop over the candidates; [prior] grows with each row. *)
Fixpoint propose_each (actor : Actor) (pid batchID : string) (p : Project) (now : Z) (inputs : list DependencyCandidateInput)
  (prior : list DependencyCandidate) : RM (list DependencyCandidate * list DependencyCandidateSuppression) :=
  match inputs with
  | [] => mret ([], [])
  | candidate :: inputs' =>
      match suppressDependencyCandidate prior (pr_ProjectVersion p) candidate with
      | Some suppression =>
          '(rows, suppressed) ← propose_each actor pid batchID p now inputs' prior;
          mret (rows, suppression :: suppressed)
      | None =>
          here (fun w =>
            let row := proposed actor pid batchID p now (wd_uuid world w) candidate in
            _ ← InsertDependencyCandidate row;
            '(rows, suppressed) ← propose_each actor pid batchID p now inputs' (prior ++ [row]);
            mret (row :: rows, suppressed))
      end
  end.

Definition new_batch (actor : Actor) (pid batchKey id : string) (p : Project) (now : Z) (input : DependencyCandidateBatchInput)
  (rows : list DependencyCandidate) (suppressed : list DependencyCandidateSuppression) : DependencyCandidateBatch :=
  {| cb_ID := id; cb_ProjectID := pid; cb_IdempotencyKey := batchKey; cb_Scope := kb_Scope input;
     cb_Status := DependencyCandidateStatusProposed; cb_Candidates := rows; cb_Suppressed := suppressed;
     cb_ProjectVersion := pr_ProjectVersion p; cb_ContextRevision := pr_CurrentContextRevision p; cb_ActorID := ac_UserID actor;
     cb_Reason := kb_Reason input; cb_CreatedAt := now; cb_UpdatedAt := now;
     cb_ContentHash := dependencyCandidateContentHash input |}.

Definition create_batch (actor : Actor) (pid batchKey : string) (input : DependencyCandidateBatchInput) (p : Project)
  : RM DependencyCandidateBatch :=
  prior ← DependencyCandidates pid;
  here (fun w =>
    let now := wd_now world w in
    let id := wd_uuid world w in
    '(rows, suppressed) ← propose_each actor pid id p now (kb_Candidates input) prior;
    let batch := new_batch actor pid batchKey id p now input rows suppressed in
    _ ← InsertDependencyCandidateBatch batch;
    _ ← recordAuditEvent world actor pid "dependency.candidates.submit" (cb_ID batch)
          {[ "candidates" := pretty (length rows); "suppressed" := pretty (length suppressed);
             "project_version" := pretty (pr_ProjectVersion p); "reason" := kb_Reason input ]};
    mret batch).

Definition submit_write (actor : Actor) (pid batchKey : string) (input : DependencyCandidateBatchInput) (p : Project)
  : RM (DependencyCandidateBatch * Z) :=
  _ ← refuse_if (negb (pr_CurrentContextRevision p =? kb_ExpectedContextRevision input)) ErrVersionConflict;
  existing ← attempt (DependencyCandidateBatchByKey pid (ac_UserID actor) batchKey);
  match existing with
  | Ok batch =>
      _ ← refuse_if (negb (cb_ContentHash batch =? dependencyCandidateContentHash input)%string) ErrIdempotencyConflict;
      mret (batch, OperationStatusOK)
  | Err err =>
      if decide (err = ErrNotFound)
      then batch ← create_batch actor pid batchKey input p; mret (batch, OperationStatusCreated)
      else fail err
  end.

Definition resolveDependencyCandidateBatch (input : DependencyCandidateBatchInput) (_ : string) (_ : Project)
  : RM (list ObjectVersionRef * list string) :=
  mret (mjoin ((fun candidate => [ki_Source candidate; ki_Target candidate]) <$> kb_Candidates input), []).

Definition SubmitDependencyCandidateBatch (ctx : Context X) (actor : Actor) (pid key : string) (input : DependencyCandidateBatchInput)
  : RM (string * Z * bool) :=
  _ ← returned (validateDependencyCandidateBatchInput input);
  let named := TrimSpace (kb_IdempotencyKey input) in
  let batchKey := if (named =? "")%string then key else named in
  checkedImpactWrite world checks ctx actor "submitDependencyCandidates" (pid +:+ "/dependency-candidates") key (AnyBatchInput input)
    (mjoin ((fun candidate => [ki_Source candidate; ki_Target candidate]) <$> kb_Candidates input))
    (project_request actor pid "write") (resolveDependencyCandidateBatch input)
    (fun p => '(batch, status) ← submit_write actor pid batchKey input p; mret (AnyBatch batch, status)).

(** ** Deciding a candidate *)

Definition zero_candidate : DependencyCandidate :=
  {| dc_ID := ""; dc_ProjectID := ""; dc_BatchID := ""; dc_Source := {| ref_Kind := ""; ref_ID := ""; ref_Version := "" |};
     dc_Target := {| ref_Kind := ""; ref_ID := ""; ref_Version := "" |}; dc_Relation := ""; dc_Action := ""; dc_Evidence := "";
     dc_Reason := ""; dc_Confidence := float_zero; dc_Status := ""; dc_Decision := ""; dc_DecisionReason := ""; dc_DecidedBy := "";
     dc_DecidedAt := None; dc_EdgeID := ""; dc_SupersededRelation := ""; dc_SupersededAction := ""; dc_ProjectVersion := 0;
     dc_ContextRevision := 0; dc_ModelRunID := ""; dc_ActorID := ""; dc_Version := 0; dc_CreatedAt := 0; dc_UpdatedAt := 0 |}.

Definition readDependencyCandidate (ctx : Context X) (actor : Actor) (pid id : string) : RM DependencyCandidate :=
  transaction world zero_candidate read_only
    (_ ← on_tables (service_authorizeProject service ctx (project_request actor pid "write"));
     Store_DependencyCandidate pid id).

(** The first end that is not as it was proposed: its version moved, or the
    read fails. *)
Fixpoint basis_moved (p : Project) (refs : list ObjectVersionRef) : RM bool :=
  match refs with
  | [] => mret false
  | ref :: refs' =>
      found ← attempt (currentImpactObject world p ref);
      match found with
      | Ok _ => basis_moved p refs'
      | Err err => if errors_Is err ErrVersionConflict then mret true else fail err
      end
  end.

Definition dependencyCandidateBasisMoved (ctx : Context X) (actor : Actor) (pid : string) (candidate : DependencyCandidate) : RM bool :=
  transaction world false read_only
    (p ← on_tables (service_authorizeProject service ctx (project_request actor pid "read"));
     basis_moved p [dc_Source candidate; dc_Target candidate]).

Definition staled_candidate (now : Z) (current : DependencyCandidate) : DependencyCandidate :=
  current <| dc_Status := DependencyCandidateStatusStale |> <| dc_Version := dc_Version current +i 1 |> <| dc_UpdatedAt := now |>.

Definition stale_write (actor : Actor) (pid : string) (candidate : DependencyCandidate) : RM unit :=
  current ← Store_DependencyCandidate pid (dc_ID candidate);
  when negb (dc_Status current =? DependencyCandidateStatusProposed)%string return mret tt;
  here (fun w =>
    _ ← UpdateDependencyCandidate current (staled_candidate (wd_now world w) current);
    recordAuditEvent world actor pid "dependency.candidate.stale" (dc_ID candidate)
      {[ "source" := refIdentity (dc_Source candidate); "target" := refIdentity (dc_Target candidate) ]}).

Definition markDependencyCandidateStale (actor : Actor) (pid : string) (candidate : DependencyCandidate) : RM unit :=
  transaction world tt read_write (stale_write actor pid candidate).

(** The tuple a decision settles on: the candidate's, but for what a
    modification names. *)
Definition chosen {A} (input : DependencyDecisionInput) (named : option A) (kept : A) : A :=
  if (dd_Decision input =? "modify")%string then default kept named else kept.

Definition same_tuple (candidate : DependencyCandidate) (relation action : string) (edge : DependencyEdge) : bool :=
  bool_decide (de_Source edge = dc_Source candidate) && bool_decide (de_Target edge = dc_Target candidate)
  && (de_Relation edge =? relation)%string && (de_Action edge =? action)%string.

Definition suggested_edge (actor : Actor) (pid id : string) (now : Z) (candidate : DependencyCandidate) : DependencyEdge :=
  {| de_ID := id; de_ProjectID := pid; de_Source := dc_Source candidate; de_Target := dc_Target candidate;
     de_Relation := dc_Relation candidate; de_Action := dc_Action candidate; de_Origin := "ai"; de_Reason := dc_Reason candidate;
     de_Status := DependencySuggested; de_SupersededRelation := ""; de_SupersededAction := ""; de_Confidence := dc_Confidence candidate;
     de_ActorID := ac_UserID actor; de_Version := 1; de_CreatedAt := now; de_UpdatedAt := now |}.

Definition confirmed_edge (actor : Actor) (candidate : DependencyCandidate) (input : DependencyDecisionInput) (now : Z)
  (edge : DependencyEdge) : DependencyEdge :=
  let modify := (dd_Decision input =? "modify")%string in
  {| de_ID := de_ID edge; de_ProjectID := de_ProjectID edge; de_Source := de_Source edge; de_Target := de_Target edge;
     de_Relation := if modify then chosen input (dd_Relation input) (dc_Relation candidate) else de_Relation edge;
     de_Action := if modify then chosen input (dd_Action input) (dc_Action candidate) else de_Action edge;
     de_Origin := de_Origin edge; de_Reason := dd_Reason input; de_Status := DependencyConfirmed;
     de_SupersededRelation := if modify then dc_Relation candidate else de_SupersededRelation edge;
     de_SupersededAction := if modify then dc_Action candidate else de_SupersededAction edge;
     de_Confidence := if modify then chosen input (dd_Confidence input) (dc_Confidence candidate) else de_Confidence edge;
     de_ActorID := ac_UserID actor; de_Version := de_Version edge +i 1; de_CreatedAt := de_CreatedAt edge; de_UpdatedAt := now |}.

Definition decideDependencyCandidateEdge (actor : Actor) (pid : string) (candidate : DependencyCandidate)
  (input : DependencyDecisionInput) : RM DependencyEdge :=
  let relation := chosen input (dd_Relation input) (dc_Relation candidate) in
  let action := chosen input (dd_Action input) (dc_Action candidate) in
  existing ← DependencyEdges world pid;
  here (fun w =>
    let now := wd_now world w in
    edge ← match base.filter (fun edge => same_tuple candidate relation action edge = true) existing with
           | edge :: _ => mret edge
           | [] => let edge := suggested_edge actor pid (wd_uuid world w) now candidate in
                   _ ← PutDependencyEdge world edge; mret edge
           end;
    let next := confirmed_edge actor candidate input now edge in
    _ ← UpdateDependencyEdge world edge next;
    mret next).

(** An edge remembers that a person replaced the candidate's tuple. *)
Definition replaced_tuple (candidate : DependencyCandidate) (edge : DependencyEdge) : bool :=
  bool_decide (de_Source edge = dc_Source candidate) && bool_decide (de_Target edge = dc_Target candidate)
  && (de_SupersededRelation edge =? dc_Relation candidate)%string && (de_SupersededAction edge =? dc_Action candidate)%string.

Definition decided_candidate (actor : Actor) (input : DependencyDecisionInput) (now : Z) (edge : option DependencyEdge)
  (current : DependencyCandidate) : DependencyCandidate :=
  let next := current <| dc_Decision := dd_Decision input |> <| dc_DecisionReason := dd_Reason input |>
                      <| dc_DecidedBy := ac_UserID actor |> <| dc_DecidedAt := Some now |> <| dc_UpdatedAt := now |>
                      <| dc_Version := dc_Version current +i 1 |> in
  match edge with
  | None => next <| dc_Status := DependencyCandidateStatusRejected |>
  | Some edge =>
      let next := next <| dc_EdgeID := de_ID edge |> in
      if (dd_Decision input =? "modify")%string
      then next <| dc_Status := DependencyCandidateStatusModified |> <| dc_SupersededRelation := dc_Relation current |>
                <| dc_SupersededAction := dc_Action current |>
      else next <| dc_Status := DependencyCandidateStatusConfirmed |>
  end.

Definition decide_candidate (actor : Actor) (pid id : string) (input : DependencyDecisionInput) : RM DependencyCandidateDecisionResult :=
  current ← Store_DependencyCandidate pid id;
  _ ← refuse_if (negb (dc_Version current =? dd_ExpectedVersion input)) ErrVersionConflict;
  _ ← refuse_if (negb (dc_Status current =? DependencyCandidateStatusProposed)%string) ErrInvalidState;
  existing ← DependencyEdges world pid;
  _ ← refuse_if (existsb (replaced_tuple current) existing) ErrDependencyDecided;
  here (fun w =>
    let now := wd_now world w in
    edge ← (if (dd_Decision input =? "reject")%string then mret None
            else edge ← decideDependencyCandidateEdge actor pid current input; mret (Some edge));
    let next := decided_candidate actor input now edge current in
    _ ← UpdateDependencyCandidate current next;
    _ ← recordAuditEvent world actor pid ("dependency.candidate." +:+ dd_Decision input) id
          {[ "source" := refIdentity (dc_Source current); "target" := refIdentity (dc_Target current); "action" := dc_Action current;
             "status" := dc_Status next; "edge_id" := dc_EdgeID next; "reason" := dd_Reason input ]};
    mret {| kr_Candidate := next; kr_Edge := edge |}).

Definition resolveDependencyCandidateDecision (id : string) (p : Project) : RM (list ObjectVersionRef * list string) :=
  candidate ← Store_DependencyCandidate (pr_ID p) id;
  mret ([dc_Source candidate; dc_Target candidate], []).

Definition DecideDependencyCandidate (ctx : Context X) (actor : Actor) (pid id key : string) (input : DependencyDecisionInput)
  : RM (string * Z * bool) :=
  _ ← RequireHuman ctx;
  _ ← refuse_if (bad_decision_input input) ErrInvalidRequest;
  candidate ← readDependencyCandidate ctx actor pid id;
  _ ← refuse_if (negb (dc_Status candidate =? DependencyCandidateStatusProposed)%string) ErrInvalidState;
  _ ← refuse_if (negb (dc_Version candidate =? dd_ExpectedVersion input)) ErrVersionConflict;
  stale ← dependencyCandidateBasisMoved ctx actor pid candidate;
  if (stale : bool) then
    _ ← attempt (markDependencyCandidateStale actor pid candidate);
    fail dependencyCandidateStaleError
  else
    checkedImpactWrite world checks ctx actor "decideDependencyCandidate" (pid +:+ "/dependency-candidates/" +:+ id) key
      (AnyDecision input) [dc_Source candidate; dc_Target candidate] (project_request actor pid "write")
      resolveDependencyCandidateDecision
      (fun _ => result ← decide_candidate actor pid id input; mret (AnyCandidateDecision result, OperationStatusOK)).

(** ** Reading the candidates *)

(** The sources of the ends, when both can be read: [readable] of the closure. *)
Fixpoint end_sources (p : Project) (refs : list ObjectVersionRef) : RM (option (list string)) :=
  match refs with
  | [] => mret (Some [])
  | ref :: refs' =>
      found ← attempt (readImpactObjectState world p ref);
      match found with
      | Err _ => mret None
      | Ok state => rest ← end_sources p refs'; mret (app (os_SourceIDs state) <$> rest)
      end
  end.

Definition dependencyCandidateReadable (actor : Actor) (pid : string) (p : Project) (candidate : DependencyCandidate) : RM bool :=
  sources ← transaction world None read_only (end_sources p [dc_Source candidate; dc_Target candidate]);
  match sources with
  | None => mret false
  | Some ids => readable (on_tables (checkSources service actor pid ids))
  end.

Definition visible_batch (actor : Actor) (pid : string) (p : Project) (batch : DependencyCandidateBatch) : RM DependencyCandidateBatch :=
  candidates ← visible (dependencyCandidateReadable actor pid p) (cb_Candidates batch);
  mret (batch <| cb_Candidates := candidates |>).

Definition ListDependencyCandidates (ctx : Context X) (actor : Actor) (pid batchID : string) : RM (list DependencyCandidateBatch) :=
  '(p, batches) ← transaction world (zero_project, []) read_only
    (p ← on_tables (service_authorizeProject service ctx (project_request actor pid "read"));
     batches ← DependencyCandidateBatches pid; mret (p, batches));
  rm_traverse (visible_batch actor pid p)
    (base.filter (fun batch => batchID = "" \/ cb_ID batch = batchID) batches).
End Candidates.
