(* ===== verification/CandidateLaws.v ===== *)
(** What the writes on candidates do: the effect of each statement, the latest
    candidate of a tuple, what a batch leaves and what a decision makes of a
    candidate and of the dependency edges; the operations as the calls of one
    machine, and how candidates move over every history of calls. *)

From stdpp Require Import pretty sorting.
From Stdlib Require Import Ascii String.
From S2P Require Import Prelude Effects OperationCore OperationStore OperationTheorems OperationEffect Workspace Permission MemberStore Membership OperationRunner RoadmapModel RoadmapStore RouteObjects Roadmap RoadmapLaws RoadmapHistory RoadmapSound RoadmapCommit RoadmapSteps RouteLaws ImpactStore ImpactStoreLaws Assessment Stabilization Impact ImpactService ImpactLaws ImpactMoves ImpactCalls ImpactExact Candidates.

(** ** The latest candidate of a tuple *)

Abbreviation tuple_of := dependencyCandidateTupleOfRow.

(** [latest] is as late as each candidate of the tuple among [prior]. *)
Definition heads (tuple : dependencyCandidateTuple) (prior : list DependencyCandidate) (latest : DependencyCandidate) : Prop :=
  tuple_of latest = tuple
  /\ forall old, old ∈ prior -> tuple_of old = tuple -> dc_ProjectVersion old <= dc_ProjectVersion latest.

Lemma supersedes_later old kept : supersedes old kept = true -> dc_ProjectVersion kept <= dc_ProjectVersion old.
Proof. unfold supersedes. intros [E|[E _]%andb_true_iff]%orb_true_iff; split_bools; lia. Qed.

Lemma supersedes_not old kept : supersedes old kept = false -> dc_ProjectVersion old <= dc_ProjectVersion kept.
Proof. unfold supersedes. intros E. apply orb_false_iff in E as [E _]. split_bools. lia. Qed.

Lemma latest_of_some tuple prior latest found : latest_of tuple prior latest = Some found ->
  (forall kept, latest = Some kept -> tuple_of kept = tuple) ->
  heads tuple prior found /\ (found ∈ prior \/ latest = Some found)
  /\ forall kept, latest = Some kept -> dc_ProjectVersion kept <= dc_ProjectVersion found.
Proof.
  revert latest. induction prior as [|old prior IH]; intros latest E T; cbn in E.
  { subst. split; [split; [by apply T|by intros ? ?%not_elem_of_nil]|]. split; [by right|]. intros kept F. by injection F as <-. }
  case_bool_decide as G; cbn in E.
  - set (next := match latest with None => old | Some kept => if supersedes old kept then old else kept end).
    assert (latest_of tuple prior (Some next) = Some found) as E' by by destruct latest. clear E.
    assert (tuple_of next = tuple) as Tn.
    { subst next. destruct latest as [kept|]; [|done]. destruct (supersedes old kept); [done|by apply T]. }
    assert (dc_ProjectVersion old <= dc_ProjectVersion next) as Lo.
    { subst next. destruct latest as [kept|]; [|done]. destruct (supersedes old kept) eqn:S; [done|by apply supersedes_not]. }
    assert (forall kept, latest = Some kept -> dc_ProjectVersion kept <= dc_ProjectVersion next) as Lk.
    { intros kept ->. subst next. destruct (supersedes old kept) eqn:S; [by apply supersedes_later|done]. }
    destruct (IH _ E') as ((Tf & Hf) & Hin & Lf); [intros kept F; by injection F as <-|].
    specialize (Lf next eq_refl). split; [split; [done|]|split].
    + intros c [->|Hc]%elem_of_cons Tc; [lia|by apply Hf].
    + destruct Hin as [Hin|F]; [left; by right|]. injection F as <-. subst next.
      destruct latest as [kept|]; [|left; by left]. destruct (supersedes old kept); [left; by left|by right].
    + intros kept F. specialize (Lk kept F). lia.
  - destruct (IH _ E T) as ((Tf & Hf) & Hin & Lf). split; [split; [done|]|split; [|done]].
    + intros c [->|Hc]%elem_of_cons Tc; [done|by apply Hf].
    + destruct Hin as [Hin|F]; [left; by right|by right].
Qed.

Lemma latest_of_none tuple prior : latest_of tuple prior None = None -> forall old, old ∈ prior -> tuple_of old <> tuple.
Proof.
  assert (forall l (kept : DependencyCandidate), is_Some (latest_of tuple l (Some kept))) as S.
  { induction l as [|c l IH]; intros kept; cbn; [by eexists|]. destruct (negb _); apply IH. }
  induction prior as [|old prior IH]; cbn; intros E c; [by intros ?%not_elem_of_nil|].
  case_bool_decide as G; cbn in E.
  - destruct (S prior old) as [? F]. congruence.
  - intros [->|Hc]%elem_of_cons; [done|by apply IH].
Qed.

(** A tuple that is not suppressed has no candidate of the version that is as
    late as its others. *)
Lemma not_suppressed prior version input : suppressDependencyCandidate prior version input = None ->
  forall old, old ∈ prior -> tuple_of old = dependencyCandidateTupleOf input -> dc_ProjectVersion old = version ->
  exists later, later ∈ prior /\ tuple_of later = dependencyCandidateTupleOf input /\ version < dc_ProjectVersion later.
Proof.
  unfold suppressDependencyCandidate. intros E old Hin T V. destruct (latest_of _ _ _) as [latest|] eqn:L.
  - destruct (negb _) eqn:G; [|done]. apply latest_of_some in L as ((Tl & Hl) & Hm & _); [|done].
    destruct Hm as [Hm|Hm]; [|done]. exists latest. split_and!; [done..|]. specialize (Hl old Hin T). split_bools. lia.
  - by apply (latest_of_none _ _ L old) in Hin.
Qed.

(** A suppressed tuple has a candidate of the version. *)
Lemma suppressed_by prior version input s : suppressDependencyCandidate prior version input = Some s ->
  exists old, old ∈ prior /\ tuple_of old = dependencyCandidateTupleOf input /\ dc_ProjectVersion old = version.
Proof.
  unfold suppressDependencyCandidate. intros E. destruct (latest_of _ _ _) as [latest|] eqn:L; [|done].
  destruct (negb _) eqn:G; [done|]. apply latest_of_some in L as ((Tl & _) & Hm & _); [|done].
  destruct Hm as [Hm|Hm]; [|done]. exists latest. split_bools. by split_and!.
Qed.

(** ** How candidates move *)

(** What a decision or a staling keeps of a candidate. *)
Record same_candidate (c c' : DependencyCandidate) : Prop := {
  sc_id : dc_ID c' = dc_ID c;
  sc_project : dc_ProjectID c' = dc_ProjectID c;
  sc_batch : dc_BatchID c' = dc_BatchID c;
  sc_tuple : tuple_of c' = tuple_of c;
  sc_evidence : dc_Evidence c' = dc_Evidence c;
  sc_reason : dc_Reason c' = dc_Reason c;
  sc_confidence : dc_Confidence c' = dc_Confidence c;
  sc_version : dc_ProjectVersion c' = dc_ProjectVersion c;
  sc_revision : dc_ContextRevision c' = dc_ContextRevision c;
  sc_run : dc_ModelRunID c' = dc_ModelRunID c;
  sc_actor : dc_ActorID c' = dc_ActorID c;
  sc_created : dc_CreatedAt c' = dc_CreatedAt c;
  sc_next : dc_Version c' = dc_Version c +i 1
}.

(** The ways out of a proposal. *)
Inductive conclusion (c c' : DependencyCandidate) : Prop :=
| concluded_stale :
    dc_Status c' = DependencyCandidateStatusStale -> dc_Decision c' = dc_Decision c -> dc_EdgeID c' = dc_EdgeID c -> conclusion c c'
| concluded_rejected :
    dc_Status c' = DependencyCandidateStatusRejected -> dc_Decision c' = "reject" -> dc_EdgeID c' = dc_EdgeID c -> conclusion c c'
| concluded_confirmed :
    dc_Status c' = DependencyCandidateStatusConfirmed -> dc_Decision c' = "confirm" -> conclusion c c'
| concluded_modified :
    dc_Status c' = DependencyCandidateStatusModified -> dc_Decision c' = "modify" ->
    dc_SupersededRelation c' = dc_Relation c -> dc_SupersededAction c' = dc_Action c -> conclusion c c'.

Lemma conclusion_closes c c' : conclusion c c' -> dc_Status c' <> DependencyCandidateStatusProposed.
Proof. by intros [E _ _|E _ _|E _|E _ _ _]; rewrite E. Qed.

Definition candidate_change (c c' : DependencyCandidate) : Prop :=
  c' = c \/ dc_Status c = DependencyCandidateStatusProposed /\ same_candidate c c' /\ conclusion c c'.

#[export] Instance candidate_change_preorder : PreOrder candidate_change.
Proof.
  split; [by left|]. intros a b c [->|(Sa & Sb & C)] [->|(Sb' & Sc)]; [by left|by right|by right|].
  by apply conclusion_closes in C.
Qed.

Definition pursued (w w' : roadmap) : Prop :=
  forall id c, rm_candidates w !! id = Some c -> exists c', rm_candidates w' !! id = Some c' /\ candidate_change c c'.

#[export] Instance pursued_preorder : PreOrder pursued.
Proof.
  split; [by intros w id c F; exists c|]. intros a b c Ra Rb id x (y & Fy & Cy)%Ra. apply Rb in Fy as (z & Fz & Cz).
  exists z. split; [done|]. by transitivity y.
Qed.

(** Candidates are stored by their id. *)
Definition candidates_keyed (w : roadmap) : Prop := forall id c, rm_candidates w !! id = Some c -> dc_ID c = id.

(** The latest version of a tuple holds one candidate. *)
Definition identity (c : DependencyCandidate) : string * dependencyCandidateTuple * Z :=
  (dc_ProjectID c, tuple_of c, dc_ProjectVersion c).

Lemma identity_fields c c' : identity c = identity c' ->
  dc_ProjectID c = dc_ProjectID c' /\ tuple_of c = tuple_of c' /\ dc_ProjectVersion c = dc_ProjectVersion c'.
Proof. intros E. split_and!; [exact (f_equal (fun i => i.1.1) E)|exact (f_equal (fun i => i.1.2) E)|exact (f_equal snd E)]. Qed.

Definition latest_in (w : roadmap) (c : DependencyCandidate) : Prop :=
  forall id old, rm_candidates w !! id = Some old -> dc_ProjectID old = dc_ProjectID c -> tuple_of old = tuple_of c ->
    dc_ProjectVersion old <= dc_ProjectVersion c.

Definition one_per_version (w : roadmap) : Prop :=
  forall id1 c1 id2 c2, rm_candidates w !! id1 = Some c1 -> rm_candidates w !! id2 = Some c2 -> identity c1 = identity c2 ->
    latest_in w c1 -> id1 = id2.

Lemma one_per_version_same w w' : identity <$> rm_candidates w' = identity <$> rm_candidates w ->
  one_per_version w -> one_per_version w'.
Proof.
  intros E U id1 c1 id2 c2 F1 F2 I L.
  assert (forall a b, identity <$> rm_candidates a = identity <$> rm_candidates b -> forall id c, rm_candidates a !! id = Some c ->
            exists old, rm_candidates b !! id = Some old /\ identity old = identity c) as B.
  { intros a b Eab id c F. assert ((identity <$> rm_candidates a) !! id = Some (identity c)) as Fi by by rewrite lookup_fmap, F.
    rewrite Eab, lookup_fmap in Fi. apply fmap_Some in Fi as (old & Fo & Io). by exists old. }
  apply (B _ _ E) in F1 as (o1 & F1 & I1), F2 as (o2 & F2 & I2). apply (U id1 o1 id2 o2 F1 F2); [congruence|].
  intros id old Fo P T. apply (B _ _ (eq_sym E)) in Fo as (c & Fc & Ic).
  apply identity_fields in Ic as (P1 & T1 & V1), I1 as (P2 & T2 & V2). rewrite <- V1, V2. apply (L id c Fc); congruence.
Qed.

(** Nothing but the candidates. *)
Definition beside_candidates (w : roadmap) := (own w, rm_changes w, rm_plans w, rm_assessments w).

Lemma beyond_candidates w w' : beyond w' = beyond w ->
  beside_candidates w' = beside_candidates w /\ rm_batches w' = rm_batches w /\ rm_candidates w' = rm_candidates w.
Proof. unfold beyond, beside_candidates. intros E. injection E. intros. split_and!; congruence. Qed.

Section Writes.
Context {X : Type} `{Digester roadmap_any} (world : World X) `{!WorldLaws world} (checks : Checks).

(** ** Statements *)

Lemma insert_candidate_ok c w w' u : InsertDependencyCandidate world c w = (w', Ok u) ->
  rm_candidates w !! dc_ID c = None /\ w' = w <| rm_candidates := <[dc_ID c := c]> (rm_candidates w) |>.
Proof.
  intros F%rm_statement_ok. destruct (rm_candidates w !! dc_ID c); [discriminate F|]. by injection F as <-.
Qed.

Lemma insert_batch_ok batch w w' u : InsertDependencyCandidateBatch world batch w = (w', Ok u) ->
  rm_batches w !! cb_ID batch = None
  /\ (forall id row, rm_batches w !! id = Some row ->
        same_batch_key (cb_ProjectID batch) (cb_ActorID batch) (cb_IdempotencyKey batch) row = false)
  /\ w' = w <| rm_batches := <[cb_ID batch := batch <| cb_Candidates := [] |>]> (rm_batches w) |>.
Proof.
  intros F%rm_statement_ok. destruct (_ || _) eqn:G; [discriminate F|]. injection F as <-.
  apply orb_false_iff in G as [G1 G2]. split_and!; [by destruct (rm_batches w !! cb_ID batch)| |done].
  intros id row Fr. apply not_true_iff_false. intros S. apply not_true_iff_false in G2. apply G2, existsb_exists.
  exists row. split; [|done]. apply list_elem_of_In, list_elem_of_fmap. exists (id, row). by split; [|apply elem_of_map_to_list].
Qed.

Lemma update_candidate_ok previous next w w' u : UpdateDependencyCandidate world previous next w = (w', Ok u) ->
  exists row, rm_candidates w !! dc_ID previous = Some row /\ dc_Version row = dc_Version previous
  /\ w' = w <| rm_candidates := <[dc_ID previous := updated_candidate next row]> (rm_candidates w) |>.
Proof.
  intros F%rm_statement_ok. destruct (rm_candidates w !! dc_ID previous) as [row|]; [|discriminate F].
  destruct (_ && _) eqn:G; [|discriminate F]. injection F as <-. exists row. split_bools. by split_and!.
Qed.

Lemma reads_candidate pid id : reads (Store_DependencyCandidate world pid id).
Proof.
  unfold Store_DependencyCandidate. apply keeps_bind; [apply reads_rm_query|]. intros [row|]; [|apply keeps_fail].
  destruct (_ =? _)%string; [apply keeps_ret|apply keeps_fail].
Qed.

Lemma candidate_ok pid id w w' c : Store_DependencyCandidate world pid id w = (w', Ok c) ->
  w' = w /\ rm_candidates w !! id = Some c /\ dc_ProjectID c = pid.
Proof.
  unfold Store_DependencyCandidate. intros (w1 & found & [-> ->]%rm_query_ok & F)%bind_ok.
  destruct (rm_candidates w !! id) as [row|]; [|discriminate F]. destruct (_ =? _)%string eqn:G; [|discriminate F].
  injection F as <- <-. split_bools. by split_and!.
Qed.

Lemma candidate_rows_spec w c : c ∈ candidate_rows w <-> exists id, rm_candidates w !! id = Some c.
Proof.
  unfold candidate_rows. rewrite list_elem_of_fmap. split.
  - intros ([id row] & -> & Hin%elem_of_map_to_list). by exists id.
  - intros [id F]. exists (id, c). by split; [|apply elem_of_map_to_list].
Qed.

(** The candidates of a project. *)
Definition candidates_of (pid : string) (w : roadmap) (l : list DependencyCandidate) : Prop :=
  forall c, c ∈ l <-> dc_ProjectID c = pid /\ exists id, rm_candidates w !! id = Some c.

Lemma candidates_ok pid w w' l : DependencyCandidates world pid w = (w', Ok l) -> w' = w /\ candidates_of pid w l.
Proof.
  intros [-> ->]%rm_query_ok. split; [done|]. intros c.
  by rewrite (candidate_order_perm (world := world)), list_elem_of_filter, candidate_rows_spec.
Qed.

(** ** A batch *)

Record proposes (actor : Actor) (pid batchID : string) (p : Project) (now : Z) (inputs : list DependencyCandidateInput)
  (w w' : roadmap) : Prop := {
  ps_beside : beside_candidates w' = beside_candidates w /\ rm_batches w' = rm_batches w;
  ps_kept id c : rm_candidates w !! id = Some c -> rm_candidates w' !! id = Some c;
  ps_new id c : rm_candidates w' !! id = Some c -> rm_candidates w !! id = Some c
    \/ exists input, input ∈ inputs /\ c = proposed actor pid batchID p now id input;
  ps_covers input : input ∈ inputs -> exists id c, rm_candidates w' !! id = Some c /\ dc_ProjectID c = pid
    /\ tuple_of c = dependencyCandidateTupleOf input /\ dc_ProjectVersion c = pr_ProjectVersion p;
  ps_one : one_per_version w -> one_per_version w'
}.

Lemma one_per_version_insert w pid version tuple c l id : candidates_of pid w l -> dc_ProjectID c = pid -> tuple_of c = tuple ->
  dc_ProjectVersion c = version -> rm_candidates w !! id = None ->
  (forall old, old ∈ l -> tuple_of old = tuple -> dc_ProjectVersion old = version ->
     exists later, later ∈ l /\ tuple_of later = tuple /\ version < dc_ProjectVersion later) ->
  one_per_version w -> one_per_version (w <| rm_candidates := <[id := c]> (rm_candidates w) |>).
Proof.
  intros Hl Ec Et Ev Fresh Later U.
  assert (forall id' old, rm_candidates w !! id' = Some old -> identity old = identity c ->
            latest_in (w <| rm_candidates := <[id := c]> (rm_candidates w) |>) old -> False) as Never.
  { intros id' old F I L. apply identity_fields in I as (P & T & V).
    destruct (Later old) as (later & Hin & Tl & Vl); [apply Hl; split; [congruence|by exists id']|congruence..|].
    apply Hl in Hin as [Pl [il Fl]]. assert (il <> id) as N by (intros ->; congruence).
    specialize (L il later). cbn in L. rewrite lookup_insert_ne in L by done. specialize (L Fl). rewrite V, Ev in L.
    enough (dc_ProjectVersion later <= version) by lia. apply L; congruence. }
  intros id1 c1 id2 c2 F1 F2 I L. cbn in F1, F2.
  apply lookup_insert_Some in F1 as [[<- <-]|[N1 F1]], F2 as [[<- <-]|[N2 F2]]; [done| | |].
  - exfalso. apply (Never id2 c2 F2); [done|]. apply identity_fields in I as (P & T & V).
    intros i old F Po To. rewrite <- V. apply (L i old F); congruence.
  - exfalso. by apply (Never id1 c1 F1).
  - apply (U id1 c1 id2 c2 F1 F2 I). intros i old F. apply (L i old). cbn.
    rewrite lookup_insert_ne; [done|]. intros ->. congruence.
Qed.

Lemma propose_each_ok actor pid batchID p now inputs : forall prior w w' rows suppressed,
  propose_each world actor pid batchID p now inputs prior w = (w', Ok (rows, suppressed)) -> candidates_of pid w prior ->
  proposes actor pid batchID p now inputs w w'.
Proof.
  induction inputs as [|input inputs IH]; intros prior w w' rows suppressed F Hp; cbn in F.
  { injection F as <- _ _. split; [done|done|by left| |done]. by intros input ?%not_elem_of_nil. }
  destruct (suppressDependencyCandidate _ _ _) as [s|] eqn:S.
  - apply bind_ok in F as (w1 & [rows1 suppressed1] & F & G). injection G as <- _ _.
    destruct (IH _ _ _ _ _ F Hp) as [B K N C U]. split; [done|done| | |done].
    + intros id c [Fc|(i & Hi & E)]%N; [by left|]. right. exists i. by split; [right|].
    + intros i [->|Hi]%elem_of_cons; [|by apply C]. apply suppressed_by in S as (old & Ho & T & V).
      apply Hp in Ho as [P [id Fo]]. exists id, old. split_and!; [by apply K|done..].
  - unfold here in F. apply bind_ok in F as (w1 & [] & I & F). apply insert_candidate_ok in I as [Fresh ->].
    apply bind_ok in F as (w2 & [rows1 suppressed1] & F & G). injection G as <- _ _.
    set (row := proposed actor pid batchID p now (wd_uuid world w) input) in *. set (id0 := wd_uuid world w) in *.
    change (dc_ID row) with id0 in *.
    destruct (IH _ _ _ _ _ F) as [B K N C U].
    { intros c. rewrite elem_of_app, list_elem_of_singleton. cbn. rewrite (Hp c). split.
      - intros [[P [id Fc]]| ->]; [|split; [done|exists id0; by rewrite lookup_insert_eq]]. split; [done|]. exists id.
        rewrite lookup_insert_ne; [done|]. intros <-. congruence.
      - intros [P [id Fc]]. apply lookup_insert_Some in Fc as [[_ <-]|[_ Fc]]; [by right|]. left. split; [done|by exists id]. }
    split; [done| | | |].
    + intros id c Fc. apply K. cbn. rewrite lookup_insert_ne; [done|]. intros <-. congruence.
    + intros id c [Fc|(i & Hi & E)]%N.
      * cbn in Fc. apply lookup_insert_Some in Fc as [[<- <-]|[_ Fc]]; [|by left]. right. exists input. by split; [left|].
      * right. exists i. by split; [right|].
    + intros i [->|Hi]%elem_of_cons; [|by apply C]. exists id0, row. split; [|done]. apply K. cbn. by rewrite lookup_insert_eq.
    + intros U0. apply U. eapply (one_per_version_insert _ pid (pr_ProjectVersion p) (dependencyCandidateTupleOf input));
        [exact Hp|done..| |done]. by apply not_suppressed.
Qed.

(** What a batch writes: its candidates and its row. *)
Record submitted (actor : Actor) (pid batchKey : string) (input : DependencyCandidateBatchInput) (p : Project) (w w' : roadmap)
  : Prop := {
  su_beside : beside_candidates w' = beside_candidates w;
  su_batch : exists batch, rm_batches w !! cb_ID batch = None
    /\ (forall id row, rm_batches w !! id = Some row -> same_batch_key pid (ac_UserID actor) batchKey row = false)
    /\ cb_ContentHash batch = dependencyCandidateContentHash input
    /\ same_batch_key pid (ac_UserID actor) batchKey batch = true
    /\ rm_batches w' = <[cb_ID batch := batch]> (rm_batches w);
  su_kept id c : rm_candidates w !! id = Some c -> rm_candidates w' !! id = Some c;
  su_new id c : rm_candidates w' !! id = Some c -> rm_candidates w !! id = Some c
    \/ exists batchID now candidate, candidate ∈ kb_Candidates input /\ c = proposed actor pid batchID p now id candidate;
  su_covers candidate : candidate ∈ kb_Candidates input -> exists id c, rm_candidates w' !! id = Some c /\ dc_ProjectID c = pid
    /\ tuple_of c = dependencyCandidateTupleOf candidate /\ dc_ProjectVersion c = pr_ProjectVersion p;
  su_one : one_per_version w -> one_per_version w'
}.

Lemma one_per_version_candidates w w' : rm_candidates w' = rm_candidates w -> one_per_version w -> one_per_version w'.
Proof. intros E. apply one_per_version_same. by rewrite E. Qed.

Lemma create_batch_ok actor pid batchKey input p w w' batch : create_batch world actor pid batchKey input p w = (w', Ok batch) ->
  submitted actor pid batchKey input p w w'.
Proof.
  unfold create_batch. intros (w1 & prior & [-> Hp]%candidates_ok & F)%bind_ok. unfold here in F.
  apply bind_ok in F as (w1 & [rows suppressed] & F & G). apply propose_each_ok in F as [[B Bb] K N C U]; [|done].
  apply bind_ok in G as (w2 & [] & I & G). apply insert_batch_ok in I as (Fresh & Unique & ->).
  apply bind_ok in G as (w3 & [] & A & G). injection G as <- _. apply (keeps_run beyond) in A; [|apply audit_beyond].
  apply beyond_candidates in A as (A1 & A2 & A3). cbn in A1, A2, A3. rewrite Bb in *. split.
  - rewrite A1. exact B.
  - exists ((new_batch actor pid batchKey (wd_uuid world w) p (wd_now world w) input rows suppressed) <| cb_Candidates := [] |>).
    cbn.
    split_and!; [exact Fresh|exact Unique|done| |exact A2]. unfold same_batch_key. cbn. by rewrite !String.eqb_refl.
  - intros id c Fc. rewrite A3. by apply K.
  - intros id c. rewrite A3. intros [Fc|(i & Hi & E)]%N; [by left|]. right. by eexists _, _, i.
  - intros c Hc. rewrite A3. by apply C.
  - intros U0. eapply one_per_version_candidates; [exact A3|by apply U].
Qed.

Lemma submit_ok actor pid batchKey input p w w' answer : submit_write world actor pid batchKey input p w = (w', Ok answer) ->
  w' = w \/ submitted actor pid batchKey input p w w'.
Proof.
  unfold submit_write. intros (w1 & [] & [_ ->]%refuse_if_ok & F)%bind_ok.
  apply bind_ok in F as (w1 & existing & E & F).
  assert (w1 = w) as ->.
  { eapply reads_ok; [exact E|]. apply keeps_attempt. unfold DependencyCandidateBatchByKey.
    apply keeps_bind; [apply reads_rm_query|]. intros [|row rows]; [apply keeps_fail|]. unfold with_candidates.
    apply keeps_bind; [apply reads_rm_query|intros; apply keeps_ret]. }
  destruct existing as [batch|e].
  - left. apply bind_ok in F as (w1 & [] & [_ ->]%refuse_if_ok & F). by injection F as <- _.
  - destruct (decide _); [|discriminate F]. apply bind_ok in F as (w1 & batch & F & G). injection G as <- _. right.
    by eapply create_batch_ok.
Qed.

(** ** A decision *)

(** Nothing but the candidates and the dependency edges. *)
Definition beside_decisions (w : roadmap) :=
  (rm_sessions w, rm_edges w, rm_nodes w, rm_versions w, rm_tasks w, rm_revisions w, rm_handoffs w,
   (rm_changes w, rm_plans w, rm_assessments w, rm_batches w)).

(** The edge of a tuple: one that is stored, or the suggestion the decision
    enters for it. *)
Definition tuple_edge (actor : Actor) (pid : string) (candidate : DependencyCandidate) (input : DependencyDecisionInput) (now : Z)
  (w : roadmap) (edge : DependencyEdge) : Prop :=
  (exists id row, rm_dependencies w !! (pid, id) = Some row /\ vr_Body row = edge
     /\ same_tuple candidate (chosen input (dd_Relation input) (dc_Relation candidate))
          (chosen input (dd_Action input) (dc_Action candidate)) edge = true)
  \/ exists id, rm_dependencies w !! (pid, id) = None /\ edge = suggested_edge actor pid id now candidate.

Lemma candidate_edge_ok actor pid candidate input w w' next :
  decideDependencyCandidateEdge world actor pid candidate input w = (w', Ok next) ->
  exists edge, let now := wd_now world w in tuple_edge actor pid candidate input now w edge
  /\ next = confirmed_edge actor candidate input now edge
  /\ rm_dependencies w' = <[(de_ProjectID edge, de_ID edge) := {| vr_Version := de_Version edge +i 1; vr_Body := next |}]> (rm_dependencies w)
  /\ beside_decisions w' = beside_decisions w /\ rm_candidates w' = rm_candidates w.
Proof.
  unfold decideDependencyCandidateEdge. intros (w1 & existing & [-> ->]%rm_query_ok & F)%bind_ok. unfold here in F.
  apply bind_ok in F as (w1 & edge & E & F). apply bind_ok in F as (w2 & [] & U & F). injection F as <- <-.
  apply swap_record_ok in U as (row & _ & _ & ->). exists edge. cbn zeta.
  destruct (base.filter _ _) as [|found rest] eqn:L.
  - apply bind_ok in E as (w3 & [] & P & E). injection E as <- <-. apply insert_record_ok in P as [Fresh ->].
    split_and!; [right; by exists (wd_uuid world w)|done| |done|done]. cbn. by rewrite insert_insert_eq.
  - injection E as <- <-. split_and!; [left|done..].
    assert (found ∈ found :: rest) as Hin by by left. rewrite <- L in Hin. apply list_elem_of_filter in Hin as [S Hin].
    rewrite (dependency_order_perm (world := world)) in Hin. apply list_elem_of_fmap in Hin as ([id body] & -> & Hin).
    apply project_records_spec in Hin as (r & Fr & Eb). by exists id, r.
Qed.

Lemma updated_decided actor input now edge current :
  updated_candidate (decided_candidate actor input now edge current) current = decided_candidate actor input now edge current.
Proof. destruct current. unfold decided_candidate. destruct edge; [|done]. by destruct (_ =? _)%string. Qed.

(** The outcome of a decision on the candidate with the identifier. *)
Definition concludes (actor : Actor) (pid id : string) (input : DependencyDecisionInput) (current : DependencyCandidate)
  (w w' : roadmap) : Prop :=
  exists now edge, rm_candidates w' = <[id := decided_candidate actor input now edge current]> (rm_candidates w)
  /\ beside_decisions w' = beside_decisions w
  /\ match edge with
     | None => dd_Decision input = "reject" /\ rm_dependencies w' = rm_dependencies w
     | Some next => dd_Decision input <> "reject" /\ exists old, tuple_edge actor pid current input now w old
         /\ next = confirmed_edge actor current input now old
         /\ rm_dependencies w' = <[(de_ProjectID old, de_ID old) := {| vr_Version := de_Version old +i 1; vr_Body := next |}]>
                                   (rm_dependencies w)
     end.

Lemma beyond_decisions w w' : beyond w' = beyond w ->
  beside_decisions w' = beside_decisions w /\ rm_dependencies w' = rm_dependencies w /\ rm_candidates w' = rm_candidates w.
Proof. unfold beyond, own, beside_decisions. intros E. injection E. intros. split_and!; congruence. Qed.

Lemma decide_candidate_ok actor pid id input w w' result : candidates_keyed w ->
  decide_candidate world actor pid id input w = (w', Ok result) ->
  exists current, rm_candidates w !! id = Some current /\ dc_ProjectID current = pid /\ dc_Version current = dd_ExpectedVersion input
  /\ dc_Status current = DependencyCandidateStatusProposed
  /\ (forall edge row, rm_dependencies w !! (pid, edge) = Some row -> replaced_tuple current (vr_Body row) = false)
  /\ concludes actor pid id input current w w'.
Proof.
  intros K. unfold decide_candidate. intros (w1 & current & [-> [Fc P]]%candidate_ok & F)%bind_ok.
  apply bind_ok in F as (w1 & [] & [V ->]%refuse_if_ok & F). apply bind_ok in F as (w1 & [] & [S ->]%refuse_if_ok & F).
  apply bind_ok in F as (w1 & existing & [-> ->]%rm_query_ok & F). apply bind_ok in F as (w1 & [] & [R ->]%refuse_if_ok & F).
  unfold here in F. apply bind_ok in F as (w1 & edge & E & F). apply bind_ok in F as (w2 & [] & U & F).
  apply bind_ok in F as (w3 & [] & A & F). injection F as <- _. apply (keeps_run beyond) in A; [|apply audit_beyond].
  apply beyond_decisions in A as (A1 & A2 & A3). split_bools. exists current. split_and!; try done.
  { intros i row Fr. apply not_true_iff_false. intros T. apply not_true_iff_false in R. apply R, existsb_exists.
    exists (vr_Body row). split; [|done]. apply list_elem_of_In. rewrite (dependency_order_perm (world := world)).
    apply list_elem_of_fmap. exists (i, vr_Body row). split; [done|]. apply project_records_spec. by exists row. }
  apply update_candidate_ok in U as (row & Fr & _ & ->). cbn in A1, A2, A3. pose proof (K _ _ Fc) as Ei. rewrite Ei in *.
  exists (wd_now world w), edge. destruct (dd_Decision input =? "reject")%string eqn:D.
  - injection E as <- <-. assert (row = current) as -> by congruence. rewrite updated_decided in A3. split_bools. by split_and!.
  - apply bind_ok in E as (w4 & next & E & G). injection G as <- <-.
    apply candidate_edge_ok in E as (old & T & -> & Ed & Eb & Ec). cbn in Ed, Eb, Ec. rewrite Ec in *. assert (row = current) as -> by congruence.
    rewrite updated_decided in A3. split_bools. split_and!; [done|by rewrite A1|done|]. exists old. split_and!; [done..|]. by rewrite A2.
Qed.

(** ** A staling *)

Lemma stale_ok actor pid candidate w w' u : candidates_keyed w -> stale_write world actor pid candidate w = (w', Ok u) ->
  w' = w \/ exists current now, rm_candidates w !! dc_ID candidate = Some current
    /\ dc_Status current = DependencyCandidateStatusProposed
    /\ rm_candidates w' = <[dc_ID candidate := staled_candidate now current]> (rm_candidates w)
    /\ beside_candidates w' = beside_candidates w /\ rm_batches w' = rm_batches w.
Proof.
  intros K. unfold stale_write. intros (w1 & current & [-> [Fc P]]%candidate_ok & F)%bind_ok.
  destruct (negb _) eqn:S; [by injection F as <- _; left|]. right. unfold here in F.
  apply bind_ok in F as (w1 & [] & U & A). apply (keeps_run beyond) in A; [|apply audit_beyond].
  apply beyond_candidates in A as (A1 & A2 & A3). apply update_candidate_ok in U as (row & Fr & _ & ->). cbn in A1, A2, A3.
  pose proof (K _ _ Fc) as Ei. rewrite Ei in *. assert (row = current) as -> by congruence.
  exists current, (wd_now world w). split_bools. split_and!; try done. rewrite A3. f_equal. by destruct current.
Qed.
End Writes.

Inductive candidate_call :=
| CallSubmit (actor : Actor) (pid key : string) (input : DependencyCandidateBatchInput)
| CallConclude (actor : Actor) (pid id key : string) (input : DependencyDecisionInput).

(** The key of a batch: the one it names, or that of the request. *)
Definition batch_key (key : string) (input : DependencyCandidateBatchInput) : string :=
  let named := TrimSpace (kb_IdempotencyKey input) in if (named =? "")%string then key else named.

Section Calls.
Context {X : Type} `{Digester roadmap_any} (world : World X) `{!WorldLaws world} (checks : Checks) `{!ChecksLaws checks}.

Definition offer (ctx : Context X) (call : candidate_call) : RM (string * Z * bool) :=
  match call with
  | CallSubmit actor pid key input => SubmitDependencyCandidateBatch world checks ctx actor pid key input
  | CallConclude actor pid id key input => DecideDependencyCandidate world checks ctx actor pid id key input
  end.

(** The write of a call: a batch, a decision of a person, or the staling of a
    candidate that can not be decided any more. *)
Inductive settlement (ctx : Context X) : candidate_call -> Project -> roadmap -> roadmap -> Prop :=
| settled_submit actor pid key input p w w' answer :
    validateDependencyCandidateBatchInput input = None ->
    submit_write world actor pid (batch_key key input) input p w = (w', Ok answer) ->
    settlement ctx (CallSubmit actor pid key input) p w w'
| settled_decision actor pid id key input p w w' result :
    RequireHumanDecision ctx ErrHumanDecisionRequired = None -> bad_decision_input input = false ->
    decide_candidate world actor pid id input w = (w', Ok result) ->
    settlement ctx (CallConclude actor pid id key input) p w w'
| settled_staling actor pid id key input p candidate w w' :
    RequireHumanDecision ctx ErrHumanDecisionRequired = None -> bad_decision_input input = false ->
    rm_candidates w !! id = Some candidate -> stale_write world actor pid candidate w = (w', Ok tt) ->
    settlement ctx (CallConclude actor pid id key input) p w w'.

Lemma submit_moved ctx actor pid key input w w' r : offer ctx (CallSubmit actor pid key input) w = (w', r) ->
  moved_by (settlement ctx (CallSubmit actor pid key input)) w w'.
Proof.
  cbn [offer]. unfold SubmitDependencyCandidateBatch. unfold returned.
  destruct (validateDependencyCandidateBatchInput input) as [e|] eqn:V; [intros F; injection F as <- _; by left|].
  apply moved_by_bind; [apply keeps_ret|]. intros _ w1 w2 r2. apply (checked_moved world checks); [done|intros; apply keeps_ret|].
  intros p w3 w4 a (w5 & [batch status] & F & G)%bind_ok. injection G as <- _. by eapply settled_submit.
Qed.

Lemma human_moved (P : Project -> roadmap -> roadmap -> Prop) (ctx : Context X) (k : unit -> RM (string * Z * bool)) :
  (RequireHumanDecision ctx ErrHumanDecisionRequired = None -> forall w w' r, k tt w = (w', r) -> moved_by P w w') ->
  forall w w' r, (RequireHuman ctx ≫= k) w = (w', r) -> moved_by P w w'.
Proof.
  intros K w w' r. unfold RequireHuman, returned. destruct (RequireHumanDecision _ _); [|by apply K].
  intros F. injection F as <- _. by left.
Qed.

Lemma reads_moved p refs : reads (basis_moved world p refs).
Proof.
  induction refs as [|ref refs IH]; cbn; [apply keeps_ret|].
  apply keeps_bind; [by apply keeps_attempt, reads_current_object|]. intros [state|e]; [done|].
  destruct (errors_Is _ _); [apply keeps_ret|apply keeps_fail].
Qed.

(** A step of a call that leaves the roadmap alone, known to succeed. *)
Lemma moved_by_then {A} (P : Project -> roadmap -> roadmap -> Prop) (m : RM A) (k : A -> RM (string * Z * bool)) w w' r :
  keeps beyond m ->
  (forall a w1, m w = (w1, Ok a) -> beyond w1 = beyond w -> forall w' r, k a w1 = (w', r) -> moved_by P w1 w') ->
  (m ≫= k) w = (w', r) -> moved_by P w w'.
Proof.
  intros Km Pk. unfold mbind, M_bind. destruct (m w) as [w1 [a|e]] eqn:F; pose proof (keeps_run beyond _ _ _ _ Km F) as E.
  - intros G. eapply moved_by_before; [exact E|]. by eapply Pk.
  - intros G. injection G as <- _. by left.
Qed.

Lemma read_candidate_ok ctx actor pid id w w1 candidate : readDependencyCandidate world ctx actor pid id w = (w1, Ok candidate) ->
  rm_candidates w1 !! id = Some candidate.
Proof.
  intros F. apply (transaction_outcome world) in F as [F _]; [|done].
  apply bind_ok in F as (w2 & _ & _ & F). by apply candidate_ok in F as (-> & Fc & _).
Qed.

Lemma conclude_moved ctx actor pid id key input w w' r : offer ctx (CallConclude actor pid id key input) w = (w', r) ->
  moved_by (settlement ctx (CallConclude actor pid id key input)) w w'.
Proof.
  cbn [offer]. unfold DecideDependencyCandidate. revert w w' r. apply human_moved. intros Hu. apply refused_moved. intros B w w' r.
  apply moved_by_then.
  { apply (beyond_transaction world); [done|]. apply keeps_bind; [apply beyond_tables|intros _; apply beyond_reads, reads_candidate]. }
  intros candidate w1 Fc E1 w2 r2. apply read_candidate_ok in Fc. apply moved_by_then; [apply keeps_refuse_if|].
  intros _ w3 [_ ->]%refuse_if_ok _ w4 r4. apply moved_by_then; [apply keeps_refuse_if|].
  intros _ w5 [_ ->]%refuse_if_ok _ w6 r6. apply moved_by_then.
  { apply (beyond_transaction world); [done|]. apply keeps_bind; [apply beyond_tables|intros p; apply beyond_reads, reads_moved]. }
  intros stale w7 _ E7 w8 r8. destruct stale.
  - unfold mbind, M_bind, attempt, fail. destruct (markDependencyCandidateStale _ _ _ _ w7) as [w9 r9] eqn:F.
    intros G. injection G as <- _. apply (transaction_outcome world) in F; [|done]. destruct r9 as [[]|e]; [|subst; by left].
    right. exists zero_project, w7, w9. split_and!; [done| |done]. destruct F as [F _]. eapply settled_staling; [done..| |exact F].
    apply beyond_candidates in E7 as (_ & _ & E7). by rewrite E7.
  - apply (checked_moved world checks); [done| |].
    + intros i p. apply beyond_reads. unfold resolveDependencyCandidateDecision.
      apply keeps_bind; [apply reads_candidate|intros; apply keeps_ret].
    + intros p w9 w10 a (w11 & result & F & G)%bind_ok. injection G as <- _. by eapply settled_decision.
Qed.

Lemma offer_outcome ctx call w w' r : offer ctx call w = (w', r) -> moved_by (settlement ctx call) w w'.
Proof. destruct call; [apply submit_moved|apply conclude_moved]. Qed.

(** ** How candidates move *)

Record offers_ok (w : roadmap) : Prop := { fo_keyed : candidates_keyed w; fo_one : one_per_version w }.

Lemma pool_fields w w' : pool w' = pool w -> rm_candidates w' = rm_candidates w /\ rm_batches w' = rm_batches w.
Proof. intros E. split; [exact (f_equal fst E)|exact (f_equal snd E)]. Qed.

Lemma pool_ok w w' : pool w' = pool w -> offers_ok w -> offers_ok w' /\ pursued w w'.
Proof.
  intros [E _]%pool_fields [K U]. split; [split|].
  - intros id c. rewrite E. apply K.
  - by apply (one_per_version_candidates w).
  - intros id c F. exists c. rewrite E. by split; [|left].
Qed.

(** A candidate that takes the place of the one it continues. *)
Lemma replaced_ok w w' id c c' : rm_candidates w !! id = Some c -> dc_Status c = DependencyCandidateStatusProposed ->
  same_candidate c c' -> conclusion c c' -> rm_candidates w' = <[id := c']> (rm_candidates w) ->
  offers_ok w -> offers_ok w' /\ pursued w w'.
Proof.
  intros F Pr Sa C E [K U]. split; [split|].
  - intros i old. rewrite E. intros [[<- <-]|[_ Fi]]%lookup_insert_Some; [|by apply K].
    rewrite (sc_id _ _ Sa). by apply K.
  - apply (one_per_version_same w); [|done]. rewrite E, fmap_insert. apply insert_id. rewrite lookup_fmap, F. cbn. f_equal.
    unfold identity. by rewrite (sc_project _ _ Sa), (sc_tuple _ _ Sa), (sc_version _ _ Sa).
  - intros i old Fi. rewrite E. destruct (decide (id = i)) as [<-|N].
    + rewrite lookup_insert_eq. exists c'. split; [done|]. right. assert (old = c) as -> by congruence. by split_and!.
    + rewrite lookup_insert_ne by done. exists old. by split; [|left].
Qed.

Lemma decided_same actor input now edge c : same_candidate c (decided_candidate actor input now edge c).
Proof. destruct c. unfold decided_candidate. destruct edge; [destruct (_ =? _)%string|]; by split. Qed.

Lemma decided_concluded actor input now edge c : bad_decision_input input = false ->
  match edge with None => dd_Decision input = "reject" | Some _ => dd_Decision input <> "reject" end ->
  conclusion c (decided_candidate actor input now edge c).
Proof.
  unfold bad_decision_input. intros [[[_ B]%orb_false_iff _]%orb_false_iff _]%orb_false_iff D.
  apply negb_false_iff, contains_spec in B. unfold decided_candidate.
  destruct c. destruct edge as [edge|]; [|by apply concluded_rejected]. destruct (dd_Decision input =? "modify")%string eqn:M; split_bools.
  - by apply concluded_modified.
  - apply concluded_confirmed; [done|]. cbn. rewrite !elem_of_cons in B. destruct B as [B|[B|[B|B%not_elem_of_nil]]]; done.
Qed.

Lemma staled_same now c : same_candidate c (staled_candidate now c).
Proof. destruct c. by split. Qed.

Lemma staled_concluded now c : conclusion c (staled_candidate now c).
Proof. destruct c. by apply concluded_stale. Qed.

Lemma settlement_ok ctx call p w w' : settlement ctx call p w w' -> offers_ok w -> offers_ok w' /\ pursued w w'.
Proof.
  intros [actor pid key input q w1 w2 answer _ F|actor pid id key input q w1 w2 result _ B F
    |actor pid id key input q candidate w1 w2 _ _ Fc F] Ok.
  - apply (submit_ok world) in F as [->|[_ _ Kp N _ U]]; [by apply pool_ok|]. destruct Ok as [K O]. split; [split|].
    + intros i c [Fi|(b & now & i0 & _ & ->)]%N; [by apply K|done].
    + by apply U.
    + intros i c Fi%Kp. exists c. by split; [|left].
  - apply (decide_candidate_ok world) in F as (current & Fc & _ & _ & S & _ & now & edge & E & _ & D); [|apply Ok].
    eapply replaced_ok; [exact Fc|done|apply decided_same| |exact E|done]. apply decided_concluded; [done|].
    destruct edge; by destruct D.
  - pose proof (fo_keyed _ Ok _ _ Fc) as Ei.
    apply (stale_ok world) in F as [->|(current & now & Fr & S & E & _ & _)]; [by apply pool_ok| |apply Ok].
    eapply replaced_ok; [exact Fr|done|apply staled_same|apply staled_concluded|exact E|done].
Qed.

(** A call on candidates, a call on impacts, or anything that leaves the
    candidates and their batches alone. *)
Inductive candidate_step (w w' : roadmap) : Prop :=
| candidate_offered ctx call r : offer ctx call w = (w', r) -> candidate_step w w'
| candidate_served ports ctx call r : serve world checks ports ctx call w = (w', r) -> candidate_step w w'
| candidate_other : pool w' = pool w -> candidate_step w w'.

Lemma beyond_pool w w' : beyond w' = beyond w -> pool w' = pool w.
Proof. intros E. by apply beyond_filed, filed_split in E as [_ E]. Qed.

Lemma beyond_ok w w' : beyond w' = beyond w -> offers_ok w -> offers_ok w' /\ pursued w w'.
Proof. intros E. by apply pool_ok, beyond_pool. Qed.

Lemma then_ok w0 w1 w2 : (offers_ok w1 /\ pursued w0 w1) -> (offers_ok w1 -> offers_ok w2 /\ pursued w1 w2) ->
  offers_ok w2 /\ pursued w0 w2.
Proof. intros [O1 P1] F. destruct (F O1) as [O2 P2]. split; [done|]. by transitivity w1. Qed.

Lemma candidate_step_ok w w' : candidate_step w w' -> offers_ok w -> offers_ok w' /\ pursued w w'.
Proof.
  intros [ctx call r F|ports ctx call r F|E] Ok; [| |by apply pool_ok].
  - apply offer_outcome in F as [E|(p & w0 & w1 & E0 & S & E1)]; [by apply beyond_ok|].
    apply (then_ok _ w1); [apply (then_ok _ w0)|]; [by apply beyond_ok|by eapply settlement_ok|by apply beyond_ok].
  - apply (call_outcome world checks ports) in F as [E|(p & w0 & w1 & E0 & B & E1)]; [by apply beyond_ok|].
    apply (business_changes world checks) in B as [B _]. apply pool_ok; [|done].
    apply beyond_pool in E0, E1. congruence.
Qed.

Lemma candidate_steps_ok w w' : rtc candidate_step w w' -> offers_ok w -> offers_ok w' /\ pursued w w'.
Proof.
  induction 1 as [w|w w1 w' S _ IH]; intros Ok; [by split|].
  apply (then_ok _ w1); [by apply candidate_step_ok|exact IH].
Qed.
End Calls.
