(* ===== verification/CandidateTheorems.v ===== *)
(** The properties of candidates: what becomes of each over every history of
    calls, what a batch stores, and what a decision does, with the project of
    [Counter] as an example: a batch of two, decided one by one, and an edge
    that a person had rejected. *)

From stdpp Require Import pretty sorting countable.
From Stdlib Require Import Ascii String.
From stdpp Require Import pretty sorting.
From S2P Require Import Prelude Effects OperationCore OperationLaws OperationStore OperationTheorems Workspace Permission PermissionTheorems MemberStore MemberLaws Membership MembershipDemo OperationRunner RunnerLaws RunnerTheorems RoadmapModel RoadmapStore RouteObjects Roadmap RoadmapLaws RoadmapHistory RoadmapSound RoadmapCommit RoadmapDemo ImpactStore ImpactStoreLaws ImpactDemo Assessment Stabilization Impact ImpactService ImpactLaws ImpactWrites ImpactMoves ImpactCalls ImpactExact ImpactCounter Candidates CandidateLaws.

Module Offers.
#[local] Existing Instances Workshop.tables_eq_dec Workshop.transaction_atomic Studio.transaction_atomic Studio.text Desk.checks_laws Counter.world_laws.

Definition proposal (relation : string) : DependencyCandidateInput :=
  {| ki_Source := node_ref Studio.plan; ki_Target := node_ref Studio.draft; ki_Relation := relation; ki_Action := "REGENERATE";
     ki_Evidence := "section 2"; ki_Reason := "similar"; ki_Confidence := float_zero; ki_ModelRunID := "run-1" |}.
Definition everything : DependencyCandidateScope := {| sp_Objects := []; sp_TargetKinds := []; sp_Reason := "" |}.
Definition batch : DependencyCandidateBatchInput :=
  {| kb_Scope := everything; kb_ExpectedContextRevision := 1; kb_Reason := "scan"; kb_IdempotencyKey := "";
     kb_Candidates := [proposal "mentions"; proposal "cites"; proposal "mentions"] |}.

Definition do (call : candidate_call) (w : roadmap) : roadmap := (offer Counter.world Desk.checks Studio.ctx call w).1.
Definition answer (call : candidate_call) (w : roadmap) := (offer Counter.world Desk.checks Studio.ctx call w).2.

Definition submit (key : string) : candidate_call := CallSubmit Studio.ann "p-1" key batch.
Definition decision (name : string) : DependencyDecisionInput :=
  {| dd_ExpectedVersion := 1; dd_Decision := name; dd_Reason := "seen"; dd_Relation := None; dd_Action := None; dd_Confidence := None |}.
Definition conclude (id key name : string) : candidate_call := CallConclude Studio.ann "p-1" id key (decision name).

Definition proposed : roadmap := do (submit "key-0201") Counter.start.
Definition confirmed : roadmap := do (conclude "edge-1" "key-0202" "confirm") proposed.
Definition rejected : roadmap := do (conclude "edge-2" "key-0203" "reject") confirmed.
Definition resubmitted : roadmap := do (submit "key-0204") rejected.

(** A model's suggestion that a person rejects, before the batch comes in. *)
Definition refusal : impact_call := CallDecideEdge Studio.ann "p-1" "edge-1" "key-0206" (decision "reject").
Definition refused : roadmap := Counter.do refusal (Counter.do (Counter.suggest "key-0205") Counter.start).
Definition offered : roadmap := do (submit "key-0207") refused.
Definition reopened : roadmap := do (conclude "edge-2" "key-0208" "confirm") offered.

Definition status_of (id : string) (w : roadmap) : option string := dc_Status <$> rm_candidates w !! id.
Definition edge_status (id : string) (w : roadmap) : option string := (de_Status ∘ vr_Body) <$> rm_dependencies w !! ("p-1", id).

Example calls_settled :
  answer (submit "key-0201") Counter.start = Ok ("value", 201, false)
  /\ answer (conclude "edge-1" "key-0202" "confirm") proposed = Ok ("value", 200, false)
  /\ answer (conclude "edge-2" "key-0203" "reject") confirmed = Ok ("value", 200, false)
  /\ status_of "edge-1" rejected = Some "confirmed" /\ status_of "edge-2" rejected = Some "rejected"
  /\ rm_candidates resubmitted = rm_candidates rejected /\ size (rm_batches resubmitted) = 2%nat.
Proof. vm_compute. by split_and!. Qed.

(** *** Its history *)

Abbreviation step := (candidate_step Counter.world Desk.checks).

Lemma no_candidates : offers_ok Counter.start.
Proof.
  assert (forall id, rm_candidates Counter.start !! id = None) as N by (intros id; apply lookup_empty).
  split; [intros id c F|intros id1 c1 id2 c2 F]; by rewrite N in F.
Qed.

Lemma offered_next call w : step w (do call w).
Proof. eapply candidate_offered. apply surjective_pairing. Qed.

Lemma history_resubmitted : rtc step confirmed resubmitted.
Proof.
  eapply rtc_l; [apply (offered_next (conclude "edge-2" "key-0203" "reject"))|]. apply rtc_once, (offered_next (submit "key-0204")).
Qed.

Lemma history_confirmed : rtc step Counter.start confirmed.
Proof.
  eapply rtc_l; [apply (offered_next (submit "key-0201"))|]. apply rtc_once, (offered_next (conclude "edge-1" "key-0202" "confirm")).
Qed.

Lemma confirmed_ok : offers_ok confirmed.
Proof. apply (candidate_steps_ok Counter.world Desk.checks Counter.start); [apply history_confirmed|apply no_candidates]. Qed.

Lemma proposed_ok : offers_ok proposed.
Proof. apply (candidate_steps_ok Counter.world Desk.checks Counter.start); [apply rtc_once, (offered_next (submit "key-0201"))|apply no_candidates]. Qed.

Definition first : DependencyCandidate := default zero_candidate (rm_candidates confirmed !! "edge-1").

Lemma first_stored : rm_candidates confirmed !! "edge-1" = Some first.
Proof. by vm_compute. Qed.
End Offers.

(** ** From the write of a call to the call *)

Lemma beyond_all w w' : beyond w' = beyond w ->
  beside_candidates w' = beside_candidates w /\ beside_decisions w' = beside_decisions w /\ rm_dependencies w' = rm_dependencies w
  /\ rm_candidates w' = rm_candidates w /\ rm_batches w' = rm_batches w.
Proof.
  intros E. apply beyond_candidates in E as F. destruct F as (F1 & F2 & F3). apply beyond_decisions in E as (G1 & G2 & _).
  by split_and!.
Qed.

Lemma submitted_within `{Digester roadmap_any} actor pid key input p w w0 w1 w' : beyond w0 = beyond w -> beyond w' = beyond w1 ->
  submitted actor pid key input p w0 w1 -> submitted actor pid key input p w w'.
Proof.
  intros (A1 & _ & _ & A4 & A5)%beyond_all (B1 & _ & _ & B4 & B5)%beyond_all [Be Ba K N C U]. split.
  - congruence.
  - rewrite A5 in Ba. by rewrite B5.
  - rewrite B4. intros id c F. apply K. by rewrite A4.
  - rewrite B4, <- A4. exact N.
  - rewrite B4. exact C.
  - intros O. apply (one_per_version_candidates w1); [done|]. apply U. by apply (one_per_version_candidates w).
Qed.

Lemma concludes_within actor pid id input current w w0 w1 w' : beyond w0 = beyond w -> beyond w' = beyond w1 ->
  concludes actor pid id input current w0 w1 -> concludes actor pid id input current w w'.
Proof.
  intros (_ & A2 & A3 & A4 & _)%beyond_all (_ & B2 & B3 & B4 & _)%beyond_all (now & edge & E & Be & D). exists now, edge.
  rewrite B4, B2, A2 in *. rewrite <- A4. split_and!; [done|congruence|]. destruct edge as [next|].
  - destruct D as (N & old & T & En & Ed). split; [done|]. exists old. rewrite B3, <- A3. split_and!; [|done..].
    unfold tuple_edge in *. by rewrite <- A3.
  - destruct D as [N Ed]. by rewrite B3, <- A3.
Qed.

(** C19. A candidate is proposed once and settled once: over every history of
    calls no candidate disappears or becomes another one; while it is proposed
    it can be confirmed, modified, rejected or go stale, keeping its tuple, its
    evidence and the project version it was proposed for, and a settled one
    never changes again. *)
Theorem candidates_are_settled_once {X} `{Digester roadmap_any} (world : World X) `{!WorldLaws world} (checks : Checks)
  `{!ChecksLaws checks} w w' id c (Ok : offers_ok w) (Steps : rtc (candidate_step world checks) w w')
  (Stored : rm_candidates w !! id = Some c) :
  exists c', rm_candidates w' !! id = Some c' /\ candidate_change c c'
  /\ (dc_Status c <> DependencyCandidateStatusProposed -> c' = c).
Proof.
  apply (candidate_steps_ok world checks) in Steps as [_ P]; [|done]. apply P in Stored as (c' & F & C).
  exists c'. split_and!; [done|done|]. intros N. by destruct C as [->|[]].
Qed.

(** C20. A tuple is proposed once per project version: whatever is called, two
    candidates of a project with the same source, target, relation, action and
    version are the same candidate, when that is the latest version the tuple
    was proposed for. *)
Theorem one_candidate_per_version {X} `{Digester roadmap_any} (world : World X) `{!WorldLaws world} (checks : Checks)
  `{!ChecksLaws checks} w w' (Ok : offers_ok w) (Steps : rtc (candidate_step world checks) w w') :
  one_per_version w'.
Proof. by apply (candidate_steps_ok world checks) in Steps as [[_ U] _]. Qed.

(** C21. A submission stores its whole batch or nothing: either it leaves all
    but the workspace's tables as it was, or the batch is new under its key and
    content, every tuple of it has a candidate of the project's version, each
    new candidate is a proposal of the batch, and none that was there changes;
    edges, tasks and everything else of the project stay as they are. *)
Theorem submission_is_exact {X} `{Digester roadmap_any} (world : World X) `{!WorldLaws world} (checks : Checks)
  `{!ChecksLaws checks} ctx actor pid key input w w' r
  (Run : offer world checks ctx (CallSubmit actor pid key input) w = (w', r)) :
  beyond w' = beyond w
  \/ validateDependencyCandidateBatchInput input = None /\ exists p, submitted actor pid (batch_key key input) input p w w'.
Proof.
  apply (offer_outcome world checks) in Run as [E|(p & w0 & w1 & E0 & S & E1)]; [by left|].
  inversion S as [? ? ? ? ? ? ? answer V F| |]; subst. apply (submit_ok world) in F as [->|F]; [left; congruence|right].
  split; [done|]. exists p. by eapply submitted_within.
Qed.


(** ** Witnesses, on the project of [Offers] *)

#[local] Existing Instances Workshop.tables_eq_dec Workshop.transaction_atomic Studio.transaction_atomic Studio.text Desk.checks_laws Counter.world_laws.

Lemma candidates_are_settled_once_witness :
  exists c', rm_candidates Offers.resubmitted !! "edge-1" = Some c' /\ candidate_change Offers.first c'
  /\ (dc_Status Offers.first <> DependencyCandidateStatusProposed -> c' = Offers.first).
Proof.
  exact (candidates_are_settled_once Counter.world Desk.checks Offers.confirmed Offers.resubmitted "edge-1" Offers.first
    Offers.confirmed_ok Offers.history_resubmitted Offers.first_stored).
Defined.

Lemma one_candidate_per_version_witness : one_per_version Offers.confirmed.
Proof.
  exact (one_candidate_per_version Counter.world Desk.checks Counter.start Offers.confirmed Offers.no_candidates Offers.history_confirmed).
Defined.

Lemma submission_is_exact_witness :
  beyond Offers.proposed = beyond Counter.start
  \/ validateDependencyCandidateBatchInput Offers.batch = None
     /\ exists p, submitted Studio.ann "p-1" (batch_key "key-0201" Offers.batch) Offers.batch p Counter.start Offers.proposed.
Proof.
  refine (submission_is_exact Counter.world Desk.checks Studio.ctx Studio.ann "p-1" "key-0201" Offers.batch Counter.start
    Offers.proposed (Offers.answer (Offers.submit "key-0201") Counter.start) _).
  apply surjective_pairing.
Defined.


(** A candidate's confirmation takes the edge of its tuple whatever its status:
    one that a person rejected is confirmed by it. *)
Example rejected_edge_is_reopened :
  Offers.edge_status "edge-1" Offers.refused = Some "rejected"
  /\ Offers.answer (Offers.conclude "edge-2" "key-0208" "confirm") Offers.offered = Ok ("value", 200, false)
  /\ Offers.edge_status "edge-1" Offers.reopened = Some "confirmed".
Proof. vm_compute. by split_and!. Qed.
