(* ===== verification/ChangeStore.v ===== *)
(** What change sets are made of and stored with: the proposals of their
    semantic deltas and their pinning, the provenance recorded with a change
    set, and its row
    ([src/internal/lingdoc/workspacecore/{semantic_delta,provenance_history,service}.go]).

    What these reach outside the roadmap's tables is the record [ChangePorts]. *)

From stdpp Require Import pretty sorting.
From Stdlib Require Import Ascii String.
From S2P Require Import Prelude Effects OperationCore OperationStore OperationTheorems Workspace Permission MemberStore Membership OperationRunner RoadmapModel RoadmapStore RouteObjects Templates Roadmap ImpactStore Lineage Assessment Stabilization Impact ImpactService FaultInjection.

(** ** Ports *)

(** The specification of the locked row, and a recorded field with the value
    and the metadata it had ([active_field_archive.go]). *)
Record lockedArchiveProject := { la_Spec : gmap string string; la_Metadata : gmap string SpecField }.
Record fieldArchiveRecord := { fa_FieldID : string; fa_Value : option string; fa_Metadata : option SpecField }.

(** The plan of a controlled inverse of an upgrade. *)
Record inverseTemplatePlan := { vp_SourceID : string; vp_Definition : string; vp_ArchiveRestores : list ArchivedFieldReference }.

Record ChangePorts {X : Type} := {
  (* the title of a chapter; the chapters of a project *)
  cp_title : string -> string -> tables -> string;
  cp_chapters : string -> T (list string);
  (* resolveTemplate of what the project's copy was made from *)
  cp_resolve_template : Context X -> Actor -> Project -> T unit;
  (* evidenceSemanticSources of a proposed card; ApplyBindingOverrides and ValidateChangedBindingTargets of a binding *)
  cp_proposal : Project -> SemanticDelta -> T unit;
  (* the provenance record of a change set: is there one; it is written *)
  cp_has_history : string -> string -> T bool;
  cp_put_history : ChangeSet -> string -> T unit;
  (* storeAgentChangeDraftFields, storeAgentChangeDraftEditFields, assistantAffectedFromContext *)
  cp_agent_fields : Context X -> Project -> ChangeSet -> ExtendedChangeSetInput -> T unit;
  cp_agent_edit : Context X -> Project -> ChangeSet -> ChangeSet -> ExtendedChangeSetInput -> T unit;
  cp_explanation : Context X -> option string;
  (* prepareAgentChangeDraftEdit and the rest of prepareProvenanceOperation are the service's own seam *)
  (* the target definition of a requested upgrade, under a plan the one the plan restores; its preview and impact *)
  cp_definition : Context X -> Actor -> Project -> TemplateUpgradeInput -> option string -> T string;
  cp_preview : Project -> gmap string string -> string -> list ArchivedFieldReference -> list string -> tables -> string;
  (* the fields a preview shows, with the values they had; the check inverseTemplatePolicyBasis makes on its own *)
  cp_preview_fields : string -> list (string * string);
  cp_policy_basis : Actor -> Project -> ChangeSet -> T unit;
  (* recheckTemplateUpgradeRuleSet; validateActiveArchiveRemovals and -Restores; markActiveArchivesRemoved *)
  cp_recheck : Context X -> Actor -> TemplateUpgrade -> T unit;
  cp_removals : Context X -> Actor -> Project -> string -> gmap string string -> list ArchivedFieldReference ->
                T (lockedArchiveProject * list fieldArchiveRecord);
  cp_restores : Context X -> Actor -> Project -> ChangeSet -> list ArchivedFieldReference ->
                T (lockedArchiveProject * list fieldArchiveRecord);
  cp_mark_removed : Actor -> Project -> Project -> list fieldArchiveRecord -> T unit;
  (* projectTemplateCopy; inverseTemplatePolicyBasis with inheritRuleSetSourcePolicy *)
  cp_copy : Actor -> string -> Z -> string -> T ProjectTemplateCopy;
  cp_policy : Actor -> Project -> ChangeSet -> ProjectTemplateCopy -> T ProjectTemplateCopy;
  (* the metadata restoreInheritedFields leaves; the copy the binding overrides make *)
  cp_inherit : Context X -> Actor -> ChangeSet -> Project -> T (gmap string SpecField);
  cp_bind : Actor -> Project -> list BindingOverride -> T ProjectTemplateCopy;
  (* templateUpgradeAuditDetails, of the preview and the copy that was made *)
  cp_upgrade_details : ChangeSet -> option ProjectTemplateCopy -> string;
  (* s.businessAudit *)
  cp_business_audit : option (AuditEvent -> RM unit);
  (* the sources of a chapter and of a version of it; the change set a stored result answers with *)
  cp_chapter_sources : string -> string -> T (list string);
  cp_version_sources : string -> string -> string -> T (list string);
  cp_saved : Result -> res error ChangeSet;
  (* json.Unmarshal of a route, by its kind; of the objects outside, their meaning and the proposal that undoes one *)
  cp_decode : string -> string -> res error roadmap_any;
  cp_meaning : string -> string -> res error string;
  cp_inverse_proposal : SemanticDelta -> string -> SemanticDelta -> res error SemanticDelta;
  (* planning the inverse of an upgrade: the request, and the definition it restores *)
  cp_inverse_upgrade : Context X -> Actor -> Project -> ChangeSet -> T (TemplateUpgradeInput * string)
}.
Arguments ChangePorts : clear implicits.

Section Store.
Context {X : Type} `{Digester roadmap_any}.
Variable world : World X.
Variable checks : Checks.
Variable ports : ImpactPorts X.
Variable changes : ChangePorts X.
Abbreviation service := (wd_service world).
Abbreviation db := (sv_db (wd_service world)).

(** ** Proposals ([semantic_delta.go]) *)

Definition claim_statuses : list string := ["active"; "disputed"; "superseded"].
Definition asset_scopes : list string := ["personal"; "project"; "team"].

Definition bad_claim (input : ClaimInput) : bool :=
  blank (cl_Text input) || blank (cl_Scope input) || (10000 <? len (cl_Text input)) || negb (contains claim_statuses (cl_Status input)).

Definition bad_policy (target : string) (policy : AssetPolicyInput) : bool :=
  negb (contains asset_scopes (ap_Scope policy)) || (ap_ModelUseAllowed policy && blank (ap_Purpose policy))
  || (negb (ap_AssetID policy =? "")%string && negb (ap_AssetID policy =? target)%string).

Definition bad_node (node : RouteNode) : bool :=
  blank (rn_Name node) || (240 <? len (rn_Name node)) || (100 <? Z.of_nat (length (rn_Inputs node)))
  || negb (contains RoadmapNodeStatuses (rn_Status node)).

Definition bad_edge (edge : RouteEdge) : bool :=
  blank (re_SourceID edge) || blank (re_TargetID edge) || (re_SourceID edge =? re_TargetID edge)%string
  || blank (re_Relation edge) || (64 <? len (re_Relation edge)).

Definition route_proposal (p : Project) (id : string) (node : RouteNode) : RM unit :=
  _ ← refuse_if (bad_node node) ErrInvalidRequest;
  _ ← refuse_if (wd_required world p id && ((rn_Status node =? "retired")%string || negb (rn_Required node))) ErrInvalidState;
  rm_each (rn_Inputs node) (fun ref =>
    _ ← refuse_if ((ref_Kind ref =? "RouteNode")%string && (ref_ID ref =? id)%string) ErrInvalidRequest;
    _ ← currentImpactObject world p ref;
    mret tt).

Definition edge_proposal (p : Project) (edge : RouteEdge) : RM unit :=
  _ ← refuse_if (bad_edge edge) ErrInvalidRequest;
  rm_each [re_SourceID edge; re_TargetID edge] (fun id => _ ← routeNodeOf world (pr_ID p) id; mret tt).

(** A proposal the kind names and a valid delta has. *)
Definition proposed {A} (o : option A) (f : A -> RM unit) : RM unit :=
  match o with Some a => f a | None => fail nil_dereference end.

Definition validateSemanticProposal (p : Project) (delta : SemanticDelta) : RM unit :=
  let kind := sd_Kind delta in
  _ ← refuse_if (negb (validSemanticDelta delta)) ErrInvalidRequest;
  if (kind =? "EvidenceCard")%string || (kind =? "RuleBinding")%string then on_tables (cp_proposal changes p delta)
  else if (kind =? "ResearchClaim")%string then
    proposed (sd_ProposedClaim delta) (fun claim =>
      _ ← refuse_if (negb (cl_Confirmed claim)) ErrConsentRequired;
      refuse_if (bad_claim claim) ErrInvalidRequest)
  else if (kind =? "ProjectAssetScope")%string then
    proposed (sd_ProposedAssetPolicy delta) (fun policy => refuse_if (bad_policy (sd_TargetID delta) policy) ErrInvalidRequest)
  else if (kind =? "RouteNode")%string then proposed (sd_ProposedRoute delta) (route_proposal p (sd_TargetID delta))
  else proposed (sd_ProposedEdge delta) (edge_proposal p).

(** ** Pinning ([semantic_delta.go]) *)

Definition put_plans (t : records (list SemanticDelta)) (w : roadmap) : roadmap := w <| rm_plans := t |>.

Definition SaveSemanticPlan (pid id : string) (plan : list SemanticDelta) : RM unit :=
  found ← attempt (readVersionedRecord world rm_plans pid id);
  match found with
  | Ok row => compareAndSwapVersionedRecord world rm_plans put_plans pid id (vr_Version row) plan
  | Err err =>
      if decide (err = ErrNotFound) then insertVersionedRecord world rm_plans put_plans pid id 1 plan else fail err
  end.

Definition delta_key (delta : SemanticDelta) : string := sd_Kind delta +:+ "/" +:+ sd_TargetID delta.

(** The value the delta is about, at the version it expects. *)
Definition expected_value (p : Project) (delta : SemanticDelta) : RM SemanticCurrentValue :=
  value ← currentSemanticValue world checks p delta;
  _ ← refuse_if (negb (ref_Version (cs_Ref value) =? pretty (sd_ExpectedVersion delta))%string) ErrVersionConflict;
  mret value.

Definition pinned_to (value : SemanticCurrentValue) (sources : list string) (delta : SemanticDelta) : SemanticDelta :=
  delta <| sd_Before := cs_Body value |> <| sd_BeforeHash := semanticValueHash value |>
        <| sd_ProvenanceHash := cs_ProvenanceHash value |>
        <| sd_SourceIDs := sortedImpactSourceIDs (cs_SourceIDs value ++ sources) |>.

Definition pin (ctx : Context X) (actor : Actor) (p : Project) (delta : SemanticDelta) : RM SemanticDelta :=
  _ ← on_tables (service_authorizeProject service ctx (project_request actor (pr_ID p) "write"));
  _ ← (if (sd_Kind delta =? "RuleBinding")%string then on_tables (cp_resolve_template changes ctx actor p) else mret tt);
  value ← expected_value p delta;
  _ ← validateSemanticProposal p delta;
  named ← on_tables (ip_delta_sources ports p delta);
  inputs ← match sd_ProposedRoute delta with
           | Some node => rm_collect (current_sources world p) (rn_Inputs node)
           | None => mret []
           end;
  mret (pinned_to value (named ++ inputs) delta).

Fixpoint pin_each (ctx : Context X) (actor : Actor) (p : Project) (seen : gset string) (deltas : list SemanticDelta)
  : RM (list SemanticDelta) :=
  match deltas with
  | [] => mret []
  | delta :: deltas' =>
      _ ← refuse_if (bool_decide (delta_key delta ∈ seen) || negb (validSemanticDelta delta)) ErrInvalidRequest;
      first ← pin ctx actor p delta;
      rest ← pin_each ctx actor p ({[ delta_key delta ]} ∪ seen) deltas';
      mret (first :: rest)
  end.

Definition PinSemanticDeltas (ctx : Context X) (actor : Actor) (p : Project) (changeID : string) (deltas : list SemanticDelta)
  : RM (list SemanticDelta) :=
  _ ← on_tables (ip_card_batch ports p deltas);
  pinned ← pin_each ctx actor p ∅ deltas;
  _ ← SaveSemanticPlan (pr_ID p) changeID pinned;
  mret pinned.

Definition still_pinned (p : Project) (delta : SemanticDelta) : RM unit :=
  _ ← refuse_if (negb (validSemanticDelta delta) || (sd_BeforeHash delta =? "")%string) ErrInvalidRequest;
  current ← currentSemanticValue world checks p delta;
  _ ← refuse_if (negb (ref_Version (cs_Ref current) =? pretty (sd_ExpectedVersion delta))%string
                 || negb (semanticValueHash current =? sd_BeforeHash delta)%string) ErrVersionConflict;
  validateSemanticProposal p delta.

Definition ValidateSemanticDeltas (p : Project) (deltas : list SemanticDelta) : RM unit :=
  _ ← on_tables (ip_card_batch ports p deltas);
  rm_each deltas (still_pinned p).

(** ** Applying deltas ([semantic_delta.go]) *)

Definition binding_overrides (deltas : list SemanticDelta) : list BindingOverride :=
  omap sd_ProposedBinding (base.filter (fun delta => sd_Kind delta = "RuleBinding") deltas).

(** The project after its deltas are applied. *)
Definition ApplySemanticDeltas (ctx : Context X) (actor : Actor) (before next : Project) (change : ChangeSet) : RM Project :=
  _ ← RequireHuman ctx;
  _ ← refuse_if (negb (pr_CurrentContextRevision next =? pr_CurrentContextRevision before +i 1)
                 || negb (projectOwner before (ac_UserID actor))) ErrInvalidState;
  _ ← ValidateSemanticDeltas before (ch_SemanticDeltas change);
  _ ← apply_deltas world actor before next (ch_Reason change) (ch_SemanticDeltas change);
  let overrides := binding_overrides (ch_SemanticDeltas change) in
  if negb (nonempty overrides) then mret next
  else
    _ ← refuse_if (some (ch_TemplateUpgrade change)) ErrInvalidRequest;
    copy ← on_tables (cp_bind changes actor before overrides);
    mret (next <| pr_TemplateCopy := Some copy |> <| pr_TemplateCopyVersion := tc_Version copy |>).

(** ** The row ([provenance_history.go], [service.go]) *)

Definition recordChangeProvenance (change : ChangeSet) : RM unit :=
  found ← on_tables (cp_has_history changes (ch_ProjectID change) (ch_ID change));
  if (found : bool) then mret tt
  else
    p ← ProjectForImpact world (ch_ProjectID change);
    _ ← refuse_if (negb (ch_BaseContextRevision change =? pr_CurrentContextRevision p)
                   || negb (ch_BaseSpecRevision change =? pr_SpecRevision p)) ErrVersionConflict;
    snapshot ← on_tables (wd_provenance world p);
    on_tables (cp_put_history changes change snapshot).

(** The row has no deltas: they are the plan's. *)
Definition InsertChangeSet (change : ChangeSet) : RM unit :=
  _ ← recordChangeProvenance change;
  rm_statement world "insert lingdoc_change_sets" (fun w =>
    match rm_changes w !! ch_ID change with
    | Some _ => (w, Err duplicate_key)
    | None => (w <| rm_changes := <[ch_ID change := change <| ch_SemanticDeltas := [] |>]> (rm_changes w) |>, Ok tt)
    end).

(** An event a write on change sets records itself. *)
Definition change_audit (actor : Actor) (tenant : Z) (pid action target : string) (details : gmap string string) (reason : string)
  (now : Z) (uuid : string) : AuditEvent :=
  {| ae_ID := uuid; ae_ProjectID := pid; ae_ActorID := ac_UserID actor; ae_Action := action; ae_Target := target;
     ae_Details := details; ae_CreatedAt := now; ae_TenantID := tenant; ae_UserID := ""; ae_Role := "";
     ae_Capability := ""; ae_Decision := ""; ae_Reason := reason |}.

(** A value of the details, as its JSON text, which [encoding/json] always has
    for these. *)
Definition detail (value : roadmap_any) : string := match json_Marshal value with Ok text => text | Err _ => "" end.

(** [sanitizedChangeFields] *)
Definition sanitizedChangeFields (fields : list ChangeFieldDelta) : roadmap_any :=
  AnyFields ((fun field => (fd_Key field, sha256_hex (fd_OldValue field), sha256_hex (fd_NewValue field))) <$> fields).

(** The details a change set adds when it undoes another, and when it upgrades
    the template. *)
Definition change_details (change : ChangeSet) (copy : option ProjectTemplateCopy) (details : gmap string string) : gmap string string :=
  let details := if (ch_ReversesChangeSetID change =? "")%string then details
                 else <["reverses_change_set_id" := ch_ReversesChangeSetID change]> details in
  if some (ch_TemplateUpgrade change) then <["template_upgrade" := cp_upgrade_details changes change copy]> details else details.

Definition record_change (actor : Actor) (pid action target : string) (details : gmap string string) (reason : string) (now : Z)
  : RM unit :=
  here (fun w => on_tables (RecordAudit db (change_audit actor 0 pid action target details reason now (wd_uuid world w)))).
End Store.
