(* ===== verification/ChangeDrafts.v ===== *)
(** Drafting, creating and editing change sets
    ([src/internal/lingdoc/workspacecore/{change_creation_mutation,change_inverse_lineage,context_revision}.go]):
    the business write of each. *)

From stdpp Require Import pretty sorting.
From Stdlib Require Import Ascii String.
From S2P Require Import Prelude Effects OperationCore OperationStore OperationTheorems Workspace Permission MemberStore Membership OperationRunner RoadmapModel RoadmapStore RouteObjects Templates Roadmap ImpactStore Lineage Assessment Stabilization Impact ImpactService FaultInjection ChangeStore.

Definition blank_change : ChangeSet :=
  {| ch_SemanticDeltas := []; ch_ID := ""; ch_ProjectID := ""; ch_CreatedBy := ""; ch_ReassessedFromID := "";
     ch_ReversesChangeSetID := ""; ch_DecisionBy := ""; ch_DecidedAt := None; ch_StaleReason := ""; ch_Reason := "";
     ch_Status := ""; ch_BaseContextRevision := 0; ch_TargetContextRevision := None; ch_BaseSpecRevision := 0;
     ch_TargetSpecRevision := None; ch_Fields := []; ch_Impacts := []; ch_AffectedExplanation := None;
     ch_TemplateUpgrade := None; ch_CreatedAt := 0; ch_AppliedAt := None |}.

(** A change set on the project as it is now. *)
Definition on_basis (actor : Actor) (pid id status reason : string) (p : Project) (now : Z) : ChangeSet :=
  blank_change <| ch_ID := id |> <| ch_ProjectID := pid |> <| ch_CreatedBy := ac_UserID actor |> <| ch_Status := status |>
    <| ch_Reason := reason |> <| ch_BaseContextRevision := pr_CurrentContextRevision p |>
    <| ch_BaseSpecRevision := pr_SpecRevision p |> <| ch_CreatedAt := now |>.

Definition spec_value (p : Project) (key : string) : string := default "" (pr_Spec p !! key).

(** Every old value is the current one. *)
Definition current_values (p : Project) (fields : list ChangeFieldDelta) : bool :=
  forallb (fun field => (spec_value p (fd_Key field) =? fd_OldValue field)%string) fields.

Definition archiveRestoreSpec (spec : gmap string string) (records : list fieldArchiveRecord) : gmap string string :=
  foldl (fun spec record => match fa_Value record with Some value => <[fa_FieldID record := value]> spec | None => spec end)
    spec records.

Definition field_reason := "研究条件变化，需要重新复核".
Definition upgrade_reason := "模板或规则版本变化，需要重新复核".

Section Drafts.
Context {X : Type} `{Digester roadmap_any}.
Variable world : World X.
Variable checks : Checks.
Variable ports : ImpactPorts X.
Variable changes : ChangePorts X.
Abbreviation reader := (ip_reader ports).

Definition of_result {A} (r : res error A) : RM A := match r with Ok a => mret a | Err err => fail err end.

(** An affected chapter, at the version it has now. *)
Definition affected_chapter (pid reason id : string) : RM ChangeImpact :=
  version ← on_tables (ck_chapter_version checks pid id);
  here (fun w => mret {| ci_ChapterID := id; ci_ChapterVersionID := version; ci_Title := cp_title changes pid id (rm_tables w);
                         ci_Reason := reason; ci_Status := "open" |}).

(** ** A draft *)

(** [sourceID]: the change set a reversal undoes, none for any other draft. *)
Definition create_draft (ctx : Context X) (actor : Actor) (pid sourceID : string) (input : ExtendedChangeSetInput) (p : Project)
  : RM ChangeSet :=
  _ ← refuse_if (negb (pr_Status p =? "active")%string
                 || negb (pr_CurrentContextRevision p =? xd_ExpectedContextRevision input)) ErrVersionConflict;
  _ ← (if (sourceID =? "")%string then mret tt
       else _ ← validateInverseLineage world checks p actor sourceID ""; mret tt);
  _ ← returned (validateChangeTemplateInput reader p (xd_Fields input));
  let fields := field_deltas (xd_Fields input) in
  '(id, now) ← here (fun w => mret (wd_uuid world w, wd_now world w));
  _ ← refuse_if (negb (current_values p fields)) ErrVersionConflict;
  impacts ← rm_traverse (affected_chapter pid (xd_Reason input)) (xd_AffectedChapterIDs input);
  pinned ← PinSemanticDeltas world checks ports changes ctx actor p id (xd_SemanticDeltas input);
  let change := (on_basis actor pid id ChangeSetStatusDraft (xd_Reason input) p now)
                  <| ch_ReversesChangeSetID := sourceID |> <| ch_AffectedExplanation := cp_explanation changes ctx |>
                  <| ch_Fields := fields |> <| ch_Impacts := impacts |> <| ch_SemanticDeltas := pinned |> in
  _ ← InsertChangeSet world changes change;
  _ ← on_tables (cp_agent_fields changes ctx p change input);
  _ ← recordAuditEvent world actor pid "change_set.draft" id {[ "reverses_change_set_id" := sourceID ]};
  mret change.

(** ** An assessed change set *)

(** Fields swapped and every affected chapter named: what a caller may undo
    without a plan. *)
Definition undoes (source : ChangeSet) (input : CreateChangeSetInput) : bool :=
  is_nil (ch_TemplateUpgrade source) && negb (nonempty (ch_SemanticDeltas source)) && is_nil (xc_TemplateUpgrade input)
  && nonempty (ch_Fields source) && (size (xc_Fields input) =? length (ch_Fields source))%nat
  && forallb (fun delta => match xc_Fields input !! fd_Key delta with
                           | Some field => (fi_OldValue field =? fd_NewValue delta)%string && (fi_NewValue field =? fd_OldValue delta)%string
                           | None => false
                           end) (ch_Fields source)
  && forallb (fun impact => contains (xc_AffectedChapterIDs input) (ci_ChapterID impact)) (ch_Impacts source).

(** [controlled]: the source whose inverse the service itself plans. *)
Definition validateInverseCreation (ctx : Context X) (actor : Actor) (p : Project) (controlled : string) (input : CreateChangeSetInput)
  : RM unit :=
  if (xc_ReversesChangeSetID input =? "")%string then mret tt
  else
    _ ← RequireHuman ctx;
    source ← validateInverseLineage world checks p actor (xc_ReversesChangeSetID input) "";
    if (controlled =? ch_ID source)%string then mret tt
    else refuse_if (negb (undoes source input)) ErrInvalidRequest.

Definition plan_restores (plan : option inverseTemplatePlan) : list ArchivedFieldReference :=
  match plan with Some plan => vp_ArchiveRestores plan | None => [] end.

(** The fields the plan brings back from the archive. *)
Definition restored_fields (ctx : Context X) (actor : Actor) (pid : string) (p : Project) (plan : option inverseTemplatePlan)
  : RM (list fieldArchiveRecord) :=
  match plan with
  | Some plan =>
      if nonempty (vp_ArchiveRestores plan) then
        source ← Store_ChangeSet world checks pid (vp_SourceID plan);
        '(_, restored) ← on_tables (cp_restores changes ctx actor p source (vp_ArchiveRestores plan));
        mret restored
      else mret []
  | None => mret []
  end.

Definition copy_at (p : Project) (requested : TemplateUpgradeInput) : bool :=
  (pr_ProjectVersion p =? ui_ExpectedProjectVersion requested)
  && (pr_TemplateCopyVersion p =? ui_ExpectedTemplateCopyVersion requested) && template_bound p.

(** An upgrade, and the chapters it affects: all of them. *)
Definition plan_upgrade (ctx : Context X) (actor : Actor) (pid controlled : string) (plan : option inverseTemplatePlan)
  (reverses : string) (requested : TemplateUpgradeInput) (p : Project) : RM (TemplateUpgrade * list string) :=
  _ ← refuse_if (negb (copy_at p requested)) ErrVersionConflict;
  _ ← refuse_if (match plan with
                 | Some plan => (controlled =? "")%string || negb (controlled =? reverses)%string
                                || negb (vp_SourceID plan =? controlled)%string
                 | None => false
                 end) ErrInvalidState;
  definition ← on_tables (cp_definition changes ctx actor p requested (vp_Definition <$> plan));
  _ ← on_tables (cp_removals changes ctx actor p definition (ui_FieldValues requested) (ui_ArchivedRemovals requested));
  restored ← restored_fields ctx actor pid p plan;
  let spec := archiveRestoreSpec (pr_Spec p) restored in
  _ ← of_result (templateSpecAfterUpgrade reader spec definition (ui_FieldValues requested));
  chapters ← on_tables (cp_chapters changes pid);
  let ids := merge_sort string_le chapters in
  _ ← refuse_if (negb (nonempty ids)) ErrInvalidState;
  here (fun w => mret
    ({| tu_BaseTemplateCopyVersion := pr_TemplateCopyVersion p; tu_Definition := definition;
        tu_FieldValues := ui_FieldValues requested; tu_ArchivedRemovals := ui_ArchivedRemovals requested;
        tu_ArchiveRestores := plan_restores plan;
        tu_Preview := cp_preview changes p spec definition (plan_restores plan) ids (rm_tables w) |}, ids)).

Definition create_assessed (ctx : Context X) (actor : Actor) (pid controlled : string) (plan : option inverseTemplatePlan)
  (input : CreateChangeSetInput) (p : Project) : RM ChangeSet :=
  _ ← refuse_if (negb (pr_Status p =? "active")%string || some (pr_DiscardedAt p)) ErrInvalidState;
  _ ← refuse_if (negb (pr_CurrentContextRevision p =? xc_ExpectedContextRevision input)) ErrVersionConflict;
  _ ← validateInverseCreation ctx actor p controlled input;
  _ ← returned (validateChangeTemplateInput reader p (xc_Fields input));
  '(upgrade, chapters) ← match xc_TemplateUpgrade input with
                         | Some requested =>
                             '(upgrade, ids) ← plan_upgrade ctx actor pid controlled plan (xc_ReversesChangeSetID input) requested p;
                             mret (Some upgrade, ids)
                         | None => mret (None, xc_AffectedChapterIDs input)
                         end;
  let fields := field_deltas (xc_Fields input) in
  _ ← refuse_if (negb (current_values p fields)) ErrVersionConflict;
  impacts ← rm_traverse (affected_chapter pid (if is_nil (upgrade : option TemplateUpgrade) then field_reason else upgrade_reason)) chapters;
  here (fun w =>
    let change := (on_basis actor pid (wd_uuid world w) ChangeSetStatusAssessed (TrimSpace (xc_Reason input)) p (wd_now world w))
                    <| ch_ReversesChangeSetID := xc_ReversesChangeSetID input |> <| ch_Fields := fields |>
                    <| ch_Impacts := impacts |> <| ch_TemplateUpgrade := upgrade |> in
    _ ← AssessChangeImpact world checks p change;
    _ ← InsertChangeSet world changes change;
    _ ← record_change world actor pid "project.change_set.create" (ch_ID change)
          (change_details changes change None
            {[ "base_context_revision" := pretty (ch_BaseContextRevision change); "fields" := detail (sanitizedChangeFields (ch_Fields change));
               "impacts" := detail (AnyImpacts (ch_Impacts change)); "reason" := ch_Reason change ]}) (ch_Reason change) (ch_CreatedAt change);
    mret change).

(** ** An edit *)

Definition edit_write (ctx : Context X) (actor : Actor) (pid changeID : string) (input : ExtendedChangeSetInput) (p : Project)
  : RM ChangeSet :=
  _ ← refuse_if (negb (pr_Status p =? "active")%string
                 || negb (pr_CurrentContextRevision p =? xd_ExpectedContextRevision input)) ErrVersionConflict;
  old ← Store_ChangeSet world checks pid changeID;
  _ ← refuse_if (negb (ChangeSetStatusCanMove "editDraft" (ch_Status old)) || some (ch_TemplateUpgrade old)) ErrInvalidState;
  _ ← refuse_if (negb (ch_CreatedBy old =? ac_UserID actor)%string && negb (projectOwner p (ac_UserID actor))) ErrNotFound;
  _ ← refuse_if (negb (ch_BaseContextRevision old =? pr_CurrentContextRevision p)
                 || negb (ch_BaseSpecRevision old =? pr_SpecRevision p)) ErrVersionConflict;
  _ ← returned (validateChangeTemplateInput reader p (xd_Fields input));
  let fields := field_deltas (xd_Fields input) in
  _ ← refuse_if (negb (current_values p fields)) ErrVersionConflict;
  impacts ← rm_traverse (affected_chapter pid (xd_Reason input)) (xd_AffectedChapterIDs input);
  pinned ← PinSemanticDeltas world checks ports changes ctx actor p (ch_ID old) (xd_SemanticDeltas input);
  let next := old <| ch_Status := ChangeSetStatusDraft |> <| ch_Reason := xd_Reason input |> <| ch_Fields := fields |>
                  <| ch_Impacts := impacts |> <| ch_SemanticDeltas := pinned |> in
  _ ← UpdateChangeSet world old next;
  _ ← on_tables (cp_agent_edit changes ctx p old next input);
  _ ← recordAuditEvent world actor pid "change_set.edit" changeID {[ "status" := ChangeSetStatusDraft ]};
  mret next.
End Drafts.
