(* ===== verification/ChangeApply.v ===== *)
(** Applying a change set to its project, marking it stale instead, and
    rejecting it
    ([ApplyChangeSet] and [RejectChangeSet] of
    [src/internal/lingdoc/workspacecore/service_facade.go]): the business write
    of each. *)

From stdpp Require Import pretty sorting.
From Stdlib Require Import Ascii String.
From S2P Require Import Prelude Effects OperationCore OperationStore OperationTheorems Workspace Permission MemberStore Membership OperationRunner RoadmapModel RoadmapStore RouteObjects Templates Roadmap ImpactStore Lineage Assessment Stabilization Impact ImpactService FaultInjection ChangeStore ChangeDrafts.

(** ** The project after a change set *)

Definition zero_field : SpecField :=
  {| sf_Value := ""; sf_Origin := ""; sf_Status := ""; sf_Provenance := None; sf_ModifiedBy := ""; sf_ModifiedAt := 0;
     sf_ModifiedProjectVersion := 0 |}.

(** The project and the keys that were written. *)
Abbreviation writing := (Project * gset string)%type.

Definition write_field (actor : Actor) (now : Z) (s : writing) (key value : string) : writing :=
  let '(next, keys) := s in
  let metadata := default zero_field (pr_SpecFields next !! key) in
  (next <| pr_Spec := <[key := value]> (pr_Spec next) |>
        <| pr_SpecFields := <[key := {| sf_Value := value; sf_Origin := "human"; sf_Status := "pending_confirmation";
                                        sf_Provenance := None; sf_ModifiedBy := ac_UserID actor; sf_ModifiedAt := now;
                                        sf_ModifiedProjectVersion := sf_ModifiedProjectVersion metadata |}]> (pr_SpecFields next) |>,
   {[ key ]} ∪ keys).

Definition write_fields (actor : Actor) (now : Z) (fields : list ChangeFieldDelta) (next : Project) : writing :=
  foldl (fun s field => write_field actor now s (fd_Key field) (fd_NewValue field)) (next, ∅) fields.

(** The fields a migration changes, one it adds with an empty value among
    them. *)
Definition migrate_fields (actor : Actor) (now : Z) (migrated : gmap string string) (s : writing) : writing :=
  foldl (fun s entry => if bool_decide (pr_Spec s.1 !! entry.1 = Some entry.2) then s else write_field actor now s entry.1 entry.2)
    s (map_to_list migrated).

Definition without_field (next : Project) (record : fieldArchiveRecord) : Project :=
  next <| pr_Spec := delete (fa_FieldID record) (pr_Spec next) |>
       <| pr_SpecFields := delete (fa_FieldID record) (pr_SpecFields next) |>.

Definition put_field (next : Project) (record : fieldArchiveRecord) : Project :=
  next <| pr_Spec := partial_alter (fun _ => fa_Value record) (fa_FieldID record) (pr_Spec next) |>
       <| pr_SpecFields := partial_alter (fun _ => fa_Metadata record) (fa_FieldID record) (pr_SpecFields next) |>.

(** The revisions a change set takes the project to, and the version its fields
    carry. *)
Definition stamp_field (version : Z) (fields : gmap string SpecField) (key : string) : gmap string SpecField :=
  let metadata := default zero_field (fields !! key) in
  <[key := {| sf_Value := sf_Value metadata; sf_Origin := sf_Origin metadata; sf_Status := sf_Status metadata;
              sf_Provenance := sf_Provenance metadata; sf_ModifiedBy := sf_ModifiedBy metadata;
              sf_ModifiedAt := sf_ModifiedAt metadata; sf_ModifiedProjectVersion := version |}]> fields.

Definition advance (upgraded : bool) (s : writing) : Project :=
  let '(next, keys) := s in
  let version := pr_ProjectVersion next +i 1 in
  next <| pr_SpecRevision := if negb (bool_decide (keys = ∅)) || upgraded then pr_SpecRevision next +i 1 else pr_SpecRevision next |>
       <| pr_CurrentContextRevision := pr_CurrentContextRevision next +i 1 |>
       <| pr_ProjectVersion := version |>
       <| pr_SpecFields := foldl (stamp_field version) (pr_SpecFields next) (elements keys) |>.

(** ** Staleness *)

Definition upgrade_stale (p : Project) (change : ChangeSet) : bool :=
  match ch_TemplateUpgrade change with
  | Some upgrade => is_nil (pr_TemplateCopy p) || negb (pr_TemplateCopyVersion p =? tu_BaseTemplateCopyVersion upgrade)
  | None => false
  end.

Definition base_moved (p : Project) (change : ChangeSet) : bool :=
  negb (ch_BaseContextRevision change =? pr_CurrentContextRevision p) || negb (ch_BaseSpecRevision change =? pr_SpecRevision p)
  || upgrade_stale p change.

Definition stale_reason (p : Project) (change : ChangeSet) : string :=
  if upgrade_stale p change then "template_copy_changed"
  else if negb (ch_BaseSpecRevision change =? pr_SpecRevision p) then "spec_revision_changed"
  else "context_revision_changed".

Definition upgraded (change : ChangeSet) : bool := some (ch_TemplateUpgrade change).
Definition removals_of (change : ChangeSet) : list ArchivedFieldReference :=
  match ch_TemplateUpgrade change with Some upgrade => tu_ArchivedRemovals upgrade | None => [] end.
Definition restores_of (change : ChangeSet) : list ArchivedFieldReference :=
  match ch_TemplateUpgrade change with Some upgrade => tu_ArchiveRestores upgrade | None => [] end.

(** What an apply records on the change set. *)
Definition reopened_impact (impact : ChangeImpact) : ChangeImpact :=
  {| ci_ChapterID := ci_ChapterID impact; ci_ChapterVersionID := ci_ChapterVersionID impact; ci_Title := ci_Title impact;
     ci_Reason := ci_Reason impact; ci_Status := "open" |}.

Definition applied (actor : Actor) (next : Project) (now : Z) (change : ChangeSet) : ChangeSet :=
  change <| ch_Status := ChangeSetStatusApplied |> <| ch_DecisionBy := ac_UserID actor |> <| ch_DecidedAt := Some now |>
         <| ch_TargetContextRevision := Some (pr_CurrentContextRevision next) |>
         <| ch_TargetSpecRevision := Some (pr_SpecRevision next) |> <| ch_AppliedAt := Some now |>
         <| ch_Impacts := reopened_impact <$> ch_Impacts change |>.

Definition rejected (actor : Actor) (now : Z) (change : ChangeSet) : ChangeSet :=
  change <| ch_Status := ChangeSetStatusRejected |> <| ch_DecisionBy := ac_UserID actor |> <| ch_DecidedAt := Some now |>.

Section Apply.
Context {X : Type} `{Digester roadmap_any}.
Variable world : World X.
Variable checks : Checks.
Variable ports : ImpactPorts X.
Variable changes : ChangePorts X.
Abbreviation service := (wd_service world).
Abbreviation db := (sv_db (wd_service world)).
Abbreviation reader := (ip_reader ports).

Definition mark_stale (actor : Actor) (pid : string) (change : ChangeSet) (reason : string) (details : gmap string string)
  : RM ChangeSet :=
  let stale := change <| ch_Status := ChangeSetStatusStale |> <| ch_StaleReason := reason |> in
  _ ← refuse_if (negb (ChangeSetStatusCanMove "markStale" (ch_Status change))) ErrInvalidState;
  _ ← UpdateChangeSet world change stale;
  _ ← here (fun w => record_change world actor pid "project.change_set.stale" (ch_ID change) (<["stale_reason" := reason]> details) ""
                       (wd_now world w));
  mret stale.

(** The first affected chapter that has moved on from its version. *)
Fixpoint moved_chapter (pid : string) (impacts : list ChangeImpact) : RM (option ChangeImpact) :=
  match impacts with
  | [] => mret None
  | impact :: impacts' =>
      version ← on_tables (ck_chapter_version checks pid (ci_ChapterID impact));
      if bool_decide (version = ci_ChapterVersionID impact) then moved_chapter pid impacts' else mret (Some impact)
  end.

(** The fields an upgrade takes out, and those an inverse brings back, on the
    specification that was locked with them. *)
Definition archives_of (ctx : Context X) (actor : Actor) (pid : string) (p : Project) (change : ChangeSet)
  : RM (option lockedArchiveProject * list fieldArchiveRecord * list fieldArchiveRecord) :=
  match ch_TemplateUpgrade change with
  | None => mret (None, [], [])
  | Some upgrade =>
      '(basis, removed) ← (if nonempty (tu_ArchivedRemovals upgrade)
                           then '(locked, records) ← on_tables (cp_removals changes ctx actor p (tu_Definition upgrade)
                                                       (tu_FieldValues upgrade) (tu_ArchivedRemovals upgrade));
                                mret (Some locked, records)
                           else mret (None, []));
      if nonempty (tu_ArchiveRestores upgrade) then
        _ ← refuse_if (nonempty (removed : list fieldArchiveRecord) || (ch_ReversesChangeSetID change =? "")%string) ErrInvalidState;
        source ← Store_ChangeSet world checks pid (ch_ReversesChangeSetID change);
        '(locked, restored) ← on_tables (cp_restores changes ctx actor p source (tu_ArchiveRestores upgrade));
        mret (Some locked, removed, restored)
      else mret (basis, removed, [])
  end.

(** The project the fields are written to. *)
Definition archive_basis (p : Project) (basis : option lockedArchiveProject) (removed restored : list fieldArchiveRecord) : Project :=
  match basis with
  | Some locked =>
      if nonempty removed || nonempty restored
      then p <| pr_Spec := archiveRestoreSpec (la_Spec locked) restored |> <| pr_SpecFields := la_Metadata locked |>
      else p
  | None => p
  end.

Definition migration_invalid : error :=
  Wrapped (Error ErrInvalidState +:+ ": template migration is no longer valid") ErrInvalidState.
Definition snapshot_invalid : error :=
  Wrapped (Error ErrInvalidState +:+ ": invalid template upgrade snapshot") ErrInvalidState.

(** The template part of an apply: the migrated fields, without those removed,
    under the copy of the new definition. *)
Definition migrate (actor : Actor) (pid : string) (p : Project) (change : ChangeSet) (removed : list fieldArchiveRecord) (now : Z)
  (s : writing) : RM writing :=
  match ch_TemplateUpgrade change with
  | None => mret s
  | Some upgrade =>
      _ ← refuse_if (is_nil (pr_TemplateCopy p) || negb (pr_TemplateCopyVersion p =? tu_BaseTemplateCopyVersion upgrade)) ErrVersionConflict;
      migrated ← map_error (fun _ => migration_invalid)
        (of_result (templateSpecAfterUpgrade reader (pr_Spec s.1) (tu_Definition upgrade) (tu_FieldValues upgrade)));
      let '(next, keys) := migrate_fields actor now migrated s in
      let next := foldl without_field next removed in
      copy ← map_error (fun _ => snapshot_invalid)
        (on_tables (cp_copy changes actor pid (pr_TemplateCopyVersion p +i 1) (tu_Definition upgrade)));
      copy ← on_tables (cp_policy changes actor p change copy);
      mret (next <| pr_TemplateID := tc_SourceTemplateID copy |> <| pr_TemplateVersion := tc_SourceTemplateVersion copy |>
                 <| pr_TemplateCopyVersion := tc_Version copy |> <| pr_TemplateCopy := Some copy |>, keys)
  end.

(** The project an apply stores, the deltas aside. *)
Definition next_project (ctx : Context X) (actor : Actor) (pid : string) (p : Project) (change : ChangeSet)
  (basis : option lockedArchiveProject) (removed restored : list fieldArchiveRecord) (now : Z) : RM Project :=
  s ← migrate actor pid p change removed now (write_fields actor now (ch_Fields change) (archive_basis p basis removed restored));
  metadata ← on_tables (cp_inherit changes ctx actor change s.1);
  mret (foldl put_field (advance (upgraded change) (s.1 <| pr_SpecFields := metadata |>, s.2)) restored).

Definition business_audit (event : AuditEvent) : RM unit :=
  match cp_business_audit changes with Some write => write event | None => on_tables (RecordAudit db event) end.

(** The change set is current: it is carried out. *)
Definition carry_out (ctx : Context X) (actor : Actor) (pid : string) (p : Project) (change : ChangeSet) : RM ChangeSet :=
  _ ← returned (validateChangeTemplateFields reader p (ch_Fields change));
  _ ← ValidateChangeImpactAssessment world checks p change;
  _ ← ValidateSemanticDeltas world checks ports changes p (ch_SemanticDeltas change);
  '(basis, removed, restored) ← archives_of ctx actor pid p change;
  next ← here (fun w => next_project ctx actor pid p change basis removed restored (wd_now world w));
  next ← ApplySemanticDeltas world checks ports changes ctx actor p next change;
  _ ← on_tables (UpdateProject db (ac_TenantID actor) p next);
  _ ← (if nonempty removed then on_tables (cp_mark_removed changes actor p next removed) else mret tt);
  now ← here (fun w => mret (wd_now world w));
  let done := applied actor next now change in
  _ ← UpdateChangeSet world change done;
  _ ← commitChangeImpactTasks world checks ports (ip_writer ports) (ac_TenantID actor) next done;
  _ ← on_tables (ip_invalidate ports pid (ci_ChapterID <$> ch_Impacts done));
  _ ← here (fun w => business_audit (change_audit actor (ac_TenantID actor) pid "project.change_set.apply" (ch_ID done)
        (change_details changes done (pr_TemplateCopy next)
          {[ "base_context_revision" := pretty (ch_BaseContextRevision done);
             "target_context_revision" := pretty (pr_CurrentContextRevision next);
             "target_spec_revision" := pretty (pr_SpecRevision next); "reason" := ch_Reason done; "change_set_id" := ch_ID done ]})
        (ch_Reason done) now (wd_uuid world w)));
  mret done.

(** The decision is the owner's, on an active project. *)
Definition decision_gate (actor : Actor) (p : Project) : RM unit :=
  _ ← refuse_if (negb (pr_Status p =? "active")%string || some (pr_DiscardedAt p)) ErrInvalidState;
  on_tables (ownerDecisionInTransaction (policy_tx db) p actor).

Definition operationStatusConflict : Z := 409.

Definition stale_or_carry_out (ctx : Context X) (actor : Actor) (pid : string) (p : Project) (change : ChangeSet) : RM (ChangeSet * Z) :=
  if base_moved p change then
    stale ← mark_stale actor pid change (stale_reason p change)
              {[ "base_context_revision" := pretty (ch_BaseContextRevision change);
                 "current_context_revision" := pretty (pr_CurrentContextRevision p);
                 "template_copy_version" := pretty (pr_TemplateCopyVersion p) ]};
    mret (stale, operationStatusConflict)
  else
    moved ← moved_chapter pid (ch_Impacts change);
    match moved with
    | Some impact =>
        stale ← mark_stale actor pid change "chapter_version_changed"
                  {[ "chapter_id" := ci_ChapterID impact; "chapter_version_id" := default "" (ci_ChapterVersionID impact) ]};
        mret (stale, operationStatusConflict)
    | None => change ← carry_out ctx actor pid p change; mret (change, OperationStatusOK)
    end.

Definition apply_write (ctx : Context X) (actor : Actor) (pid changeID : string) (p : Project) : RM (ChangeSet * Z) :=
  _ ← decision_gate actor p;
  change ← Store_ChangeSet world checks pid changeID;
  if (ch_Status change =? ChangeSetStatusApplied)%string then mret (change, OperationStatusOK)
  else
    _ ← refuse_if (negb (ChangeSetStatusCanMove "apply" (ch_Status change))) ErrInvalidState;
    _ ← match ch_TemplateUpgrade change with
        | Some upgrade => on_tables (cp_recheck changes ctx actor upgrade)
        | None => mret tt
        end;
    stale_or_carry_out ctx actor pid p change.

(** ** Rejecting *)

Definition reject_write (actor : Actor) (pid changeID : string) (p : Project) : RM ChangeSet :=
  _ ← decision_gate actor p;
  change ← Store_ChangeSet world checks pid changeID;
  if (ch_Status change =? ChangeSetStatusRejected)%string then mret change
  else
    _ ← refuse_if (negb (ChangeSetStatusCanMove "reject" (ch_Status change))) ErrInvalidState;
    here (fun w =>
      let done := rejected actor (wd_now world w) change in
      _ ← UpdateChangeSet world change done;
      _ ← record_change world actor pid "project.change_set.reject" (ch_ID done)
            {[ "base_context_revision" := pretty (ch_BaseContextRevision done) ]} (ch_Reason done) (wd_now world w);
      mret done).
End Apply.
