(* ===== verification/ChangeInverse.v ===== *)
(** Reassessing a stale change set on the project as it is now, and planning the
    inverse of an applied one
    ([src/internal/lingdoc/workspacecore/{service_facade,release_gate,semantic_delta_inverse,change_inverse_operation}.go]):
    the business write of each. *)

From stdpp Require Import pretty sorting.
From Stdlib Require Import Ascii String.
From S2P Require Import Prelude Effects OperationCore OperationStore OperationTheorems Workspace Permission MemberStore Membership OperationRunner RoadmapModel RoadmapStore RouteObjects Templates Roadmap ImpactStore Lineage Assessment Stabilization Impact ImpactService FaultInjection ChangeStore ChangeDrafts.

Definition delta_on (kind id : string) (version : Z) : SemanticDelta :=
  {| sd_Kind := kind; sd_TargetID := id; sd_ExpectedVersion := version; sd_BeforeHash := ""; sd_Before := "";
     sd_ProvenanceHash := ""; sd_SourceIDs := []; sd_ProposedCard := None; sd_ProposedClaim := None;
     sd_ProposedAssetPolicy := None; sd_ProposedBinding := None; sd_ProposedRoute := None; sd_ProposedEdge := None |}.

(** What undoes a node, an edge: the value before, or, of one that was new, the
    proposal taken back. *)
Definition restored_node (before proposed : RouteNode) : RouteNode :=
  if rn_Version before =? 0
  then proposed <| rn_Status := "retired" |> <| rn_Required := false |> <| rn_Inputs := [] |>
  else before.

Definition restored_edge (before proposed : RouteEdge) : RouteEdge :=
  if re_Version before =? 0 then proposed <| re_Relation := "" |> else before.

(** The delta was applied, and nothing has touched its object since: of a card,
    the confirmation of its sources may have. *)
Definition inverse_due (delta : SemanticDelta) (version : Z) : bool :=
  let next := sd_ExpectedVersion delta +i 1 in
  negb (sd_Before delta =? "")%string && negb (version <? next)
  && ((sd_Kind delta =? "EvidenceCard")%string || (version =? next)).

(** The fields of a stale change set that still have to be written: [None] when
    one has moved. *)
Fixpoint outstanding (p : Project) (fields : list ChangeFieldDelta) : option (list ChangeFieldDelta) :=
  match fields with
  | [] => Some []
  | field :: fields' =>
      let current := spec_value p (fd_Key field) in
      if (current =? fd_NewValue field)%string then outstanding p fields'
      else if (current =? fd_OldValue field)%string then (cons field) <$> outstanding p fields'
      else None
  end.

(** The fields of an inverse, and of the request that asks for it. *)
Definition swapped (fields : list ChangeFieldDelta) : gmap string ChangeFieldInput :=
  foldl (fun m field => <[fd_Key field := {| fi_OldValue := fd_NewValue field; fi_NewValue := fd_OldValue field |}]> m) ∅ fields.

Definition still_applied (p : Project) (fields : list ChangeFieldDelta) : bool :=
  forallb (fun field => (spec_value p (fd_Key field) =? fd_NewValue field)%string) fields.

Definition inverse_reason (source : ChangeSet) : string := "逆向变更 " +:+ ch_ID source.

Definition inverse_draft (p : Project) (source : ChangeSet) (semantic : list SemanticDelta) : ExtendedChangeSetInput :=
  {| xd_SemanticDeltas := semantic; xd_ExpectedContextRevision := pr_CurrentContextRevision p; xd_Reason := inverse_reason source;
     xd_Fields := swapped (ch_Fields source); xd_AffectedChapterIDs := ci_ChapterID <$> ch_Impacts source |}.

Definition inverse_create (p : Project) (source : ChangeSet) (upgrade : option TemplateUpgradeInput) : CreateChangeSetInput :=
  {| xc_ExpectedContextRevision := pr_CurrentContextRevision p; xc_Fields := swapped (ch_Fields source);
     xc_AffectedChapterIDs := ci_ChapterID <$> ch_Impacts source; xc_Reason := inverse_reason source;
     xc_ReversesChangeSetID := ch_ID source; xc_TemplateUpgrade := upgrade |}.

(** [activeArchiveRestoreReferences]: each archive at the version its removal
    left it. *)
Definition activeArchiveRestoreReferences (source : ChangeSet) : res error (list ArchivedFieldReference) :=
  match ch_TemplateUpgrade source with
  | Some upgrade =>
      when negb (ch_Status source =? ChangeSetStatusApplied)%string return Err ErrInvalidState;
      match validateArchivedFieldReferences (tu_ArchivedRemovals upgrade) (tu_FieldValues upgrade) with
      | Some err => Err err
      | None => Ok ((fun ref => {| af_FieldID := af_FieldID ref; af_ArchiveID := af_ArchiveID ref;
                                   af_ExpectedArchiveVersion := af_ExpectedArchiveVersion ref +i 1 |}) <$> tu_ArchivedRemovals upgrade)
      end
  | None => Err ErrInvalidState
  end.

Section Inverse.
Context {X : Type} `{Digester roadmap_any}.
Variable world : World X.
Variable checks : Checks.
Variable ports : ImpactPorts X.
Variable changes : ChangePorts X.
Abbreviation reader := (ip_reader ports).

(** ** Reassessing ([release_gate.go], [service_facade.go]) *)

(** The digest of what a value says, its version and its times aside. *)
Definition semantic_meaning (kind body : string) : res error string :=
  if (kind =? "RouteNode")%string then
    match cp_decode changes kind body with
    | Ok (AnyNode node) => Ok (hashImpactValue (AnyNodeMeaning (rn_Name node) (rn_Status node) (rn_Required node) (rn_Inputs node)))
    | Ok _ => Err ErrInvalidRequest
    | Err err => Err err
    end
  else if (kind =? "RouteEdge")%string then
    match cp_decode changes kind body with
    | Ok (AnyRouteEdge edge) => Ok (hashImpactValue (AnyEdgeMeaning (re_SourceID edge) (re_TargetID edge) (re_Relation edge)))
    | Ok _ => Err ErrInvalidRequest
    | Err err => Err err
    end
  else cp_meaning changes kind body.

(** A version as the objects write it. *)
Definition parsed_version (version : string) (err : error) : RM Z :=
  match ParseInt version with Some n => mret n | None => fail err end.

Definition carried_over (p : Project) (delta : SemanticDelta) : RM SemanticDelta :=
  current ← currentSemanticValue world checks p delta;
  before ← of_result (semantic_meaning (sd_Kind delta) (sd_Before delta));
  now ← of_result (semantic_meaning (sd_Kind delta) (cs_Body current));
  _ ← refuse_if (negb (before =? now)%string) ErrVersionConflict;
  version ← parsed_version (ref_Version (cs_Ref current)) ErrInvalidState;
  mret (delta <| sd_ExpectedVersion := version |>).

Definition ReassessSemanticPlan (ctx : Context X) (actor : Actor) (p : Project) (newID : string) (stale : ChangeSet)
  : RM (list SemanticDelta) :=
  if negb (nonempty (ch_SemanticDeltas stale)) then mret []
  else
    deltas ← rm_traverse (carried_over p) (ch_SemanticDeltas stale);
    PinSemanticDeltas world checks ports changes ctx actor p newID deltas.

(** The source a stale proposal undoes, which its successor undoes too. *)
Definition reversal_of (actor : Actor) (p : Project) (stale : ChangeSet) : RM ChangeSet :=
  source ← inverseLineageSource world checks (pr_ID p) stale;
  if (source =? "")%string then mret stale
  else
    _ ← validateInverseLineage world checks p actor source (ch_ID stale);
    mret (stale <| ch_ReversesChangeSetID := source |>).

Definition field_proposal_incompatible (err : error) : error :=
  Wrapped (Error ErrInvalidState +:+ ": field proposal is incompatible with the current template: " +:+ Error err) ErrInvalidState.

(** Every field the preview showed has the value it showed, the restored ones
    aside. *)
Definition preview_current (p : Project) (upgrade : TemplateUpgrade) : bool :=
  forallb (fun field => existsb (fun ref => (af_FieldID ref =? field.1)%string) (tu_ArchiveRestores upgrade)
                        || (spec_value p field.1 =? field.2)%string)
    (cp_preview_fields changes (tu_Preview upgrade)).

Definition restored_again (ctx : Context X) (actor : Actor) (pid : string) (p : Project) (stale : ChangeSet) (upgrade : TemplateUpgrade)
  : RM (list fieldArchiveRecord) :=
  if nonempty (tu_ArchiveRestores upgrade) then
    source ← Store_ChangeSet world checks pid (ch_ReversesChangeSetID stale);
    '(_, restored) ← on_tables (cp_restores changes ctx actor p source (tu_ArchiveRestores upgrade));
    _ ← on_tables (cp_policy_basis changes actor p stale);
    mret restored
  else mret [].

Definition upgrade_again (ctx : Context X) (actor : Actor) (pid : string) (p : Project) (stale : ChangeSet) (upgrade : TemplateUpgrade)
  : RM (TemplateUpgrade * list string) :=
  _ ← refuse_if (negb (template_bound p) || negb (pr_TemplateCopyVersion p =? tu_BaseTemplateCopyVersion upgrade)) ErrVersionConflict;
  _ ← refuse_if (negb (preview_current p upgrade)) ErrVersionConflict;
  _ ← (if nonempty (tu_ArchivedRemovals upgrade)
       then _ ← on_tables (cp_removals changes ctx actor p (tu_Definition upgrade) (tu_FieldValues upgrade) (tu_ArchivedRemovals upgrade));
            mret tt
       else mret tt);
  restored ← restored_again ctx actor pid p stale upgrade;
  let spec := archiveRestoreSpec (pr_Spec p) restored in
  _ ← map_error (fun _ => ErrInvalidState)
        (of_result (templateSpecAfterUpgrade reader spec (tu_Definition upgrade) (tu_FieldValues upgrade)));
  chapters ← on_tables (cp_chapters changes pid);
  _ ← refuse_if (negb (nonempty chapters)) ErrInvalidState;
  let ids := merge_sort string_le chapters in
  here (fun w => mret
    ({| tu_BaseTemplateCopyVersion := tu_BaseTemplateCopyVersion upgrade; tu_Definition := tu_Definition upgrade;
        tu_FieldValues := tu_FieldValues upgrade; tu_ArchivedRemovals := tu_ArchivedRemovals upgrade;
        tu_ArchiveRestores := tu_ArchiveRestores upgrade;
        tu_Preview := cp_preview changes p spec (tu_Definition upgrade) (tu_ArchiveRestores upgrade) ids (rm_tables w) |}, ids)).

Definition reassess_audit := "project.change_set.reassess".

(** Everything the stale proposal asks for is already so. *)
Definition satisfied_write (actor : Actor) (pid : string) (p : Project) (stale : ChangeSet) : RM ChangeSet :=
  _ ← refuse_if (negb (ChangeSetStatusCanMove "satisfy" (ch_Status stale))) ErrInvalidState;
  '(id, now) ← here (fun w => mret (wd_uuid world w, wd_now world w));
  let change := (on_basis actor pid id ChangeSetStatusSatisfied (ch_Reason stale) p now)
                  <| ch_ReassessedFromID := ch_ID stale |> <| ch_ReversesChangeSetID := ch_ReversesChangeSetID stale |>
                  <| ch_TargetContextRevision := Some (pr_CurrentContextRevision p) |>
                  <| ch_TargetSpecRevision := Some (pr_SpecRevision p) |> in
  _ ← InsertChangeSet world changes change;
  _ ← recordAuditEvent world actor pid reassess_audit id
        {[ "reassessed_from_id" := ch_ID stale; "reverses_change_set_id" := ch_ReversesChangeSetID change;
           "outcome" := "already_satisfied"; "reason" := ch_Reason change;
           "base_context_revision" := pretty (pr_CurrentContextRevision p); "target_context_revision" := pretty (pr_CurrentContextRevision p);
           "base_spec_revision" := pretty (pr_SpecRevision p); "target_spec_revision" := pretty (pr_SpecRevision p) ]};
  mret change.

Definition successor_write (ctx : Context X) (actor : Actor) (pid : string) (p : Project) (stale : ChangeSet)
  (fields : list ChangeFieldDelta) (upgrade : option TemplateUpgrade) (chapters : list string) : RM ChangeSet :=
  impacts ← rm_traverse (affected_chapter checks changes pid (if is_nil upgrade then field_reason else upgrade_reason)) chapters;
  '(id, now) ← here (fun w => mret (wd_uuid world w, wd_now world w));
  plan ← ReassessSemanticPlan ctx actor p id stale;
  let change := (on_basis actor pid id ChangeSetStatusAssessed (ch_Reason stale) p now)
                  <| ch_ReassessedFromID := ch_ID stale |> <| ch_ReversesChangeSetID := ch_ReversesChangeSetID stale |>
                  <| ch_Fields := fields |> <| ch_Impacts := impacts |> <| ch_TemplateUpgrade := upgrade |>
                  <| ch_SemanticDeltas := plan |> in
  _ ← AssessChangeImpact world checks p change;
  _ ← InsertChangeSet world changes change;
  _ ← record_change world actor pid reassess_audit id
        {[ "reassessed_from_id" := ch_ID stale; "reverses_change_set_id" := ch_ReversesChangeSetID change;
           "base_context_revision" := pretty (ch_BaseContextRevision change); "base_spec_revision" := pretty (ch_BaseSpecRevision change);
           "fields" := detail (sanitizedChangeFields (ch_Fields change)); "impacts" := detail (AnyImpacts (ch_Impacts change)) ]} (ch_Reason change) (ch_CreatedAt change);
  mret change.

Definition reassess_write (ctx : Context X) (actor : Actor) (pid changeID : string) (p : Project) : RM ChangeSet :=
  _ ← refuse_if (negb (pr_Status p =? "active")%string || some (pr_DiscardedAt p) || (pr_CurrentContextRevision p <? 1)) ErrInvalidState;
  found ← Store_ChangeSet world checks pid changeID;
  _ ← refuse_if (negb (ChangeSetStatusCanMove "reassess" (ch_Status found))) ErrInvalidState;
  stale ← reversal_of actor p found;
  _ ← map_error field_proposal_incompatible (returned (validateChangeTemplateFields reader p (ch_Fields stale)));
  match outstanding p (ch_Fields stale) with
  | None => fail ErrVersionConflict
  | Some fields =>
      match ch_TemplateUpgrade stale with
      | Some upgrade =>
          '(upgrade, ids) ← upgrade_again ctx actor pid p stale upgrade;
          successor_write ctx actor pid p stale fields (Some upgrade) ids
      | None =>
          if negb (nonempty fields) && negb (nonempty (ch_SemanticDeltas stale)) then satisfied_write actor pid p stale
          else successor_write ctx actor pid p stale fields None
                 (Compact (merge_sort string_le (ci_ChapterID <$> ch_Impacts stale)))
      end
  end.

(** ** The inverse of an applied change set ([semantic_delta_inverse.go], [change_inverse_operation.go]) *)

Definition inverse_of (p : Project) (delta : SemanticDelta) : RM SemanticDelta :=
  current ← currentSemanticValue world checks p delta;
  version ← parsed_version (ref_Version (cs_Ref current)) ErrSyntax;
  _ ← refuse_if (negb (inverse_due delta version)) ErrVersionConflict;
  let kind := sd_Kind delta in
  let inverse := delta_on kind (sd_TargetID delta) version in
  if (kind =? "RouteNode")%string then
    before ← of_result (cp_decode changes kind (sd_Before delta));
    match before, sd_ProposedRoute delta with
    | AnyNode before, Some proposed => mret (inverse <| sd_ProposedRoute := Some (restored_node before proposed) |>)
    | AnyNode before, None =>
        if rn_Version before =? 0 then fail nil_dereference else mret (inverse <| sd_ProposedRoute := Some before |>)
    | _, _ => fail ErrInvalidRequest
    end
  else if (kind =? "RouteEdge")%string then
    before ← of_result (cp_decode changes kind (sd_Before delta));
    match before, sd_ProposedEdge delta with
    | AnyRouteEdge before, Some proposed => mret (inverse <| sd_ProposedEdge := Some (restored_edge before proposed) |>)
    | AnyRouteEdge before, None =>
        if re_Version before =? 0 then fail nil_dereference else mret (inverse <| sd_ProposedEdge := Some before |>)
    | _, _ => fail ErrInvalidRequest
    end
  else of_result (cp_inverse_proposal changes delta (cs_Body current) inverse).

Definition BuildInverseSemanticDeltas (p : Project) (change : ChangeSet) : RM (list SemanticDelta) :=
  rm_traverse (inverse_of p) (ch_SemanticDeltas change).

(** The request and the plan an upgrade is undone with. *)
Definition inverse_upgrade (ctx : Context X) (actor : Actor) (p : Project) (source : ChangeSet)
  : RM (option TemplateUpgradeInput * option inverseTemplatePlan) :=
  match ch_TemplateUpgrade source with
  | None => mret (None, None)
  | Some upgrade =>
      restores ← (if nonempty (tu_ArchivedRemovals upgrade)
                  then refs ← of_result (activeArchiveRestoreReferences source);
                       _ ← on_tables (cp_restores changes ctx actor p source refs);
                       mret refs
                  else mret []);
      '(requested, definition) ← on_tables (cp_inverse_upgrade changes ctx actor p source);
      mret (Some requested,
            Some {| vp_SourceID := ch_ID source; vp_Definition := definition; vp_ArchiveRestores := restores |})
  end.

Definition inverse_write (ctx : Context X) (actor : Actor) (pid changeID : string) (p : Project) : RM ChangeSet :=
  source ← inverseSourceAccess world checks p actor changeID;
  semantic ← BuildInverseSemanticDeltas p source;
  _ ← refuse_if (negb (still_applied p (ch_Fields source))) ErrVersionConflict;
  '(upgrade, plan) ← inverse_upgrade ctx actor p source;
  if nonempty semantic then
    _ ← refuse_if (some (upgrade : option TemplateUpgradeInput)) ErrInvalidRequest;
    let draft := inverse_draft p source semantic in
    _ ← returned (validateExtendedChangeInput draft);
    create_draft world checks ports changes ctx actor pid (ch_ID source) draft p
  else
    let create := inverse_create p source upgrade in
    _ ← returned (validateChangeSetInput create);
    create_assessed world checks ports changes ctx actor pid (ch_ID source) plan create p.
End Inverse.
