(* ===== verification/ChangeService.v ===== *)
(** The operations on change sets: what each checks and prepares, the sources it
    re-authorizes, and its business write under the pipeline
    ([src/internal/lingdoc/workspacecore/{service_facade,impact_service,impact_source_operation,context_revision,change_inverse_operation,change_inverse_lineage}.go]). *)

From stdpp Require Import pretty sorting.
From Stdlib Require Import Ascii String.
From S2P Require Import Prelude Effects OperationCore OperationStore OperationTheorems Workspace Permission MemberStore Membership OperationRunner RoadmapModel RoadmapStore RouteObjects Templates Roadmap ImpactStore Lineage Assessment Stabilization Impact ImpactService FaultInjection ChangeStore ChangeDrafts ChangeApply ChangeInverse.

Definition ErrChangeSetNotAssessed : error := Wrapped "change_set_not_assessed" ErrInvalidState.

(** A change set as a payload describes it, before there is one. *)
Definition rebuilt (pid : string) (fields : gmap string ChangeFieldInput) (deltas : list SemanticDelta) (impacts : list ChangeImpact)
  : ChangeSet :=
  blank_change <| ch_ProjectID := pid |> <| ch_Fields := field_deltas fields |> <| ch_SemanticDeltas := deltas |>
    <| ch_Impacts := impacts |>.

Definition bare_upgrade : TemplateUpgrade :=
  {| tu_BaseTemplateCopyVersion := 0; tu_Definition := ""; tu_FieldValues := ∅; tu_ArchivedRemovals := []; tu_ArchiveRestores := [];
     tu_Preview := "" |}.

(** A delta without what the server pins. *)
Definition unpinned (delta : SemanticDelta) : SemanticDelta :=
  delta <| sd_Before := "" |> <| sd_BeforeHash := "" |> <| sd_ProvenanceHash := "" |> <| sd_SourceIDs := [] |>.

(** [ownerDecisionOperation] *)
Definition owner_decision (actor : Actor) (p : Project) : option error :=
  when negb (projectOwner p (ac_UserID actor)) return Some ErrNotFound;
  when negb (pr_Status p =? "active")%string || some (pr_DiscardedAt p) return Some ErrInvalidState;
  None.

Section Service.
Context {X : Type} `{Digester roadmap_any}.
Variable world : World X.
Variable checks : Checks.
Variable ports : ImpactPorts X.
Variable changes : ChangePorts X.
Abbreviation service := (wd_service world).
Abbreviation db := (sv_db (wd_service world)).

(** ** The sources of each operation ([impact_source_operation.go]) *)

Abbreviation contribution := (list ObjectVersionRef * list string)%type.

Definition chapterImpacts (pid : string) (ids : list string) : RM (list ChangeImpact) :=
  rm_traverse (fun id =>
    version ← on_tables (ck_chapter_version checks pid id);
    mret {| ci_ChapterID := id; ci_ChapterVersionID := version; ci_Title := ""; ci_Reason := ""; ci_Status := "" |}) ids.

Definition assessRebuiltChange (p : Project) (change : ChangeSet) : RM contribution :=
  ids ← semanticSourceIDs world checks ports p (ch_SemanticDeltas change);
  assessed ← assessedSourceIDs world checks p change;
  mret ([], ids ++ assessed).

Definition resolveChangeSetPayload (input : CreateChangeSetInput) (_ : string) (p : Project) : RM contribution :=
  chapters ← (if some (xc_TemplateUpgrade input) then on_tables (cp_chapters changes (pr_ID p)) else mret (xc_AffectedChapterIDs input));
  impacts ← chapterImpacts (pr_ID p) chapters;
  assessRebuiltChange p
    ((rebuilt (pr_ID p) (xc_Fields input) [] impacts)
       <| ch_TemplateUpgrade := if some (xc_TemplateUpgrade input) then Some bare_upgrade else None |>).

Definition resolveChangeDraftPayload (input : ExtendedChangeSetInput) (_ : string) (p : Project) : RM contribution :=
  impacts ← chapterImpacts (pr_ID p) (xd_AffectedChapterIDs input);
  assessRebuiltChange p (rebuilt (pr_ID p) (xd_Fields input) (unpinned <$> xd_SemanticDeltas input) impacts).

(** A delta at the version its object has now. *)
Definition refreshed (p : Project) (delta : SemanticDelta) : RM SemanticDelta :=
  value ← currentSemanticValue world checks p delta;
  version ← parsed_version (ref_Version (cs_Ref value)) ErrInvalidState;
  mret (delta <| sd_ExpectedVersion := version |> <| sd_BeforeHash := "" |>).

Definition resolveStoredChangeSet (semantic chapters : bool) (id : string) (p : Project) : RM contribution :=
  change ← Store_ChangeSet world checks (pr_ID p) id;
  ids ← semanticSourceIDs world checks ports p (ch_SemanticDeltas change);
  deltas ← (if semantic then rm_traverse (refreshed p) (ch_SemanticDeltas change) else mret (ch_SemanticDeltas change));
  impacts ← (if chapters then chapterImpacts (pr_ID p) (ci_ChapterID <$> ch_Impacts change) else mret (ch_Impacts change));
  assessed ← assessedSourceIDs world checks p (change <| ch_SemanticDeltas := deltas |> <| ch_Impacts := impacts |>);
  mret ([], ids ++ assessed).

Definition apply_allowed (change : ChangeSet) : bool :=
  ChangeSetApplyAnswered (ch_Status change) || ChangeSetStatusCanMove "apply" (ch_Status change).

Definition resolveApplyChangeSet (id : string) (p : Project) : RM contribution :=
  change ← Store_ChangeSet world checks (pr_ID p) id;
  ids ← semanticSourceIDs world checks ports p (ch_SemanticDeltas change);
  _ ← refuse_if (negb (apply_allowed change)) ErrInvalidState;
  assessment ← map_error (fun err => if errors_Is err ErrNotFound then ErrChangeSetNotAssessed else err)
                 (Store_ImpactAssessment world (pr_ID p) (ch_ID change));
  mret (os_Ref <$> ia_Objects assessment, ids ++ mjoin (os_SourceIDs <$> ia_Objects assessment)).

(** The sources of a source and of the inverse that was answered for it
    ([reverseChangeSetSources]). *)
Definition impact_chapter_sources (pid : string) (impact : ChangeImpact) : RM (list string) :=
  current ← on_tables (cp_chapter_sources changes pid (ci_ChapterID impact));
  frozen ← match ci_ChapterVersionID impact with
           | Some version => on_tables (cp_version_sources changes pid (ci_ChapterID impact) version)
           | None => mret []
           end;
  mret (current ++ frozen).

Definition change_sources (p : Project) (change : ChangeSet) : RM (list string) :=
  semantic ← semanticSourceIDs world checks ports p (ch_SemanticDeltas change);
  chapters ← rm_collect (impact_chapter_sources (pr_ID p)) (ch_Impacts change);
  mret (semantic ++ chapters).

Definition answered_inverse (p : Project) (source : ChangeSet) (previous : Result) : RM ChangeSet :=
  saved ← of_result (cp_saved changes previous);
  _ ← refuse_if (negb (ch_ProjectID saved =? pr_ID p)%string || negb (ch_ReversesChangeSetID saved =? ch_ID source)%string
                 || (ch_ID saved =? "")%string) ErrInvalidState;
  mret saved.

Definition reverseChangeSetSources (actor : Actor) (pid sourceID : string) (previous : Result) (found : bool) : RM (list string) :=
  p ← on_tables (Gorm_Project db (ac_TenantID actor) pid);
  source ← inverseSourceAccess world checks p actor sourceID;
  saved ← (if found then saved ← answered_inverse p source previous; mret [saved] else mret []);
  ids ← rm_collect (change_sources p) (source :: saved);
  mret (sortedImpactSourceIDs ids).

(** ** The operations *)

Abbreviation raw := (string * Z * bool)%type.

Definition prepared (ctx : Context X) (actor : Actor) (name target pid : string) (body : roadmap_any) : RM (Context X) :=
  on_tables (prepareProvenanceOperation service pid ctx
    {| id_Actor := actor; id_Operation := name; id_Target := target; id_Key := "" |} body).

(** [runOperation] of a [sourceOperationInput] whose sources [impactSourceDecoder]
    finds, after the access to the source an inverse names. *)
Definition run_sourced (check : option (Project -> option error)) (ctx : Context X) (actor : Actor) (name target pid key : string)
  (body : roadmap_any) (action : string) (access : RM unit) (resolver : string -> Project -> RM contribution)
  (write : Project -> RM (ChangeSet * Z)) : RM raw :=
  run_checked world check ctx actor name target key body (project_request actor pid action)
    (Some (fun _ _ => _ ← access; OperationSourceIDs world checks resolver target pid))
    (fun p => '(change, status) ← write p; mret (AnyChange change, "", status)).

Definition created (write : Project -> RM ChangeSet) (p : Project) : RM (ChangeSet * Z) :=
  change ← write p; mret (change, OperationStatusCreated).
Definition answered (write : Project -> RM ChangeSet) (p : Project) : RM (ChangeSet * Z) :=
  change ← write p; mret (change, OperationStatusOK).

Definition change_body (name changeID : string) : roadmap_any := AnyStrings [(name, changeID)].

Definition CreateChangeSet (ctx : Context X) (actor : Actor) (pid key : string) (input : CreateChangeSetInput) : RM raw :=
  _ ← returned (validateChangeSetInput input);
  let body := AnyCreateInput input in
  let removes := match xc_TemplateUpgrade input with Some upgrade => nonempty (ui_ArchivedRemovals upgrade) | None => false end in
  ctx ← (if removes then prepared ctx actor "createChangeSet" pid pid body else mret ctx);
  run_sourced None ctx actor "createChangeSet" pid pid key body "write" (source_access world checks actor pid (xc_ReversesChangeSetID input))
    (resolveChangeSetPayload input)
    (created (create_assessed world checks ports changes ctx actor pid "" None input)).

(** [impact_service.go] *)
Definition Service_CreateChangeDraft (ctx : Context X) (actor : Actor) (pid key : string) (input : ExtendedChangeSetInput) : RM raw :=
  _ ← returned (validateExtendedChangeInput input);
  run_sourced None ctx actor "createChangeDraft" pid pid key (AnyDraftInput input) "write" (mret tt) (resolveChangeDraftPayload input)
    (created (create_draft world checks ports changes ctx actor pid "" input)).

Definition EditChangeDraft (ctx : Context X) (actor : Actor) (pid changeID key : string) (input : ExtendedChangeSetInput) : RM raw :=
  _ ← returned (validateExtendedChangeInput input);
  let name := "editChangeDraft" in
  let target := pid +:+ "/" +:+ changeID in
  let body := AnyDraftInput input in
  '(ctx, cached) ← on_tables (prepareCachedChangeOperation service (project_request actor pid "write") ctx
      {| id_Actor := actor; id_Operation := name; id_Target := target; id_Key := key |} body);
  ctx ← (if (cached : bool) then mret ctx else prepared ctx actor name target pid body);
  run_sourced None ctx actor name target pid key body "write" (inverseOperationAccess world checks actor pid target)
    (resolveChangeDraftPayload input)
    (answered (edit_write world checks ports changes ctx actor pid changeID input)).

(** The state machine decides before the sources are read. *)
Definition checkChangeSetApplyState (pid changeID : string) : RM unit :=
  transaction world tt read_only
    (change ← Store_ChangeSet world checks pid changeID;
     refuse_if (negb (apply_allowed change)) ErrInvalidState).

Definition ApplyChangeSet (ctx : Context X) (actor : Actor) (pid changeID key : string) : RM raw :=
  _ ← refuse_if (blank changeID) ErrInvalidRequest;
  _ ← RequireHuman ctx;
  _ ← on_tables (OwnerFreezeRefusal service actor pid);
  _ ← on_tables (Service_Authorize service ctx actor pid "manage");
  _ ← checkChangeSetApplyState pid changeID;
  let target := pid +:+ "/" +:+ changeID in
  let body := change_body "change_set_id" changeID in
  ctx ← prepared ctx actor "applyChangeSet" target pid body;
  run_sourced (Some (owner_decision actor)) ctx actor "applyChangeSet" target pid key body "manage" (mret tt) resolveApplyChangeSet
    (apply_write world checks ports changes ctx actor pid changeID).

Definition ReassessChangeSet (ctx : Context X) (actor : Actor) (pid changeID key : string) : RM raw :=
  _ ← refuse_if (blank changeID) ErrInvalidRequest;
  let target := pid +:+ "/" +:+ changeID in
  let body := change_body "source_change_set_id" changeID in
  ctx ← prepared ctx actor "reassessChangeSet" target pid body;
  run_sourced None ctx actor "reassessChangeSet" target pid key body "write" (inverseOperationAccess world checks actor pid target)
    (resolveStoredChangeSet true true)
    (created (reassess_write world checks ports changes ctx actor pid changeID)).

Definition RejectChangeSet (ctx : Context X) (actor : Actor) (pid changeID key : string) : RM raw :=
  _ ← refuse_if (blank changeID) ErrInvalidRequest;
  _ ← on_tables (OwnerFreezeRefusal service actor pid);
  run_checked world (Some (owner_decision actor)) ctx actor "rejectChangeSet" (pid +:+ "/" +:+ changeID) key
    (change_body "change_set_id" changeID) (project_request actor pid "manage") None
    (fun p => change ← reject_write world checks actor pid changeID p; mret (AnyChange change, "", OperationStatusOK)).

Definition ReverseChangeSet (ctx : Context X) (actor : Actor) (pid changeID key : string) : RM raw :=
  _ ← refuse_if (blank changeID) ErrInvalidRequest;
  _ ← RequireHuman ctx;
  let target := pid +:+ "/" +:+ changeID in
  let body := change_body "source_change_set_id" changeID in
  ctx ← prepared ctx actor "reverseChangeSet" target pid body;
  run_checked world None ctx actor "reverseChangeSet" target key body (project_request actor pid "manage")
    (Some (reverseChangeSetSources actor pid changeID))
    (fun p => change ← inverse_write world checks ports changes ctx actor pid changeID p;
              mret (AnyChange change, "", OperationStatusCreated)).
End Service.
