(* ===== verification/ChangeLaws.v ===== *)
(** What the writes on change sets leave alone: of everything they do but the
    statements on change sets and on the project's row, neither the change sets
    nor the rows of projects see anything. *)

From stdpp Require Import pretty sorting.
From S2P Require Import Prelude Effects OperationCore OperationStore OperationTheorems OperationEffect Workspace Permission PermissionTheorems MemberStore MemberLaws Membership MembershipLaws OperationRunner RunnerLaws RoadmapModel RoadmapStore RouteObjects Templates Roadmap RoadmapLaws RoadmapHistory RoadmapSound RoadmapCommit RoadmapSteps RouteLaws ImpactStore ImpactStoreLaws Lineage Assessment AssessmentLaws Stabilization StabilizationSteps Impact ImpactService FaultInjection ImpactLaws ImpactWrites ImpactMoves ImpactRaising ChangeStore ChangeDrafts ChangeApply ChangeInverse ChangeService.

(** ** The parts of the program outside change sets

    Those that answer a question only read; those that write (provenance, the
    fields of agents, archives, template copies, confirmations) leave the rows
    of projects alone. *)

Class ChangePortLaws {X} (world : World X) (ports : ImpactPorts X) (changes : ChangePorts X) := {
  batch_reads p deltas : reads (ip_card_batch ports p deltas);
  sources_reads p delta : reads (ip_delta_sources ports p delta);
  invalidate_rows pid ids : keeps tb_projects (ip_invalidate ports pid ids);
  preflight_rows recheck ctx actor pid id : ip_preflight ports = Some recheck -> keeps tb_projects (recheck ctx actor pid id);
  project_rows ctx actor pid : keeps tb_projects (ip_project ports ctx actor pid);
  hints_rows change p target : keeps tb_projects (ip_hints ports change p target);
  snapshot_rows p : keeps tb_projects (wd_provenance world p);
  objects_rows actor before next reason delta : keeps tb_projects (wd_apply world actor before next reason delta);
  chapters_reads pid : reads (cp_chapters changes pid);
  chapter_sources_reads pid id : reads (cp_chapter_sources changes pid id);
  version_sources_reads pid id version : reads (cp_version_sources changes pid id version);
  template_rows ctx actor p : keeps tb_projects (cp_resolve_template changes ctx actor p);
  proposal_reads p delta : reads (cp_proposal changes p delta);
  has_history_reads pid id : reads (cp_has_history changes pid id);
  put_history_rows change snapshot : keeps tb_projects (cp_put_history changes change snapshot);
  agent_fields_rows ctx p change input : keeps tb_projects (cp_agent_fields changes ctx p change input);
  agent_edit_rows ctx p old next input : keeps tb_projects (cp_agent_edit changes ctx p old next input);
  definition_rows ctx actor p requested plan : keeps tb_projects (cp_definition changes ctx actor p requested plan);
  recheck_rows ctx actor upgrade : keeps tb_projects (cp_recheck changes ctx actor upgrade);
  removals_rows ctx actor p definition values refs : keeps tb_projects (cp_removals changes ctx actor p definition values refs);
  restores_rows ctx actor p source refs : keeps tb_projects (cp_restores changes ctx actor p source refs);
  mark_removed_rows actor p next records : keeps tb_projects (cp_mark_removed changes actor p next records);
  copy_rows actor pid version definition : keeps tb_projects (cp_copy changes actor pid version definition);
  policy_rows actor p change copy : keeps tb_projects (cp_policy changes actor p change copy);
  policy_basis_rows actor p change : keeps tb_projects (cp_policy_basis changes actor p change);
  inherit_rows ctx actor change p : keeps tb_projects (cp_inherit changes ctx actor change p);
  bind_rows actor p overrides : keeps tb_projects (cp_bind changes actor p overrides);
  inverse_upgrade_rows ctx actor p source : keeps tb_projects (cp_inverse_upgrade changes ctx actor p source);
  audit_writer write event : cp_business_audit changes = Some write ->
    write event = on_tables (RecordAudit (sv_db (wd_service world)) event) \/ exists err, write event = fail err;
  task_writer : delivering world (ip_writer ports)
}.

#[export] Hint Resolve batch_reads sources_reads chapters_reads chapter_sources_reads version_sources_reads proposal_reads
  has_history_reads : effects.

(** What the frames below observe: the change sets, and the rows of projects. *)
Definition still (w : roadmap) := (rm_changes w, tb_projects (rm_tables w)).

Lemma still_changes w w' : still w' = still w -> rm_changes w' = rm_changes w.
Proof. intros E. exact (f_equal fst E). Qed.
Lemma still_rows w w' : still w' = still w -> tb_projects (rm_tables w') = tb_projects (rm_tables w).
Proof. intros E. exact (f_equal snd E). Qed.

Lemma still_reads {A} (m : RM A) : reads m -> keeps still m.
Proof. intros R w. by rewrite (reads_run m w R). Qed.

Lemma still_tables {A} (m : T A) : keeps tb_projects m -> keeps still (on_tables m).
Proof. intros K w. unfold on_tables, still. specialize (K (rm_tables w)). destruct (m (rm_tables w)) as [t r]. by apply (f_equal (pair (rm_changes w))). Qed.

Lemma still_asks {A} (m : T A) : reads m -> keeps still (on_tables m).
Proof. intros R. by apply still_reads, reads_on_tables. Qed.

Lemma undisturbed_rows {A} (m : T A) : calm undisturbed m -> keeps tb_projects m.
Proof. intros C w. apply (meq_projects _ _ (und_membership _ _ (C w))). Qed.

Lemma reads_rows {A} (m : T A) : reads m -> keeps tb_projects m.
Proof. intros R w. by rewrite (reads_run m w R). Qed.

Lemma keeps_of_result {A V} (I : roadmap -> V) (r : res error A) : keeps I (of_result r).
Proof. destruct r; [apply keeps_ret|apply keeps_fail]. Qed.

Lemma keeps_returned {V} (I : roadmap -> V) o : keeps I (returned o : RM unit).
Proof. by intros w; destruct o. Qed.

Lemma keeps_proposed {A V} (I : roadmap -> V) (o : option A) f : (forall a, keeps I (f a)) -> keeps I (proposed o f).
Proof. intros K. destruct o; [apply K|apply keeps_fail]. Qed.

#[export] Hint Resolve still_reads still_tables still_asks undisturbed_rows keeps_of_result keeps_returned keeps_proposed
  keeps_here keeps_rm_each keeps_rm_traverse : effects.

Section Frames.
Context {X : Type} `{Digester roadmap_any} (world : World X) `{!WorldLaws world} (checks : Checks) `{!ChecksLaws checks}
  (ports : ImpactPorts X) (changes : ChangePorts X) `{!ChangePortLaws world ports changes}.
Abbreviation db := (sv_db (wd_service world)).

Lemma still_put {B} (get : roadmap -> records B) put pid key version value : (forall w t, still (put t w) = still w) ->
  keeps still (insertVersionedRecord world get put pid key version value).
Proof. apply keeps_insert_record. Qed.

Lemma still_swap {B} (get : roadmap -> records B) put pid key version value : (forall w t, still (put t w) = still w) ->
  keeps still (compareAndSwapVersionedRecord world get put pid key version value).
Proof. apply keeps_swap_record. Qed.

Lemma audit_rows event : keeps tb_projects (RecordAudit db event).
Proof. apply undisturbed_rows, calm_record_audit. Qed.

Lemma still_audit actor pid action target details : keeps still (recordAuditEvent world actor pid action target details).
Proof. apply keeps_here. intros w. apply still_tables, audit_rows. Qed.

Lemma still_record actor pid action target details reason now : keeps still (record_change world actor pid action target details reason now).
Proof. apply keeps_here. intros w. apply still_tables, audit_rows. Qed.

Lemma reads_project_for_impact pid :
  reads (row ← map_error storageError (take db "select lingdoc_projects" (fun w => tb_projects w !! pid)); projectView db pid row).
Proof.
  unfold projectView. apply keeps_bind; [by apply keeps_map_error, keeps_take|]. intros row.
  apply keeps_bind; [apply keeps_of_res|]. intros [spec fields]. apply keeps_bind; [apply keeps_query|]. intros _.
  apply keeps_bind; [by apply keeps_map_error, keeps_query|]. intros members.
  apply keeps_bind; [by intros w|]. intros copy. apply keeps_ret.
Qed.

(** ** Proposals and plans *)

Lemma reads_route_proposal p id node : reads (route_proposal world p id node).
Proof.
  unfold route_proposal. do 2 (apply keeps_bind; [apply keeps_refuse_if|intros _]). apply keeps_rm_each. intros ref.
  apply keeps_bind; [apply keeps_refuse_if|intros _]. apply keeps_bind; [by apply reads_current_object|intros; apply keeps_ret].
Qed.

Lemma reads_edge_proposal p edge : reads (edge_proposal world p edge).
Proof.
  unfold edge_proposal. apply keeps_bind; [apply keeps_refuse_if|intros _]. apply keeps_rm_each. intros id.
  apply keeps_bind; [by apply reads_node|intros; apply keeps_ret].
Qed.

Lemma reads_proposal p delta : reads (validateSemanticProposal world changes p delta).
Proof.
  unfold validateSemanticProposal. apply keeps_bind; [apply keeps_refuse_if|intros _].
  destruct (_ || _); [by apply reads_on_tables, proposal_reads|].
  do 2 (destruct (_ =? _)%string; [apply keeps_proposed; intros; keep_frame|]).
  destruct (_ =? _)%string; apply keeps_proposed; intros; [apply reads_route_proposal|apply reads_edge_proposal].
Qed.

Lemma reads_proposal_inputs p (node : option RouteNode) :
  reads (match node with Some node => rm_collect (current_sources world p) (rn_Inputs node) | None => mret [] end).
Proof. destruct node; [|apply keeps_ret]. apply reads_collect. intros. by apply reads_current_sources. Qed.

Lemma reads_expected p delta : reads (expected_value world checks p delta).
Proof.
  unfold expected_value. apply keeps_bind; [by apply reads_semantic_value|intros value].
  apply keeps_bind; [apply keeps_refuse_if|intros; apply keeps_ret].
Qed.

Lemma authorize_rows ctx request : keeps tb_projects (service_authorizeProject (wd_service world) ctx request).
Proof. apply undisturbed_rows, authorizeProject_calm; apply _. Qed.

Lemma still_pin ctx actor p delta : keeps still (pin world checks ports changes ctx actor p delta).
Proof.
  unfold pin. apply keeps_bind; [by apply still_tables, authorize_rows|intros _].
  apply keeps_bind; [destruct (_ =? _)%string; [by apply still_tables, template_rows|apply keeps_ret]|intros _].
  apply keeps_bind; [apply still_reads, reads_expected|intros value].
  apply keeps_bind; [apply still_reads, reads_proposal|intros _].
  apply keeps_bind; [apply still_asks, sources_reads|intros named].
  apply keeps_bind; [apply still_reads, reads_proposal_inputs|intros; apply keeps_ret].
Qed.

Lemma still_pin_each ctx actor p seen deltas : keeps still (pin_each world checks ports changes ctx actor p seen deltas).
Proof.
  revert seen. induction deltas as [|delta deltas IH]; intros seen; cbn; [apply keeps_ret|].
  apply keeps_bind; [apply keeps_refuse_if|intros _]. apply keeps_bind; [apply still_pin|intros first].
  apply keeps_bind; [apply IH|intros; apply keeps_ret].
Qed.

Lemma still_plan pid id plan : keeps still (SaveSemanticPlan world pid id plan).
Proof.
  unfold SaveSemanticPlan. apply keeps_bind; [by apply still_reads, keeps_attempt, reads_row|].
  intros [row|e]; [by apply still_swap|]. case_decide; [by apply still_put|apply keeps_fail].
Qed.

Lemma still_pins ctx actor p id deltas : keeps still (PinSemanticDeltas world checks ports changes ctx actor p id deltas).
Proof.
  unfold PinSemanticDeltas. apply keeps_bind; [apply still_asks, batch_reads|intros _].
  apply keeps_bind; [apply still_pin_each|intros pinned]. apply keeps_bind; [apply still_plan|intros; apply keeps_ret].
Qed.

Lemma reads_validate p deltas : reads (ValidateSemanticDeltas world checks ports changes p deltas).
Proof.
  unfold ValidateSemanticDeltas. apply keeps_bind; [apply reads_on_tables, batch_reads|intros _]. apply keeps_rm_each. intros delta.
  unfold still_pinned. apply keeps_bind; [apply keeps_refuse_if|intros _]. apply keeps_bind; [by apply reads_semantic_value|intros value].
  apply keeps_bind; [apply keeps_refuse_if|intros _]. apply reads_proposal.
Qed.

(** ** Applying deltas *)

Lemma still_append old node : keeps still (AppendRouteNode world old node).
Proof.
  unfold AppendRouteNode. apply keeps_bind; [apply keeps_refuse_if|intros _]. apply keeps_bind; [by apply still_put|intros _].
  destruct (_ =? _); [by apply still_put|by apply still_swap].
Qed.

Lemma still_dependency edge : keeps still (StoreConfirmedDependency world edge).
Proof.
  unfold StoreConfirmedDependency, PutDependencyEdge. apply keeps_bind; [apply keeps_refuse_if|intros _].
  apply keeps_bind; [by apply still_reads, reads_list|intros edges]. destruct (existsb _ _); [apply keeps_ret|].
  apply keeps_here. intros w. by apply still_put.
Qed.

Lemma still_apply_delta actor before next reason delta : keeps still (apply_delta world actor before next reason delta).
Proof.
  unfold apply_delta. apply keeps_bind; [|intros _; apply still_audit].
  destruct (_ =? _)%string; [|destruct (_ =? _)%string; [|by apply still_tables, objects_rows]].
  - unfold apply_route_node. apply keeps_bind; [by apply still_reads, reads_found_or_new, reads_node|intros old].
    destruct (sd_ProposedRoute delta); [|apply keeps_fail]. apply keeps_here. intros w.
    apply keeps_bind; [apply still_append|intros _]. apply keeps_rm_each. intros ref. apply still_dependency.
  - unfold apply_route_edge. apply keeps_bind; [by apply still_reads, reads_found_or_new, reads_edge|intros old].
    destruct (sd_ProposedEdge delta); [|apply keeps_fail]. apply keeps_here. intros w. apply keeps_rm_statement. intros w0.
    by destruct (rm_edges w0 !! _).
Qed.

Lemma reads_human (ctx : Context X) : reads (RequireHuman ctx).
Proof. intros w. unfold RequireHuman. by destruct (RequireHumanDecision _ _). Qed.

Lemma still_deltas ctx actor before next change : keeps still (ApplySemanticDeltas world checks ports changes ctx actor before next change).
Proof.
  unfold ApplySemanticDeltas. apply keeps_bind; [apply still_reads, reads_human|intros _].
  apply keeps_bind; [apply keeps_refuse_if|intros _]. apply keeps_bind; [apply still_reads, reads_validate|intros _].
  apply keeps_bind; [apply keeps_rm_each; intros; apply still_apply_delta|intros _].
  destruct (negb _); [apply keeps_ret|]. apply keeps_bind; [apply keeps_refuse_if|intros _].
  apply keeps_bind; [by apply still_tables, bind_rows|intros; apply keeps_ret].
Qed.

(** ** Assessments, tasks and provenance *)

Lemma still_revision p id : keeps still (recordContextRevisionSnapshot world p id).
Proof.
  unfold recordContextRevisionSnapshot. apply keeps_bind; [by apply still_reads, keeps_attempt, reads_row|].
  intros [row|e]; [apply keeps_refuse_if|]. apply keeps_bind; [apply keeps_refuse_if|intros _].
  apply keeps_bind; [apply still_tables, (snapshot_rows (world := world) (ports := ports) (changes := changes))|intros snapshot].
  apply keeps_here. intros w. by apply still_put.
Qed.

Lemma still_assess p change : keeps still (AssessChangeImpact world checks p change).
Proof.
  unfold AssessChangeImpact. apply keeps_bind; [by apply still_reads, reads_build|intros assessment].
  apply keeps_bind; [apply still_revision|intros _]. unfold SaveImpactAssessment.
  apply keeps_bind; [by apply still_reads, keeps_attempt, reads_row|]. intros [row|e]; [by apply still_swap|].
  case_decide; [by apply still_put|apply keeps_fail].
Qed.

Lemma reads_validate_assessment p change : reads (ValidateChangeImpactAssessment world checks p change).
Proof.
  unfold ValidateChangeImpactAssessment. apply keeps_bind; [by apply reads_assessment|intros old].
  apply keeps_bind; [by apply reads_build|intros current]. apply keeps_refuse_if.
Qed.

Lemma still_insert_task task : keeps still (InsertImpactTask world task).
Proof.
  unfold InsertImpactTask. apply keeps_bind; [by apply still_reads, keeps_attempt, reads_row|]. intros [row|e].
  - destruct (merge_causes _ _) as [causes merged]. destruct (negb merged); [apply keeps_ret|]. apply keeps_here. intros w. by apply still_swap.
  - case_decide; [by apply still_put|apply keeps_fail].
Qed.

Lemma still_write_task tenant task : keeps still (write_task world (ip_writer ports) tenant task).
Proof.
  unfold write_task. destruct (ip_writer ports) as [write|] eqn:E; [|apply still_insert_task]. intros w.
  pose proof (task_writer (world := world) (ports := ports) (changes := changes) write E) as [D].
  destruct (D tenant task w) as [-> | [err ->]]; [apply still_insert_task|done].
Qed.

Lemma still_touched p impacts : keeps still (touched_chapters checks p impacts).
Proof.
  induction impacts as [|impact impacts IH]; cbn; [apply keeps_ret|]. destruct (_ && _); [|exact IH].
  apply keeps_bind; [apply still_asks; auto with effects|intros version]. apply keeps_bind; [exact IH|intros; apply keeps_ret].
Qed.

Lemma still_raise tenant p change : keeps still (commitChangeImpactTasks world checks ports (ip_writer ports) tenant p change).
Proof.
  unfold commitChangeImpactTasks. apply keeps_bind; [by apply still_reads, reads_assessment|intros assessment].
  apply keeps_bind; [apply still_touched|intros chapters].
  apply keeps_bind; [destruct (nonempty chapters); [|apply keeps_ret];
    apply still_tables, (invalidate_rows (world := world) (ports := ports) (changes := changes))|intros _].
  apply keeps_bind; [|intros _; apply still_revision]. apply keeps_rm_each. intros impact. unfold commit_impact.
  destruct (negb _); [apply keeps_ret|]. apply keeps_bind; [by apply still_reads, reads_retarget|intros target]. apply keeps_here. intros w.
  apply keeps_bind; [by apply still_reads, reads_stale_target|intros reason]. apply keeps_bind.
  { destruct (_ =? _)%string; [|apply keeps_ret]. apply still_tables, (hints_rows (world := world) (ports := ports) (changes := changes)). }
  intros hints. apply keeps_bind; [apply still_write_task|intros _]. by apply keeps_rm_statement.
Qed.

Lemma still_provenance change : keeps still (recordChangeProvenance world changes change).
Proof.
  unfold recordChangeProvenance. apply keeps_bind; [apply still_asks, has_history_reads|intros [|]]; [apply keeps_ret|].
  apply keeps_bind; [apply still_tables|intros p].
  { apply reads_rows, reads_project_for_impact. }
  apply keeps_bind; [apply keeps_refuse_if|intros _].
  apply keeps_bind; [apply still_tables, (snapshot_rows (world := world) (ports := ports) (changes := changes))|intros snapshot].
  by apply still_tables, put_history_rows.
Qed.
End Frames.
