(* ===== verification/ChangeWrites.v ===== *)
(** What each write on change sets does to the change sets and to the row of
    its project: one change set is born, or one moves, or nothing. *)

From stdpp Require Import pretty sorting.
From S2P Require Import Prelude Effects OperationCore OperationStore OperationTheorems OperationEffect Workspace Permission PermissionTheorems MemberStore MemberLaws Membership MembershipLaws OperationRunner RunnerLaws RoadmapModel RoadmapStore RouteObjects Templates Roadmap RoadmapLaws RoadmapHistory RoadmapSound RoadmapCommit RoadmapSteps RouteLaws ImpactStore ImpactStoreLaws Lineage Assessment AssessmentLaws Stabilization StabilizationSteps Impact ImpactService FaultInjection ImpactLaws ImpactWrites ImpactMoves ImpactRaising ChangeStore ChangeDrafts ChangeApply ChangeInverse ChangeService ChangeLaws.

(** ** The two statements on change sets *)

Definition rows (w : roadmap) := tb_projects (rm_tables w).

(** A change set is stored, without its deltas, under an id that was free. *)
Definition inserted (c : ChangeSet) (w w' : roadmap) : Prop :=
  rm_changes w !! ch_ID c = None
  /\ still w' = (<[ch_ID c := c <| ch_SemanticDeltas := [] |>]> (rm_changes w), rows w).

(** The row of a change set, still in its project and status, takes what is
    next. *)
Definition moved_to (old next : ChangeSet) (w w' : roadmap) : Prop :=
  exists row, rm_changes w !! ch_ID old = Some row /\ ch_ProjectID row = ch_ProjectID old /\ ch_Status row = ch_Status old
  /\ still w' = (<[ch_ID old := updated_row row next]> (rm_changes w), rows w).

Lemma still_split w w' : still w' = still w <-> rm_changes w' = rm_changes w /\ rows w' = rows w.
Proof. unfold still, rows. split; [intros E; by injection E|]. by intros [-> ->]. Qed.

Lemma inserted_still c w0 w1 w2 w3 : still w1 = still w0 -> inserted c w1 w2 -> still w3 = still w2 -> inserted c w0 w3.
Proof. intros [E1 E2]%still_split [N E] E3. split; [by rewrite <- E1|]. by rewrite E3, E, E1, E2. Qed.

Lemma moved_still old next w0 w1 w2 w3 : still w1 = still w0 -> moved_to old next w1 w2 -> still w3 = still w2 ->
  moved_to old next w0 w3.
Proof.
  intros [E1 E2]%still_split (row & F & Ep & Es & E) E3. exists row. rewrite <- E1, <- E2. split_and!; [done..|]. by rewrite E3.
Qed.

(** One step of a write that neither statement is. *)
Ltac step F name lem := apply bind_ok in F as (? & name & ?S & F);
  match goal with S : _ _ = (_, Ok name) |- _ => apply (keeps_run still) in S; [|lem] end.
Ltac still_eq := repeat match goal with E : still _ = still _ |- _ => rewrite E; clear E end; reflexivity.

Section Writes.
Context {X : Type} `{Digester roadmap_any} (world : World X) `{!WorldLaws world} (checks : Checks) `{!ChecksLaws checks}
  (ports : ImpactPorts X) (changes : ChangePorts X) `{!ChangePortLaws world ports changes}.

Lemma insert_change_ok change w w' u : InsertChangeSet world changes change w = (w', Ok u) -> inserted change w w'.
Proof.
  unfold InsertChangeSet. intros F. apply bind_ok in F as (w1 & u1 & S & F).
  apply (keeps_run still) in S; [|by apply (still_provenance world ports changes)]. apply rm_statement_ok in F.
  destruct (rm_changes w1 !! ch_ID change) eqn:N; [done|]. injection F as <-. apply still_split in S as [E1 E2].
  split; [by rewrite <- E1|]. rewrite <- E1, <- E2. done.
Qed.

Lemma update_change_still old next w w' u : UpdateChangeSet world old next w = (w', Ok u) -> moved_to old next w w'.
Proof.
  unfold UpdateChangeSet. intros F%rm_statement_ok. destruct (rm_changes w !! ch_ID old) as [row|] eqn:Fr; [|done].
  destruct (_ && _) eqn:E; [|done]. injection F as <-. split_bools. by exists row.
Qed.

(** ** Drafts and edits *)

Lemma still_chapter pid reason id : keeps still (affected_chapter checks changes pid reason id).
Proof. unfold affected_chapter. apply keeps_bind; [apply still_asks; auto with effects|intros version]. by apply keeps_here. Qed.

Lemma still_guard p actor (source : string) :
  keeps still (if (source =? "")%string then mret tt else _ ← validateInverseLineage world checks p actor source ""; mret tt).
Proof.
  destruct (_ =? _)%string; [apply keeps_ret|].
  apply keeps_bind; [by apply still_reads, reads_validate_lineage|intros; apply keeps_ret].
Qed.

(** The source an inverse undoes was found free of other live inverses, those
    the new one succeeds aside. *)
Definition guarded (actor : Actor) (p : Project) (w : roadmap) (source from : string) : Prop :=
  source = "" \/ exists w0 found, still w0 = still w /\ validateInverseLineage world checks p actor source from w0 = (w0, Ok found).

Lemma guarded_still actor p w0 w source from : still w0 = still w -> guarded actor p w0 source from -> guarded actor p w source from.
Proof. intros E [G|(w1 & found & E1 & V)]; [by left|]. right. exists w1, found. split; [congruence|done]. Qed.

(** What every new change set is: on the project as it was read, by the
    caller. *)
Record born_on (actor : Actor) (pid : string) (p : Project) (w : roadmap) (c : ChangeSet) : Prop := {
  bn_project : ch_ProjectID c = pid;
  bn_author : ch_CreatedBy c = ac_UserID actor;
  bn_context : ch_BaseContextRevision c = pr_CurrentContextRevision p;
  bn_spec : ch_BaseSpecRevision c = pr_SpecRevision p;
  bn_status : ch_Status c ∈ [ChangeSetStatusDraft; ChangeSetStatusAssessed; ChangeSetStatusSatisfied];
  bn_fields : current_values p (ch_Fields c) = true;
  bn_guard : guarded actor p w (ch_ReversesChangeSetID c) (ch_ReassessedFromID c)
}.

Lemma born_still actor pid p w0 w c : still w0 = still w -> born_on actor pid p w0 c -> born_on actor pid p w c.
Proof. intros E [? ? ? ? ? ? G]. split; [done..|]. by eapply guarded_still. Qed.

(** What a write stores, after steps that leave everything still. *)
Definition stored_on (actor : Actor) (pid : string) (p : Project) (w w' : roadmap) (c : ChangeSet) : Prop :=
  inserted c w w' /\ born_on actor pid p w c.

Lemma stored_still actor pid p w0 w w' c : still w0 = still w -> stored_on actor pid p w0 w' c -> stored_on actor pid p w w' c.
Proof.
  intros E [I B]. split; [by eapply inserted_still|by eapply born_still].
Qed.

Lemma guard_ok p actor source w w' u :
  (if (source =? "")%string then mret tt else _ ← validateInverseLineage world checks p actor source ""; mret tt) w = (w', Ok u) ->
  w' = w /\ (source = "" \/ exists found, validateInverseLineage world checks p actor source "" w = (w, Ok found)).
Proof.
  destruct (source =? "")%string eqn:E; [intros F; injection F as <- _; split_bools; split; [done|by left]|].
  intros (w1 & found & V & F)%bind_ok. injection F as <- _. pose proof V as R.
  apply reads_ok in R as ->; [|by apply reads_validate_lineage]. split; [done|]. right. by exists found.
Qed.

Lemma create_draft_ok ctx actor pid source input p w w' c :
  create_draft world checks ports changes ctx actor pid source input p w = (w', Ok c) ->
  stored_on actor pid p w w' c /\ ch_Status c = ChangeSetStatusDraft /\ ch_ReversesChangeSetID c = source
  /\ ch_Fields c = field_deltas (xd_Fields input) /\ ch_TemplateUpgrade c = None.
Proof.
  unfold create_draft. intros (w1 & u1 & [_ ->]%refuse_if_ok & F)%bind_ok.
  apply bind_ok in F as (w1 & u2 & [-> G]%guard_ok & F).
  step F u3 ltac:(apply keeps_returned). step F a ltac:(by apply keeps_here). destruct a as [id now].
  apply bind_ok in F as (w4 & u4 & [Cv ->]%refuse_if_ok & F). split_bools.
  step F impacts ltac:(apply keeps_rm_traverse; intros; apply still_chapter). step F pinned ltac:(by apply still_pins).
  apply bind_ok in F as (w7 & u7 & I%insert_change_ok & F).
  step F u8 ltac:(by apply still_tables, agent_fields_rows). step F u9 ltac:(by apply still_audit). injection F as <- <-.
  split; [|done]. split; [eapply inserted_still; [|exact I|]; still_eq|]. split; try done; [by left|].
  destruct G as [->|[found V]]; [by left|]. right. by exists w, found.
Qed.

Lemma edit_ok ctx actor pid changeID input p w w' c : edit_write world checks ports changes ctx actor pid changeID input p w = (w', Ok c) ->
  exists old, Store_ChangeSet world checks pid changeID w = (w, Ok old)
  /\ ChangeSetStatusCanMove "editDraft" (ch_Status old) = true
  /\ ch_BaseContextRevision old = pr_CurrentContextRevision p /\ ch_BaseSpecRevision old = pr_SpecRevision p
  /\ (ch_CreatedBy old = ac_UserID actor \/ projectOwner p (ac_UserID actor) = true)
  /\ moved_to old c w w' /\ ch_Status c = ChangeSetStatusDraft /\ current_values p (ch_Fields c) = true.
Proof.
  unfold edit_write. intros (w1 & u1 & [_ ->]%refuse_if_ok & F)%bind_ok.
  apply bind_ok in F as (w2 & old & C & F). pose proof C as R. apply reads_ok in R as ->; [|by apply reads_change].
  apply bind_ok in F as (w3 & u2 & [M ->]%refuse_if_ok & F). apply bind_ok in F as (w3 & u3 & [A ->]%refuse_if_ok & F).
  apply bind_ok in F as (w3 & u4 & [B ->]%refuse_if_ok & F). step F u5 ltac:(apply keeps_returned).
  apply bind_ok in F as (w4 & u6 & [Cv ->]%refuse_if_ok & F). split_bools.
  step F impacts ltac:(apply keeps_rm_traverse; intros; apply still_chapter). step F pinned ltac:(by apply still_pins).
  apply bind_ok in F as (w7 & u7 & U%update_change_still & F).
  step F u8 ltac:(by apply still_tables, agent_edit_rows). step F u9 ltac:(by apply still_audit). injection F as <- <-.
  exists old. split_and!; try done.
  - destruct (ch_CreatedBy old =? ac_UserID actor)%string eqn:Ec; split_bools; [by left|]. right. cbn in A. by apply negb_false_iff in A.
  - eapply moved_still; [|exact U|]; still_eq.
Qed.

(** ** Assessed change sets *)

Lemma still_inverse_creation ctx actor p controlled input :
  keeps still (validateInverseCreation world checks ctx actor p controlled input).
Proof.
  unfold validateInverseCreation. destruct (_ =? _)%string; [apply keeps_ret|].
  apply keeps_bind; [apply still_reads, reads_human|intros _].
  apply keeps_bind; [by apply still_reads, reads_validate_lineage|intros source]. destruct (_ =? _)%string; [apply keeps_ret|apply keeps_refuse_if].
Qed.

Lemma still_plan_upgrade ctx actor pid controlled plan reverses requested p :
  keeps still (plan_upgrade world checks ports changes ctx actor pid controlled plan reverses requested p).
Proof.
  unfold plan_upgrade. do 2 (apply keeps_bind; [apply keeps_refuse_if|intros _]).
  apply keeps_bind; [by apply still_tables, definition_rows|intros definition].
  apply keeps_bind; [by apply still_tables, removals_rows|intros _].
  apply keeps_bind; [|intros restored].
  { unfold restored_fields. destruct plan as [plan|]; [|apply keeps_ret]. destruct (nonempty _); [|apply keeps_ret].
    apply keeps_bind; [by apply still_reads, reads_change|intros source].
    apply keeps_bind; [by apply still_tables, restores_rows|intros [? ?]; apply keeps_ret]. }
  apply keeps_bind; [apply keeps_of_result|intros _]. apply keeps_bind; [by apply still_asks, (chapters_reads (world := world) (ports := ports))|intros chapters].
  apply keeps_bind; [apply keeps_refuse_if|intros _]. by apply keeps_here.
Qed.

Lemma inverse_creation_ok ctx actor p controlled input w w' u :
  validateInverseCreation world checks ctx actor p controlled input w = (w', Ok u) ->
  w' = w /\ (xc_ReversesChangeSetID input = ""
             \/ exists found, validateInverseLineage world checks p actor (xc_ReversesChangeSetID input) "" w = (w, Ok found)).
Proof.
  intros F. pose proof F as K. unfold validateInverseCreation in F. destruct (_ =? _)%string eqn:E.
  { injection F as <- _. split_bools. split; [done|by left]. }
  apply bind_ok in F as (w1 & u1 & Hu & F). apply reads_ok in Hu as ->; [|apply reads_human].
  apply bind_ok in F as (w1 & found & V & F). pose proof V as R. apply reads_ok in R as ->; [|by apply reads_validate_lineage].
  assert (w' = w) as -> by (destruct (controlled =? _)%string; [by injection F as ->|by apply refuse_if_ok in F as [_ ->]]).
  split; [done|]. right. by exists found.
Qed.

Lemma create_assessed_ok ctx actor pid controlled plan input p w w' c :
  create_assessed world checks ports changes ctx actor pid controlled plan input p w = (w', Ok c) ->
  stored_on actor pid p w w' c /\ ch_Status c = ChangeSetStatusAssessed
  /\ ch_ReversesChangeSetID c = xc_ReversesChangeSetID input /\ ch_SemanticDeltas c = []
  /\ ch_Fields c = field_deltas (xc_Fields input).
Proof.
  unfold create_assessed. intros (w1 & u1 & [_ ->]%refuse_if_ok & F)%bind_ok.
  apply bind_ok in F as (w1 & u2 & [_ ->]%refuse_if_ok & F).
  apply bind_ok in F as (w1 & u3 & [-> G]%inverse_creation_ok & F). step F u4 ltac:(apply keeps_returned).
  step F a ltac:(destruct (xc_TemplateUpgrade input); [apply keeps_bind; [apply still_plan_upgrade|intros [? ?]]|]; apply keeps_ret).
  destruct a as [upgrade chapters].
  apply bind_ok in F as (w4 & u5 & [Cv ->]%refuse_if_ok & F). split_bools.
  step F impacts ltac:(apply keeps_rm_traverse; intros; apply still_chapter). unfold here in F.
  step F u6 ltac:(by apply (still_assess world checks ports changes)).
  apply bind_ok in F as (w7 & u7 & I%insert_change_ok & F). step F u8 ltac:(by apply still_record). injection F as <- <-.
  split; [|done]. split; [eapply inserted_still; [|exact I|]; still_eq|]. split; try done; [right; by left|].
  destruct G as [->|[found V]]; [by left|]. right. by exists w, found.
Qed.

(** ** Reassessment *)

Lemma still_reversal actor p stale : keeps still (reversal_of world checks actor p stale).
Proof.
  unfold reversal_of. apply keeps_bind; [by apply still_reads, reads_lineage|intros source].
  destruct (_ =? _)%string; [apply keeps_ret|]. apply keeps_bind; [by apply still_reads, reads_validate_lineage|intros; apply keeps_ret].
Qed.

Lemma still_carry p delta : keeps still (carried_over world checks changes p delta).
Proof.
  unfold carried_over, parsed_version. apply keeps_bind; [by apply still_reads, reads_semantic_value|intros current].
  do 2 (apply keeps_bind; [apply keeps_of_result|intros ?]). apply keeps_bind; [apply keeps_refuse_if|intros _].
  apply keeps_bind; [destruct (ParseInt _); [apply keeps_ret|apply keeps_fail]|intros; apply keeps_ret].
Qed.

Lemma still_replan ctx actor p id stale : keeps still (ReassessSemanticPlan world checks ports changes ctx actor p id stale).
Proof.
  unfold ReassessSemanticPlan. destruct (negb _); [apply keeps_ret|].
  apply keeps_bind; [apply keeps_rm_traverse; intros; apply still_carry|intros deltas]. by apply still_pins.
Qed.

Lemma still_upgrade_again ctx actor pid p stale upgrade :
  keeps still (upgrade_again world checks ports changes ctx actor pid p stale upgrade).
Proof.
  unfold upgrade_again. do 2 (apply keeps_bind; [apply keeps_refuse_if|intros _]). apply keeps_bind.
  { destruct (nonempty _); [|apply keeps_ret]. apply keeps_bind; [by apply still_tables, removals_rows|intros; apply keeps_ret]. }
  intros _. apply keeps_bind; [|intros restored].
  { unfold restored_again. destruct (nonempty _); [|apply keeps_ret].
    apply keeps_bind; [by apply still_reads, reads_change|intros source].
    apply keeps_bind; [by apply still_tables, restores_rows|intros [? ?]].
    apply keeps_bind; [by apply still_tables, policy_basis_rows|intros; apply keeps_ret]. }
  apply keeps_bind; [apply keeps_map_error, keeps_of_result|intros _].
  apply keeps_bind; [by apply still_asks, (chapters_reads (world := world) (ports := ports))|intros chapters].
  apply keeps_bind; [apply keeps_refuse_if|intros _]. by apply keeps_here.
Qed.

(** A change set without a source names none. *)
Lemma sourceless pid change w w' : inverseLineageSource world checks pid change w = (w', Ok "") -> ch_ReversesChangeSetID change = "".
Proof.
  unfold inverseLineageSource, over_changes. intros F.
  destruct (ch_ReversesChangeSetID change =? "")%string eqn:E; [by split_bools|].
  destruct (lineage_source world checks _ pid change ∅ w) as [w1 [[s|]|err]] eqn:G; [| |done];
    cbn [lineage_source] in G; rewrite E in G.
  - injection F as _ ->. apply bind_ok in G as (w2 & u1 & _ & G). apply bind_ok in G as (w3 & inherited & _ & G).
    apply bind_ok in G as (w4 & u2 & _ & G). cbn [negb] in G. apply bind_ok in G as (w5 & u3 & _ & G). by injection G.
  - apply bind_ok in G as (w2 & u1 & _ & G). apply bind_ok in G as (w3 & inherited & _ & G).
    apply bind_ok in G as (w4 & u2 & _ & G). cbn [negb] in G. apply bind_ok in G as (w5 & u3 & _ & G). done.
Qed.

Lemma reversal_ok actor p found w w' stale : reversal_of world checks actor p found w = (w', Ok stale) ->
  w' = w /\ guarded actor p w (ch_ReversesChangeSetID stale) (ch_ID stale) /\ ch_Fields stale = ch_Fields found /\ ch_ID stale = ch_ID found
  /\ ch_SemanticDeltas stale = ch_SemanticDeltas found.
Proof.
  unfold reversal_of. intros (w1 & source & L & F)%bind_ok. pose proof L as R. apply reads_ok in R as ->; [|by apply reads_lineage].
  destruct (source =? "")%string eqn:E; split_bools.
  - subst. injection F as <- <-. split; [done|]. split; [|done]. left. by eapply sourceless.
  - apply bind_ok in F as (w1 & s & V & F). pose proof V as R. apply reads_ok in R as ->; [|by apply reads_validate_lineage].
    injection F as <- <-. split; [done|]. split; [|by destruct found]. right. by exists w, s.
Qed.

Lemma outstanding_current p fields left : outstanding p fields = Some left -> current_values p left = true.
Proof.
  revert left. induction fields as [|field fields IH]; cbn; intros left; [intros E; by injection E as <-|].
  destruct (_ =? _)%string; [apply IH|]. destruct (_ =? _)%string eqn:C; [|done].
  destruct (outstanding p fields) as [rest|] eqn:O; [|done]. intros E. injection E as <-. cbn. rewrite C. by apply IH.
Qed.

Lemma satisfied_ok actor pid p stale w w' c : guarded actor p w (ch_ReversesChangeSetID stale) (ch_ID stale) ->
  satisfied_write world changes actor pid p stale w = (w', Ok c) ->
  stored_on actor pid p w w' c /\ ch_Status c = ChangeSetStatusSatisfied.
Proof.
  intros G. unfold satisfied_write. intros F. step F u1 ltac:(apply keeps_refuse_if). step F a ltac:(by apply keeps_here). destruct a as [id now].
  apply bind_ok in F as (w7 & u7 & I%insert_change_ok & F). step F u8 ltac:(by apply still_audit). injection F as <- <-.
  split; [|done]. split; [eapply inserted_still; [|exact I|]; still_eq|]. split; try done. right. right. by left.
Qed.

Lemma successor_ok ctx actor pid p stale fields upgrade chapters w w' c : guarded actor p w (ch_ReversesChangeSetID stale) (ch_ID stale) -> current_values p fields = true ->
  successor_write world checks ports changes ctx actor pid p stale fields upgrade chapters w = (w', Ok c) ->
  stored_on actor pid p w w' c /\ ch_Status c = ChangeSetStatusAssessed.
Proof.
  intros G Cv. unfold successor_write. intros F. step F impacts ltac:(apply keeps_rm_traverse; intros; apply still_chapter).
  step F a ltac:(by apply keeps_here). destruct a as [id now]. step F plan ltac:(by apply still_replan).
  step F u6 ltac:(by apply (still_assess world checks ports changes)).
  apply bind_ok in F as (w7 & u7 & I%insert_change_ok & F). step F u8 ltac:(by apply still_record). injection F as <- <-.
  split; [|done]. split; [eapply inserted_still; [|exact I|]; still_eq|]. split; try done. right. by left.
Qed.

Lemma reassess_ok ctx actor pid changeID p w w' c : reassess_write world checks ports changes ctx actor pid changeID p w = (w', Ok c) ->
  stored_on actor pid p w w' c /\ (ch_Status c = ChangeSetStatusAssessed \/ ch_Status c = ChangeSetStatusSatisfied)
  /\ exists stale, Store_ChangeSet world checks pid changeID w = (w, Ok stale) /\ ChangeSetStatusCanMove "reassess" (ch_Status stale) = true.
Proof.
  unfold reassess_write. intros (w1 & u1 & [_ ->]%refuse_if_ok & F)%bind_ok.
  apply bind_ok in F as (w2 & found & C & F). pose proof C as R. apply reads_ok in R as ->; [|by apply reads_change].
  apply bind_ok in F as (w3 & u2 & [M ->]%refuse_if_ok & F). split_bools.
  apply bind_ok in F as (w3 & stale & (-> & G & _)%reversal_ok & F).
  step F u3 ltac:(apply keeps_map_error, keeps_returned). destruct (outstanding p (ch_Fields stale)) as [fields|] eqn:O; [|done].
  apply outstanding_current in O.
  assert (stored_on actor pid p w w' c /\ (ch_Status c = ChangeSetStatusAssessed \/ ch_Status c = ChangeSetStatusSatisfied)) as [B S'].
  { destruct (ch_TemplateUpgrade stale) as [upgrade|].
    - step F a ltac:(apply still_upgrade_again). destruct a as [again ids].
      apply successor_ok in F as [B St]; [|eapply guarded_still; [|exact G]; still_eq|done].
      split; [|by left]. eapply stored_still; [|exact B]. still_eq.
    - destruct (_ && _); [apply satisfied_ok in F as [B St]|apply successor_ok in F as [B St]];
        try done; try (eapply guarded_still; [|exact G]; still_eq).
      + split; [|by right]. eapply stored_still; [|exact B]. still_eq.
      + split; [|by left]. eapply stored_still; [|exact B]. still_eq. }
  split; [done|]. split; [done|]. by exists found.
Qed.

(** ** Inverses *)

Lemma still_inverse_of p delta : keeps still (inverse_of world checks changes p delta).
Proof.
  unfold inverse_of, parsed_version. apply keeps_bind; [by apply still_reads, reads_semantic_value|intros current].
  apply keeps_bind; [destruct (ParseInt _); [apply keeps_ret|apply keeps_fail]|intros version].
  apply keeps_bind; [apply keeps_refuse_if|intros _]. destruct (_ =? _)%string.
  - apply keeps_bind; [apply keeps_of_result|]. intros []; try apply keeps_fail.
    destruct (sd_ProposedRoute delta); [apply keeps_ret|]. destruct (_ =? 0); [apply keeps_fail|apply keeps_ret].
  - destruct (_ =? _)%string; [|apply keeps_of_result]. apply keeps_bind; [apply keeps_of_result|]. intros []; try apply keeps_fail.
    destruct (sd_ProposedEdge delta); [apply keeps_ret|]. destruct (_ =? 0); [apply keeps_fail|apply keeps_ret].
Qed.

Lemma still_inverse_upgrade ctx actor p source : keeps still (inverse_upgrade changes ctx actor p source).
Proof.
  unfold inverse_upgrade. destruct (ch_TemplateUpgrade source) as [upgrade|]; [|apply keeps_ret]. apply keeps_bind.
  { destruct (nonempty _); [|apply keeps_ret]. apply keeps_bind; [apply keeps_of_result|intros refs].
    apply keeps_bind; [by apply still_tables, restores_rows|intros; apply keeps_ret]. }
  intros restores. apply keeps_bind; [by apply still_tables, inverse_upgrade_rows|intros [? ?]; apply keeps_ret].
Qed.

Lemma source_ok p actor id w w' source : inverseSourceAccess world checks p actor id w = (w', Ok source) ->
  w' = w /\ pr_Status p = "active" /\ projectOwner p (ac_UserID actor) = true
  /\ Store_ChangeSet world checks (pr_ID p) id w = (w, Ok source) /\ ch_Status source ∈ ChangeSetClosedStatuses.
Proof.
  unfold inverseSourceAccess. intros (w1 & u1 & [G1 ->]%refuse_if_ok & F)%bind_ok.
  apply bind_ok in F as (w1 & u2 & [G2 ->]%refuse_if_ok & F). apply bind_ok in F as (w1 & c & C & F).
  pose proof C as R. apply reads_ok in R as ->; [|by apply reads_change].
  apply bind_ok in F as (w1 & u3 & [G3 ->]%refuse_if_ok & F). injection F as <- <-. split_bools. split_and!; try done.
  by apply contains_spec.
Qed.

Lemma inverse_ok ctx actor pid changeID p w w' c : inverse_write world checks ports changes ctx actor pid changeID p w = (w', Ok c) ->
  exists source, Store_ChangeSet world checks (pr_ID p) changeID w = (w, Ok source) /\ ch_Status source ∈ ChangeSetClosedStatuses
  /\ projectOwner p (ac_UserID actor) = true /\ still_applied p (ch_Fields source) = true
  /\ stored_on actor pid p w w' c /\ ch_Status c ∈ [ChangeSetStatusDraft; ChangeSetStatusAssessed]
  /\ ch_ReversesChangeSetID c = ch_ID source /\ ch_Fields c = field_deltas (swapped (ch_Fields source)).
Proof.
  unfold inverse_write. intros (w1 & source & (-> & _ & Ow & C & Cl)%source_ok & F)%bind_ok. exists source.
  split; [done|]. split; [done|]. split; [done|].
  step F semantic ltac:(apply keeps_rm_traverse; intros; apply still_inverse_of).
  apply bind_ok in F as (w3 & u1 & [Ap ->]%refuse_if_ok & F). apply negb_false_iff in Ap. split; [done|].
  step F a ltac:(apply still_inverse_upgrade). destruct a as [upgrade plan]. destruct (nonempty semantic).
  - step F u2 ltac:(apply keeps_refuse_if). step F u3 ltac:(apply keeps_returned).
    apply create_draft_ok in F as (B & St & Rv & Fl & _). split; [eapply stored_still; [|exact B]; still_eq|].
    split_and!; try done. rewrite St. by left.
  - step F u3 ltac:(apply keeps_returned). apply create_assessed_ok in F as (B & St & Rv & _ & Fl).
    split; [eapply stored_still; [|exact B]; still_eq|]. split_and!; try done. rewrite St. right. by left.
Qed.

(** ** Assessing and stabilizing *)

(** A change set as it is read: its row, with the deltas of its plan and, once
    it is applied, the review its chapters are in. *)
Definition view_of (row change : ChangeSet) : Prop :=
  exists plan impacts, change = row <| ch_SemanticDeltas := plan |> <| ch_Impacts := impacts |>
  /\ (ch_Status row <> ChangeSetStatusApplied -> impacts = ch_Impacts row).

Lemma view_ok pid id w w' change : Store_ChangeSet world checks pid id w = (w', Ok change) ->
  exists row, rm_changes w !! id = Some row /\ ch_ProjectID row = pid /\ view_of row change.
Proof.
  unfold Store_ChangeSet. intros (w1 & found & [-> ->]%rm_query_ok & F)%bind_ok.
  destruct (rm_changes w !! id) as [row|]; [|done]. apply bind_ok in F as (w1 & [] & [G ->]%refuse_if_ok & F). split_bools.
  apply bind_ok in F as (w1 & c & Hy & F). unfold HydrateSemanticChange in Hy. apply bind_ok in Hy as (w2 & plan & _ & Hy).
  injection Hy as -> <-. exists row. split; [done|]. split; [done|]. revert F. unfold withCurrentImpactStatus.
  change (ch_TargetSpecRevision (row <| ch_SemanticDeltas := plan |>)) with (ch_TargetSpecRevision row).
  change (ch_Status (row <| ch_SemanticDeltas := plan |>)) with (ch_Status row).
  destruct (ch_TargetSpecRevision row) as [target|]; [|intros F; injection F as _ <-; exists plan, (ch_Impacts row); by destruct row].
  destruct (ch_Status row =? ChangeSetStatusApplied)%string eqn:E;
    [|intros F; injection F as _ <-; exists plan, (ch_Impacts row); by destruct row].
  intros (w3 & impacts & _ & F)%bind_ok. injection F as _ <-. exists plan, impacts. split_bools. split; [by destruct row|done].
Qed.

Lemma assess_change_ok actor pid changeID p w w' c : assess_write world checks ports actor pid changeID p w = (w', Ok c) ->
  exists old, Store_ChangeSet world checks pid changeID w = (w, Ok old) /\ ChangeSetStatusCanMove "assess" (ch_Status old) = true
  /\ moved_to old (old <| ch_Status := ChangeSetStatusAssessed |>) w w'.
Proof.
  unfold assess_write. intros (w1 & old & C & F)%bind_ok. pose proof C as R. apply reads_ok in R as ->; [|by apply reads_change].
  apply bind_ok in F as (w1 & u1 & [M ->]%refuse_if_ok & F). apply negb_false_iff in M.
  apply bind_ok in F as (w1 & u2 & [_ ->]%refuse_if_ok & F). step F u3 ltac:(apply keeps_returned).
  step F u4 ltac:(by apply (still_assess world checks ports changes)).
  apply bind_ok in F as (w3 & u5 & U%update_change_still & F). step F u6 ltac:(by apply still_audit). injection F as <- <-.
  exists old. split; [done|]. split; [done|]. eapply moved_still; [|exact U|]; still_eq.
Qed.

Lemma still_mark actor p task reason : keeps still (markImpactTaskStale world actor p task reason).
Proof.
  unfold markImpactTaskStale. destruct (_ =? _)%string; [apply keeps_ret|]. apply keeps_here. intros w.
  apply keeps_bind; [by apply still_swap|intros _]. apply keeps_bind; [by apply still_audit|intros; apply keeps_ret].
Qed.

Lemma still_repost actor p repost : keeps still (repostImpactTask world actor p repost).
Proof.
  unfold repostImpactTask. apply keeps_here. intros w.
  apply keeps_bind; [by apply still_swap|intros _]. apply keeps_bind; [by apply still_audit|intros; apply keeps_ret].
Qed.

Lemma stabilize_change_ok ctx actor pid changeID proofs proofIDs evidence p w w' result :
  stabilize_write world checks ctx actor pid changeID proofs proofIDs evidence p w = (w', Ok result) ->
  still w' = still w
  \/ exists old, Store_ChangeSet world checks pid changeID w = (w, Ok old) /\ ch_Status old = ChangeSetStatusApplied
       /\ ch_TargetContextRevision old = Some (pr_CurrentContextRevision p)
       /\ moved_to old (old <| ch_Status := ChangeSetStatusStabilized |>) w w'.
Proof.
  unfold stabilize_write. intros (w1 & u1 & [_ ->]%refuse_if_ok & F)%bind_ok.
  apply bind_ok in F as (w1 & u2 & [_ ->]%refuse_if_ok & F). apply bind_ok in F as (w1 & old & C & F).
  pose proof C as R. apply reads_ok in R as ->; [|by apply reads_change].
  apply bind_ok in F as (w1 & u3 & [G ->]%refuse_if_ok & F). apply orb_false_iff in G as [Tg Cl].
  apply negb_false_iff, bool_decide_eq_true_1 in Tg. apply negb_false_iff, contains_spec in Cl. unfold here in F.
  apply bind_ok in F as (w1 & conditions & E & F). apply reads_ok in E as ->; [|by apply reads_owner_conditions].
  apply bind_ok in F as (w1 & reposted & S & F). step F u4 ltac:(apply keeps_refuse_if).
  step F u5 ltac:(apply still_tables, audit_rows; apply _). injection F as <- <-.
  unfold settle in S. rename S into F.
  step F u6 ltac:(apply keeps_rm_each; intros; apply keeps_bind; [apply still_mark|intros; apply keeps_ret]).
  step F rs ltac:(apply keeps_rm_traverse; intros; apply still_repost).
  apply bind_ok in F as (w4 & u7 & F & G2). injection G2 as <- _. destruct (_ && _) eqn:N.
  - right. exists old. apply update_change_still in F. split; [done|]. split; [|split; [done|]].
    { apply andb_true_iff in N as [_ N]. change (negb (ch_Status old =? ChangeSetStatusStabilized)%string = true) in N.
      unfold ChangeSetClosedStatuses in Cl. rewrite elem_of_cons, list_elem_of_singleton in Cl. destruct Cl as [E|E]; [done|by rewrite E in N]. }
    eapply moved_still; [|exact F|]; still_eq.
  - left. injection F as <-. still_eq.
Qed.
End Writes.
