(* ===== verification/ChangeApplied.v ===== *)
(** What an apply and a rejection do, branch by branch: the decision is the
    owner's, a stale basis is recorded and nothing else, and a current change
    set takes its project to the next revision. *)

From stdpp Require Import pretty sorting.
From S2P Require Import Prelude Effects OperationCore OperationStore OperationTheorems OperationEffect Workspace Permission PermissionTheorems MemberStore MemberLaws Membership MembershipLaws OperationRunner RunnerLaws RoadmapModel RoadmapStore RouteObjects Templates Roadmap RoadmapLaws RoadmapHistory RoadmapSound RoadmapCommit RoadmapSteps RouteLaws ImpactStore ImpactStoreLaws Lineage Assessment AssessmentLaws Stabilization StabilizationSteps Impact ImpactService FaultInjection ImpactLaws ImpactWrites ImpactMoves ImpactRaising ChangeStore ChangeDrafts ChangeApply ChangeInverse ChangeService ChangeLaws ChangeWrites.

(** The row of a project after [UpdateProject]. *)
Definition next_row (row : projectRow) (next : Project) (spec metadata : string) : projectRow :=
  {| row_TenantID := row_TenantID row; row_Name := row_Name row; row_Status := pr_Status next;
     row_ProjectVersion := pr_ProjectVersion next; row_SpecRevision := pr_SpecRevision next;
     row_CurrentContextRevision := pr_CurrentContextRevision next; row_DeliveryStatus := pr_DeliveryStatus next;
     row_BaselineConfirmationID := pr_BaselineConfirmationID next; row_SpecJSON := spec; row_SpecMetadataJSON := metadata;
     row_TemplateID := pr_TemplateID next; row_TemplateVersion := pr_TemplateVersion next;
     row_TemplateCopyVersion := pr_TemplateCopyVersion next; row_DiscardedAt := pr_DiscardedAt next |}.

(** The row was still the one that was read, and took what is next. *)
Definition advanced (db : Database) (p next : Project) (t t' : gmap string projectRow) : Prop :=
  exists row spec metadata, db_spec_json db next = Ok (spec, metadata) /\ t !! pr_ID p = Some row
  /\ row_ProjectVersion row = pr_ProjectVersion p /\ row_SpecRevision row = pr_SpecRevision p
  /\ t' = <[pr_ID p := next_row row next spec metadata]> t.

Lemma update_project_rows db `{!DatabaseLaws db} tenant p next w w' u : UpdateProject db tenant p next w = (w', Ok u) ->
  advanced db p next (tb_projects w) (tb_projects w').
Proof.
  unfold UpdateProject. intros F. apply bind_ok in F as (w1 & [spec meta] & F1 & F). injection F1 as <- F1.
  apply bind_ok in F as (w1 & u1 & F2 & F). apply update_affected in F2 as (row & Hr & Hc & ->). split_bools.
  exists row, spec, meta. split_and!; try done. by apply (keeps_run tb_projects) in F; [|apply persist_projects].
Qed.

(** ** The next project *)

(** What an apply leaves of a project: who it is, and what the change set does
    not speak of. *)
Record steps_to (p next : Project) (spec_moves : bool) : Prop := {
  st_id : pr_ID next = pr_ID p;
  st_status : pr_Status next = pr_Status p;
  st_discarded : pr_DiscardedAt next = pr_DiscardedAt p;
  st_members : pr_Members next = pr_Members p;
  st_context : pr_CurrentContextRevision next = pr_CurrentContextRevision p +i 1;
  st_version : pr_ProjectVersion next = pr_ProjectVersion p +i 1;
  st_spec : pr_SpecRevision next = if spec_moves then pr_SpecRevision p +i 1 else pr_SpecRevision p
}.

(** Fields that are written one by one, a name being written at most once, are
    written all together. *)
Definition written_values (fields : list ChangeFieldDelta) : gmap string string :=
  foldl (fun m field => <[fd_Key field := fd_NewValue field]> m) ∅ fields.

(** The part of a project that writing its fields does not see. *)
Definition frame_of (p : Project) :=
  (pr_ID p, pr_Status p, pr_DiscardedAt p, pr_Members p, pr_CurrentContextRevision p, pr_ProjectVersion p, pr_SpecRevision p).

Lemma frame_write actor now s key value : frame_of (write_field actor now s key value).1 = frame_of s.1.
Proof. by destruct s as [[] keys]. Qed.

Lemma frame_writes actor now fields s :
  frame_of (foldl (fun s field => write_field actor now s (fd_Key field) (fd_NewValue field)) s fields).1 = frame_of s.1.
Proof. revert s. induction fields as [|field fields IH]; intros s; [done|]. cbn [foldl]. by rewrite IH, frame_write. Qed.

Lemma frame_migrated actor now values s : frame_of (migrate_fields actor now values s).1 = frame_of s.1.
Proof.
  unfold migrate_fields. revert s. induction (map_to_list values) as [|[k v] l IH]; intros s; [done|].
  cbn [foldl]. rewrite IH. cbn [fst snd]. case_bool_decide; [done|apply frame_write].
Qed.

Lemma frame_without records p : frame_of (foldl without_field p records) = frame_of p.
Proof. revert p. induction records as [|r records IH]; intros p; [done|]. cbn [foldl]. rewrite IH. by destruct p. Qed.

Lemma frame_put records p : frame_of (foldl put_field p records) = frame_of p.
Proof. revert p. induction records as [|r records IH]; intros p; [done|]. cbn [foldl]. rewrite IH. by destruct p. Qed.

Lemma written_keys actor now fields s :
  (foldl (fun s field => write_field actor now s (fd_Key field) (fd_NewValue field)) s fields).2 = list_to_set (fd_Key <$> fields) ∪ s.2.
Proof.
  revert s. induction fields as [|field fields IH]; intros s; cbn [foldl fmap list_fmap list_to_set]; [by rewrite (left_id_L ∅ (∪))|].
  rewrite IH. destruct s as [p keys]. cbn. by rewrite (assoc_L (∪)), (comm_L (∪) (list_to_set _)).
Qed.

(** The values a series of writes leaves: the later of two on one name, and
    what was there of the others. *)
Lemma foldl_insert (fields : list ChangeFieldDelta) (m0 m : gmap string string) :
  foldl (fun m field => <[fd_Key field := fd_NewValue field]> m) (m0 ∪ m) fields
  = foldl (fun m field => <[fd_Key field := fd_NewValue field]> m) m0 fields ∪ m.
Proof. revert m0. induction fields as [|field fields IH]; intros m0; [done|]. cbn [foldl]. by rewrite insert_union_l, IH. Qed.

Lemma written_spec actor now fields s :
  pr_Spec (foldl (fun s field => write_field actor now s (fd_Key field) (fd_NewValue field)) s fields).1
  = written_values fields ∪ pr_Spec s.1.
Proof.
  unfold written_values. rewrite <- foldl_insert, (left_id_L ∅ (∪)). revert s.
  induction fields as [|field fields IH]; intros s; [done|]. cbn [foldl]. rewrite IH. by destruct s.
Qed.

(** The copy of the template, which only an upgrade changes. *)
Definition copy_of (p : Project) := (pr_TemplateCopy p, pr_TemplateCopyVersion p, pr_TemplateID p, pr_TemplateVersion p).

Lemma copy_writes actor now fields s :
  copy_of (foldl (fun s field => write_field actor now s (fd_Key field) (fd_NewValue field)) s fields).1 = copy_of s.1.
Proof.
  revert s. induction fields as [|field fields IH]; intros s; [done|]. cbn [foldl]. rewrite IH. by destruct s as [[] keys].
Qed.

Section Applied.
Context {X : Type} `{Digester roadmap_any} (world : World X) `{!WorldLaws world} (checks : Checks) `{!ChecksLaws checks}
  (ports : ImpactPorts X) (changes : ChangePorts X) `{!ChangePortLaws world ports changes}.
Abbreviation db := (sv_db (wd_service world)).

Lemma frame_basis p basis removed restored : frame_of (archive_basis p basis removed restored) = frame_of p.
Proof. unfold archive_basis. destruct basis as [locked|]; [|done]. destruct (_ || _); [by destruct p|done]. Qed.

Definition moves_spec (change : ChangeSet) (keys : gset string) : bool := negb (bool_decide (keys = ∅)) || upgraded change.

Lemma advance_frame up s : steps_to s.1 (advance up s) (negb (bool_decide (s.2 = ∅)) || up).
Proof. destruct s as [[] keys]. cbn. split; reflexivity. Qed.

Lemma steps_frame p q next b : frame_of p = frame_of q -> steps_to q next b -> steps_to p next b.
Proof. unfold frame_of. intros E [S1 S2 S3 S4 S5 S6 S7]. injection E. intros. destruct b; split; congruence. Qed.

Lemma steps_frame_r p q next b : frame_of next = frame_of q -> steps_to p q b -> steps_to p next b.
Proof. unfold frame_of. intros E [S1 S2 S3 S4 S5 S6 S7]. injection E. intros. destruct b; split; congruence. Qed.

Lemma still_migrate actor pid p change removed now s : keeps still (migrate ports changes actor pid p change removed now s).
Proof.
  unfold migrate. destruct (ch_TemplateUpgrade change) as [upgrade|]; [|apply keeps_ret].
  apply keeps_bind; [apply keeps_refuse_if|intros _]. apply keeps_bind; [apply keeps_map_error, keeps_of_result|intros migrated].
  destruct (migrate_fields _ _ _ _) as [next keys].
  apply keeps_bind; [by apply keeps_map_error, still_tables, copy_rows|intros copy].
  apply keeps_bind; [by apply still_tables, policy_rows|intros; apply keeps_ret].
Qed.

Lemma migrate_frame actor pid p change removed now s w w' s' : migrate ports changes actor pid p change removed now s w = (w', Ok s') ->
  frame_of s'.1 = frame_of s.1 /\ (ch_TemplateUpgrade change = None -> s' = s).
Proof.
  unfold migrate. destruct (ch_TemplateUpgrade change) as [upgrade|]; [|intros F; by injection F as _ <-].
  intros (w1 & u & _ & F)%bind_ok. apply bind_ok in F as (w2 & values & _ & F).
  destruct (migrate_fields actor now values s) as [next keys] eqn:M.
  apply bind_ok in F as (w3 & copy & _ & F). apply bind_ok in F as (w4 & copy' & _ & F). injection F as _ <-. split; [|done].
  pose proof (frame_migrated actor now values s) as E. rewrite M in E. cbn [fst] in E |- *. rewrite <- E.
  rewrite <- (frame_without removed next). by destruct (foldl without_field next removed).
Qed.

(** The next project: the next revisions of everything, and, without an
    upgrade, the values of the fields and nothing else of the specification. *)
Lemma next_project_ok ctx actor pid p change basis removed restored now w w' next :
  (ch_TemplateUpgrade change = None -> basis = None /\ removed = [] /\ restored = []) ->
  next_project ports changes ctx actor pid p change basis removed restored now w = (w', Ok next) ->
  exists b, steps_to p next b
  /\ (ch_TemplateUpgrade change = None ->
        pr_Spec next = written_values (ch_Fields change) ∪ pr_Spec p /\ copy_of next = copy_of p
        /\ b = nonempty (ch_Fields change)).
Proof.
  intros Plain. unfold next_project. intros (w1 & s & M & F)%bind_ok. apply bind_ok in F as (w2 & metadata & _ & F). injection F as _ <-.
  apply migrate_frame in M as [Fr Same]. unfold write_fields in Fr, Same.
  set (s0 := foldl _ (archive_basis p basis removed restored, ∅) (ch_Fields change)) in Fr, Same.
  assert (frame_of s0.1 = frame_of p) as E0.
  { etransitivity; [apply frame_writes|apply frame_basis]. }
  set (s1 := ((s.1) <| pr_SpecFields := metadata |>, s.2)).
  assert (frame_of s1.1 = frame_of p) as E1 by (rewrite <- E0, <- Fr; unfold s1; by destruct (s.1)).
  exists (negb (bool_decide (s1.2 = ∅)) || upgraded change). split.
  { eapply steps_frame_r; [apply frame_put|]. eapply steps_frame; [symmetry; exact E1|]. apply (advance_frame (upgraded change) s1). }
  intros U. destruct (Plain U) as (-> & _ & ->). pose proof (Same U). subst s. cbn [foldl].
  assert (upgraded change = false) as -> by (unfold upgraded; by rewrite U). rewrite orb_false_r.
  pose proof (written_spec actor now (ch_Fields change) (p, ∅)) as Ws. cbn [fst] in Ws.
  pose proof (copy_writes actor now (ch_Fields change) (p, ∅)) as Wc. cbn [fst] in Wc.
  pose proof (written_keys actor now (ch_Fields change) (p, ∅)) as Wk. cbn [snd] in Wk.
  change (archive_basis p None removed []) with p in s0. fold s0 in Ws, Wc, Wk. split; [|split].
  - rewrite <- Ws. unfold s1. destruct s0 as [[] keys]. reflexivity.
  - rewrite <- Wc. unfold s1. destruct s0 as [[] keys]. reflexivity.
  - unfold s1. cbn [snd]. rewrite Wk. destruct (ch_Fields change) as [|field fields]; cbn; [by rewrite bool_decide_eq_true_2|].
    rewrite bool_decide_eq_false_2; [done|]. intros E. apply (f_equal (fun x => fd_Key field ∈ x)) in E.
    assert (fd_Key field ∈ (∅ : gset string)) as []%not_elem_of_empty; rewrite <- E; clear.
    apply elem_of_union_l, elem_of_union_l. by apply elem_of_singleton.
Qed.

(** ** Carrying a change set out *)

(** The project takes the next revision and the change set its answer, at
    once. *)
Definition carried (p next : Project) (change c : ChangeSet) (w w' : roadmap) : Prop :=
  exists row, rm_changes w !! ch_ID change = Some row /\ ch_ProjectID row = ch_ProjectID change
  /\ ch_Status row = ch_Status change /\ rm_changes w' = <[ch_ID change := updated_row row c]> (rm_changes w)
  /\ advanced db p next (rows w) (rows w').

Lemma deltas_ok ctx actor before next change w w' next' :
  ApplySemanticDeltas world checks ports changes ctx actor before next change w = (w', Ok next') ->
  RequireHumanDecision ctx ErrHumanDecisionRequired = None /\ projectOwner before (ac_UserID actor) = true
  /\ ValidateSemanticDeltas world checks ports changes before (ch_SemanticDeltas change) w = (w, Ok tt)
  /\ frame_of next' = frame_of next /\ pr_Spec next' = pr_Spec next
  /\ (binding_overrides (ch_SemanticDeltas change) = [] -> next' = next).
Proof.
  unfold ApplySemanticDeltas. intros (w1 & u1 & Hu & F)%bind_ok. unfold RequireHuman in Hu.
  destruct (RequireHumanDecision ctx ErrHumanDecisionRequired) as [e|] eqn:Eh; [done|]. injection Hu as <- _.
  apply bind_ok in F as (w2 & u2 & [G ->]%refuse_if_ok & F). split_bools.
  apply bind_ok in F as (w3 & [] & V & F). pose proof V as R. apply reads_ok in R as ->; [|by apply (reads_validate world checks ports changes)].
  apply bind_ok in F as (w4 & u4 & _ & F). split; [done|]. split; [done|]. split; [done|].
  destruct (binding_overrides _) as [|o os] eqn:B; cbn [nonempty negb] in F; [injection F as _ <-; by split_and!|].
  apply bind_ok in F as (w5 & u5 & _ & F). apply bind_ok in F as (w6 & copy & _ & F). injection F as _ <-.
  split_and!; [by destruct next..|done].
Qed.

Lemma still_archives ctx actor pid p change : keeps still (archives_of world checks changes ctx actor pid p change).
Proof.
  unfold archives_of. destruct (ch_TemplateUpgrade change) as [upgrade|]; [|apply keeps_ret]. apply keeps_bind.
  { destruct (nonempty _); [|apply keeps_ret]. apply keeps_bind; [by apply still_tables, removals_rows|intros [? ?]; apply keeps_ret]. }
  intros [basis removed]. destruct (nonempty _); [|apply keeps_ret]. apply keeps_bind; [apply keeps_refuse_if|intros _].
  apply keeps_bind; [by apply still_reads, reads_change|intros source].
  apply keeps_bind; [by apply still_tables, restores_rows|intros [? ?]; apply keeps_ret].
Qed.

Lemma plain_archives ctx actor pid p change w w' basis removed restored :
  archives_of world checks changes ctx actor pid p change w = (w', Ok (basis, removed, restored)) ->
  ch_TemplateUpgrade change = None -> basis = None /\ removed = [] /\ restored = [].
Proof. unfold archives_of. intros F U. rewrite U in F. injection F as _ <- <- <-. done. Qed.

Lemma still_business_audit event : keeps still (business_audit world changes event).
Proof.
  unfold business_audit. destruct (cp_business_audit changes) as [write|] eqn:E; [|apply still_tables, audit_rows; apply _].
  destruct (audit_writer (world := world) (ports := ports) (changes := changes) write event E) as [-> | [err ->]];
    [apply still_tables, audit_rows; apply _|apply keeps_fail].
Qed.

Lemma still_next ctx actor pid p change basis removed restored now :
  keeps still (next_project ports changes ctx actor pid p change basis removed restored now).
Proof.
  unfold next_project. apply keeps_bind; [apply still_migrate|intros s].
  apply keeps_bind; [by apply still_tables, inherit_rows|intros; apply keeps_ret].
Qed.

Lemma on_tables_rows {A} (m : T A) w w' a : on_tables m w = (w', Ok a) ->
  m (rm_tables w) = (rm_tables w', Ok a) /\ rm_changes w' = rm_changes w.
Proof. intros [E ->]%on_tables_ok. by split. Qed.

(** What the current change set [c] came from, and what it made of the
    project. *)
Record carried_out (ctx : Context X) (actor : Actor) (p : Project) (change : ChangeSet) (w w' : roadmap) (c : ChangeSet) : Prop := {
  co_human : RequireHumanDecision ctx ErrHumanDecisionRequired = None;
  co_owner : projectOwner p (ac_UserID actor) = true;
  co_fields : validateChangeTemplateFields (ip_reader ports) p (ch_Fields change) = None;
  co_assessment : ValidateChangeImpactAssessment world checks p change w = (w, Ok tt);
  co_deltas : exists w0, still w0 = still w
    /\ ValidateSemanticDeltas world checks ports changes p (ch_SemanticDeltas change) w0 = (w0, Ok tt);
  co_next : exists next now b, c = applied actor next now change /\ carried p next change c w w' /\ steps_to p next b
    /\ (ch_TemplateUpgrade change = None ->
          pr_Spec next = written_values (ch_Fields change) ∪ pr_Spec p /\ b = nonempty (ch_Fields change)
          /\ (binding_overrides (ch_SemanticDeltas change) = [] -> copy_of next = copy_of p))
}.

Lemma carry_out_ok ctx actor pid p change w w' c : carry_out world checks ports changes ctx actor pid p change w = (w', Ok c) ->
  carried_out ctx actor p change w w' c.
Proof.
  unfold carry_out. intros (w1 & u1 & Fv & F)%bind_ok.
  assert (w1 = w /\ validateChangeTemplateFields (ip_reader ports) p (ch_Fields change) = None) as [-> Ft].
  { unfold returned in Fv. destruct (validateChangeTemplateFields _ _ _); [done|]. by injection Fv. }
  apply bind_ok in F as (w1 & [] & As & F). pose proof As as R. apply reads_ok in R as ->; [|by apply reads_validate_assessment].
  apply bind_ok in F as (w1 & u2 & V & F). apply reads_ok in V as ->; [|by apply (reads_validate world checks ports changes)].
  apply bind_ok in F as (w1 & [[basis removed] restored] & Ar & F). pose proof Ar as S1.
  apply (keeps_run still) in S1; [|apply still_archives]. pose proof (plain_archives _ _ _ _ _ _ _ _ _ _ Ar) as Plain.
  apply bind_ok in F as (w2 & next & N & F). unfold here in N. pose proof N as S2. apply (keeps_run still) in S2; [|apply still_next].
  apply next_project_ok in N as (b & St & Pl); [|done].
  apply bind_ok in F as (w3 & next' & D & F). pose proof D as S3. apply (keeps_run still) in S3; [|by apply still_deltas].
  apply deltas_ok in D as (Hu & Ow & V & Fr & Sp & Bi).
  apply bind_ok in F as (w4 & u4 & [Up E4]%on_tables_rows & F). apply update_project_rows in Up; [|apply _].
  step F u5 ltac:(destruct (nonempty removed); [by apply still_tables, mark_removed_rows|apply keeps_ret]).
  step F now ltac:(by apply keeps_here).
  apply bind_ok in F as (w7 & u7 & U%update_change_still & F).
  step F u8 ltac:(by apply (still_raise world checks ports changes)).
  step F u9 ltac:(apply still_tables, (invalidate_rows (world := world) (ports := ports) (changes := changes))).
  step F u10 ltac:(apply keeps_here; intros; apply still_business_audit). injection F as <- <-.
  assert (still w2 = still w) as S12 by (etransitivity; [exact S2|exact S1]).
  assert (still w3 = still w) as S13 by (etransitivity; [exact S3|exact S12]).
  split; try done; [by exists w2|]. exists next', now, b. split; [done|]. split; [|split].
  - destruct U as (row & F & Ep & Es & E). exists row.
    repeat match goal with E : still _ = still _ |- _ => apply still_split in E as [? ?] end.
    pose proof (f_equal fst E) as E1. pose proof (f_equal snd E) as E2. cbn in E1, E2. unfold rows in *.
    split_and!; congruence.
  - by eapply steps_frame_r.
  - intros Un. destruct (Pl Un) as (Es & Ec & Eb). split; [congruence|]. split; [done|]. intros B. by rewrite (Bi B).
Qed.

(** ** The decision *)

(** The caller is the owner the project is to be decided by, and it is open. *)
Record decides (actor : Actor) (p : Project) : Prop := {
  de_owner : projectOwnerUser p = Some (ac_UserID actor);
  de_active : pr_Status p = "active";
  de_kept : pr_DiscardedAt p = None
}.

Lemma reads_gate actor p : reads (decision_gate world actor p).
Proof.
  unfold decision_gate, ownerDecisionInTransaction. apply keeps_bind; [apply keeps_refuse_if|intros _]. apply reads_on_tables.
  apply keeps_bind; [apply JudgeOwnerAction_reads; apply _|intros judgement].
  apply keeps_bind; [apply keeps_refuse_if|intros _]. apply keeps_refuse_if.
Qed.

Lemma gate_ok actor p w w' : decision_gate world actor p w = (w', Ok tt) -> w' = w /\ decides actor p.
Proof.
  intros F. split; [by apply reads_ok in F; [|apply reads_gate]|]. unfold decision_gate in F.
  apply bind_ok in F as (w1 & [] & [G ->]%refuse_if_ok & F). split_bools. apply on_tables_ok in F as [F _].
  unfold ownerDecisionInTransaction in F. apply bind_ok in F as (t1 & judgement & J & F).
  apply bind_ok in F as (t2 & [] & [_ ->]%refuse_if_ok & F). apply refuse_if_ok in F as [Al _]. split; [|done|by destruct (pr_DiscardedAt p)].
  unfold JudgeOwnerAction in J. apply bind_ok in J as (t3 & authority & A & J).
  unfold OwnerAuthorityOf in A. destruct (projectOwnerUser p) as [owner|].
  - apply bind_ok in A as (t4 & available & _ & A). injection A as _ <-. cbn in J.
    destruct (_ || _) eqn:E in J; [by injection J as _ <-|]. split_bools. by subst.
  - injection A as _ <-. cbn in J. by injection J as _ <-.
Qed.

(** What was found stale: the basis of the change set, or a chapter it
    affects. *)
Definition stale_chapter (pid : string) (change : ChangeSet) (w : roadmap) : Prop :=
  exists impact version, impact ∈ ch_Impacts change /\ ck_chapter_version checks pid (ci_ChapterID impact) (rm_tables w) = (rm_tables w, Ok version)
  /\ version <> ci_ChapterVersionID impact.

Lemma moved_chapter_ok pid impacts w w' found : moved_chapter checks pid impacts w = (w', Ok found) ->
  w' = w /\ match found with
            | Some impact => impact ∈ impacts /\ exists version,
                ck_chapter_version checks pid (ci_ChapterID impact) (rm_tables w) = (rm_tables w, Ok version) /\ version <> ci_ChapterVersionID impact
            | None => forall impact, impact ∈ impacts ->
                ck_chapter_version checks pid (ci_ChapterID impact) (rm_tables w) = (rm_tables w, Ok (ci_ChapterVersionID impact))
            end.
Proof.
  induction impacts as [|impact impacts IH]; cbn [moved_chapter].
  { intros F. injection F as <- <-. split; [done|]. by intros ? ?%not_elem_of_nil. }
  intros (w1 & version & F1 & F)%bind_ok. pose proof F1 as R. apply reads_ok in R as ->; [|apply reads_on_tables, chapter_reads].
  apply on_tables_ok in F1 as [F1 _]. case_bool_decide as E.
  - apply IH in F as [-> F]. split; [done|]. destruct found as [i|].
    + destruct F as [Hin V]. split; [by right|done].
    + intros i [->|Hin]%elem_of_cons; [by rewrite F1, E|by apply F].
  - injection F as <- <-. split; [done|]. split; [by left|]. by exists version.
Qed.

(** Of the change set [old], what an apply of it answers and does. *)
Inductive apply_outcome (ctx : Context X) (actor : Actor) (pid : string) (p : Project) (old : ChangeSet) (w w' : roadmap)
  : ChangeSet -> Z -> Prop :=
| apply_again : ch_Status old = ChangeSetStatusApplied -> w' = w -> apply_outcome ctx actor pid p old w w' old OperationStatusOK
| apply_stale reason w0 : ChangeSetStatusCanMove "apply" (ch_Status old) = true -> still w0 = still w ->
    base_moved p old = true \/ stale_chapter pid old w0 ->
    moved_to old (old <| ch_Status := ChangeSetStatusStale |> <| ch_StaleReason := reason |>) w w' ->
    apply_outcome ctx actor pid p old w w' (old <| ch_Status := ChangeSetStatusStale |> <| ch_StaleReason := reason |>) operationStatusConflict
| apply_carried w0 c : ChangeSetStatusCanMove "apply" (ch_Status old) = true -> still w0 = still w ->
    base_moved p old = false ->
    (forall impact, impact ∈ ch_Impacts old ->
       ck_chapter_version checks pid (ci_ChapterID impact) (rm_tables w0) = (rm_tables w0, Ok (ci_ChapterVersionID impact))) ->
    carried_out ctx actor p old w0 w' c ->
    apply_outcome ctx actor pid p old w w' c OperationStatusOK.

Lemma mark_stale_ok actor pid change reason details w w' c : mark_stale world actor pid change reason details w = (w', Ok c) ->
  c = change <| ch_Status := ChangeSetStatusStale |> <| ch_StaleReason := reason |> /\ moved_to change c w w'.
Proof.
  unfold mark_stale. intros (w1 & u1 & [_ ->]%refuse_if_ok & F)%bind_ok.
  apply bind_ok in F as (w7 & u7 & U%update_change_still & F). step F u8 ltac:(apply keeps_here; intros; by apply still_record). injection F as <- <-.
  split; [done|]. eapply moved_still; [reflexivity|exact U|done].
Qed.

Lemma apply_ok ctx actor pid changeID p w w' c status :
  apply_write world checks ports changes ctx actor pid changeID p w = (w', Ok (c, status)) ->
  decides actor p /\ exists old, Store_ChangeSet world checks pid changeID w = (w, Ok old)
  /\ apply_outcome ctx actor pid p old w w' c status.
Proof.
  unfold apply_write. intros (w1 & [] & [-> D]%gate_ok & F)%bind_ok. split; [done|].
  apply bind_ok in F as (w1 & old & C & F). pose proof C as R. apply reads_ok in R as ->; [|by apply reads_change].
  exists old. split; [done|]. destruct (ch_Status old =? ChangeSetStatusApplied)%string eqn:Es.
  { injection F as <- <- <-. split_bools. by apply apply_again. }
  apply bind_ok in F as (w1 & u1 & [M ->]%refuse_if_ok & F). apply negb_false_iff in M.
  step F u2 ltac:(destruct (ch_TemplateUpgrade old); [by apply still_tables, recheck_rows|apply keeps_ret]).
  unfold stale_or_carry_out in F. destruct (base_moved p old) eqn:B.
  - apply bind_ok in F as (w3 & stale & F1 & F). injection F as <- <- <-. apply mark_stale_ok in F1 as [-> Mv].
    eapply apply_stale; [done|done|by left|]. by eapply moved_still.
  - apply bind_ok in F as (w3 & found & [-> Mc]%moved_chapter_ok & F). destruct found as [impact|].
    + apply bind_ok in F as (w3 & stale & F1 & F). injection F as <- <- <-. apply mark_stale_ok in F1 as [-> Mv].
      destruct Mc as (Hin & version & V & N). eapply apply_stale; [done|exact S|right; by exists impact, version|]. by eapply moved_still.
    + apply bind_ok in F as (w3 & c' & Co%carry_out_ok & F). injection F as <- <- <-. by eapply apply_carried.
Qed.

(** ** Rejecting *)

Lemma reject_ok actor pid changeID p w w' c : reject_write world checks actor pid changeID p w = (w', Ok c) ->
  decides actor p /\ exists old, Store_ChangeSet world checks pid changeID w = (w, Ok old)
  /\ (ch_Status old = ChangeSetStatusRejected /\ c = old /\ w' = w
      \/ ChangeSetStatusCanMove "reject" (ch_Status old) = true /\ exists now, c = rejected actor now old /\ moved_to old c w w').
Proof.
  unfold reject_write. intros (w1 & [] & [-> D]%gate_ok & F)%bind_ok. split; [done|].
  apply bind_ok in F as (w1 & old & C & F). pose proof C as R. apply reads_ok in R as ->; [|by apply reads_change].
  exists old. split; [done|]. destruct (ch_Status old =? ChangeSetStatusRejected)%string eqn:Es.
  { injection F as <- <-. split_bools. by left. }
  apply bind_ok in F as (w1 & u1 & [M ->]%refuse_if_ok & F). apply negb_false_iff in M. right. split; [done|]. unfold here in F.
  apply bind_ok in F as (w7 & u7 & U%update_change_still & F). step F u8 ltac:(by apply still_record). injection F as <- <-.
  exists (wd_now world w). split; [done|]. eapply moved_still; [reflexivity|exact U|done].
Qed.
End Applied.
