(* ===== verification/ChangeCalls.v ===== *)
(** The operations on change sets as the calls of one machine: a call leaves
    the change sets and the rows of projects as they were, or did one business
    write on the project as it is stored. *)

From stdpp Require Import pretty sorting.
From S2P Require Import Prelude Effects OperationCore OperationStore OperationTheorems OperationEffect Workspace Permission PermissionTheorems MemberStore MemberLaws Membership MembershipLaws OperationRunner RunnerLaws RunnerTheorems RoadmapModel RoadmapStore RouteObjects Templates Roadmap RoadmapLaws RoadmapHistory RoadmapSound RoadmapCommit RoadmapSteps RouteLaws ImpactStore ImpactStoreLaws Lineage Assessment AssessmentLaws Stabilization StabilizationSteps Impact ImpactService FaultInjection ImpactLaws ImpactWrites ImpactMoves ImpactCalls ImpactRaising ChangeStore ChangeDrafts ChangeApply ChangeInverse ChangeService ChangeLaws ChangeWrites ChangeApplied.

Inductive change_call :=
| CallCreate (actor : Actor) (pid key : string) (input : CreateChangeSetInput)
| CallDraft (actor : Actor) (pid key : string) (input : ExtendedChangeSetInput)
| CallEdit (actor : Actor) (pid changeID key : string) (input : ExtendedChangeSetInput)
| CallApply (actor : Actor) (pid changeID key : string)
| CallReject (actor : Actor) (pid changeID key : string)
| CallReassess (actor : Actor) (pid changeID key : string)
| CallReverse (actor : Actor) (pid changeID key : string)
| CallAssessChange (actor : Actor) (pid changeID key : string)
| CallStabilizeChange (actor : Actor) (pid changeID key : string).

Section Calls.
Context {X : Type} `{Digester roadmap_any} (world : World X) `{!WorldLaws world} (checks : Checks) `{!ChecksLaws checks}
  (ports : ImpactPorts X) (changes : ChangePorts X) `{!ChangePortLaws world ports changes}.
Abbreviation service := (wd_service world).
Abbreviation db := (sv_db (wd_service world)).

Definition serve_change (ctx : Context X) (call : change_call) : RM (string * Z * bool) :=
  match call with
  | CallCreate actor pid key input => CreateChangeSet world checks ports changes ctx actor pid key input
  | CallDraft actor pid key input => Service_CreateChangeDraft world checks ports changes ctx actor pid key input
  | CallEdit actor pid changeID key input => EditChangeDraft world checks ports changes ctx actor pid changeID key input
  | CallApply actor pid changeID key => ApplyChangeSet world checks ports changes ctx actor pid changeID key
  | CallReject actor pid changeID key => RejectChangeSet world checks ctx actor pid changeID key
  | CallReassess actor pid changeID key => ReassessChangeSet world checks ports changes ctx actor pid changeID key
  | CallReverse actor pid changeID key => ReverseChangeSet world checks ports changes ctx actor pid changeID key
  | CallAssessChange actor pid changeID key => AssessChangeSet world checks ports ctx actor pid changeID key
  | CallStabilizeChange actor pid changeID key => StabilizeRevision world checks ports ctx actor pid changeID key
  end.

(** The business write of a call, under the context its preparation left. *)
Inductive change_business : change_call -> Project -> roadmap -> roadmap -> Prop :=
| business_create ctx actor pid key input p w w' c :
    create_assessed world checks ports changes ctx actor pid "" None input p w = (w', Ok c) ->
    change_business (CallCreate actor pid key input) p w w'
| business_draft ctx actor pid key input p w w' c :
    create_draft world checks ports changes ctx actor pid "" input p w = (w', Ok c) ->
    change_business (CallDraft actor pid key input) p w w'
| business_edit ctx actor pid changeID key input p w w' c :
    edit_write world checks ports changes ctx actor pid changeID input p w = (w', Ok c) ->
    change_business (CallEdit actor pid changeID key input) p w w'
| business_apply ctx actor pid changeID key p w w' c status :
    apply_write world checks ports changes ctx actor pid changeID p w = (w', Ok (c, status)) ->
    change_business (CallApply actor pid changeID key) p w w'
| business_reject actor pid changeID key p w w' c :
    reject_write world checks actor pid changeID p w = (w', Ok c) ->
    change_business (CallReject actor pid changeID key) p w w'
| business_reassess ctx actor pid changeID key p w w' c :
    reassess_write world checks ports changes ctx actor pid changeID p w = (w', Ok c) ->
    change_business (CallReassess actor pid changeID key) p w w'
| business_reverse ctx actor pid changeID key p w w' c :
    inverse_write world checks ports changes ctx actor pid changeID p w = (w', Ok c) ->
    change_business (CallReverse actor pid changeID key) p w w'
| business_assess_change actor pid changeID key p w w' c :
    assess_write world checks ports actor pid changeID p w = (w', Ok c) ->
    change_business (CallAssessChange actor pid changeID key) p w w'
| business_stabilize_change ctx actor pid changeID key proofs proofIDs evidence p w w' result :
    stabilize_write world checks ctx actor pid changeID proofs proofIDs evidence p w = (w', Ok result) ->
    change_business (CallStabilizeChange actor pid changeID key) p w w'.

Definition call_project (call : change_call) : string :=
  match call with
  | CallCreate _ pid _ _ | CallDraft _ pid _ _ | CallEdit _ pid _ _ _ | CallApply _ pid _ _ | CallReject _ pid _ _
  | CallReassess _ pid _ _ | CallReverse _ pid _ _ | CallAssessChange _ pid _ _ | CallStabilizeChange _ pid _ _ => pid
  end.

(** ** A run *)

(** The project a write ran on, as its row shows it. *)
Definition shown_as (pid : string) (p : Project) (w : roadmap) : Prop :=
  if (pid =? "")%string then p = zero_project else stored_project pid p w.

Lemma shown_still pid p w w' : still w' = still w -> shown_as pid p w -> shown_as pid p w'.
Proof.
  intros [_ E]%still_split. unfold shown_as. destruct (pid =? "")%string; [done|]. unfold rows in E.
  intros [Ei (row & F & R)]. split; [done|]. exists row. by rewrite E.
Qed.

(** Nothing happened to change sets and projects, or one write did. *)
Definition one_write (pid : string) (P : Project -> roadmap -> roadmap -> Prop) (w w' : roadmap) : Prop :=
  still w' = still w
  \/ exists p w0 w1, shown_as pid p w0 /\ still w0 = still w /\ P p w0 w1 /\ still w' = still w1.

Lemma one_write_before pid P w w0 w' : still w0 = still w -> one_write pid P w0 w' -> one_write pid P w w'.
Proof.
  intros E [E'|(p & w1 & w2 & S & E1 & HP & E2)]; [left; congruence|]. right. exists p, w1, w2. split_and!; [done|congruence|done..].
Qed.

Lemma one_write_bind {A} pid (P : Project -> roadmap -> roadmap -> Prop) (m : RM A) (k : A -> RM (string * Z * bool)) :
  keeps still m -> (forall a w w' r, k a w = (w', r) -> one_write pid P w w') ->
  forall w w' r, (m ≫= k) w = (w', r) -> one_write pid P w w'.
Proof.
  intros Km Pk w w' r. unfold mbind, M_bind. destruct (m w) as [w1 [a|e]] eqn:F; apply (keeps_run still) in F; [|done| |done].
  - intros G. eapply one_write_before; [exact F|]. by eapply Pk.
  - intros G. injection G as <- _. by left.
Qed.

Lemma settled_still {A} (m : T A) : calm RunnerLaws.settled m -> keeps still (on_tables m).
Proof. intros C. apply still_tables. intros w. destruct (C w) as [M _]. apply (meq_projects _ _ M). Qed.

#[local] Instance still_preorder : PreOrder (unmoved still).
Proof. apply unmoved_preorder. Qed.

Lemma checked_one_write (P : Project -> roadmap -> roadmap -> Prop) check ctx actor name target key body request sources
  (write : Project -> RM (roadmap_any * string * Z)) w w' r : rq_Actor request = actor ->
  (forall decode, sources = Some decode -> forall o b, keeps still (decode o b)) ->
  (forall p w w' a, write p w = (w', Ok a) -> P p w w') ->
  run_checked world check ctx actor name target key body request sources write w = (w', r) ->
  one_write (rq_ProjectID request) P w w'.
Proof.
  intros Ea Cs HP F.
  apply (checked_outcome world RunnerLaws.settled (unmoved still)) in F;
    [|intros A m C; by apply settled_still|intros; apply calm_checked, pipeline_calm; apply _|intros; apply calm_settled, emit_calm|done|done].
  assert (unmoved still w w' \/ ran_under world (unmoved still) request write w w') as [S|(wa & w0 & w1 & p & a & E0 & Ep & E1 & Fw & E2)]
    by (destruct r as [[[? ?] [|]]|?]; auto); [by left|]. right.
  exists p, w0, w1. split; [|split; [etransitivity; [exact E1|exact E0]|split; [by eapply HP|exact E2]]].
  eapply shown_still; [exact E1|]. unfold shown_as. destruct (_ =? "")%string; [done|].
  apply (authorize_ok (policy_tx db)) in Ep as (_ & _ & Ep & _). cbn in Ep. by eapply project_stored.
Qed.

(** ** What only asks *)

Lemma reads_deltas p deltas : reads (delta_source_ids world checks ports p deltas).
Proof.
  induction deltas as [|delta deltas IH]; cbn; [apply keeps_ret|].
  apply keeps_bind; [by apply reads_semantic_value|intros current].
  apply keeps_bind; [apply reads_on_tables, (sources_reads (world := world) (changes := changes))|intros proposed].
  apply keeps_bind; [apply (reads_proposal_inputs world)|intros inputs]. apply keeps_bind; [done|intros; apply keeps_ret].
Qed.

Lemma reads_semantic_sources p deltas : reads (semanticSourceIDs world checks ports p deltas).
Proof.
  unfold semanticSourceIDs. apply keeps_bind; [apply reads_on_tables, (batch_reads (world := world) (changes := changes))|intros _].
  apply keeps_bind; [apply reads_deltas|intros; apply keeps_ret].
Qed.

Lemma reads_assessed p change : reads (assessedSourceIDs world checks p change).
Proof. unfold assessedSourceIDs. apply keeps_bind; [by apply reads_build|intros; apply keeps_ret]. Qed.

Lemma reads_traverse {A B} (f : A -> RM B) l : (forall a, reads (f a)) -> reads (rm_traverse f l).
Proof. apply keeps_rm_traverse. Qed.

Lemma reads_impacts pid ids : reads (chapterImpacts checks pid ids).
Proof.
  apply reads_traverse. intros id. apply keeps_bind; [apply reads_on_tables; auto with effects|intros; apply keeps_ret].
Qed.

Lemma reads_rebuilt p change : reads (assessRebuiltChange world checks ports p change).
Proof.
  unfold assessRebuiltChange. apply keeps_bind; [apply reads_semantic_sources|intros ids].
  apply keeps_bind; [apply reads_assessed|intros; apply keeps_ret].
Qed.

Lemma reads_create_sources input id p : reads (resolveChangeSetPayload world checks ports changes input id p).
Proof.
  unfold resolveChangeSetPayload. apply keeps_bind.
  { destruct (some _); [|apply keeps_ret]. apply reads_on_tables, (chapters_reads (world := world) (ports := ports)). }
  intros chapters. apply keeps_bind; [apply reads_impacts|intros impacts]. apply reads_rebuilt.
Qed.

Lemma reads_draft_sources input id p : reads (resolveChangeDraftPayload world checks ports input id p).
Proof. unfold resolveChangeDraftPayload. apply keeps_bind; [apply reads_impacts|intros impacts]. apply reads_rebuilt. Qed.

Lemma reads_stored_sources semantic chapters id p : reads (resolveStoredChangeSet world checks ports semantic chapters id p).
Proof.
  unfold resolveStoredChangeSet. apply keeps_bind; [by apply reads_change|intros change].
  apply keeps_bind; [apply reads_semantic_sources|intros ids]. apply keeps_bind.
  { destruct semantic; [|apply keeps_ret]. apply reads_traverse. intros delta. unfold refreshed, parsed_version.
    apply keeps_bind; [by apply reads_semantic_value|intros value].
    apply keeps_bind; [destruct (ParseInt _); [apply keeps_ret|apply keeps_fail]|intros; apply keeps_ret]. }
  intros deltas. apply keeps_bind; [destruct chapters; [apply reads_impacts|apply keeps_ret]|intros impacts].
  apply keeps_bind; [apply reads_assessed|intros; apply keeps_ret].
Qed.

Lemma reads_apply_sources id p : reads (resolveApplyChangeSet world checks ports id p).
Proof.
  unfold resolveApplyChangeSet. apply keeps_bind; [by apply reads_change|intros change].
  apply keeps_bind; [apply reads_semantic_sources|intros ids]. apply keeps_bind; [apply keeps_refuse_if|intros _].
  apply keeps_bind; [by apply keeps_map_error, reads_assessment|intros; apply keeps_ret].
Qed.

Lemma reads_source_entry actor pid id : reads (source_access world checks actor pid id).
Proof.
  unfold source_access. destruct (_ =? _)%string; [apply keeps_ret|].
  apply keeps_bind; [apply reads_on_tables, Gorm_Project_reads; apply _|intros p].
  apply keeps_bind; [by apply reads_source_access|intros; apply keeps_ret].
Qed.

Lemma reads_inverse_access actor pid target : reads (inverseOperationAccess world checks actor pid target).
Proof.
  unfold inverseOperationAccess. apply keeps_bind; [by apply reads_change|intros change].
  apply keeps_bind; [by apply reads_lineage|intros source]. apply reads_source_entry.
Qed.

Lemma reads_operation_sources resolver target pid : (forall id p, reads (resolver id p)) ->
  reads (OperationSourceIDs world checks resolver target pid).
Proof.
  intros R. unfold OperationSourceIDs, ImpactService.ProjectForImpact.
  apply keeps_bind; [apply reads_on_tables, reads_project_for_impact|intros p].
  destruct (negb _); [apply keeps_ret|]. apply keeps_bind; [apply R|intros [refs ids]].
  apply keeps_bind; [by apply reads_refs_sources|intros; apply keeps_ret].
Qed.

Lemma reads_reverse_sources actor pid source previous found : reads (reverseChangeSetSources world checks ports changes actor pid source previous found).
Proof.
  unfold reverseChangeSetSources. apply keeps_bind; [apply reads_on_tables, Gorm_Project_reads; apply _|intros p].
  apply keeps_bind; [by apply reads_source_access|intros change]. apply keeps_bind.
  { destruct found; [|apply keeps_ret]. apply keeps_bind; [|intros; apply keeps_ret]. unfold answered_inverse.
    apply keeps_bind; [apply keeps_of_result|intros saved]. apply keeps_bind; [apply keeps_refuse_if|intros; apply keeps_ret]. }
  intros saved. apply keeps_bind; [|intros; apply keeps_ret]. apply reads_collect. intros c. unfold change_sources.
  apply keeps_bind; [apply reads_semantic_sources|intros semantic]. apply keeps_bind; [|intros; apply keeps_ret].
  apply reads_collect. intros impact. unfold impact_chapter_sources.
  apply keeps_bind; [apply reads_on_tables, (chapter_sources_reads (world := world) (ports := ports))|intros current].
  apply keeps_bind; [|intros; apply keeps_ret]. destruct (ci_ChapterVersionID impact); [|apply keeps_ret].
  apply reads_on_tables, (version_sources_reads (world := world) (ports := ports)).
Qed.

(** ** The calls *)

Lemma still_prepared ctx actor name target pid body : keeps still (prepared world ctx actor name target pid body).
Proof. apply still_tables, undisturbed_rows, prepareProvenance_calm; apply _. Qed.

Lemma still_freeze actor pid : keeps still (on_tables (OwnerFreezeRefusal service actor pid)).
Proof. apply still_asks. unfold OwnerFreezeRefusal. apply read_transaction_reads; apply _. Qed.

Lemma still_authorize ctx actor pid cap : keeps still (on_tables (Service_Authorize service ctx actor pid cap)).
Proof. apply still_tables, undisturbed_rows, Service_Authorize_calm; apply _. Qed.

Lemma reads_transaction {A} zero (body : RM A) : reads (transaction world zero read_only body).
Proof.
  intros w. destruct (transaction world zero read_only body w) as [w' r] eqn:F.
  apply (transaction_outcome world) in F; [|done]. destruct r as [a|e]; [|by subst]. destruct F as [_ Ro]. by apply Ro.
Qed.

Lemma sourced_one_write (P : Project -> roadmap -> roadmap -> Prop) check ctx actor name target pid key body action access resolver
  (write : Project -> RM (ChangeSet * Z)) w w' r :
  reads access -> (forall id p, reads (resolver id p)) -> (forall p w w' a, write p w = (w', Ok a) -> P p w w') ->
  run_sourced world checks check ctx actor name target pid key body action access resolver write w = (w', r) ->
  one_write pid P w w'.
Proof.
  intros Ra Rr HP F. eapply (checked_one_write P) in F; [exact F|done| |].
  - intros decode E o b. injection E as <-. apply keeps_bind; [by apply still_reads|intros _].
    by apply still_reads, reads_operation_sources.
  - intros p w1 w2 a (w3 & [c status] & F' & G)%bind_ok. injection G as <- _. by eapply HP.
Qed.

Lemma guarded_one_write pid P (c : bool) err (k : unit -> RM (string * Z * bool)) :
  (forall w w' r, k tt w = (w', r) -> one_write pid P w w') ->
  forall w w' r, (refuse_if c err ≫= k) w = (w', r) -> one_write pid P w w'.
Proof. intros K w w' r. destruct c; [|by apply K]. intros F. injection F as <- _. by left. Qed.

(** The answer of a write, as its run hands it on. *)
Lemma answer_ok {A B} (m : RM A) (f : A -> B) w w' b : (a ← m; mret (f a)) w = (w', Ok b) -> exists a, m w = (w', Ok a).
Proof. intros (w1 & a & F & G)%bind_ok. injection G as <- _. by exists a. Qed.

Lemma reads_assess_sources id p : reads (resolve_assessed world checks ports id p).
Proof.
  unfold resolve_assessed. apply keeps_bind; [by apply reads_change|intros change].
  apply keeps_bind; [apply reads_semantic_sources|intros ids]. apply keeps_bind; [apply reads_assessed|intros; apply keeps_ret].
Qed.

Lemma reads_stabilization_sources id p : reads (resolveStabilizationTasks world id p).
Proof. unfold resolveStabilizationTasks. apply keeps_bind; [by apply reads_tasks|intros tasks; apply keeps_ret]. Qed.

Lemma still_sources actor pid ids : keeps still (on_tables (checkSources service actor pid ids)).
Proof. apply still_tables, undisturbed_rows, checkSources_calm; apply _. Qed.

Lemma still_recheck ctx actor pid id : keeps still (recheckImpactPreflight world ports ctx actor pid id).
Proof.
  unfold recheckImpactPreflight. destruct (ip_preflight ports) as [recheck|] eqn:E; [|apply keeps_fail].
  apply keeps_bind; [apply still_tables, (project_rows (world := world) (changes := changes))|intros p].
  apply keeps_bind; [apply still_tables; by apply (preflight_rows (world := world) (ports := ports) (changes := changes))|intros proof].
  apply keeps_bind; [apply keeps_refuse_if|intros _]. apply keeps_bind; [apply still_sources|intros; apply keeps_ret].
Qed.

Lemma checked_impact_one_write (P : Project -> roadmap -> roadmap -> Prop) ctx actor name target key body refs pid action resolver
  (write : Project -> RM (roadmap_any * Z)) w w' r :
  (forall id p, reads (resolver id p)) -> (forall p w w' a, write p w = (w', Ok a) -> P p w w') ->
  checkedImpactWrite world checks ctx actor name target key body refs (project_request actor pid action) resolver write w = (w', r) ->
  one_write pid P w w'.
Proof.
  intros Rr HP. revert w w' r. apply one_write_bind; [apply still_reads, reads_transaction|intros [basis states]].
  apply one_write_bind; [apply keeps_map_error, still_sources|intros _ w w' r F].
  eapply (checked_one_write P) in F; [exact F|done| |].
  - intros decode E o b. injection E as <-. by apply still_reads, reads_operation_sources.
  - intros p w1 w2 a (w3 & [value status] & F' & G)%bind_ok. injection G as <- _.
    apply bind_ok in F' as (w4 & u1 & [_ ->]%refuse_if_ok & F'). apply bind_ok in F' as (w4 & u2 & U & F').
    apply reads_ok in U as ->; [|by apply reads_unchanged]. by eapply HP.
Qed.

Lemma change_call_outcome ctx call w w' r : serve_change ctx call w = (w', r) ->
  one_write (call_project call) (change_business call) w w'.
Proof.
  destruct call as [actor pid key input|actor pid key input|actor pid changeID key input|actor pid changeID key|actor pid changeID key
    |actor pid changeID key|actor pid changeID key|actor pid changeID key|actor pid changeID key]; cbn [serve_change call_project]; revert w w' r.
  - apply one_write_bind; [apply keeps_returned|intros _]. apply one_write_bind; [destruct (match _ with Some _ => _ | None => _ end);
      [apply still_prepared|apply keeps_ret]|intros ctx' w w' r]. apply sourced_one_write; [apply reads_source_entry|apply reads_create_sources|].
    intros p w1 w2 a (c & F)%answer_ok. by eapply business_create.
  - apply one_write_bind; [apply keeps_returned|intros _ w w' r]. apply sourced_one_write; [apply keeps_ret|apply reads_draft_sources|].
    intros p w1 w2 a (c & F)%answer_ok. by eapply business_draft.
  - apply one_write_bind; [apply keeps_returned|intros _]. apply one_write_bind; [by apply still_tables, undisturbed_rows, prepareCached_calm; apply _|].
    intros [ctx1 cached]. apply one_write_bind; [destruct cached; [apply keeps_ret|apply still_prepared]|intros ctx2 w w' r].
    apply sourced_one_write; [apply reads_inverse_access|apply reads_draft_sources|].
    intros p w1 w2 a (c & F)%answer_ok. by eapply business_edit.
  - apply guarded_one_write. apply one_write_bind; [apply still_reads, reads_human|intros _].
    apply one_write_bind; [apply still_freeze|intros _]. apply one_write_bind; [apply still_authorize|intros _].
    apply one_write_bind; [apply still_reads, reads_transaction|intros _]. apply one_write_bind; [apply still_prepared|intros ctx' w w' r].
    apply sourced_one_write; [apply keeps_ret|apply reads_apply_sources|]. intros p w1 w2 [c status] F. by eapply business_apply.
  - apply guarded_one_write. apply one_write_bind; [apply still_freeze|intros _ w w' r].
    apply checked_one_write; [done|done|]. intros p w1 w2 a (c & F)%answer_ok. by eapply business_reject.
  - apply guarded_one_write. apply one_write_bind; [apply still_prepared|intros ctx' w w' r].
    apply sourced_one_write; [apply reads_inverse_access|apply reads_stored_sources|].
    intros p w1 w2 a (c & F)%answer_ok. by eapply business_reassess.
  - apply guarded_one_write. apply one_write_bind; [apply still_reads, reads_human|intros _].
    apply one_write_bind; [apply still_prepared|intros ctx' w w' r]. apply checked_one_write; [done| |].
    + intros decode E o b. injection E as <-. apply still_reads, reads_reverse_sources.
    + intros p w1 w2 a (c & F)%answer_ok. by eapply business_reverse.
  - intros w w' r. apply checked_one_write; [done| |].
    + intros decode E o b. injection E as <-. apply still_reads, keeps_bind; [apply reads_inverse_access|intros _].
      apply reads_operation_sources. intros id p. apply reads_assess_sources.
    + intros p w1 w2 a (c & F)%answer_ok. by eapply business_assess_change.
  - apply one_write_bind; [apply still_reads, reads_human|intros _].
    apply one_write_bind; [apply still_reads, reads_transaction|intros [[proofIDs evidence] sources]].
    apply one_write_bind; [apply still_sources|intros _].
    apply one_write_bind; [apply keeps_rm_traverse; intros; apply still_recheck|intros proofs w w' r].
    apply checked_impact_one_write; [intros; apply reads_stabilization_sources|].
    intros p w1 w2 a (c & F)%answer_ok. by eapply business_stabilize_change.
Qed.
End Calls.
