(* ===== verification/ChangePort.v ===== *)
(** What the roadmap asks of the drafting of change sets, a commit that hands
    its session over: the operation leaves the roadmap alone. *)

From stdpp Require Import pretty sorting.
From S2P Require Import Prelude Effects OperationCore OperationStore OperationTheorems OperationEffect Workspace Permission PermissionTheorems MemberStore MemberLaws Membership MembershipLaws OperationRunner RunnerLaws RunnerTheorems RoadmapModel RoadmapStore RouteObjects Templates Roadmap RoadmapLaws RoadmapHistory RoadmapSound RoadmapCommit RoadmapSteps RouteLaws ImpactStore ImpactStoreLaws Lineage Assessment AssessmentLaws Stabilization StabilizationSteps Impact ImpactService FaultInjection ImpactLaws ImpactWrites ImpactMoves ImpactCalls ImpactRaising ChangeStore ChangeDrafts ChangeApply ChangeInverse ChangeService ChangeLaws ChangeWrites ChangeApplied ChangeCalls.

Section Port.
Context {X : Type} `{Digester roadmap_any} (world : World X) `{!WorldLaws world} (checks : Checks) `{!ChecksLaws checks}
  (ports : ImpactPorts X) (changes : ChangePorts X) `{!ChangePortLaws world ports changes}.

(** The client's view of the operation: the change set its answer decodes to, by
    its id and base revision. *)
Definition drafted_change (decode : string -> res error ChangeSet) (ctx : Context X) (actor : Actor) (pid key : string)
  (input : ExtendedChangeSetInput) : RM (string * Z) :=
  '(body, _, _) ← Service_CreateChangeDraft world checks ports changes ctx actor pid key input;
  change ← of_result (decode body);
  mret (ch_ID change, ch_BaseContextRevision change).

Lemma own_reads {A} (m : RM A) : reads m -> keeps own m.
Proof. intros R w. by rewrite (reads_run m w R). Qed.

Lemma own_result {A} (r : res error A) : keeps own (of_result r).
Proof. by destruct r. Qed.

Lemma own_pin ctx actor p delta : keeps own (pin world checks ports changes ctx actor p delta).
Proof.
  unfold pin. apply keeps_bind; [apply on_tables_own|intros _].
  apply keeps_bind; [destruct (_ =? _)%string; [apply on_tables_own|apply keeps_ret]|intros _].
  apply keeps_bind; [by apply own_reads, (reads_expected world checks)|intros value].
  apply keeps_bind; [by apply own_reads, (reads_proposal world ports changes)|intros _].
  apply keeps_bind; [apply on_tables_own|intros named].
  apply keeps_bind; [by apply own_reads, (reads_proposal_inputs world)|intros; apply keeps_ret].
Qed.

Lemma own_pin_each ctx actor p seen deltas : keeps own (pin_each world checks ports changes ctx actor p seen deltas).
Proof.
  revert seen. induction deltas as [|delta deltas IH]; intros seen; cbn; [apply keeps_ret|].
  apply keeps_bind; [apply keeps_refuse_if|intros _]. apply keeps_bind; [apply own_pin|intros first].
  apply keeps_bind; [apply IH|intros; apply keeps_ret].
Qed.

Lemma own_plan pid id plan : keeps own (SaveSemanticPlan world pid id plan).
Proof.
  unfold SaveSemanticPlan. apply keeps_bind; [by apply own_reads, keeps_attempt, reads_row|].
  intros [row|e]; [by apply keeps_swap_record|]. case_decide; [by apply keeps_insert_record|apply keeps_fail].
Qed.

Lemma own_insert change : keeps own (InsertChangeSet world changes change).
Proof.
  unfold InsertChangeSet, recordChangeProvenance. apply keeps_bind; [|intros _].
  - apply keeps_bind; [apply on_tables_own|intros [|]]; [apply keeps_ret|].
    apply keeps_bind; [apply on_tables_own|intros p]. apply keeps_bind; [apply keeps_refuse_if|intros _].
    apply keeps_bind; [apply on_tables_own|intros snapshot]. apply on_tables_own.
  - intros w. unfold rm_statement. destruct (db_fault _ _ _); [done|]. by destruct (rm_changes w !! ch_ID change).
Qed.

Lemma own_draft ctx actor pid source input p : keeps own (create_draft world checks ports changes ctx actor pid source input p).
Proof.
  unfold create_draft. apply keeps_bind; [apply keeps_refuse_if|intros _].
  apply keeps_bind; [destruct (_ =? _)%string; [apply keeps_ret|apply keeps_bind; [by apply own_reads, reads_validate_lineage|intros; apply keeps_ret]]|intros _].
  apply keeps_bind; [apply keeps_returned|intros _]. apply keeps_bind; [by apply keeps_here|intros [id now]].
  apply keeps_bind; [apply keeps_refuse_if|intros _].
  apply keeps_bind; [apply keeps_rm_traverse; intros; unfold affected_chapter; apply keeps_bind; [apply on_tables_own|intros; by apply keeps_here]|intros impacts].
  apply keeps_bind; [unfold PinSemanticDeltas; apply keeps_bind; [apply on_tables_own|intros _]; apply keeps_bind; [apply own_pin_each|intros pinned];
    apply keeps_bind; [apply own_plan|intros; apply keeps_ret]|intros pinned].
  apply keeps_bind; [apply own_insert|intros _]. apply keeps_bind; [apply on_tables_own|intros _].
  apply keeps_bind; [apply audit_own|intros; apply keeps_ret].
Qed.

#[local] Instance own_preorder : PreOrder (unmoved own).
Proof. apply unmoved_preorder. Qed.

Theorem drafting_leaves_the_roadmap decode ctx actor pid key input : keeps own (drafted_change decode ctx actor pid key input).
Proof.
  apply keeps_bind; [|intros [[body status] replayed]; apply keeps_bind; [apply own_result|intros; apply keeps_ret]].
  unfold Service_CreateChangeDraft. apply keeps_bind; [apply keeps_returned|intros _].
  intros w. destruct (run_sourced _ _ _ _ _ _ _ _ _ _ _ _ _ _ w) as [w' r] eqn:F. unfold run_sourced in F.
  apply (checked_outcome world RunnerLaws.settled (unmoved own)) in F;
    [|intros A m C; apply on_tables_own|intros; apply calm_checked, pipeline_calm; apply _|intros; apply calm_settled, emit_calm|done|].
  - assert (unmoved own w w' \/ ran_under world (unmoved own) (project_request actor pid "write")
      (fun p => '(change, status) ← created (create_draft world checks ports changes ctx actor pid "" input) p; mret (AnyChange change, "", status)) w w')
      as [S|(wa & w0 & w1 & p & a & E0 & Ep & E1 & Fw & E2)] by (destruct r as [[[? ?] [|]]|?]; auto); [done|].
    assert (own w1 = own w0) as E.
    { apply (keeps_run own) in Fw; [done|]. apply keeps_bind; [|intros [? ?]; apply keeps_ret].
      apply keeps_bind; [apply own_draft|intros; apply keeps_ret]. }
    unfold unmoved in *. cbn in *. congruence.
  - intros decode' E o b. injection E as <-. apply keeps_bind; [apply keeps_ret|intros _].
    apply own_reads, (reads_operation_sources world checks). intros id p. by apply (reads_draft_sources world checks ports changes).
Qed.
End Port.
