(* ===== verification/ChangeHistory.v ===== *)
(** Change sets over every history of calls: the moves of each row, the rows
    that are born, and the revisions: one change set makes each revision of a
    project, an applied one being the one that took its project from its base
    to the next. *)

From stdpp Require Import pretty sorting.
From S2P Require Import Prelude Effects OperationCore OperationStore OperationTheorems OperationEffect Workspace Permission PermissionTheorems MemberStore MemberLaws Membership MembershipLaws OperationRunner RunnerLaws RoadmapModel RoadmapStore RouteObjects Templates Roadmap RoadmapLaws RoadmapHistory RoadmapSound RoadmapCommit RoadmapSteps RouteLaws ImpactStore ImpactStoreLaws Lineage Assessment AssessmentLaws Stabilization StabilizationSteps Impact ImpactService FaultInjection ImpactLaws ImpactWrites ImpactMoves ImpactCalls ImpactExact ImpactRaising ChangeStore ChangeDrafts ChangeApply ChangeInverse ChangeService ChangeLaws ChangeWrites ChangeApplied ChangeCalls.

(** ** Moves of a row *)

(** The moves a row makes: every declared one but those that make a successor. *)
Definition row_move (from to : string) : Prop := exists move declared, negb (contains ["reassess"; "satisfy"] move) = true
  /\ ChangeSetStatusMoves !! move = Some declared /\ from ∈ mv_From declared /\ to = mv_To declared.

(** Who a change set is, and what was decided and asked for with it. *)
Definition identity_of (row : ChangeSet) :=
  (ch_ID row, ch_ProjectID row, ch_CreatedBy row, ch_BaseContextRevision row, ch_BaseSpecRevision row, ch_CreatedAt row).
Definition answer_of (row : ChangeSet) :=
  (ch_Reason row, ch_Fields row, ch_TemplateUpgrade row, ch_ReassessedFromID row, ch_ReversesChangeSetID row, ch_StaleReason row,
   ch_DecisionBy row, ch_DecidedAt row, ch_TargetContextRevision row, ch_TargetSpecRevision row, ch_AppliedAt row).

Definition editable : list string := [ChangeSetStatusDraft; ChangeSetStatusAssessed].
Definition final : list string :=
  [ChangeSetStatusStabilized; ChangeSetStatusRejected; ChangeSetStatusStale; ChangeSetStatusSatisfied].
Definition birth : list string := [ChangeSetStatusDraft; ChangeSetStatusAssessed; ChangeSetStatusSatisfied].

Record row_step (row row' : ChangeSet) : Prop := {
  rs_identity : identity_of row' = identity_of row;
  rs_move : row_move (ch_Status row) (ch_Status row');
  rs_answer : ch_Status row ∉ editable -> answer_of row' = answer_of row
}.

(** What a status may become, by the table. *)
Lemma row_moves from to : row_move from to ->
  (from ∈ editable /\ to ∈ editable ++ [ChangeSetStatusApplied; ChangeSetStatusRejected; ChangeSetStatusStale])
  \/ (from = ChangeSetStatusApplied /\ to = ChangeSetStatusStabilized).
Proof.
  intros (move & declared & N & E & Hin & ->). apply elem_of_list_to_map_2 in E.
  assert (from ∈ editable /\ mv_To declared ∈ editable ++ [ChangeSetStatusApplied; ChangeSetStatusRejected; ChangeSetStatusStale]
          \/ from = ChangeSetStatusApplied /\ mv_To declared = ChangeSetStatusStabilized
          \/ contains ["reassess"; "satisfy"] move = true) as [C|[C|C]]; [|by left|by right|by rewrite C in N].
  clear N. revert E. unfold editable in *. rewrite !elem_of_cons. intros E.
  repeat (destruct E as [E|E]; [injection E as -> ->; cbn in Hin |- *; rewrite ?elem_of_cons in Hin;
    repeat (destruct Hin as [->|Hin]); try (by apply not_elem_of_nil in Hin);
    first [left; split; by apply (bool_decide_unpack _) | right; left; by split | right; right; reflexivity]|]).
  by apply not_elem_of_nil in E.
Qed.

Lemma final_stays from to : row_move from to -> from ∈ final -> False.
Proof.
  intros [[E _]|[-> _]]%row_moves F.
  - revert F. unfold editable in E. rewrite !elem_of_cons in E. destruct E as [->|[->|[]%not_elem_of_nil]]; intros F; by apply (bool_decide_pack _) in F.
  - by apply (bool_decide_pack _) in F.
Qed.

Lemma final_row row row' : rtc row_step row row' -> ch_Status row ∈ final -> row' = row.
Proof. intros [s|s m t S _] F; [done|]. by apply rs_move, final_stays in S. Qed.

Lemma applied_row row row' : rtc row_step row row' -> ch_Status row = ChangeSetStatusApplied ->
  answer_of row' = answer_of row /\ ch_Status row' ∈ ChangeSetClosedStatuses.
Proof.
  intros [s|s m t S R] F; [split; [done|rewrite F; by left]|].
  assert (ch_Status m = ChangeSetStatusStabilized) as Em.
  { pose proof (rs_move _ _ S) as [[E _]|[_ E]]%row_moves; [|done]. rewrite F in E. by apply (bool_decide_pack _) in E. }
  assert (t = m) as -> by (eapply final_row; [exact R|]; rewrite Em; by left).
  split; [|rewrite Em; right; by left]. apply (rs_answer _ _ S). rewrite F. intros E. by apply (bool_decide_pack _) in E.
Qed.

(** ** What one step does to the rows *)

(** Nothing, a birth, or the move of one row. *)
Inductive rows_step (w w' : roadmap) : Prop :=
| rows_same : rm_changes w' = rm_changes w -> rows_step w w'
| rows_born c : rm_changes w !! ch_ID c = None -> ch_Status c ∈ birth ->
    rm_changes w' = <[ch_ID c := c <| ch_SemanticDeltas := [] |>]> (rm_changes w) -> rows_step w w'
| rows_moved id row row' : rm_changes w !! id = Some row -> row_step row row' ->
    rm_changes w' = <[id := row']> (rm_changes w) -> rows_step w w'.

Lemma rows_before w w0 w1 w' : rm_changes w0 = rm_changes w -> rows_step w0 w1 -> rm_changes w' = rm_changes w1 -> rows_step w w'.
Proof.
  intros E0 S E1. destruct S as [E|c N St E|id row row' F S E]; rewrite ?E0 in *; rewrite <- ?E1 in *.
  - by apply rows_same.
  - by eapply rows_born.
  - by eapply rows_moved.
Qed.

Lemma rows_inserted c w w' : inserted c w w' -> ch_Status c ∈ birth -> rows_step w w'.
Proof. intros [N E] B. eapply rows_born; [exact N|exact B|]. exact (f_equal fst E). Qed.

Section History.
Context {X : Type} `{Digester roadmap_any} (world : World X) `{!WorldLaws world} (checks : Checks) `{!ChecksLaws checks}
  (ports : ImpactPorts X) (changes : ChangePorts X) `{!ChangePortLaws world ports changes}.
Abbreviation db := (sv_db (wd_service world)).

(** A change set that was read, and the move made on it. *)
Lemma viewed pid id w w' old : changes_keyed w -> Store_ChangeSet world checks pid id w = (w', Ok old) ->
  exists row, rm_changes w !! id = Some row /\ ch_ID old = id /\ ch_ProjectID row = pid /\ ch_ProjectID old = pid
  /\ identity_of old = identity_of row /\ answer_of old = answer_of row /\ ch_Status old = ch_Status row
  /\ (ch_Status row <> ChangeSetStatusApplied -> ch_Impacts old = ch_Impacts row).
Proof.
  intros K (row & F & P & plan & impacts & -> & Im)%view_ok. exists row. pose proof (K _ _ F) as Ei. by destruct row.
Qed.

Lemma can_move move from to : ChangeSetStatusCanMove move from = true -> negb (contains ["reassess"; "satisfy"] move) = true ->
  mv_To <$> ChangeSetStatusMoves !! move = Some to -> row_move from to.
Proof.
  unfold ChangeSetStatusCanMove. intros C N E. destruct (ChangeSetStatusMoves !! move) as [declared|] eqn:D; [|done].
  injection E as <-. apply contains_spec in C. by exists move, declared.
Qed.

Lemma rows_moved_to pid id w w' old next : changes_keyed w -> Store_ChangeSet world checks pid id w = (w, Ok old) ->
  moved_to old next w w' -> row_move (ch_Status old) (ch_Status next) ->
  (ch_Status old ∉ editable -> answer_of next = answer_of old) -> rows_step w w'.
Proof.
  intros K V M Mv An. apply viewed in V as (row & F & Ei & _ & _ & _ & Ea & Es & _); [|done].
  destruct M as (row' & F' & _ & _ & E). rewrite Ei in F', E. assert (row' = row) as -> by congruence.
  apply (rows_moved _ _ id row (updated_row row next)); [done| |exact (f_equal fst E)].
  split; [by destruct row|by rewrite <- Es|]. rewrite <- Es. intros N. rewrite <- Ea, <- (An N). by destruct row, next.
Qed.

Lemma stale_move from : ChangeSetStatusCanMove "apply" from = true -> row_move from ChangeSetStatusStale.
Proof. intros C. by apply (can_move "markStale"). Qed.

(** What a write asks of a move: nothing of a change set that is decided. *)
Lemma editable_move move from : ChangeSetStatusCanMove move from = true -> contains ["apply"; "reject"; "editDraft"; "assess"] move = true ->
  from ∈ editable.
Proof.
  intros C [->|[->|[->|[->|[]%not_elem_of_nil]%elem_of_cons]%elem_of_cons]%elem_of_cons]%contains_spec%elem_of_cons.
  - change (contains [ChangeSetStatusAssessed] from = true) in C. apply contains_spec, list_elem_of_singleton in C as ->. right. by left.
  - change (contains [ChangeSetStatusAssessed] from = true) in C. apply contains_spec, list_elem_of_singleton in C as ->. right. by left.
  - by apply contains_spec in C.
  - by apply contains_spec in C.
Qed.

Lemma business_rows call p w w' : changes_keyed w -> change_business world checks ports changes call p w w' -> rows_step w w'.
Proof.
  intros K B. revert K. destruct B as [ctx actor pid key input q w1 w2 c F|ctx actor pid key input q w1 w2 c F|ctx actor pid changeID key input q w1 w2 c F
    |ctx actor pid changeID key q w1 w2 c status F|actor pid changeID key q w1 w2 c F|ctx actor pid changeID key q w1 w2 c F
    |ctx actor pid changeID key q w1 w2 c F|actor pid changeID key q w1 w2 c F|ctx actor pid changeID key proofs proofIDs evidence q w1 w2 result F]; intros K.
  - apply (create_assessed_ok world checks ports changes) in F as ([I B] & _). by eapply rows_inserted; [|apply (bn_status _ _ _ _ _ _ _ B)].
  - apply (create_draft_ok world checks ports changes) in F as ([I B] & _). by eapply rows_inserted; [|apply (bn_status _ _ _ _ _ _ _ B)].
  - apply (edit_ok world checks ports changes) in F as (old & V & M & _ & _ & _ & Mv & St & _).
    eapply rows_moved_to; [exact K|exact V|exact Mv| |].
    + rewrite St. by eapply (can_move "editDraft").
    + intros N. by destruct N; eapply editable_move.
  - apply (apply_ok world checks ports changes) in F as (_ & old & V & O).
    destruct O as [Es ->|reason w0 M _ _ Mv|w0 c M S0 _ _ Co]; [by apply rows_same| |].
    + eapply rows_moved_to; [exact K|exact V|exact Mv|by apply stale_move|]. intros N. by destruct N; eapply editable_move.
    + destruct (co_next _ _ _ _ _ _ _ _ _ _ _ Co) as (next & now & b & -> & (row & Fr & Ep & Es & E & _) & _).
      apply still_split in S0 as [S0 _]. rewrite S0 in Fr, E.
      eapply (rows_moved_to pid changeID w1 (w1 <| rm_changes := rm_changes w2 |>) old (applied actor next now old)) in K as R; [|exact V| | |].
      * destruct R as [R|c N St R|id r r' Fr' S' R]; [by apply rows_same|by eapply rows_born|by eapply rows_moved].
      * exists row. split_and!; try done. by rewrite E.
      * by eapply (can_move "apply").
      * intros N. by destruct N; eapply editable_move.
  - apply (reject_ok world checks) in F as (_ & old & V & [(_ & _ & ->)|(M & now & -> & Mv)]); [by apply rows_same|].
    eapply rows_moved_to; [exact K|exact V|exact Mv|by eapply (can_move "reject")|]. intros N. by destruct N; eapply editable_move.
  - apply (reassess_ok world checks ports changes) in F as ([I B] & _). by eapply rows_inserted; [|apply (bn_status _ _ _ _ _ _ _ B)].
  - apply (inverse_ok world checks ports changes) in F as (source & _ & _ & _ & _ & [I B] & _). by eapply rows_inserted; [|apply (bn_status _ _ _ _ _ _ _ B)].
  - apply (assess_change_ok world checks ports changes) in F as (old & V & M & Mv).
    eapply rows_moved_to; [exact K|exact V|exact Mv|by eapply (can_move "assess")|]. intros N. by destruct N; eapply editable_move.
  - apply (stabilize_change_ok world checks) in F as [[E _]%still_split|(old & V & Ea & Tg & Mv)]; [by apply rows_same|].
    eapply rows_moved_to; [exact K|exact V|exact Mv| |done]. rewrite Ea. by eapply (can_move "stabilize").
Qed.
End History.

(** * Every history of calls *)

Section Calls.
Context {X : Type} `{Digester roadmap_any} (world : World X) `{!WorldLaws world} (checks : Checks) `{!ChecksLaws checks}
  (ports : ImpactPorts X) (changes : ChangePorts X) `{!ChangePortLaws world ports changes}.
Abbreviation db := (sv_db (wd_service world)).

(** No project of [w'] is at an earlier revision than in [w]. *)
Definition revisions_grow (w w' : roadmap) : Prop :=
  forall pid row, rows w !! pid = Some row -> exists row', rows w' !! pid = Some row'
  /\ row_CurrentContextRevision row <= row_CurrentContextRevision row'.

(** A call on change sets, or anything else the program does: it leaves the
    change sets alone and takes no project back. *)
Inductive change_step (w w' : roadmap) : Prop :=
| change_served ctx call r : serve_change world checks ports changes ctx call w = (w', r) -> change_step w w'
| change_elsewhere : rm_changes w' = rm_changes w -> revisions_grow w w' -> change_step w w'.

Lemma step_rows w w' : changes_keyed w -> change_step w w' -> rows_step w w'.
Proof.
  intros K [ctx call r F|E _]; [|by apply rows_same].
  apply (change_call_outcome world checks ports changes) in F as [[E _]%still_split|(p & w0 & w1 & _ & E0 & B & E1)]; [by apply rows_same|].
  apply still_split in E0 as [E0 _], E1 as [E1 _].
  eapply rows_before; [exact E0| |exact E1]. apply (business_rows world checks ports changes call p); [|exact B]. unfold changes_keyed. by rewrite E0.
Qed.

Lemma rows_keyed w w' : rows_step w w' -> changes_keyed w -> changes_keyed w'.
Proof.
  intros [E|c N St E|id row row' F S E] K i c' Fi; rewrite E in Fi; [by eapply K| |].
  - apply lookup_insert_Some in Fi as [[<- <-]|[_ Fi]]; [by destruct c|by eapply K].
  - apply lookup_insert_Some in Fi as [[<- <-]|[_ Fi]]; [|by eapply K]. pose proof (rs_identity _ _ S) as Ei.
    unfold identity_of in Ei. injection Ei as -> _. by apply K.
Qed.

Lemma rows_forward w w' id row : rows_step w w' -> rm_changes w !! id = Some row ->
  exists row', rm_changes w' !! id = Some row' /\ rtc row_step row row'.
Proof.
  intros [E|c N St E|id' row0 row' F0 S E] F; rewrite E.
  - exists row. by split; [|constructor].
  - exists row. split; [|constructor]. rewrite lookup_insert_ne; [done|]. intros <-. congruence.
  - destruct (decide (id' = id)) as [->|N]; [|exists row; split; [by rewrite lookup_insert_ne|constructor]].
    exists row'. rewrite lookup_insert_eq. split; [done|]. apply rtc_once. by assert (row0 = row) as <- by congruence.
Qed.

Lemma rows_backward w w' id row' : rows_step w w' -> rm_changes w' !! id = Some row' ->
  (exists row, rm_changes w !! id = Some row) \/ (rm_changes w !! id = None /\ ch_Status row' ∈ birth).
Proof.
  intros [E|c N St E|id' row0 row1 F0 S E] F; rewrite E in F.
  - left. by exists row'.
  - apply lookup_insert_Some in F as [[<- <-]|[_ F]]; [|left; by exists row']. right. split; [done|]. by destruct c.
  - apply lookup_insert_Some in F as [[<- <-]|[_ F]]; left; [by exists row0|by exists row'].
Qed.
End Calls.

Definition closed (row : ChangeSet) : Prop := ch_Status row ∈ ChangeSetClosedStatuses.

(** The project of a change set, the revision it was made on and the one it
    made. *)
Definition revision_of (row : ChangeSet) := (ch_ProjectID row, ch_BaseContextRevision row, ch_TargetContextRevision row).

Record revisions_ok (w : roadmap) : Prop := {
  rv_made : forall id row, rm_changes w !! id = Some row -> closed row ->
    ch_TargetContextRevision row = Some (ch_BaseContextRevision row + 1)
    /\ exists project, rows w !! ch_ProjectID row = Some project /\ ch_BaseContextRevision row < row_CurrentContextRevision project;
  rv_once : forall id1 row1 id2 row2, rm_changes w !! id1 = Some row1 -> rm_changes w !! id2 = Some row2 -> closed row1 -> closed row2 ->
    ch_ProjectID row1 = ch_ProjectID row2 -> ch_TargetContextRevision row1 = ch_TargetContextRevision row2 -> id1 = id2
}.

(** Revisions are integers of 64 bits, and another one still fits. *)
Definition room (w : roadmap) : Prop :=
  forall pid row, rows w !! pid = Some row -> min_int64 <= row_CurrentContextRevision row < max_int64.

(** Every change set that is closed was so before, with the same revision. *)
Definition closed_before (w w' : roadmap) : Prop :=
  forall id row', rm_changes w' !! id = Some row' -> closed row' ->
    exists row, rm_changes w !! id = Some row /\ closed row /\ revision_of row' = revision_of row.

Lemma revision_fields row row' : revision_of row' = revision_of row ->
  ch_ProjectID row' = ch_ProjectID row /\ ch_BaseContextRevision row' = ch_BaseContextRevision row
  /\ ch_TargetContextRevision row' = ch_TargetContextRevision row.
Proof. unfold revision_of. intros E. injection E as -> -> ->. done. Qed.

Lemma revisions_before w w' : closed_before w w' -> revisions_grow w w' -> revisions_ok w -> revisions_ok w'.
Proof.
  intros B G [M O]. split.
  - intros id row' F C. destruct (B _ _ F C) as (row & F0 & C0 & (-> & -> & ->)%revision_fields).
    destruct (M _ _ F0 C0) as (T & project & P & L). split; [done|]. destruct (G _ _ P) as (project' & P' & L').
    exists project'. split; [done|lia].
  - intros id1 row1 id2 row2 F1 F2 C1 C2 Ep Et.
    destruct (B _ _ F1 C1) as (old1 & G1 & D1 & (P1 & _ & T1)%revision_fields), (B _ _ F2 C2) as (old2 & G2 & D2 & (P2 & _ & T2)%revision_fields).
    eapply O; [exact G1|exact G2|done|done|congruence|congruence].
Qed.

Lemma grow_refl w : revisions_grow w w.
Proof. intros pid row F. exists row. split; [done|lia]. Qed.

Lemma grow_same w w' : rows w' = rows w -> revisions_grow w w'.
Proof. intros E pid row F. exists row. rewrite E. split; [done|lia]. Qed.

Lemma closed_same w w' : rm_changes w' = rm_changes w -> closed_before w w'.
Proof. intros E id row F C. exists row. by rewrite <- E. Qed.

(** What leaves the rows of projects alone and closes nothing. *)
Definition quiet (w w' : roadmap) : Prop := closed_before w w' /\ rows w' = rows w.

Lemma quiet_revisions w w' : quiet w w' -> revisions_ok w -> revisions_ok w'.
Proof. intros [B E]. by apply revisions_before; [|apply grow_same]. Qed.

Lemma quiet_still w w' : still w' = still w -> quiet w w'.
Proof. intros [E1 E2]%still_split. split; [by apply closed_same|done]. Qed.

Lemma quiet_inserted c w w' : inserted c w w' -> ch_Status c ∈ birth -> quiet w w'.
Proof.
  intros [N E] B. split; [|exact (f_equal snd E)]. pose proof (f_equal fst E) as E1. cbn in E1.
  intros id row' F C. rewrite E1 in F. apply lookup_insert_Some in F as [[<- <-]|[_ F]]; [|by exists row'].
  exfalso. unfold closed, ChangeSetClosedStatuses in C. destruct c; cbn in *. revert C. unfold birth in B.
  rewrite !elem_of_cons in B. destruct B as [->|[->|[->|[]%not_elem_of_nil]]]; intros C; by apply (bool_decide_pack _) in C.
Qed.

Lemma quiet_moved old next w w' : changes_keyed w -> moved_to old next w w' ->
  (ch_Status next ∈ ChangeSetClosedStatuses -> ch_Status old ∈ ChangeSetClosedStatuses
     /\ forall row, rm_changes w !! ch_ID old = Some row -> ch_Status row = ch_Status old -> ch_TargetContextRevision next = ch_TargetContextRevision row) ->
  quiet w w'.
Proof.
  intros K (row & F & Ep & Es & E) Cl. split; [|exact (f_equal snd E)]. pose proof (f_equal fst E) as E1. cbn in E1.
  intros id row' F' C. rewrite E1 in F'. apply lookup_insert_Some in F' as [[<- <-]|[_ F']]; [|by exists row'].
  exists row. split; [done|]. destruct (Cl ltac:(by destruct row)) as [Co T]. split; [unfold closed; by rewrite Es|].
  unfold revision_of. rewrite <- (T row F Es). by destruct row.
Qed.

(** ** The next revision *)

Lemma revisions_applied id row row' project w w' : room w -> revisions_ok w ->
  rm_changes w !! id = Some row -> ~ closed row -> rows w !! ch_ProjectID row = Some project ->
  ch_ProjectID row' = ch_ProjectID row -> ch_BaseContextRevision row' = row_CurrentContextRevision project ->
  ch_TargetContextRevision row' = Some (row_CurrentContextRevision project +i 1) ->
  rm_changes w' = <[id := row']> (rm_changes w) ->
  (exists project', row_CurrentContextRevision project' = row_CurrentContextRevision project +i 1
     /\ rows w' = <[ch_ProjectID row := project']> (rows w)) ->
  revisions_ok w'.
Proof.
  intros R [M O] F N P Ep Eb Et E (project' & Er & E').
  pose proof (R _ _ P) as Rp. rewrite i64_id in Et, Er by solve_range.
  assert (forall id1 row1, rm_changes w !! id1 = Some row1 -> closed row1 -> ch_ProjectID row1 = ch_ProjectID row ->
    ch_TargetContextRevision row1 = Some (row_CurrentContextRevision project + 1) -> False) as Old.
  { intros id1 row1 F1 C1 P1 T1. destruct (M _ _ F1 C1) as (T & pr & Hp & L). rewrite P1, P in Hp. injection Hp as <-.
    rewrite T in T1. injection T1. lia. }
  split.
  - intros i r Fi C. rewrite E in Fi. rewrite E'. apply lookup_insert_Some in Fi as [[<- <-]|[_ Fi]].
    + split; [by rewrite Et, Eb|]. exists project'. rewrite Ep, lookup_insert_eq. split; [done|]. rewrite Er, Eb. lia.
    + destruct (M _ _ Fi C) as (T & pr & Hp & L). split; [done|].
      destruct (decide (ch_ProjectID r = ch_ProjectID row)) as [Eq|Ne].
      * exists project'. rewrite Eq, lookup_insert_eq. split; [done|]. rewrite Eq, P in Hp. injection Hp as <-. lia.
      * exists pr. by rewrite lookup_insert_ne.
  - intros i1 r1 i2 r2 F1 F2 C1 C2 P1 T1. rewrite E in F1, F2.
    apply lookup_insert_Some in F1 as [[<- <-]|[_ F1]], F2 as [[<- <-]|[_ F2]]; [done| | |by eapply O].
    + exfalso. eapply Old; [exact F2|done|congruence|congruence].
    + exfalso. eapply Old; [exact F1|done|congruence|congruence].
Qed.

Section Revisions.
Context {X : Type} `{Digester roadmap_any} (world : World X) `{!WorldLaws world} (checks : Checks) `{!ChecksLaws checks}
  (ports : ImpactPorts X) (changes : ChangePorts X) `{!ChangePortLaws world ports changes}.
Abbreviation db := (sv_db (wd_service world)).

Lemma decided_shown actor pid p w : decides actor p -> shown_as pid p w -> stored_project pid p w.
Proof. intros [O _ _]. unfold shown_as. destruct (pid =? "")%string; [|done]. by intros ->. Qed.

(** A view that is moved without being closed, or closed already and left its
    revision. *)
Lemma quiet_view pid id w old next : changes_keyed w -> Store_ChangeSet world checks pid id w = (w, Ok old) ->
  (ch_Status next ∈ ChangeSetClosedStatuses ->
     ch_Status old ∈ ChangeSetClosedStatuses /\ ch_TargetContextRevision next = ch_TargetContextRevision old) ->
  forall w', moved_to old next w w' -> quiet w w'.
Proof.
  intros K V Cl w' M. apply (quiet_moved old next); [done|done|]. intros C. destruct (Cl C) as [Co T]. split; [done|].
  intros row F _. apply (viewed world checks) in V as (row0 & F0 & Ei & _ & _ & _ & Ea & _); [|done].
  assert (row0 = row) as -> by (rewrite Ei in F; congruence). unfold answer_of in Ea. injection Ea. intros. congruence.
Qed.

Lemma quiet_open pid id w old next status : changes_keyed w -> Store_ChangeSet world checks pid id w = (w, Ok old) ->
  ch_Status next = status -> negb (contains ChangeSetClosedStatuses status) = true -> forall w', moved_to old next w w' -> quiet w w'.
Proof.
  intros K V <- N. eapply quiet_view; [exact K|exact V|]. intros C. apply contains_spec in C. by rewrite C in N.
Qed.

(** An apply that was carried out made the next revision of its project. *)
Lemma carried_revisions ctx actor pid changeID p old w w0 w' c : changes_keyed w -> room w -> revisions_ok w ->
  Store_ChangeSet world checks pid changeID w = (w, Ok old) -> decides actor p -> shown_as pid p w ->
  ChangeSetStatusCanMove "apply" (ch_Status old) = true -> still w0 = still w -> base_moved p old = false ->
  carried_out world checks ports changes ctx actor p old w0 w' c -> revisions_ok w'.
Proof.
  intros K R Ok V D Sh Mv [S1 S2]%still_split Bm Co. apply (decided_shown actor) in Sh; [|done].
  destruct Sh as (Ep & project & Fp & Rp & _). apply (viewed world checks) in V as (row & F & Ei & Pr & Po & Id & _ & Es & _); [|done].
  destruct (co_next _ _ _ _ _ _ _ _ _ _ _ Co) as (next & now & b & -> & (row0 & F0 & _ & _ & E & (prow & spec & meta & _ & Fq & _ & _ & E')) & St & _).
  rewrite S1 in F0, E. rewrite S2 in Fq, E'. assert (row0 = row) as -> by (rewrite Ei in F0; congruence).
  rewrite Ep in Fq, E'. assert (prow = project) as -> by (unfold rows in Fq; congruence).
  unfold base_moved in Bm. split_bools. rewrite Ei in E. unfold identity_of in Id. injection Id as I1 I2 I3 I4 I5 I6.
  eapply (revisions_applied changeID row _ project w w'); [done|done|done| |by rewrite Pr| | | |exact E|].
  - unfold closed. rewrite <- Es. intros C. eapply editable_move in Mv; [|done]. revert C. unfold editable in Mv.
    rewrite !elem_of_cons in Mv. destruct Mv as [->|[->|[]%not_elem_of_nil]]; intros C; by apply (bool_decide_pack _) in C.
  - by destruct row.
  - destruct row. cbn in *. congruence.
  - pose proof (st_context _ _ _ St) as Tc. destruct row. cbn. by rewrite Tc, Rp.
  - eexists. split; [|rewrite Pr; exact E']. cbn. by rewrite (st_context _ _ _ St), Rp.
Qed.

Lemma business_revisions call p w w' : changes_keyed w -> room w -> shown_as (call_project call) p w -> revisions_ok w ->
  change_business world checks ports changes call p w w' -> revisions_ok w'.
Proof.
  intros K R Sh Ok B. revert K R Sh Ok.
  destruct B as [ctx actor pid key input q w1 w2 c F|ctx actor pid key input q w1 w2 c F|ctx actor pid changeID key input q w1 w2 c F
    |ctx actor pid changeID key q w1 w2 c status F|actor pid changeID key q w1 w2 c F|ctx actor pid changeID key q w1 w2 c F
    |ctx actor pid changeID key q w1 w2 c F|actor pid changeID key q w1 w2 c F|ctx actor pid changeID key proofs proofIDs evidence q w1 w2 result F];
    intros K R Sh Ok.
  - apply (create_assessed_ok world checks ports changes) in F as ([I B] & _). eapply quiet_revisions; [|done]. by eapply quiet_inserted; [|apply (bn_status _ _ _ _ _ _ _ B)].
  - apply (create_draft_ok world checks ports changes) in F as ([I B] & _). eapply quiet_revisions; [|done]. by eapply quiet_inserted; [|apply (bn_status _ _ _ _ _ _ _ B)].
  - apply (edit_ok world checks ports changes) in F as (old & V & _ & _ & _ & _ & Mv & St & _). eapply quiet_revisions; [|done]. by refine (quiet_open _ _ _ _ _ _ K V St _ _ Mv).
  - apply (apply_ok world checks ports changes) in F as (D & old & V & O).
    destruct O as [_ ->|reason w0 M _ _ Mv|w0 c M S0 Bm _ Co]; [done| |by eapply carried_revisions].
    eapply quiet_revisions; [|done]. by refine (quiet_open _ _ _ _ _ _ K V _ _ _ Mv).
  - apply (reject_ok world checks) in F as (_ & old & V & [(_ & _ & ->)|(M & now & -> & Mv)]); [done|].
    eapply quiet_revisions; [|done]. by refine (quiet_open _ _ _ _ _ _ K V _ _ _ Mv).
  - apply (reassess_ok world checks ports changes) in F as ([I B] & _). eapply quiet_revisions; [|done]. by eapply quiet_inserted; [|apply (bn_status _ _ _ _ _ _ _ B)].
  - apply (inverse_ok world checks ports changes) in F as (source & _ & _ & _ & _ & [I B] & _). eapply quiet_revisions; [|done]. by eapply quiet_inserted; [|apply (bn_status _ _ _ _ _ _ _ B)].
  - apply (assess_change_ok world checks ports changes) in F as (old & V & M & Mv). eapply quiet_revisions; [|done]. by refine (quiet_open _ _ _ _ _ _ K V _ _ _ Mv).
  - apply (stabilize_change_ok world checks) in F as [E|(old & V & Ea & _ & Mv)]; (eapply quiet_revisions; [|done]); [by apply quiet_still|].
    eapply quiet_view; [exact K|exact V| |exact Mv]. intros _. split; [rewrite Ea; by left|done].
Qed.

Lemma step_revisions w w' : change_step world checks ports changes w w' -> changes_keyed w -> room w -> revisions_ok w -> revisions_ok w'.
Proof.
  intros [ctx call r F|E G] K R Ok; [|by eapply revisions_before; [apply closed_same| |]].
  apply (change_call_outcome world checks ports changes) in F as [E|(p & w0 & w1 & Sh & E0 & B & E1)].
  - eapply quiet_revisions; [by apply quiet_still|done].
  - eapply quiet_revisions; [by apply quiet_still|]. apply still_split in E0 as E0'. destruct E0' as [C0 R0].
    eapply (business_revisions call p w0 w1); [|..|exact B].
    + unfold changes_keyed. by rewrite C0.
    + unfold room. by rewrite R0.
    + exact Sh.
    + by eapply quiet_revisions; [apply quiet_still|].
Qed.
End Revisions.
