(* ===== verification/ChangeLineage.v ===== *)
(** What a change set undoes, by rules, and the walk that finds it: the walk
    ends on every store, and answers what the rules derive.  What an inverse
    undoes of a specification: the values a change set wrote, written back,
    leave the specification as it was; and an applied specification is one its
    template takes. *)

From stdpp Require Import pretty sorting.
From S2P Require Import Prelude Effects OperationCore OperationStore OperationTheorems OperationEffect Workspace Permission PermissionTheorems MemberStore MemberLaws Membership MembershipLaws OperationRunner RunnerLaws RoadmapModel RoadmapStore RouteObjects Templates Roadmap RoadmapLaws RoadmapHistory RoadmapSound RoadmapCommit RoadmapSteps RouteLaws ImpactStore ImpactStoreLaws Lineage Assessment AssessmentLaws Stabilization StabilizationSteps Impact ImpactService FaultInjection ImpactLaws ImpactWrites ImpactMoves ImpactCalls ImpactExact ImpactRaising ChangeStore ChangeDrafts ChangeApply ChangeInverse ChangeService ChangeLaws ChangeWrites ChangeApplied ChangeCalls ChangeHistory.

Section Lineage.
Context {X : Type} `{Digester roadmap_any} (world : World X) `{!WorldLaws world} (checks : Checks) `{!ChecksLaws checks}.
Abbreviation load := (Store_ChangeSet world checks).
Abbreviation walk := (lineage_source world checks).

(** What the history recorded with a change set names. *)
Definition recorded (pid : string) (w : roadmap) (change : ChangeSet) (historical : string) : Prop :=
  exists inherited, ck_inherited checks pid (ch_ID change) (rm_tables w) = (rm_tables w, Ok inherited)
  /\ (length inherited <= 1)%nat /\ historical = historical_source inherited.

(** [n] is the number of reassessments back to the change set that says it. *)
Inductive undoes_in (pid : string) (w : roadmap) : nat -> ChangeSet -> string -> Prop :=
| undoes_named change historical : recorded pid w change historical -> ch_ReversesChangeSetID change <> "" ->
    historical = "" \/ historical = ch_ReversesChangeSetID change -> undoes_in pid w 0 change (ch_ReversesChangeSetID change)
| undoes_recorded change historical : recorded pid w change historical -> ch_ReversesChangeSetID change = "" -> historical <> "" ->
    undoes_in pid w 0 change historical
| undoes_nothing change : recorded pid w change "" -> ch_ReversesChangeSetID change = "" -> ch_ReassessedFromID change = "" ->
    undoes_in pid w 0 change ""
| undoes_inherited n change parent source : recorded pid w change "" -> ch_ReversesChangeSetID change = "" ->
    ch_ReassessedFromID change <> "" -> load pid (ch_ReassessedFromID change) w = (w, Ok parent) ->
    undoes_in pid w n parent source -> undoes_in pid w (S n) change source.

Definition undoes_source (pid : string) (w : roadmap) (change : ChangeSet) (source : string) : Prop :=
  exists n, undoes_in pid w n change source.

Lemma recorded_once pid w change h1 h2 : recorded pid w change h1 -> recorded pid w change h2 -> h1 = h2.
Proof. intros (l1 & E1 & _ & ->) (l2 & E2 & _ & ->). congruence. Qed.

Lemma undoes_once pid w n change s : undoes_in pid w n change s -> forall m s', undoes_in pid w m change s' -> n = m /\ s = s'.
Proof.
  induction 1 as [change h R Nr A|change h R Er Nh|change R Er Ef|n change parent s R Er Nf L _ IH]; intros m s' U;
    destruct U as [change h' R' Nr' A'|change h' R' Er' Nh'|change R' Er' Ef'|m change parent' s' R' Er' Nf' L' U'];
    try congruence; try (split; [done|]); pose proof (recorded_once _ _ _ _ _ R R') as Eh; try congruence.
  assert (parent' = parent) as -> by congruence. destruct (IH _ _ U') as [-> ->]. done.
Qed.

(** ** The walk *)

Lemma asked_run {A} (m : T A) w q : m (rm_tables w) = (rm_tables w, q) -> on_tables m w = (w, q).
Proof. unfold on_tables. intros ->. by destruct w. Qed.

(** One turn of the walk. *)
Definition turn (change : ChangeSet) (next : RM (option string)) (historical : string)
  : RM (option string) :=
  let reversed := ch_ReversesChangeSetID change in
  if negb (reversed =? "")%string then
    _ ← refuse_if (negb (historical =? "")%string && negb (historical =? reversed)%string) ErrInvalidState;
    mret (Some reversed)
  else if negb (historical =? "")%string then mret (Some historical)
  else if (ch_ReassessedFromID change =? "")%string then mret (Some "")
  else next.

Lemma walk_turn fuel pid change seen w : ch_ProjectID change = pid -> ch_ID change ∉ seen ->
  forall w' r, walk (S fuel) pid change seen w = (w', r) ->
  w' = w /\ ((exists err, r = Err err /\ ~ exists h, recorded pid w change h)
    \/ exists h, recorded pid w change h
       /\ turn change (parent ← load pid (ch_ReassessedFromID change); walk fuel pid parent ({[ ch_ID change ]} ∪ seen)) h w = (w, r)).
Proof.
  intros Ep Ns w' r F. pose proof (reads_run _ w (reads_lineage_walk world checks (S fuel) pid change seen)) as K.
  rewrite F in K. injection K as ->. split; [done|]. cbn [lineage_source] in F.
  rewrite bool_decide_eq_false_2 in F by done. rewrite Ep, String.eqb_refl in F. cbn [negb orb] in F.
  assert (forall A (m : unit -> RM A), (refuse_if false ErrInvalidState ≫= m) w = m tt w) as Pass by done. rewrite Pass in F. clear Pass.
  destruct (ck_inherited checks pid (ch_ID change) (rm_tables w)) as [t q] eqn:Q.
  assert (t = rm_tables w) as ->.
  { pose proof (reads_run _ (rm_tables w) (inherited_reads (checks := checks) pid (ch_ID change))) as K. rewrite Q in K. by injection K. }
  unfold mbind, M_bind in F. rewrite (asked_run _ _ _ Q) in F.
  destruct q as [inherited|err].
  - destruct (1 <? Z.of_nat (length inherited)) eqn:L; cbn [refuse_if] in F.
    + left. injection F as <-. eexists. split; [done|]. intros (h & l & E & N & _). rewrite Q in E. injection E as <-. lia.
    + right. exists (historical_source inherited). split; [exists inherited; split; [done|split; [lia|done]]|]. exact F.
  - left. injection F as <-. exists err. split; [done|]. intros (h & l & E & _). rewrite Q in E. done.
Qed.

Lemma walk_entered fuel pid change seen w w' a : walk (S fuel) pid change seen w = (w', Ok a) ->
  ch_ProjectID change = pid /\ ch_ID change ∉ seen.
Proof.
  cbn [lineage_source]. intros (w1 & u & [G _]%refuse_if_ok & _)%bind_ok. apply orb_false_iff in G as [Gp Gs].
  apply negb_false_iff in Gp. split_bools. split; [done|]. by apply bool_decide_eq_false_1 in Gs.
Qed.

(** What a turn that answers has found. *)
Lemma turn_ok change next h w w' a : turn change next h w = (w', Ok a) ->
  w' = w /\ ch_ReversesChangeSetID change <> "" /\ (h = "" \/ h = ch_ReversesChangeSetID change) /\ a = Some (ch_ReversesChangeSetID change)
  \/ w' = w /\ ch_ReversesChangeSetID change = "" /\ h <> "" /\ a = Some h
  \/ w' = w /\ ch_ReversesChangeSetID change = "" /\ h = "" /\ ch_ReassessedFromID change = "" /\ a = Some ""
  \/ ch_ReversesChangeSetID change = "" /\ h = "" /\ ch_ReassessedFromID change <> "" /\ next w = (w', Ok a).
Proof.
  unfold turn. destruct (ch_ReversesChangeSetID change =? "")%string eqn:Er; cbn [negb].
  - apply String.eqb_eq in Er. destruct (h =? "")%string eqn:Eh; cbn [negb].
    + apply String.eqb_eq in Eh. destruct (_ =? _)%string eqn:Ef; split_bools.
      * intros F. injection F as <- <-. right. right. by left.
      * intros F. right. right. right. done.
    + intros F. injection F as <- <-. split_bools. right. by left.
  - intros (w1 & u & [G ->]%refuse_if_ok & F)%bind_ok. injection F as <- <-. split_bools. left. split_and!; try done.
    destruct (h =? "")%string eqn:Eh; split_bools; [by left|]. right. cbn in G. by apply negb_false_iff, String.eqb_eq in G.
Qed.

Lemma walk_sound fuel pid change seen w w' s : walk fuel pid change seen w = (w', Ok (Some s)) -> undoes_source pid w change s.
Proof.
  revert change seen w'. induction fuel as [|fuel IH]; intros change seen w' F; [done|].
  destruct (walk_entered _ _ _ _ _ _ _ F) as [Ep Ns].
  apply walk_turn in F as (-> & [(err & [=] & _)|(h & R & T)]); [|done..].
  apply turn_ok in T as [(_ & Nr & A & [= ->])|[(_ & Er & Nh & [= ->])|[(_ & Er & -> & Ef & [= ->])|(Er & -> & Nf & T)]]].
  - exists 0%nat. by eapply undoes_named.
  - exists 0%nat. by eapply undoes_recorded.
  - exists 0%nat. by apply undoes_nothing.
  - apply bind_ok in T as (w1 & parent & L & T). pose proof L as K. apply reads_ok in K as ->; [|by apply reads_change].
    destruct (IH _ _ _ T) as [n U]. exists (S n). by eapply undoes_inherited.
Qed.

(** The walk does not run out of fuel: each change set is met once. *)
Lemma lineage_walk_ends fuel pid change seen w w' r : changes_keyed w -> is_Some (rm_changes w !! ch_ID change) -> seen ⊆ dom (rm_changes w) ->
  (size (dom (rm_changes w)) < fuel + size seen)%nat -> walk fuel pid change seen w = (w', r) -> r <> Ok None.
Proof.
  intros K. revert change seen w' r. induction fuel as [|fuel IH]; intros change seen w' r St Sub Sz F ->.
  { apply subseteq_size in Sub. lia. }
  destruct (walk_entered _ _ _ _ _ _ _ F) as [Ep Ns].
  apply walk_turn in F as (-> & [(err & [=] & _)|(h & R & T)]); [|done..].
  apply turn_ok in T as [(_ & _ & _ & [=])|[(_ & _ & _ & [=])|[(_ & _ & _ & _ & [=])|(_ & _ & _ & T)]]].
  apply bind_ok in T as (w1 & parent & L & T). pose proof L as Kr. apply reads_ok in Kr as ->; [|by apply reads_change].
  apply (viewed world checks) in L as (row & Fr & Ei & _); [|done].
  eapply IH; [..|exact T|done]; [by rewrite Ei| |].
  - apply union_subseteq. split; [|done]. apply singleton_subseteq_l. by apply elem_of_dom.
  - rewrite size_union by set_solver. rewrite size_singleton. lia.
Qed.

Lemma walk_complete pid w n change s : changes_keyed w -> undoes_in pid w n change s ->
  load pid (ch_ID change) w = (w, Ok change) -> forall fuel seen,
  (forall id, id ∈ seen -> exists c m s', load pid id w = (w, Ok c) /\ undoes_in pid w m c s' /\ (n < m)%nat) ->
  walk fuel pid change seen w = (w, Ok (Some s)) \/ walk fuel pid change seen w = (w, Ok None).
Proof.
  intros K U. generalize U.
  induction U as [change h R Nr A|change h R Er Nh|change R Er Ef|n change parent s R Er Nf L U IH]; intros Me V fuel seen Hs;
    (destruct fuel as [|fuel]; [by right|]);
    pose proof V as Vw; apply (viewed world checks) in Vw as (_ & _ & _ & _ & Ep & _); try done;
    (assert (ch_ID change ∉ seen) as Ns by (intros Hin; destruct (Hs _ Hin) as (c & m & s' & V' & U' & Lt);
      assert (c = change) as -> by congruence; destruct (undoes_once _ _ _ _ _ Me _ _ U') as [<- _]; lia));
    destruct (walk (S fuel) pid change seen w) as [w' r] eqn:F; apply walk_turn in F as (-> & F); try done;
    (assert (exists h', recorded pid w change h'
       /\ turn change (parent ← load pid (ch_ReassessedFromID change); walk fuel pid parent ({[ ch_ID change ]} ∪ seen)) h' w = (w, r))
     as (h' & R' & T) by (destruct F as [(err & _ & Nr0)|F]; [by destruct Nr0; eexists|exact F]));
    pose proof (recorded_once _ _ _ _ _ R R') as <-; unfold turn in T.
  - apply String.eqb_neq in Nr. rewrite Nr in T. cbn [negb] in T. left.
    destruct A as [-> | ->]; [cbn in T|rewrite Nr, String.eqb_refl in T; cbn in T]; by injection T as <-.
  - rewrite Er in T. apply String.eqb_neq in Nh. rewrite Nh in T. cbn in T. left. by injection T as <-.
  - rewrite Er, Ef in T. cbn in T. left. by injection T as <-.
  - rewrite Er in T. apply String.eqb_neq in Nf. rewrite Nf in T. cbn [negb String.eqb] in T. unfold mbind, M_bind in T. rewrite L in T.
    assert (ch_ID parent = ch_ReassessedFromID change) as Ei by (by destruct (viewed world checks _ _ _ _ _ K L) as (? & _ & Ei & _)).
    rewrite <- T. apply IH; [exact U|by rewrite Ei|]. intros id [Hin|Hin]%elem_of_union.
    + apply elem_of_singleton in Hin as ->. exists change, (S n), s. split; [done|]. split; [exact Me|lia].
    + destruct (Hs _ Hin) as (c & m & s' & V' & U' & Lt). exists c, m, s'. split_and!; [done|done|lia].
Qed.

Lemma lineage_derived pid id change w s : changes_keyed w -> load pid id w = (w, Ok change) ->
  inverseLineageSource world checks pid change w = (w, Ok s) <-> undoes_source pid w change s.
Proof.
  intros K V. pose proof V as Vw. apply (viewed world checks) in Vw as (row & F & Ei & _); [|done].
  unfold inverseLineageSource, over_changes.
  pose proof (reads_run _ w (reads_lineage_walk world checks (S (size (rm_changes w))) pid change ∅)) as E.
  destruct (walk _ pid change ∅ w) as [w' r] eqn:G. injection E as ->.
  assert (r <> Ok None) as N.
  { eapply lineage_walk_ends; [exact K| | | |exact G]; [by rewrite Ei|set_solver|]. rewrite size_dom, size_empty. lia. }
  split.
  - destruct r as [[a|]|err]; [|done..]. intros T. injection T as ->. by eapply walk_sound.
  - intros [n U]. rewrite <- Ei in V.
    destruct (walk_complete pid w n change s K U V (S (size (rm_changes w))) ∅) as [E|E]; [set_solver|rewrite G in E; by injection E as ->..].
Qed.

(** ** The guard *)

(** The change sets a reassessment stands on. *)
Definition reassesses (pid : string) (w : roadmap) (id earlier : string) : Prop :=
  exists change, load pid id w = (w, Ok change) /\ ch_ReassessedFromID change = earlier.

(** Every live change set that undoes the source is a stale one that is being
    succeeded. *)
Definition no_rival (pid : string) (w : roadmap) (source from : string) : Prop :=
  forall id other, load pid id w = (w, Ok other) -> undoes_source pid w other source ->
    ch_Status other = ChangeSetStatusRejected \/ (ch_Status other = ChangeSetStatusStale /\ from <> "" /\ rtc (reassesses pid w) from id).

Abbreviation view_of_row row := (change ← HydrateSemanticChange world row; withCurrentImpactStatus checks change).

Lemma change_views_ok rows w w' l row : change_views world checks rows w = (w', Ok l) -> row ∈ rows ->
  exists change, change ∈ l /\ view_of_row row w = (w, Ok change).
Proof.
  revert w' l. induction rows as [|r rows IH]; intros w' l F Hin; [by apply not_elem_of_nil in Hin|]. cbn [change_views] in F.
  apply bind_ok in F as (w1 & c & Hy & F). apply bind_ok in F as (w2 & view & St & F).
  assert (view_of_row r w = (w2, Ok view)) as V by (unfold mbind, M_bind; by rewrite Hy).
  pose proof V as R. apply reads_ok in R as ->; [|by apply reads_change_view].
  apply bind_ok in F as (w3 & rest & F & G). injection G as -> <-.
  apply elem_of_cons in Hin as [->|Hin]; [exists view; split; [by left|done]|].
  destruct (IH _ _ F Hin) as (change & Hc & Vc). exists change. split; [by right|done].
Qed.

Lemma listed pid w w' l id other : changes_keyed w -> ChangeSets world checks pid w = (w', Ok l) -> load pid id w = (w, Ok other) -> other ∈ l.
Proof.
  intros K F V. pose proof V as Vw. apply (viewed world checks) in Vw as (row & Fr & _ & Ep & _); [|done].
  unfold ChangeSets in F. apply bind_ok in F as (w1 & rows & [-> ->]%rm_query_ok & F).
  unfold Store_ChangeSet in V. apply bind_ok in V as (w2 & found & [-> ->]%rm_query_ok & V). rewrite Fr in V.
  apply bind_ok in V as (w2 & u & [_ ->]%refuse_if_ok & V).
  eapply (change_views_ok _ w _ l row) in F as (change & Hc & Vc); [by rewrite V in Vc; injection Vc as ->|].
  rewrite change_order_perm. apply list_elem_of_filter. split; [done|]. apply list_elem_of_fmap. exists (id, row). split; [done|].
  by apply elem_of_map_to_list.
Qed.

Lemma no_live_ok pid source ancestors l w w' u : no_live_inverse world checks pid source ancestors l w = (w', Ok u) ->
  forall other, other ∈ l -> exists lineage, inverseLineageSource world checks pid other w = (w, Ok lineage)
    /\ (lineage = source -> ch_Status other = ChangeSetStatusRejected \/ ch_ID other ∈ ancestors).
Proof.
  induction l as [|c l IH]; intros F other Hin; [by apply not_elem_of_nil in Hin|]. cbn [no_live_inverse] in F.
  apply bind_ok in F as (w1 & lineage & L & F). pose proof L as R. apply reads_ok in R as ->; [|by apply reads_lineage].
  apply bind_ok in F as (w1 & u1 & [G ->]%refuse_if_ok & F).
  apply elem_of_cons in Hin as [->|Hin]; [|by apply IH]. exists lineage. split; [done|]. intros ->.
  rewrite String.eqb_refl in G. cbn in G. apply andb_false_iff in G as [G|G]; apply negb_false_iff in G.
  - left. by apply String.eqb_eq.
  - right. by apply bool_decide_eq_true_1 in G.
Qed.

(** The ancestors: stale change sets on the way back. *)
Lemma ancestors_ok fuel pid source id seen w w' ancestors :
  stale_ancestors world checks fuel pid source id seen w = (w', Ok (Some ancestors)) ->
  forall a, a ∈ ancestors -> a ∈ seen \/ (id <> "" /\ rtc (reassesses pid w) id a
    /\ exists change, load pid a w = (w, Ok change) /\ ch_Status change = ChangeSetStatusStale).
Proof.
  revert id seen w' ancestors. induction fuel as [|fuel IH]; intros id seen w' ancestors F a Ha; cbn [stale_ancestors] in F;
    destruct (id =? "")%string eqn:E; try done; try (injection F as _ <-; by left).
  apply String.eqb_neq in E. apply bind_ok in F as (w1 & u1 & [_ ->]%refuse_if_ok & F).
  apply bind_ok in F as (w1 & ancestor & V & F). pose proof V as R. apply reads_ok in R as ->; [|by apply reads_change].
  apply bind_ok in F as (w1 & lineage & L & F). apply reads_ok in L as ->; [|by apply reads_lineage].
  apply bind_ok in F as (w1 & u2 & [G ->]%refuse_if_ok & F). apply orb_false_iff in G as [_ G]. apply negb_false_iff, String.eqb_eq in G.
  destruct (IH _ _ _ _ F a Ha) as [[Hs|Hs]%elem_of_union|(_ & Rt & Ch)].
  - apply elem_of_singleton in Hs as ->. right. split; [done|]. split; [constructor|]. by exists ancestor.
  - by left.
  - right. split; [done|]. split; [|done]. eapply rtc_l; [|exact Rt]. by exists ancestor.
Qed.

Lemma over_ok {A} (zero : A) turns w w' a : over_changes zero turns w = (w', Ok a) ->
  a = zero \/ turns (S (size (rm_changes w))) w = (w', Ok (Some a)).
Proof. unfold over_changes. destruct (turns _ w) as [w1 [[b|]|err]]; intros F; [right|left|done]; by injection F as -> ->. Qed.

Lemma guard_free p actor source from w w' found : changes_keyed w ->
  validateInverseLineage world checks p actor source from w = (w', Ok found) ->
  projectOwner p (ac_UserID actor) = true /\ load (pr_ID p) source w = (w, Ok found) /\ ch_Status found ∈ ChangeSetClosedStatuses
  /\ no_rival (pr_ID p) w source from.
Proof.
  intros K. unfold validateInverseLineage. intros (w1 & u1 & L & F)%bind_ok.
  apply reads_ok in L as ->; [|unfold LockInverseSource; apply keeps_bind; [by apply reads_rm_query|intros; apply keeps_refuse_if]].
  apply bind_ok in F as (w1 & s & Src & F). apply (source_ok world checks) in Src as (-> & _ & Ow & V & Cl).
  apply bind_ok in F as (w1 & ancestors & An & F). pose proof An as R. apply reads_ok in R as ->; [|apply reads_over_changes; intros; by apply reads_ancestors].
  apply bind_ok in F as (w1 & l & Li & F). pose proof Li as R. apply reads_ok in R as ->; [|by apply reads_changes].
  apply bind_ok in F as (w1 & u2 & N & F). injection F as _ <-.
  split; [done|]. split; [done|]. split; [done|]. intros id other Vo Un.
  pose proof (listed _ _ _ _ _ _ K Li Vo) as Hin. destruct (no_live_ok _ _ _ _ _ _ _ N _ Hin) as (lineage & Lo & Li').
  apply (lineage_derived _ _ _ _ _ K Vo) in Un. destruct (Li' ltac:(congruence)) as [St|Ha]; [by left|].
  right. assert (ch_ID other = id) as Ei by (by destruct (viewed world checks _ _ _ _ _ K Vo) as (? & _ & Ei & _)). rewrite Ei in Ha.
  apply over_ok in An as [->|An]; [by apply not_elem_of_empty in Ha|].
  destruct (ancestors_ok _ _ _ _ _ _ _ _ An id Ha) as [[]%not_elem_of_empty|(Nf & Rt & change & Vc & St)].
  split; [|done]. assert (change = other) as -> by congruence. done.
Qed.
End Lineage.

Abbreviation keys := (fmap fd_Key).

(** ** Written values *)

Lemma written_cons field fields : written_values (field :: fields) = written_values fields ∪ {[ fd_Key field := fd_NewValue field ]}.
Proof.
  unfold written_values. cbn [foldl]. rewrite <- foldl_insert. by rewrite (left_id_L ∅ (∪)).
Qed.

Lemma written_none fields key : key ∉ keys fields -> written_values fields !! key = None.
Proof.
  induction fields as [|field fields IH]; intros N; [done|]. cbn [fmap list_fmap] in N. apply not_elem_of_cons in N as [N1 N2].
  rewrite written_cons. apply lookup_union_None. split; [by apply IH|]. by apply lookup_singleton_ne.
Qed.

Lemma written_some fields field : NoDup (keys fields) -> field ∈ fields -> written_values fields !! fd_Key field = Some (fd_NewValue field).
Proof.
  induction fields as [|f fields IH]; intros N Hin; [by apply not_elem_of_nil in Hin|]. cbn [fmap list_fmap] in N. apply NoDup_cons in N as [N1 N2].
  rewrite written_cons. apply elem_of_cons in Hin as [->|Hin].
  - rewrite lookup_union_r by by apply written_none. by rewrite lookup_singleton_eq.
  - apply lookup_union_Some_l. by apply IH.
Qed.

(** ** The inverse of fields *)

Lemma deltas_in m field : field ∈ field_deltas m <-> m !! fd_Key field = Some {| fi_OldValue := fd_OldValue field; fi_NewValue := fd_NewValue field |}.
Proof.
  unfold field_deltas. rewrite list_elem_of_omap. split.
  - intros (key & _ & E). destruct (m !! key) as [[old new]|] eqn:F; [|done]. by injection E as <-.
  - intros E. exists (fd_Key field). split; [|rewrite E; by destruct field].
    rewrite merge_sort_Permutation, elem_of_elements. by eapply elem_of_dom_2.
Qed.

Lemma deltas_keys m : keys (field_deltas m) = merge_sort string_le (elements (dom m)).
Proof.
  unfold field_deltas. assert (forall key, key ∈ merge_sort string_le (elements (dom m)) -> is_Some (m !! key)) as S.
  { intros key. rewrite merge_sort_Permutation, elem_of_elements. by rewrite elem_of_dom. }
  induction (merge_sort string_le (elements (dom m))) as [|key l IH]; [done|]. cbn.
  destruct (S key ltac:(by left)) as [field E]. rewrite E. cbn. f_equal. apply IH. intros k Hk. apply S. by right.
Qed.

Lemma deltas_once m : NoDup (keys (field_deltas m)).
Proof. rewrite deltas_keys, merge_sort_Permutation. apply NoDup_elements. Qed.

Lemma swapped_cons field fields :
  NoDup (keys (field :: fields)) ->
  swapped (field :: fields) = <[fd_Key field := {| fi_OldValue := fd_NewValue field; fi_NewValue := fd_OldValue field |}]> (swapped fields).
Proof.
  unfold swapped. cbn [foldl]. generalize (∅ : gmap string ChangeFieldInput). revert field.
  induction fields as [|f fields IH]; intros field m N; [done|]. cbn [foldl].
  cbn [fmap list_fmap] in N. apply NoDup_cons in N as [N1 N2]. pose proof N2 as [N3 N4]%NoDup_cons.
  apply not_elem_of_cons in N1 as [Ne N1]. rewrite <- IH; [|cbn [fmap list_fmap]; by apply NoDup_cons].
  cbn [foldl]. by rewrite insert_insert_ne.
Qed.

Lemma swapped_some fields field : NoDup (keys fields) -> field ∈ fields ->
  swapped fields !! fd_Key field = Some {| fi_OldValue := fd_NewValue field; fi_NewValue := fd_OldValue field |}.
Proof.
  induction fields as [|f fields IH]; intros N Hin; [by apply not_elem_of_nil in Hin|]. rewrite swapped_cons by done.
  cbn [fmap list_fmap] in N. apply NoDup_cons in N as [N1 N2]. apply elem_of_cons in Hin as [->|Hin]; [by rewrite lookup_insert_eq|].
  rewrite lookup_insert_ne; [by apply IH|]. intros E. apply N1. rewrite E. by apply list_elem_of_fmap_2.
Qed.

Lemma swapped_none fields key : NoDup (keys fields) -> key ∉ keys fields -> swapped fields !! key = None.
Proof.
  induction fields as [|f fields IH]; intros N K; [done|]. rewrite swapped_cons by done. cbn [fmap list_fmap] in N, K.
  apply NoDup_cons in N as [N1 N2]. apply not_elem_of_cons in K as [K1 K2]. rewrite lookup_insert_ne by done. by apply IH.
Qed.

Lemma inverse_written fields field : NoDup (keys fields) -> field ∈ fields ->
  written_values (field_deltas (swapped fields)) !! fd_Key field = Some (fd_OldValue field).
Proof.
  intros N Hin. apply (written_some _ {| fd_Key := fd_Key field; fd_OldValue := fd_NewValue field; fd_NewValue := fd_OldValue field |}); [apply deltas_once|].
  apply deltas_in. cbn. by apply swapped_some.
Qed.

Lemma inverse_unwritten fields key : NoDup (keys fields) -> key ∉ keys fields -> written_values (field_deltas (swapped fields)) !! key = None.
Proof.
  intros N K. apply written_none. rewrite deltas_keys, merge_sort_Permutation, elem_of_elements, not_elem_of_dom. by apply swapped_none.
Qed.

(** What was written and then written back: the old values, what is there of the
    others. *)
Lemma fields_undone fields (spec spec' : gmap string string) : NoDup (keys fields) ->
  (forall field, field ∈ fields -> spec !! fd_Key field = Some (fd_OldValue field)) ->
  forall key, (written_values (field_deltas (swapped fields)) ∪ spec') !! key = if bool_decide (key ∈ keys fields) then spec !! key else spec' !! key.
Proof.
  intros N Old key. case_bool_decide as Hk.
  - apply list_elem_of_fmap in Hk as (field & -> & Hin). rewrite (Old _ Hin). apply lookup_union_Some_l. by apply inverse_written.
  - apply lookup_union_r. by apply inverse_unwritten.
Qed.

(** ** Validated fields *)

Lemma changed_ok p fields values : forall result, changed_values p fields values = Ok result ->
  (forall field, field ∈ fields -> is_Some (pr_Spec p !! fd_Key field) /\ values !! fd_Key field = None) /\ NoDup (keys fields)
  /\ result = written_values fields ∪ values.
Proof.
  revert values. induction fields as [|field fields IH]; intros values result; cbn [changed_values].
  - intros E. injection E as <-. split; [by intros ? ?%not_elem_of_nil|]. split; [constructor|]. unfold written_values. cbn. by rewrite (left_id_L ∅ (∪)).
  - destruct (is_nil (pr_Spec p !! fd_Key field)) eqn:P; [done|]. destruct (some (values !! fd_Key field)) eqn:V; [done|].
    intros (B & N & ->)%IH. split; [|split].
    + intros f [->|Hin]%elem_of_cons.
      * destruct (pr_Spec p !! fd_Key field); [|done]. split; [by eexists|]. by destruct (values !! fd_Key field).
      * destruct (B f Hin) as [S E]. split; [done|]. by apply lookup_insert_None in E as [E _].
    + cbn [fmap list_fmap]. apply NoDup_cons. split; [|done]. intros Hk. apply list_elem_of_fmap in Hk as (f & Ef & Hin).
      destruct (B f Hin) as [_ E]. apply lookup_insert_None in E as [_ E]. congruence.
    + rewrite written_cons, <- (assoc_L (∪)). f_equal. apply insert_union_singleton_l.
Qed.

(** A specification its template takes: every value fits its field, and no
    required field is blank. *)
Record fits (reader : TemplateReader) (definition : string) (spec : gmap string string) : Prop := {
  fit_values key value field : spec !! key = Some value -> templateFieldDefinitions reader definition !! key = Some field ->
    compatibleTemplateValue reader value field = true;
  fit_required key field : templateFieldDefinitions reader definition !! key = Some field -> tf_Required field = true ->
    exists value, spec !! key = Some value /\ TrimSpace value <> ""
}.

Lemma none_of {A} `{Countable K} (f : K * A -> bool) (m : gmap K A) key a : existsb f (map_to_list m) = false -> m !! key = Some a -> f (key, a) = false.
Proof.
  intros E F. destruct (f (key, a)) eqn:B; [|done]. rewrite <- E. symmetry. apply existsb_exists. exists (key, a).
  split; [by apply list_elem_of_In, elem_of_map_to_list|done].
Qed.

Lemma after_upgrade_ok reader spec definition values next : templateSpecAfterUpgrade reader spec definition values = Ok next ->
  next = values ∪ spec /\ fits reader definition next.
Proof.
  unfold templateSpecAfterUpgrade. cbv zeta. destruct (existsb _ (map_to_list values)); [done|].
  destruct (existsb (incompatible _ _) _) eqn:I; [done|]. destruct (existsb (unfilled _) _) eqn:U; [done|].
  intros E. injection E as <-. split; [done|]. split.
  - intros key value field S F. apply (none_of _ _ key value I) in S. unfold incompatible in S. cbn [fst snd] in S. rewrite F in S.
    by apply negb_false_iff.
  - intros key field F R. apply (none_of _ _ key field U) in F. unfold unfilled in F. cbn [fst snd] in F. rewrite R in F. cbn in F.
    destruct ((values ∪ spec) !! key) as [value|]; [|done]. exists value. split; [done|]. by apply String.eqb_neq in F.
Qed.

Lemma validated reader p fields : validateChangeTemplateFields reader p fields = None ->
  NoDup (keys fields) /\ (forall field, field ∈ fields -> is_Some (pr_Spec p !! fd_Key field))
  /\ (nonempty fields = true -> exists copy, pr_TemplateCopy p = Some copy /\ tc_Status copy = "bound"
        /\ fits reader (tc_Definition copy) (written_values fields ∪ pr_Spec p)).
Proof.
  unfold validateChangeTemplateFields. destruct (negb (nonempty fields)) eqn:Ne.
  { destruct fields; [|done]. intros _. split; [constructor|]. split; [by intros ? ?%not_elem_of_nil|done]. }
  destruct (pr_TemplateCopy p) as [copy|]; [|done]. destruct (negb (_ =? _)%string) eqn:B; [done|]. split_bools.
  destruct (changed_values p fields ∅) as [values|e] eqn:C; [|done].
  destruct (templateSpecAfterUpgrade reader (pr_Spec p) (tc_Definition copy) values) as [next|e] eqn:T; cbn; rewrite ?T; [|done].
  intros _. apply changed_ok in C as (P & N & ->). rewrite (right_id_L ∅ (∪)) in T. apply after_upgrade_ok in T as [-> Fi].
  split; [done|]. split; [intros field Hin; by apply P|]. intros _. by exists copy.
Qed.
