(* ===== verification/ChangeDemo.v ===== *)
(** Change sets on the project of [Counter]: one that is drafted, assessed,
    applied and undone, one that is rejected, and one that goes stale. *)

From stdpp Require Import pretty sorting countable.
From Stdlib Require Import Ascii String.
From S2P Require Import Prelude Effects OperationCore OperationLaws OperationStore OperationTheorems Workspace Permission PermissionTheorems MemberStore MemberLaws Membership MembershipLaws MembershipDemo OperationRunner RunnerLaws RunnerTheorems RoadmapModel RoadmapStore RouteObjects Templates Roadmap RoadmapLaws RoadmapHistory RoadmapSound RoadmapCommit RoadmapDemo ImpactStore ImpactStoreLaws Lineage ImpactDemo Assessment Stabilization Impact ImpactService FaultInjection ImpactLaws ImpactWrites ImpactMoves ImpactCalls ImpactExact ImpactRaising ImpactCounter ChangeStore ChangeDrafts ChangeApply ChangeInverse ChangeService ChangeLaws ChangeWrites ChangeApplied ChangeCalls ChangeHistory.

Module Proposals.
#[local] Existing Instances Workshop.tables_eq_dec Workshop.transaction_atomic Studio.transaction_atomic Studio.text Desk.checks_laws.

(** A specification of one field, the topic, which is its text. *)
Definition db : Database := {|
  db_fault := db_fault demo_db; db_order := db_order demo_db; db_project_order := db_project_order demo_db;
  db_record_order := db_record_order demo_db; db_transfer_order := db_transfer_order demo_db;
  db_spec := fun row => Ok ({[ "topic" := row_SpecJSON row ]}, ∅);
  db_template := fun _ _ => Ok (Some Desk.copy); db_persist := db_persist demo_db;
  db_spec_json := fun p => Ok (default "" (pr_Spec p !! "topic"), "")
|}.

#[export] Instance db_laws : DatabaseLaws db.
Proof. split; by intros. Qed.

Definition service : Service unit roadmap_any := {|
  sv_db := db; sv_transaction := Workshop.transaction; sv_clock := calm_clock;
  sv_mode := AuthorizationModeEnforce; sv_audit := true; sv_requireActivationRead := false;
  sv_runtimeMode := "mock";
  sv_stamp := fun w => ("audit-" +:+ pretty (length (tb_audit w)), 1000);
  sv_sink := fun _ => mret tt; sv_sources := None; sv_reverses := fun _ => ""; sv_switching := fun _ => false;
  sv_cached := fun ctx _ _ _ _ => mret (ctx, false); sv_prepare := fun ctx _ _ _ _ _ => mret ctx;
  sv_validate := fun _ _ _ _ => mret tt; sv_pins := fun _ _ => mret tt;
  sv_reverse_sources := fun _ _ => mret tt; sv_provenance := fun _ _ _ => mret tt;
  sv_projection := fun _ _ _ _ body => mret body;
  sv_RuntimeControls := fun _ => mret []; sv_RecordRuntime := fun _ _ _ _ _ => mret tt;
  sv_ObserveRuntime := fun _ _ _ _ _ _ => mret tt;
  sv_emit := fun _ => mret tt; sv_EmitAuditFailureAlert := fun _ _ _ _ _ => mret tt;
  sv_ResourceExists := fun _ _ _ => mret true; sv_Chapters := fun _ => mret [];
  sv_HasAPIKey := fun _ _ => mret true; sv_VerifyMachineNativeKey := fun _ _ => mret tt
|}.

#[export] Instance service_laws : ServiceLaws service.
Proof. split; try exact _; try done; by intros. Qed.

Definition world : World unit := {|
  wd_service := service; wd_transaction := Studio.transaction;
  wd_session_order := fun l => l; wd_node_order := fun l => l; wd_version_order := fun l => l;
  wd_dependency_order := fun l => l; wd_task_order := fun l => l;
  wd_batch_order := fun l => l; wd_candidate_order := fun l => l;
  wd_required := fun _ id => (id =? "plan")%string;
  wd_object := fun _ _ => fail ErrNotFound;
  wd_provenance := fun _ => mret "provenance";
  wd_draft := fun _ _ _ _ _ => mret ("change-1", 1);
  wd_apply := fun _ _ _ _ _ => mret tt;
  wd_sha1 := Counter.dashed;
  wd_uuid := fun w => "change-" +:+ pretty (size (rm_changes w));
  wd_now := fun _ => 1000
|}.

#[export] Instance world_laws : WorldLaws world.
Proof. split; try exact _; try done; by intros. Qed.

Definition ports : ImpactPorts unit := {|
  ip_writer := Some (transactionImpactTaskWriter world); ip_invalidate := fun _ _ => mret tt; ip_hints := fun _ _ _ => mret "";
  ip_reader := Counter.reader; ip_card_batch := fun _ _ => mret tt; ip_delta_sources := fun _ _ => mret [];
  ip_preflight := Some (fun _ _ _ _ => mret Counter.proof);
  ip_project := fun _ actor pid => authorizeCurrentProject (policy_tx db) (project_request actor pid "read")
|}.

(** No chapters, archives or upgrades. *)
Definition changes : ChangePorts unit := {|
  cp_title := fun _ _ _ => "title"; cp_chapters := fun _ => mret []; cp_resolve_template := fun _ _ _ => mret tt;
  cp_proposal := fun _ _ => mret tt; cp_has_history := fun _ _ => mret false; cp_put_history := fun _ _ => mret tt;
  cp_agent_fields := fun _ _ _ _ => mret tt; cp_agent_edit := fun _ _ _ _ _ => mret tt; cp_explanation := fun _ => None;
  cp_definition := fun _ _ _ _ _ => mret ""; cp_preview := fun _ _ _ _ _ _ => ""; cp_preview_fields := fun _ => [];
  cp_policy_basis := fun _ _ _ => mret tt; cp_recheck := fun _ _ _ => mret tt;
  cp_removals := fun _ _ _ _ _ _ => mret ({| la_Spec := ∅; la_Metadata := ∅ |}, []);
  cp_restores := fun _ _ _ _ _ => mret ({| la_Spec := ∅; la_Metadata := ∅ |}, []);
  cp_mark_removed := fun _ _ _ _ => mret tt; cp_copy := fun _ _ _ _ => mret Desk.copy; cp_policy := fun _ _ _ copy => mret copy;
  cp_inherit := fun _ _ _ p => mret (pr_SpecFields p); cp_bind := fun _ _ _ => mret Desk.copy; cp_upgrade_details := fun _ _ => ""; cp_business_audit := None;
  cp_chapter_sources := fun _ _ => mret []; cp_version_sources := fun _ _ _ => mret []; cp_saved := fun _ => Err ErrNotFound;
  cp_decode := fun _ _ => Err ErrInvalidRequest; cp_meaning := fun _ body => Ok body; cp_inverse_proposal := fun _ _ delta => Ok delta;
  cp_inverse_upgrade := fun _ _ _ _ => fail ErrInvalidState
|}.

#[export] Instance changes_laws : ChangePortLaws world ports changes.
Proof.
  split; try (intros; by intros w); try done.
  - intros recheck ctx actor pid id E. injection E as <-. by intros w.
  - intros. apply reads_rows. apply (authorizeCurrentProject_reads (policy_tx db)).
  - intros write E. injection E as <-. apply transaction_writer.
Qed.

(** The project, its topic being water. *)
Definition start : roadmap :=
  Studio.start <| rm_tables := demo_tables <| tb_projects := (fun row => row <| row_SpecJSON := "water" |>) <$> tb_projects demo_tables |> |>.

Definition field (old new : string) : gmap string ChangeFieldInput := {[ "topic" := {| fi_OldValue := old; fi_NewValue := new |} ]}.
Definition propose (key old new : string) (revision : Z) : change_call :=
  CallDraft Studio.ann "p-1" key {| xd_SemanticDeltas := []; xd_ExpectedContextRevision := revision; xd_Reason := "colder"; xd_Fields := field old new;
                             xd_AffectedChapterIDs := ["chapter-1"] |}.
Definition do (call : change_call) (w : roadmap) : roadmap := (serve_change world Desk.checks ports changes Studio.ctx call w).1.
Definition answer (call : change_call) (w : roadmap) := (serve_change world Desk.checks ports changes Studio.ctx call w).2.

Definition assess (key id : string) : change_call := CallAssessChange Studio.ann "p-1" id key.
Definition enact (key id : string) : change_call := CallApply Studio.ann "p-1" id key.
Definition reject (key id : string) : change_call := CallReject Studio.ann "p-1" id key.
Definition reverse (key id : string) : change_call := CallReverse Studio.ann "p-1" id key.

(** The topic becomes ice; what is proposed beside it goes stale; the change is
    undone. *)
Definition drafted : roadmap := do (propose "key-0301" "water" "ice" 1) start.
Definition rivalled : roadmap := do (propose "key-0302" "water" "steam" 1) drafted.
Definition assessed : roadmap := do (assess "key-0304" "change-1") (do (assess "key-0303" "change-0") rivalled).
Definition applied : roadmap := do (enact "key-0305" "change-0") assessed.
Definition staled : roadmap := do (enact "key-0306" "change-1") applied.
Definition reversed : roadmap := do (reverse "key-0307" "change-0") staled.
Definition undone : roadmap := do (enact "key-0308" "change-2") reversed.
Definition refused : roadmap := do (reject "key-0309" "change-2") reversed.

Definition status_of (id : string) (w : roadmap) : option string := ch_Status <$> rm_changes w !! id.
Definition topic (w : roadmap) : option string := row_SpecJSON <$> rows w !! "p-1".
Definition revision (w : roadmap) : option Z := row_CurrentContextRevision <$> rows w !! "p-1".

Example calls_carried_out :
  answer (enact "key-0305" "change-0") assessed = Ok ("value", 200, false) /\ topic applied = Some "ice" /\ revision applied = Some 2
  /\ answer (enact "key-0306" "change-1") applied = Ok ("value", 409, false) /\ status_of "change-1" staled = Some "stale" /\ topic staled = Some "ice"
  /\ answer (reverse "key-0307" "change-0") staled = Ok ("value", 201, false) /\ status_of "change-2" reversed = Some "assessed"
  /\ answer (reverse "key-0310" "change-0") reversed = Err ErrInvalidState
  /\ answer (enact "key-0308" "change-2") reversed = Ok ("value", 200, false) /\ topic undone = Some "water" /\ revision undone = Some 3
  /\ status_of "change-2" refused = Some "rejected" /\ topic refused = Some "ice".
Proof. vm_compute. by split_and!. Qed.

(** *** Its history *)

Abbreviation step := (change_step world Desk.checks ports changes).

Lemma served call w : step w (do call w).
Proof. eapply change_served. apply surjective_pairing. Qed.

Lemma proposals_keyed w : bool_decide (map_Forall (fun id c => ch_ID c = id) (rm_changes w)) = true -> changes_keyed w.
Proof. intros E id c F. by apply (bool_decide_eq_true_1 _ E id c). Qed.

Lemma roomy w : bool_decide (map_Forall (fun _ row => min_int64 <= row_CurrentContextRevision row < max_int64) (rows w)) = true -> room w.
Proof. intros E pid row F. by apply (bool_decide_eq_true_1 _ E pid row). Qed.

Lemma proposals_history : rtc (fun w w' => room w /\ step w w') start undone.
Proof.
  eapply rtc_l; [split; [by apply roomy; vm_compute|apply (served (propose "key-0301" "water" "ice" 1))]|].
  eapply rtc_l; [split; [by apply roomy; vm_compute|apply (served (propose "key-0302" "water" "steam" 1))]|].
  eapply rtc_l; [split; [by apply roomy; vm_compute|apply (served (assess "key-0303" "change-0"))]|].
  eapply rtc_l; [split; [by apply roomy; vm_compute|apply (served (assess "key-0304" "change-1"))]|].
  eapply rtc_l; [split; [by apply roomy; vm_compute|apply (served (enact "key-0305" "change-0"))]|].
  eapply rtc_l; [split; [by apply roomy; vm_compute|apply (served (enact "key-0306" "change-1"))]|].
  eapply rtc_l; [split; [by apply roomy; vm_compute|apply (served (reverse "key-0307" "change-0"))]|].
  apply rtc_once. split; [by apply roomy; vm_compute|apply (served (enact "key-0308" "change-2"))].
Qed.

Lemma start_revisions : revisions_ok start.
Proof.
  assert (forall id, rm_changes start !! id = None) as N by (intros id; apply lookup_empty).
  split; [intros id row F|intros id1 row1 id2 row2 F]; by rewrite N in F.
Qed.

Lemma history_undone : rtc step assessed undone.
Proof.
  eapply rtc_l; [apply (served (enact "key-0305" "change-0"))|]. eapply rtc_l; [apply (served (enact "key-0306" "change-1"))|].
  eapply rtc_l; [apply (served (reverse "key-0307" "change-0"))|]. apply rtc_once, (served (enact "key-0308" "change-2")).
Qed.

(** A row, and a change set as it is read. *)
Definition row_at (id : string) (w : roadmap) : ChangeSet := default blank_change (rm_changes w !! id).
Definition read_at (id : string) (w : roadmap) : ChangeSet :=
  match (Store_ChangeSet world Desk.checks "p-1" id w).2 with Ok c => c | Err _ => blank_change end.

Lemma read_stored id w : (Store_ChangeSet world Desk.checks "p-1" id w).2 = Ok (read_at id w) ->
  Store_ChangeSet world Desk.checks "p-1" id w = (w, Ok (read_at id w)).
Proof. intros E. rewrite <- E. apply reads_run. apply (reads_change world Desk.checks). Qed.

(** *** The writes alone *)

Definition project_at (w : roadmap) : Project :=
  match (Gorm_Project db 7 "p-1" (rm_tables w)).2 with Ok p => p | Err _ => zero_project end.
Definition write_apply (id : string) (w : roadmap) := apply_write world Desk.checks ports changes Studio.ctx Studio.ann "p-1" id (project_at w) w.
Definition write_inverse (id : string) (w : roadmap) := inverse_write world Desk.checks ports changes Studio.ctx Studio.ann "p-1" id (project_at w) w.
Definition answered {A B} (zero : A) (run : roadmap * res error (A * B)) : A := match run.2 with Ok (a, _) => a | Err _ => zero end.
Definition made (run : roadmap * res error ChangeSet) : ChangeSet := match run.2 with Ok c => c | Err _ => blank_change end.

Definition written : roadmap := (write_apply "change-0" assessed).1.
Definition meanwhile : roadmap := do (enact "key-0306" "change-1") written.
Definition inverted : roadmap := (write_inverse "change-0" meanwhile).1.
Definition inverse : ChangeSet := made (write_inverse "change-0" meanwhile).
Definition restored : roadmap := (write_apply "change-2" inverted).1.

Lemma ran_answered {A B} (zero : A) (b : B) (run : roadmap * res error (A * B)) : run.2 = Ok (answered zero run, b) ->
  run = (run.1, Ok (answered zero run, b)).
Proof. intros E. rewrite <- E. apply surjective_pairing. Qed.

Lemma ran_made (run : roadmap * res error ChangeSet) : run.2 = Ok (made run) -> run = (run.1, Ok (made run)).
Proof. intros E. rewrite <- E. apply surjective_pairing. Qed.

Lemma wrote : apply_write world Desk.checks ports changes Studio.ctx Studio.ann "p-1" "change-0" (project_at assessed) assessed
  = (written, Ok (answered blank_change (write_apply "change-0" assessed), OperationStatusOK)).
Proof. unfold written, write_apply. apply ran_answered. by vm_compute. Qed.

Lemma wrote_inverse : inverse_write world Desk.checks ports changes Studio.ctx Studio.ann "p-1" "change-0" (project_at meanwhile) meanwhile
  = (inverted, Ok inverse).
Proof. unfold inverted, inverse, write_inverse. apply ran_made. by vm_compute. Qed.

Lemma inverse_named : ch_ID inverse = "change-2".
Proof. by vm_compute. Qed.

Lemma wrote_back : apply_write world Desk.checks ports changes Studio.ctx Studio.ann "p-1" (ch_ID inverse) (project_at inverted) inverted
  = (restored, Ok (answered blank_change (write_apply "change-2" inverted), OperationStatusOK)).
Proof. rewrite inverse_named. unfold restored, write_apply. apply ran_answered. by vm_compute. Qed.
End Proposals.
