(* ===== verification/ChangeTheorems.v ===== *)
(** The properties of change sets: what each call does to them and to their
    project, what no history of calls can do, and what an inverse undoes. *)

From stdpp Require Import pretty sorting.
From S2P Require Import Prelude Effects OperationCore OperationStore OperationTheorems OperationEffect Workspace Permission PermissionTheorems MemberStore MemberLaws Membership MembershipLaws OperationRunner RunnerLaws RoadmapModel RoadmapStore RouteObjects Templates Roadmap RoadmapLaws RoadmapHistory RoadmapSound RoadmapCommit RoadmapSteps RouteLaws RoadmapDemo ImpactStore ImpactStoreLaws Lineage ImpactDemo Assessment AssessmentLaws Stabilization StabilizationSteps Impact ImpactService FaultInjection ImpactLaws ImpactWrites ImpactMoves ImpactCalls ImpactExact ImpactRaising ImpactCounter ChangeStore ChangeDrafts ChangeApply ChangeInverse ChangeService ChangeLaws ChangeWrites ChangeApplied ChangeCalls ChangeHistory ChangeLineage ChangeDemo.

#[local] Existing Instances Studio.text Proposals.world_laws Desk.checks_laws Proposals.changes_laws.

(** ** Births *)

Definition call_actor (call : change_call) : Actor :=
  match call with
  | CallCreate actor _ _ _ | CallDraft actor _ _ _ | CallEdit actor _ _ _ _ | CallApply actor _ _ _ | CallReject actor _ _ _
  | CallReassess actor _ _ _ | CallReverse actor _ _ _ | CallAssessChange actor _ _ _ | CallStabilizeChange actor _ _ _ => actor
  end.

Section Births.
Context {X : Type} `{Digester roadmap_any} (world : World X) `{!WorldLaws world} (checks : Checks) `{!ChecksLaws checks}
  (ports : ImpactPorts X) (changes : ChangePorts X) `{!ChangePortLaws world ports changes}.

(** The one change set a write stores is the one that is new. *)
Definition bears (actor : Actor) (pid : string) (p : Project) (w w' : roadmap) (id : string) (row : ChangeSet) : Prop :=
  exists c, stored_on world checks actor pid p w w' c /\ ch_ID c = id /\ row = c <| ch_SemanticDeltas := [] |>.

Lemma born_one actor pid p w w' c id row : stored_on world checks actor pid p w w' c ->
  rm_changes w !! id = None -> rm_changes w' !! id = Some row -> bears actor pid p w w' id row.
Proof.
  intros B N F. pose proof B as [[_ E] _]. pose proof (f_equal fst E) as E1. cbn in E1. rewrite E1 in F.
  apply lookup_insert_Some in F as [[<- <-]|[_ F]]; [|congruence]. by exists c.
Qed.

Lemma moved_bears_none old next w w' id row : moved_to old next w w' -> rm_changes w !! id = None -> rm_changes w' !! id = Some row -> False.
Proof.
  intros (row0 & F0 & _ & _ & E) N F. pose proof (f_equal fst E) as E1. cbn in E1. rewrite E1 in F.
  apply lookup_insert_Some in F as [[<- _]|[_ F]]; congruence.
Qed.

Lemma business_bears call p w w' id row : change_business world checks ports changes call p w w' ->
  rm_changes w !! id = None -> rm_changes w' !! id = Some row -> bears (call_actor call) (call_project call) p w w' id row.
Proof.
  intros B. destruct B as [ctx actor pid key input q w1 w2 c F|ctx actor pid key input q w1 w2 c F|ctx actor pid changeID key input q w1 w2 c F
    |ctx actor pid changeID key q w1 w2 c status F|actor pid changeID key q w1 w2 c F|ctx actor pid changeID key q w1 w2 c F
    |ctx actor pid changeID key q w1 w2 c F|actor pid changeID key q w1 w2 c F|ctx actor pid changeID key proofs proofIDs evidence q w1 w2 result F];
    cbn [call_actor call_project]; intros N G.
  - apply (create_assessed_ok world checks ports changes) in F as (B & _). by eapply born_one.
  - apply (create_draft_ok world checks ports changes) in F as (B & _). by eapply born_one.
  - apply (edit_ok world checks ports changes) in F as (old & _ & _ & _ & _ & _ & Mv & _). by destruct (moved_bears_none _ _ _ _ _ _ Mv N G).
  - apply (apply_ok world checks ports changes) in F as (_ & old & _ & [_ ->|reason w0 _ _ _ Mv|w0 c1 _ [S0 _]%still_split _ _ Co]).
    + congruence.
    + by destruct (moved_bears_none _ _ _ _ _ _ Mv N G).
    + destruct (co_next _ _ _ _ _ _ _ _ _ _ _ Co) as (next & now & b & _ & (row0 & F0 & _ & _ & E & _) & _).
      rewrite S0 in F0, E. rewrite E in G. apply lookup_insert_Some in G as [[<- _]|[_ G]]; congruence.
  - apply (reject_ok world checks) in F as (_ & old & _ & [(_ & _ & ->)|(_ & now & _ & Mv)]); [congruence|].
    by destruct (moved_bears_none _ _ _ _ _ _ Mv N G).
  - apply (reassess_ok world checks ports changes) in F as (B & _). by eapply born_one.
  - apply (inverse_ok world checks ports changes) in F as (source & _ & _ & _ & _ & B & _). by eapply born_one.
  - apply (assess_change_ok world checks ports changes) in F as (old & _ & _ & Mv). by destruct (moved_bears_none _ _ _ _ _ _ Mv N G).
  - apply (stabilize_change_ok world checks) in F as [[E _]%still_split|(old & _ & _ & _ & Mv)]; [congruence|].
    by destruct (moved_bears_none _ _ _ _ _ _ Mv N G).
Qed.

Lemma call_bears ctx call w w' r id row : serve_change world checks ports changes ctx call w = (w', r) ->
  rm_changes w !! id = None -> rm_changes w' !! id = Some row ->
  exists p w0 w1, still w0 = still w /\ shown_as (call_project call) p w /\ bears (call_actor call) (call_project call) p w0 w1 id row.
Proof.
  intros F N G. apply (change_call_outcome world checks ports changes) in F as [[E _]%still_split|(p & w0 & w1 & Sh & E0 & B & E1)]; [congruence|].
  apply still_split in E1 as [E1 _]. pose proof E0 as [C0 _]%still_split. exists p, w0, w1. split; [done|].
  split; [eapply shown_still; [symmetry; exact E0|exact Sh]|]. eapply business_bears; [exact B|congruence|congruence].
Qed.
End Births.



(** C22. A change set that undoes another is made only when that one is applied
    and nothing else live undoes it: every change set that is found to undo the
    same source is rejected, or a stale one that the new one succeeds. *)
Theorem an_inverse_has_no_rival {X} `{Digester roadmap_any} (world : World X) `{!WorldLaws world} (checks : Checks)
  `{!ChecksLaws checks} (ports : ImpactPorts X) (changes : ChangePorts X) `{!ChangePortLaws world ports changes}
  ctx call w w' r id c (Keyed : changes_keyed w) (Run : serve_change world checks ports changes ctx call w = (w', r))
  (New : rm_changes w !! id = None) (Stored : rm_changes w' !! id = Some c) (Reverses : ch_ReversesChangeSetID c <> "") :
  exists p w0 source, still w0 = still w /\ shown_as (call_project call) p w /\ projectOwner p (ac_UserID (call_actor call)) = true
  /\ Store_ChangeSet world checks (pr_ID p) (ch_ReversesChangeSetID c) w0 = (w0, Ok source) /\ ch_Status source ∈ ChangeSetClosedStatuses
  /\ no_rival world checks (pr_ID p) w0 (ch_ReversesChangeSetID c) (ch_ReassessedFromID c).
Proof.
  destruct (call_bears world checks ports changes _ _ _ _ _ _ _ Run New Stored) as (p & w0 & w1 & E0 & Sh & c0 & [_ B] & _ & ->).
  destruct B as [_ _ _ _ _ _ [E|(w2 & source & E2 & V)]]; [by destruct c0|].
  assert (still w2 = still w) as E by congruence. pose proof E as [C2 _]%still_split.
  apply (guard_free world checks) in V as (Ow & L & Cl & Nr); [|unfold changes_keyed; by rewrite C2].
  exists p, w2, source. by destruct c0.
Qed.

Lemma an_inverse_has_no_rival_witness :
  exists p w0 source, still w0 = still Proposals.staled /\ shown_as "p-1" p Proposals.staled /\ projectOwner p "ann" = true
  /\ Store_ChangeSet Proposals.world Desk.checks (pr_ID p) "change-0" w0 = (w0, Ok source) /\ ch_Status source ∈ ChangeSetClosedStatuses
  /\ no_rival Proposals.world Desk.checks (pr_ID p) w0 "change-0" "".
Proof.
  apply (an_inverse_has_no_rival Proposals.world Desk.checks Proposals.ports Proposals.changes Studio.ctx
    (Proposals.reverse "key-0307" "change-0") Proposals.staled Proposals.reversed
    (Proposals.answer (Proposals.reverse "key-0307" "change-0") Proposals.staled) "change-2" (Proposals.row_at "change-2" Proposals.reversed)).
  - apply Proposals.proposals_keyed. by vm_compute.
  - apply surjective_pairing.
  - by vm_compute.
  - by vm_compute.
  - by vm_compute.
Defined.

(** C23. The source of a change set is found, on every store, loops of
    reassessments included, exactly when the rules derive it: it is the one the
    change set names, or its history recorded, or the one of the change set it
    reassesses. *)
Theorem lineage_is_derived {X} `{Digester roadmap_any} (world : World X) `{!WorldLaws world} (checks : Checks)
  `{!ChecksLaws checks} pid id change source w (Keyed : changes_keyed w) (Loaded : Store_ChangeSet world checks pid id w = (w, Ok change)) :
  (inverseLineageSource world checks pid change w = (w, Ok source) <-> undoes_source world checks pid w change source)
  /\ forall w' r, lineage_source world checks (S (size (rm_changes w))) pid change ∅ w = (w', r) -> r <> Ok None.
Proof.
  split; [by eapply lineage_derived|]. intros w' r F. pose proof (viewed world checks _ _ _ _ _ Keyed Loaded) as (row & Fr & Ei & _).
  eapply (lineage_walk_ends world checks); [exact Keyed| | | |exact F]; [by rewrite Ei|set_solver|]. rewrite size_dom, size_empty. lia.
Qed.

Lemma lineage_is_derived_witness :
  inverseLineageSource Proposals.world Desk.checks "p-1" (Proposals.read_at "change-2" Proposals.reversed) Proposals.reversed
    = (Proposals.reversed, Ok "change-0")
  <-> undoes_source Proposals.world Desk.checks "p-1" Proposals.reversed (Proposals.read_at "change-2" Proposals.reversed) "change-0".
Proof.
  apply (lineage_is_derived Proposals.world Desk.checks "p-1" "change-2").
  - apply Proposals.proposals_keyed. by vm_compute.
  - apply Proposals.read_stored. by vm_compute.
Defined.

(** ** Decisions *)

Section Decisions.
Context {X : Type} `{Digester roadmap_any} (world : World X) `{!WorldLaws world} (checks : Checks) `{!ChecksLaws checks}
  (ports : ImpactPorts X) (changes : ChangePorts X) `{!ChangePortLaws world ports changes}.
Abbreviation db := (sv_db (wd_service world)).

(** What an apply of [row] leaves: the row marked stale, its project as it
    was; or the row applied, its project at the next revision, with the fields
    of the change set and, without an upgrade, nothing else of the
    specification. *)
Inductive apply_leaves (actor : Actor) (id : string) (p : Project) (row : ChangeSet) (w w' : roadmap) : Prop :=
| leaves_stale w0 reason : still w0 = still w -> base_moved p row = true \/ stale_chapter checks (ch_ProjectID row) row w0 -> rows w' = rows w ->
    rm_changes w' = <[id := row <| ch_Status := ChangeSetStatusStale |> <| ch_StaleReason := reason |>]> (rm_changes w) ->
    apply_leaves actor id p row w w'
| leaves_applied next now b : base_moved p row = false ->
    validateChangeTemplateFields (ip_reader ports) p (ch_Fields row) = None ->
    steps_to p next b -> advanced db p next (rows w) (rows w') ->
    rm_changes w' = <[id := applied actor next now row]> (rm_changes w) ->
    (ch_TemplateUpgrade row = None -> pr_Spec next = written_values (ch_Fields row) ∪ pr_Spec p /\ b = nonempty (ch_Fields row)) ->
    apply_leaves actor id p row w w'.

(** An open view is its row, the deltas aside. *)
Lemma open_view pid id w w' old : changes_keyed w -> Store_ChangeSet world checks pid id w = (w', Ok old) ->
  ch_Status old <> ChangeSetStatusApplied ->
  exists row, rm_changes w !! id = Some row /\ ch_ID row = id /\ ch_ProjectID row = pid /\ old = row <| ch_SemanticDeltas := ch_SemanticDeltas old |>.
Proof.
  intros K (row & F & P & plan & impacts & -> & Im)%view_ok N. exists row. pose proof (K _ _ F). split; [done|]. split; [done|].
  split; [done|]. rewrite Im by (by destruct row). by destruct row.
Qed.

Lemma apply_move status : ChangeSetStatusCanMove "apply" status = true -> status = ChangeSetStatusAssessed.
Proof. intros E. change (contains [ChangeSetStatusAssessed] status = true) in E. by apply contains_spec, list_elem_of_singleton in E. Qed.

Lemma reject_move status : ChangeSetStatusCanMove "reject" status = true -> status = ChangeSetStatusAssessed.
Proof. intros E. change (contains [ChangeSetStatusAssessed] status = true) in E. by apply contains_spec, list_elem_of_singleton in E. Qed.

(** What was carried out, of the row. *)
Lemma carried_row ctx actor id p old row w w0 w' c : rm_changes w !! id = Some row -> ch_ID row = id ->
  old = row <| ch_SemanticDeltas := ch_SemanticDeltas old |> -> still w0 = still w ->
  carried_out world checks ports changes ctx actor p old w0 w' c ->
  exists next now b, steps_to p next b /\ validateChangeTemplateFields (ip_reader ports) p (ch_Fields row) = None
  /\ advanced db p next (rows w) (rows w') /\ rm_changes w' = <[id := applied actor next now row]> (rm_changes w)
  /\ (ch_TemplateUpgrade row = None -> pr_Spec next = written_values (ch_Fields row) ∪ pr_Spec p /\ b = nonempty (ch_Fields row)).
Proof.
  intros F Ei Eo [S1 S2]%still_split Co.
  destruct (co_next _ _ _ _ _ _ _ _ _ _ _ Co) as (next & now & b & -> & (row' & F' & _ & _ & E & Ad) & Sp & Pl).
  pose proof (co_fields _ _ _ _ _ _ _ _ _ _ _ Co) as Fv.
  rewrite S1, Eo in F', E. rewrite S2 in Ad. rewrite Eo in Fv, Pl.
  destruct row as [? rid]. cbn in Ei. subst rid. cbn in F', E, Fv, Pl. rewrite F in F'. injection F' as <-.
  exists next, now, b. split_and!; try done. intros U. by destruct (Pl U) as (Es' & Eb & _).
Qed.

Lemma business_applies ctx actor pid id p w w' c status : changes_keyed w ->
  apply_write world checks ports changes ctx actor pid id p w = (w', Ok (c, status)) ->
  still w' = still w \/ (decides actor p /\ exists row, rm_changes w !! id = Some row /\ ch_ProjectID row = pid
    /\ ch_Status row = ChangeSetStatusAssessed /\ apply_leaves actor id p row w w').
Proof.
  intros K (D & old & V & O)%(apply_ok world checks ports changes).
  destruct O as [_ ->|reason w0 M S0 St Mv|w0 c M S0 Bm _ Co]; [by left| |]; right; (split; [done|]);
    pose proof (apply_move _ M) as Es; apply open_view in V as (row & F & Ei & Ep & Eo); try done; try (by rewrite Es);
    exists row; (assert (ch_Status row = ChangeSetStatusAssessed) as Er by (rewrite Eo in Es; by destruct row)); (split_and!; [done..|]).
  - destruct Mv as (row' & F' & _ & _ & E). rewrite Eo in F', E. destruct row as [? rid]. cbn in Ei. subst rid. cbn in F', E.
    rewrite F in F'. injection F' as <-. eapply (leaves_stale _ _ _ _ _ _ w0 reason); [done| |exact (f_equal snd E)|exact (f_equal fst E)].
    rewrite Eo in St. cbn in Ep |- *. by subst pid.
  - destruct (carried_row _ _ _ _ _ _ _ _ _ _ F Ei Eo S0 Co) as (next & now & b & Sp & Fv & Ad & E & Pl).
    eapply (leaves_applied _ _ _ _ _ _ next now b); try done. rewrite <- Bm. by rewrite Eo.
Qed.

Lemma leaves_between actor id p row w w0 w1 w' : still w0 = still w -> still w' = still w1 ->
  apply_leaves actor id p row w0 w1 -> apply_leaves actor id p row w w'.
Proof.
  intros E0 E1 L. pose proof E0 as [C0 R0]%still_split. pose proof E1 as [C1 R1]%still_split.
  destruct L as [w2 reason E St Er Ec|next now b Bm Fv Sp Ad Ec Pl].
  - eapply (leaves_stale _ _ _ _ _ _ w2 reason); [congruence|exact St|congruence|congruence].
  - eapply (leaves_applied _ _ _ _ _ _ next now b); try done; [by rewrite R1, <- R0|congruence].
Qed.

Lemma apply_cases ctx actor pid id key w w' r : changes_keyed w -> ApplyChangeSet world checks ports changes ctx actor pid id key w = (w', r) ->
  still w' = still w
  \/ RequireHumanDecision ctx ErrHumanDecisionRequired = None
  /\ exists p row, stored_project pid p w /\ decides actor p /\ rm_changes w !! id = Some row /\ ch_ProjectID row = pid
     /\ ch_Status row = ChangeSetStatusAssessed /\ apply_leaves actor id p row w w'.
Proof.
  intros Keyed Run.
  destruct (RequireHumanDecision ctx ErrHumanDecisionRequired) as [e|] eqn:Hu.
  { left. revert Run. unfold ApplyChangeSet, RequireHuman. rewrite Hu. by destruct (blank id); intros Run; injection Run as <- _. }
  apply (change_call_outcome world checks ports changes ctx (CallApply actor pid id key)) in Run as [E|(p & w0 & w1 & Sh & E0 & B & E1)]; [by left|].
  assert (changes_keyed w0) as K by (unfold changes_keyed; pose proof E0 as [-> _]%still_split; exact Keyed).
  inversion B as [| | |ctx' ? ? ? ? ? ? ? ? ? F| | | | |]; subst.
  apply business_applies in F as [E|(D & row & Fr & Ep & Es & L)]; [left; congruence| |done].
  right. split; [done|]. exists p, row. pose proof E0 as [C0 _]%still_split. split_and!; try done.
  - eapply decided_shown; [done|]. eapply shown_still; [symmetry; exact E0|exact Sh].
  - by rewrite <- C0.
  - by eapply leaves_between.
Qed.

(** ** Rejections *)

Lemma business_rejects actor pid id p w w' c : changes_keyed w -> reject_write world checks actor pid id p w = (w', Ok c) ->
  decides actor p /\ (w' = w \/ exists row now, rm_changes w !! id = Some row /\ ch_ProjectID row = pid
    /\ ch_Status row = ChangeSetStatusAssessed /\ rows w' = rows w /\ rm_changes w' = <[id := rejected actor now row]> (rm_changes w)).
Proof.
  intros K (D & old & V & [(_ & _ & ->)|(M & now & -> & Mv)])%(reject_ok world checks); (split; [done|]); [by left|]. right.
  pose proof (reject_move _ M) as Es. apply open_view in V as (row & F & Ei & Ep & Eo); [|done|by rewrite Es].
  exists row, now. assert (ch_Status row = ChangeSetStatusAssessed) as Er by (rewrite Eo in Es; by destruct row).
  destruct Mv as (row' & F' & _ & _ & E). rewrite Eo in F', E. destruct row as [? rid]. cbn in Ei. subst rid. cbn in F', E.
  rewrite F in F'. injection F' as <-. split_and!; try done; [exact (f_equal snd E)|exact (f_equal fst E)].
Qed.
End Decisions.



(** Rejecting a change set, exactly: nothing of change sets and projects
    changes, or the caller is the one who owns the project, the change set was
    assessed, and its row, alone, takes the rejection, with who decided. *)
Theorem rejection_is_exact {X} `{Digester roadmap_any} (world : World X) `{!WorldLaws world} (checks : Checks)
  `{!ChecksLaws checks} (ports : ImpactPorts X) (changes : ChangePorts X) `{!ChangePortLaws world ports changes}
  ctx actor pid id key w w' r (Keyed : changes_keyed w) (Run : RejectChangeSet world checks ctx actor pid id key w = (w', r)) :
  still w' = still w
  \/ exists p row now, stored_project pid p w /\ decides actor p /\ rm_changes w !! id = Some row /\ ch_ProjectID row = pid
     /\ ch_Status row = ChangeSetStatusAssessed /\ rows w' = rows w /\ rm_changes w' = <[id := rejected actor now row]> (rm_changes w).
Proof.
  apply (change_call_outcome world checks ports changes ctx (CallReject actor pid id key)) in Run as [E|(p & w0 & w1 & Sh & E0 & B & E1)]; [by left|].
  pose proof E0 as [C0 R0]%still_split. pose proof E1 as [C1 R1]%still_split.
  assert (changes_keyed w0) as K by (unfold changes_keyed; by rewrite C0).
  inversion B as [| | | |? ? ? ? ? ? ? ? F| | | |]; subst.
  apply (business_rejects world checks) in F as (D & [->|(row & now & Fr & Ep & Es & Er & Ec)]); [left; congruence| |done].
  right. exists p, row, now. split_and!; try done; try congruence.
  eapply decided_shown; [done|]. eapply shown_still; [symmetry; exact E0|exact Sh].
Qed.

Lemma rejection_is_exact_witness :
  still Proposals.refused = still Proposals.reversed
  \/ exists p row now, stored_project "p-1" p Proposals.reversed /\ decides Studio.ann p /\ rm_changes Proposals.reversed !! "change-2" = Some row
     /\ ch_ProjectID row = "p-1" /\ ch_Status row = ChangeSetStatusAssessed /\ rows Proposals.refused = rows Proposals.reversed
     /\ rm_changes Proposals.refused = <["change-2" := rejected Studio.ann now row]> (rm_changes Proposals.reversed).
Proof.
  apply (rejection_is_exact Proposals.world Desk.checks Proposals.ports Proposals.changes Studio.ctx Studio.ann "p-1" "change-2" "key-0309"
    Proposals.reversed Proposals.refused (Proposals.answer (Proposals.reject "key-0309" "change-2") Proposals.reversed)).
  - apply Proposals.proposals_keyed. by vm_compute.
  - apply surjective_pairing.
Defined.

(** ** Histories *)

Lemma history_rows {X} `{Digester roadmap_any} (world : World X) `{!WorldLaws world} (checks : Checks)
  `{!ChecksLaws checks} (ports : ImpactPorts X) (changes : ChangePorts X) `{!ChangePortLaws world ports changes} w w' :
  changes_keyed w -> rtc (change_step world checks ports changes) w w' ->
  changes_keyed w'
  /\ (forall id row, rm_changes w !! id = Some row -> exists row', rm_changes w' !! id = Some row' /\ rtc row_step row row')
  /\ (forall id row', rm_changes w !! id = None -> rm_changes w' !! id = Some row' ->
        exists born, ch_Status born ∈ birth /\ rtc row_step born row').
Proof.
  intros Keyed Steps. induction Steps as [w|w w1 w' S _ IH].
  { split; [done|]. split; [intros id row F; exists row; by split; [|constructor]|congruence]. }
  apply (step_rows world checks ports changes) in S; [|done]. destruct (IH (rows_keyed _ _ S Keyed)) as (K & Fo & Ba).
  split; [done|]. split.
  - intros id row F. destruct (rows_forward _ _ _ _ S F) as (row1 & F1 & S1), (Fo id row1 F1) as (row' & F' & S').
    exists row'. split; [done|]. by transitivity row1.
  - intros id row' N F'. destruct (rm_changes w1 !! id) as [row1|] eqn:F1; [|by eapply Ba].
    destruct (rows_backward _ _ _ _ S F1) as [[row F]|[_ B]]; [congruence|].
    destruct (Fo id row1 F1) as (row2 & F2 & S2). exists row1. split; [done|]. congruence.
Qed.



(** C6. Over every history of calls, as long as revisions are not exhausted, one
    change set makes one revision: each that was applied took its project from
    the revision it was made on to the next, the project is there or further, and
    no other change set made that revision. *)
Theorem one_change_set_per_revision {X} `{Digester roadmap_any} (world : World X) `{!WorldLaws world} (checks : Checks)
  `{!ChecksLaws checks} (ports : ImpactPorts X) (changes : ChangePorts X) `{!ChangePortLaws world ports changes}
  w w' (Keyed : changes_keyed w) (Ok : revisions_ok w)
  (Steps : rtc (fun w w' => room w /\ change_step world checks ports changes w w') w w') : revisions_ok w'.
Proof.
  induction Steps as [w|w w1 w' [R S] _ IH]; [done|]. apply IH.
  - eapply rows_keyed; [by eapply (step_rows world checks ports changes)|done].
  - by eapply (step_revisions world checks ports changes).
Qed.

Lemma one_change_set_per_revision_witness : revisions_ok Proposals.undone.
Proof.
  apply (one_change_set_per_revision Proposals.world Desk.checks Proposals.ports Proposals.changes Proposals.start).
  - apply Proposals.proposals_keyed. by vm_compute.
  - apply Proposals.start_revisions.
  - apply Proposals.proposals_history.
Defined.

(** ** The specification *)

Section Specification.
Context {X : Type} `{Digester roadmap_any} (world : World X) `{!WorldLaws world} (checks : Checks) `{!ChecksLaws checks}
  (ports : ImpactPorts X) (changes : ChangePorts X) `{!ChangePortLaws world ports changes}.
Abbreviation db := (sv_db (wd_service world)).

(** A change set of fields, applied with success. *)
Lemma applied_plain ctx actor pid id p w w' c row : changes_keyed w -> rm_changes w !! id = Some row ->
  ch_Status row = ChangeSetStatusAssessed -> ch_TemplateUpgrade row = None ->
  apply_write world checks ports changes ctx actor pid id p w = (w', Ok (c, OperationStatusOK)) ->
  exists next now, advanced db p next (rows w) (rows w') /\ validateChangeTemplateFields (ip_reader ports) p (ch_Fields row) = None
  /\ pr_Spec next = written_values (ch_Fields row) ∪ pr_Spec p /\ rm_changes w' = <[id := applied actor next now row]> (rm_changes w).
Proof.
  intros K F Un Pl (D & old & V & O)%(apply_ok world checks ports changes).
  pose proof V as (row1 & F1 & _ & _ & _ & _ & _ & Es & _)%(viewed world checks); [|done].
  assert (row1 = row) as -> by congruence. rewrite Un in Es.
  apply open_view in V as (row0 & F0 & Ei & Ep & Eo); [|done|by rewrite Es]. assert (row0 = row) as -> by congruence.
  inversion O as [Ea _|reason w0|w0 c0 M S0 Bm Ch Co]; subst; [by rewrite Es in Ea|].
  destruct (carried_row world checks ports changes _ _ _ _ _ _ _ _ _ _ F eq_refl Eo S0 Co) as (next & now & b & _ & Fv & Ad & E & P).
  destruct (P Pl) as [Sp _]. by exists next, now.
Qed.

Lemma inverse_fields ctx actor pid id p row w w' c : changes_keyed w -> rm_changes w !! id = Some row ->
  inverse_write world checks ports changes ctx actor pid id p w = (w', Ok c) -> ch_Fields c = field_deltas (swapped (ch_Fields row)).
Proof.
  intros K F (source & V & _ & _ & _ & _ & _ & _ & ->)%(inverse_ok world checks ports changes).
  apply (viewed world checks) in V as (row0 & F0 & _ & _ & _ & _ & Ea & _); [|done]. assert (row0 = row) as -> by congruence.
  unfold answer_of in Ea. injection Ea. intros. by do 2 f_equal.
Qed.

Lemma current_old p fields field : current_values p fields = true -> field ∈ fields -> is_Some (pr_Spec p !! fd_Key field) ->
  pr_Spec p !! fd_Key field = Some (fd_OldValue field).
Proof.
  intros C Hin [value E]. unfold current_values in C. rewrite forallb_forall in C. apply list_elem_of_In, C, String.eqb_eq in Hin.
  unfold spec_value in Hin. rewrite E in Hin |- *. cbn in Hin. by subst.
Qed.

(** What an applied change set asked for, after any history. *)
Lemma kept_fields id row w w' : changes_keyed w -> rm_changes w !! id = Some row -> ch_Status row = ChangeSetStatusApplied ->
  rtc (change_step world checks ports changes) w w' ->
  exists row', rm_changes w' !! id = Some row' /\ changes_keyed w' /\ ch_Fields row' = ch_Fields row.
Proof.
  intros K F St S. destruct (history_rows world checks ports changes w w' K S) as (K' & Fo & _).
  destruct (Fo id row F) as (row' & F' & R). exists row'. split; [done|]. split; [done|].
  destruct (applied_row _ _ R St) as [A _]. unfold answer_of in A. by injection A.
Qed.
End Specification.

(** C25. A change set of fields that is applied leaves a specification its
    template takes: every value fits the type of its field, and no required field
    is blank. *)
Theorem applied_specification_fits {X} `{Digester roadmap_any} (world : World X) `{!WorldLaws world} (checks : Checks)
  `{!ChecksLaws checks} (ports : ImpactPorts X) (changes : ChangePorts X) `{!ChangePortLaws world ports changes}
  ctx actor pid id key w w' r row row' (Keyed : changes_keyed w)
  (Run : ApplyChangeSet world checks ports changes ctx actor pid id key w = (w', r))
  (Stored : rm_changes w !! id = Some row) (Fields : nonempty (ch_Fields row) = true) (Plain : ch_TemplateUpgrade row = None)
  (Undecided : ch_Status row = ChangeSetStatusAssessed)
  (Applied : rm_changes w' !! id = Some row') (Status : ch_Status row' = ChangeSetStatusApplied) :
  exists p next copy, stored_project pid p w /\ advanced (sv_db (wd_service world)) p next (rows w) (rows w')
  /\ pr_TemplateCopy p = Some copy /\ tc_Status copy = "bound"
  /\ pr_Spec next = written_values (ch_Fields row) ∪ pr_Spec p /\ fits (ip_reader ports) (tc_Definition copy) (pr_Spec next).
Proof.
  apply (apply_cases world checks ports changes) in Run as [E|(_ & p & row0 & Sp & _ & F & _ & _ & L)]; [| |done].
  - apply still_split in E as [E _]. assert (row' = row) as -> by congruence. by rewrite Undecided in Status.
  - assert (row0 = row) as -> by congruence. destruct L as [w0 reason _ _ _ E|next now b _ Fv _ Ad _ Pl].
    + rewrite E, lookup_insert_eq in Applied. injection Applied as <-. by destruct row.
    + apply validated in Fv as (_ & _ & V). destruct (V Fields) as (copy & Ec & Eb & Fi). destruct (Pl Plain) as [Es _].
      exists p, next, copy. rewrite Es. by split_and!.
Qed.

Lemma applied_specification_fits_witness :
  exists p next copy, stored_project "p-1" p Proposals.assessed /\ advanced Proposals.db p next (rows Proposals.assessed) (rows Proposals.applied)
  /\ pr_TemplateCopy p = Some copy /\ tc_Status copy = "bound"
  /\ pr_Spec next = written_values (ch_Fields (Proposals.row_at "change-0" Proposals.assessed)) ∪ pr_Spec p
  /\ fits Counter.reader (tc_Definition copy) (pr_Spec next).
Proof.
  apply (applied_specification_fits Proposals.world Desk.checks Proposals.ports Proposals.changes Studio.ctx Studio.ann "p-1" "change-0" "key-0305"
    Proposals.assessed Proposals.applied (Proposals.answer (Proposals.enact "key-0305" "change-0") Proposals.assessed)
    (Proposals.row_at "change-0" Proposals.assessed) (Proposals.row_at "change-0" Proposals.applied)).
  - apply Proposals.proposals_keyed. by vm_compute.
  - apply surjective_pairing.
  - by vm_compute.
  - by vm_compute.
  - by vm_compute.
  - by vm_compute.
  - by vm_compute.
  - by vm_compute.
Defined.


