(* ===== verification/MemberReads.v ===== *)
(** The readings of the member and owner context: the invitation lists of
    [src/internal/lingdoc/membership/{lifecycle,ext}.go] and the transfer list
    of [member_records.go], with what they hide from whom. *)

From S2P Require Import Prelude Effects OperationCore OperationStore Workspace Permission PermissionTheorems MemberStore MemberLaws Membership MembershipLaws MembershipSimulation MembershipDemo.

Section Reads.
Variable db : Database.
Variable ports : Ports.
Variable codec : Codec.
(** [time.Now] at each row of a listing. *)
Variable now : string -> Z.

(** One row of the listing: its invitation, expired where its time is over. *)
Definition expire_invitation (id : string) (item : MemberInvitation) : MemberInvitation :=
  if (mi_Status item =? "invited")%string && negb (now id <? mi_ExpiresAt item)
  then item <| mi_Status := "expired" |> else item.

Definition decode_row (row : string * projectRecordRow) : T (string * MemberInvitation) :=
  item ← of_res (co_read_invitation codec (pr_PayloadJSON row.2));
  mret (row.1, item).

Definition shown_invitations (visible : MemberInvitation -> bool) (rows : list (string * MemberInvitation))
  : list MemberInvitation :=
  omap (fun '(id, item) => if visible item then Some (expire_invitation id item) else None) rows.

(** Whether the reader manages the project: an active owner or admin whom the
    policy grants "manage". *)
Definition is_manager (actor : Actor) (pid : string) (p : Project) : T bool :=
  let '(m, isMember) := projectMember p (ac_UserID actor) in
  if isMember && ((governanceRole m =? "owner")%string || (governanceRole m =? "admin")%string)
     && ((m_Status m =? "")%string || (m_Status m =? "active")%string)
  then verdict ← attempt (po_AuthorizeProject ports (project_request actor pid "manage"));
       mret (match verdict with Ok _ => true | Err _ => false end)
  else mret false.

(** The body of the read-only transaction of [ListProjectInvitations]. *)
Definition list_invitations (actor : Actor) (pid : string) : T (list MemberInvitation) :=
  _ ← po_AuthorizeTenant ports (project_request actor "" "read");
  p ← Gorm_Project db (ac_TenantID actor) pid;
  manager ← is_manager actor pid p;
  rows ← ListProjectRecords db pid "invitation";
  decoded ← traverse decode_row rows;
  let result := shown_invitations (fun item => manager || (mi_UserID item =? ac_UserID actor)%string) decoded in
  _ ← refuse_if (negb manager && Nat.eqb (List.length result) 0) ErrNotFound;
  mret result.

(** [listTenantInvitations], in the transaction of [ListMyProjectInvitations]. *)
Definition tenant_invitation_rows (tenant : Z) (w : tables) : list (string * projectRecordRow) :=
  db_record_order db (omap (fun '(key, row) =>
    let '(pid, kind, id) := key in
    match tb_projects w !! pid with
    | Some project => if (row_TenantID project =? tenant) && (kind =? "invitation")%string
                      then Some (id, row) else None
    | None => None
    end) (map_to_list (tb_records w))).

Definition listTenantInvitations (tenant : Z) (user : string) : T (list MemberInvitation) :=
  rows ← query db "select lingdoc_g5_records" (tenant_invitation_rows tenant);
  decoded ← traverse decode_row rows;
  mret (omap (fun '(id, item) =>
    if (mi_UserID item =? user)%string && (mi_Status item =? "invited")%string && (now id <? mi_ExpiresAt item)
    then Some item else None) decoded).

Definition list_my_invitations (actor : Actor) : T (list MemberInvitation) :=
  _ ← po_AuthorizeTenant ports (project_request actor "" "read");
  listTenantInvitations (ac_TenantID actor) (ac_UserID actor).

(** [OwnerMayAct] ([owner_unavailable.go]) and [listOwnerTransfers]. *)
Definition OwnerMayAct (p : Project) (actor : Actor) : bool := projectOwner p (ac_UserID actor).

Definition shown_transfer (p : Project) (user : string) (item : OwnerTransfer) : option OwnerTransfer :=
  when negb (OwnerMayAct p (plain_actor 0 user)) && negb (ot_FromUserID item =? user)%string
       && negb (ot_ToUserID item =? user)%string return None;
  Some (if (ot_Status item =? "pending")%string && (transfer_ttl <? now (ot_ID item) - ot_CreatedAt item)
        then item <| ot_Status := "expired" |> else item).

Definition listOwnerTransfers (pid : string) (p : Project) (user : string) : T (list OwnerTransfer) :=
  rows ← query db "select lingdoc_owner_transfers" (fun w =>
    db_transfer_order db (List.filter (fun row => (ot_ProjectID row =? pid)%string)
                            (map_to_list (tb_transfers w)).*2));
  mret (omap (shown_transfer p user) rows).

Definition list_owner_transfers (actor : Actor) (pid : string) : T (list OwnerTransfer) :=
  p ← po_AuthorizeProject ports (project_request actor pid "read");
  listOwnerTransfers pid p (ac_UserID actor).
End Reads.

Section Hidden.
Variable db : Database.
Variable ports : Ports.
Variable codec : Codec.
Variable now : string -> Z.

Lemma shown_invitation visible rows item :
  item ∈ shown_invitations now visible rows ->
  exists id stored, (id, stored) ∈ rows /\ visible stored = true /\ item = expire_invitation now id stored.
Proof.
  unfold shown_invitations. intros F. apply list_elem_of_omap in F as ([id stored] & Hin & F).
  destruct (visible stored) eqn:E; [|discriminate]. injection F as <-. eauto.
Qed.

Lemma expire_user id item : mi_UserID (expire_invitation now id item) = mi_UserID item.
Proof. unfold expire_invitation. by destruct (_ && _). Qed.

Lemma expire_open id item : mi_Status (expire_invitation now id item) = "invited" ->
  expire_invitation now id item = item /\ now id < mi_ExpiresAt item.
Proof.
  unfold expire_invitation. destruct (_ && _) eqn:E; [discriminate|]. intros Hs. split; [done|].
  rewrite Hs in E. cbn in E. by apply negb_false_iff, Z.ltb_lt in E.
Qed.

Lemma shown_transfer_party p user item item' : shown_transfer now p user item = Some item' ->
  projectOwner p user = true \/ ot_FromUserID item' = user \/ ot_ToUserID item' = user.
Proof.
  unfold shown_transfer, OwnerMayAct. cbn [ac_UserID plain_actor].
  destruct (projectOwner p user); [by left|]. cbn [negb andb].
  destruct (ot_FromUserID item =? user)%string eqn:E1; cbn [negb andb].
  - intros [= <-]. apply String.eqb_eq in E1. right. left. by destruct (_ && _).
  - destruct (ot_ToUserID item =? user)%string eqn:E2; cbn [negb]; [|discriminate].
    intros [= <-]. apply String.eqb_eq in E2. right. right. by destruct (_ && _).
Qed.

(** Nobody reads other people's invitations or transfers: a reader who
    does not manage the project is shown only invitations addressed to them
    and at least one of them (having none reads like an absent project), an
    invitation is shown as open only while it is, and an owner transfer is
    shown only to the owner and its two parties. *)
Theorem membership_records_hidden actor pid w w1 items p v v1 transfers
  (Listed : list_invitations db ports codec now actor pid w = (w1, Ok items))
  (Transfers : listOwnerTransfers db now pid p (ac_UserID actor) v = (v1, Ok transfers)) :
  ((exists w0 w0' w2 q, po_AuthorizeTenant ports (project_request actor "" "read") w = (w0, Ok tt)
      /\ Gorm_Project db (ac_TenantID actor) pid w0 = (w0', Ok q)
      /\ is_manager ports actor pid q w0' = (w2, Ok true))
   \/ (items <> [] /\ forall item, item ∈ items -> mi_UserID item = ac_UserID actor
         /\ (mi_Status item = "invited" -> exists id, now id < mi_ExpiresAt item)))
  /\ (forall t, t ∈ transfers -> projectOwner p (ac_UserID actor) = true
         \/ ot_FromUserID t = ac_UserID actor \/ ot_ToUserID t = ac_UserID actor).
Proof.
  split.
  - unfold list_invitations in Listed. apply bind_ok in Listed as (w0 & [] & F1 & F).
    apply bind_ok in F as (w0' & q & F2 & F). apply bind_ok in F as (w2 & manager & Hm & F). step F. step F.
    apply bind_ok in F as (w5 & u & G & F). apply refuse_if_ok in G as [G ->]. injection F as <- <-.
    destruct manager; [left; by exists w0, w0', w2, q|right]. cbn [negb orb andb] in *. split.
    + intros E. by rewrite E in G.
    + intros item Hin. apply shown_invitation in Hin as (id & stored & _ & Hv & ->).
      apply String.eqb_eq in Hv. rewrite expire_user. split; [done|].
      intros Hs. destruct (expire_open _ _ Hs) as [-> Ho]. by exists id.
  - intros t Ht. unfold listOwnerTransfers in Transfers. step Transfers. injection Transfers as _ <-.
    apply list_elem_of_omap in Ht as (row & _ & Hr). by eapply shown_transfer_party.
Qed.
End Hidden.

(** *** A workspace with an open invitation and a pending transfer *)

Module ReadDemo.
Definition invitation (user status : string) : MemberInvitation :=
  {| mi_ID := "i-1"; mi_ProjectID := "p-1"; mi_UserID := user; mi_Version := 1; mi_Assignment := zero_member;
     mi_Status := status; mi_Inviter := "ann"; mi_Reason := "start"; mi_ExpiresAt := 5000; mi_CreatedAt := 10;
     mi_AcceptedAt := None |}.

Definition stored (user : string) : projectRecordRow :=
  {| pr_Version := 1; pr_PayloadJSON := digits (encode (invitation user "invited")) |}.

Definition transfer : OwnerTransfer :=
  {| ot_ID := "t-1"; ot_ProjectID := "p-1"; ot_FromUserID := "ann"; ot_ToUserID := "eve"; ot_Status := "pending";
     ot_ExpectedProjectVersion := 3; ot_CreatedAt := 0; ot_AcceptedAt := None |}.

Definition tables : tables :=
  demo_tables <| tb_records := list_to_map [(("p-1", "invitation", "i-1"), stored "eve");
                                            (("p-1", "invitation", "i-2"), stored "ben")] |>
              <| tb_transfers := {[ "t-1" := transfer ]} |>.
End ReadDemo.

Lemma membership_records_hidden_witness :
  list_invitations demo_db (demo_ports false) demo_codec (fun _ => 100) (demo_actor "eve") "p-1" ReadDemo.tables
    = (ReadDemo.tables, Ok [ReadDemo.invitation "eve" "invited"])
  /\ forall t, t ∈ [ReadDemo.transfer] -> projectOwner zero_project "eve" = true
       \/ ot_FromUserID t = "eve" \/ ot_ToUserID t = "eve".
Proof.
  split; [reflexivity|].
  exact (proj2 (membership_records_hidden demo_db (demo_ports false) demo_codec (fun _ => 100) (demo_actor "eve") "p-1"
    ReadDemo.tables ReadDemo.tables [ReadDemo.invitation "eve" "invited"] zero_project ReadDemo.tables
    ReadDemo.tables [ReadDemo.transfer] eq_refl eq_refl)).
Defined.
