(* ===== verification/Redis.v ===== *)
(** The sorted-set commands of Redis the limiters call, as an interface: what
    each does to the members of a set is a named law, and finite maps are one
    implementation. *)

From S2P Require Import Prelude.

(** A bound of a score range; [None] is [-inf] below and [+inf] above. *)
Definition score_bound := option Z.

Definition in_range (lo hi : score_bound) (s : Z) : Prop :=
  match lo with Some l => l <= s | None => True end
  /\ match hi with Some h => s <= h | None => True end.

#[export] Instance in_range_dec lo hi s : Decision (in_range lo hi s).
Proof. unfold in_range. destruct lo, hi; apply _. Defined.

(** [zset_scores] is what a set holds: the score of each member. *)
Class SortedSets := {
  zset : Type;
  zset_empty : zset;
  zset_scores : zset -> gmap string Z;
  ZREMRANGEBYSCORE : zset -> score_bound -> score_bound -> zset;
  ZCARD : zset -> Z;
  ZCOUNT : zset -> score_bound -> score_bound -> Z;
  ZADD : zset -> Z -> string -> zset;
  ZREM : zset -> string -> zset;
  PEXPIRE : zset -> Z -> zset
}.

(** The documented effect of the commands. *)
Class SortedSetLaws (R : SortedSets) := {
  scores_empty : zset_scores zset_empty = ∅;
  scores_remrange z lo hi :
    zset_scores (ZREMRANGEBYSCORE z lo hi) = filter (fun ms => ~ in_range lo hi ms.2) (zset_scores z);
  zcard_size z : ZCARD z = Z.of_nat (size (zset_scores z));
  zcount_size z lo hi :
    ZCOUNT z lo hi = Z.of_nat (size (filter (fun ms => in_range lo hi ms.2) (zset_scores z)));
  scores_add z s m : zset_scores (ZADD z s m) = <[m := s]> (zset_scores z);
  scores_rem z m : zset_scores (ZREM z m) = delete m (zset_scores z);
  scores_expire z ttl : zset_scores (PEXPIRE z ttl) = zset_scores z
}.

(** Sorted sets as finite maps. *)
#[export] Instance map_sets : SortedSets := {
  zset := gmap string Z;
  zset_empty := ∅;
  zset_scores := fun z => z;
  ZREMRANGEBYSCORE := fun z lo hi => filter (fun ms => ~ in_range lo hi ms.2) z;
  ZCARD := fun z => Z.of_nat (size z);
  ZCOUNT := fun z lo hi => Z.of_nat (size (filter (fun ms => in_range lo hi ms.2) z));
  ZADD := fun z s m => <[m := s]> z;
  ZREM := fun z m => delete m z;
  PEXPIRE := fun z _ => z
}.

#[export] Instance map_sets_laws : SortedSetLaws map_sets.
Proof. by split. Qed.

(** Admission adds at most one member. *)
Lemma size_insert_le {A} (m : gmap string A) k x : (size (<[k := x]> m) <= S (size m))%nat.
Proof.
  destruct (m !! k) eqn:E; [rewrite map_size_insert_Some by done|rewrite map_size_insert_None by done]; lia.
Qed.

Lemma size_delete_le {A} (m : gmap string A) k : (size (delete k m) <= size m)%nat.
Proof.
  destruct (m !! k) eqn:E; [rewrite map_size_delete_Some by (by rewrite E)|rewrite map_size_delete_None by done]; lia.
Qed.
