(* ===== verification/RateLimit.v ===== *)
(** The sliding-window rate limiter of [src/internal/ratelimit/limiter.go]:
    the in-process fallback with its cleanup, sequentially and as interleaved
    goroutines, and the Redis script behind an interface of the sorted-set
    commands it calls. *)

From S2P Require Import Prelude Redis.

(** ** The in-process limiter

    A [*localEntry] is an index of the heap; [entries] is the [sync.Map].
    Times are nanoseconds. *)

Set Primitive Projections.
Record localEntry := { le_timestamps : list Z; le_deleted : bool }.
Record localLimiter := { ll_entries : gmap string nat; ll_heap : list localEntry }.
Unset Primitive Projections.

Definition newLocalLimiter : localLimiter := {| ll_entries := ∅; ll_heap := [] |}.

Definition localCleanupInterval := 60000000000.

(** The time stamps after the cutoff. *)
Definition recent (cutoff : Z) (ts : list Z) : list Z := filter (fun t => cutoff < t) ts.

Definition LoadOrStore (l : localLimiter) (key : string) : localLimiter * nat :=
  match ll_entries l !! key with
  | Some p => (l, p)
  | None =>
      let p := length (ll_heap l) in
      ({| ll_entries := <[key := p]> (ll_entries l);
          ll_heap := ll_heap l ++ [{| le_timestamps := []; le_deleted := false |}] |}, p)
  end.

Inductive visit := Gone | Refused | Allowed.

(** What [allow] does between locking and unlocking an entry. *)
Definition visit_entry (e : localEntry) (now window max : Z) : localEntry * visit :=
  when le_deleted e return (e, Gone);
  let valid := recent (now - window) (le_timestamps e) in
  when max <=? Z.of_nat (length valid) return (e <| le_timestamps := valid |>, Refused);
  (e <| le_timestamps := valid ++ [now] |>, Allowed).

Definition visit_at (l : localLimiter) (p : nat) (now window max : Z)
  : option (localLimiter * visit) :=
  e ← ll_heap l !! p;
  let '(e', v) := visit_entry e now window max in
  Some (l <| ll_heap := <[p := e']> (ll_heap l) |>, v).

Definition delete_key (l : localLimiter) (key : string) : localLimiter :=
  l <| ll_entries := delete key (ll_entries l) |>.

(** [fuel] bounds the rounds of the [for]; without concurrent cleanups the
    first round answers. *)
Fixpoint allow (fuel : nat) (l : localLimiter) (key : string) (now window max : Z)
  : option (localLimiter * bool) :=
  match fuel with
  | O => None
  | S fuel' =>
      let '(l, p) := LoadOrStore l key in
      '(l, v) ← visit_at l p now window max;
      match v with
      | Gone => allow fuel' (delete_key l key) key now window max
      | Refused => Some (l, false)
      | Allowed => Some (l, true)
      end
  end.

(** One callback of the cleanup's [Range]. *)
Definition evict (cutoff : Z) (l : localLimiter) (kp : string * nat) : localLimiter :=
  match ll_heap l !! kp.2 with
  | None => l
  | Some e =>
      when existsb (fun t => cutoff <? t) (le_timestamps e) return l;
      delete_key (l <| ll_heap := <[kp.2 := e <| le_deleted := true |>]> (ll_heap l) |>) kp.1
  end.

Definition cleanup (l : localLimiter) (now window : Z) : localLimiter :=
  foldl (evict (now - window)) l (map_to_list (ll_entries l)).

(** The window of a limiter ([New], [startCleanup]). *)
Definition effective_window (window : Z) : Z := if window <=? 0 then 60000000000 else window.

(** ** Redis *)

Section Redis.
Context {R : SortedSets}.

(** [rateLimitScript] on the set at its key. *)
Definition rateLimitScript (z : zset) (now window maxReq : Z) (member : string) : zset * Z :=
  let z := ZREMRANGEBYSCORE z (Some 0) (Some (now - window)) in
  let count := ZCARD z in
  when count <? maxReq return (PEXPIRE (ZADD z now member) (window + 1000), 1);
  (z, 0).

Set Primitive Projections.
Record Limiter := {
  lm_redis : bool;                         (* a client is configured *)
  lm_local : localLimiter;
  lm_keyPrefix : string;
  lm_window : Z;
  lm_instanceID : string
}.
Unset Primitive Projections.

(** [fresh] is the generated instance ID. *)
Definition New (redis : bool) (keyPrefix : string) (window : Z) (instanceID fresh : string)
  : Limiter := {|
    lm_redis := redis; lm_local := newLocalLimiter; lm_keyPrefix := keyPrefix;
    lm_window := effective_window window;
    lm_instanceID := if (instanceID =? "")%string then fresh else instanceID |}.

(** [time.Duration.Milliseconds], [time.Time.UnixMilli]. *)
Definition Milliseconds (ns : Z) : Z := Z.quot ns 1000000.

Variable itoa : Z -> string.

Definition hit_member (instanceID : string) (nowMs : Z) : string :=
  instanceID +:+ ":" +:+ itoa nowMs.

(** [sets] are the keys of the server; [up] is whether the script runs. *)
Definition redisAllow (l : Limiter) (sets : gmap string zset) (up : bool) (key : string)
  (now max : Z) : gmap string zset * option bool :=
  let redisKey := lm_keyPrefix l +:+ key in
  let nowMs := Milliseconds now in
  let windowMs := Milliseconds (lm_window l) in
  let member := hit_member (lm_instanceID l) nowMs in
  when negb up return (sets, None);
  let '(z, result) := rateLimitScript (default zset_empty (sets !! redisKey)) nowMs windowMs max member in
  (<[redisKey := z]> sets, Some (result =? 1)).

Definition Allow (l : Limiter) (sets : gmap string zset) (up : bool) (key : string)
  (now max : Z) : Limiter * gmap string zset * option bool :=
  when max <=? 0 return (l, sets, Some true);
  let '(sets, answer) := if lm_redis l then redisAllow l sets up key now max else (sets, None) in
  match answer with
  | Some allowed => (l, sets, Some allowed)
  | None =>
      match allow 1 (lm_local l) key now (lm_window l) max with
      | Some (local, b) => (l <| lm_local := local |>, sets, Some b)
      | None => (l, sets, None)
      end
  end.
End Redis.
Arguments Limiter : clear implicits.

(** ** Sequential use of the in-process limiter *)

Inductive local_op :=
| OpAllow (key : string) (now max : Z)
| OpCleanup (now : Z).

Definition op_time (op : local_op) : Z :=
  match op with OpAllow _ now _ => now | OpCleanup now => now end.

(** The hits it granted, oldest first. *)
Record local_run := { lr_limiter : localLimiter; lr_hits : list (string * Z) }.

Definition local_step (window : Z) (r : local_run) (op : local_op) : option local_run :=
  match op with
  | OpAllow key now max =>
      '(l, b) ← allow 1 (lr_limiter r) key now window max;
      Some {| lr_limiter := l; lr_hits := if (b : bool) then lr_hits r ++ [(key, now)] else lr_hits r |}
  | OpCleanup now =>
      Some {| lr_limiter := cleanup (lr_limiter r) now window; lr_hits := lr_hits r |}
  end.

Fixpoint local_steps (window : Z) (r : local_run) (ops : list local_op) : option local_run :=
  match ops with
  | [] => Some r
  | op :: ops' => r' ← local_step window r op; local_steps window r' ops'
  end.

Definition hits_of (key : string) (hits : list (string * Z)) : list Z :=
  (filter (fun h => h.1 = key) hits).*2.

(** The clock does not run backwards. *)
Fixpoint ordered (from : Z) (ops : list local_op) : Prop :=
  match ops with
  | [] => True
  | op :: ops' => from <= op_time op /\ ordered (op_time op) ops'
  end.

Fixpoint last_time (from : Z) (ops : list local_op) : Z :=
  match ops with [] => from | op :: ops' => last_time (op_time op) ops' end.

(** ** Interleaved goroutines

    Each [allow] call runs as load, locked visit and, on a deleted entry, a
    delete of the key before the next round; a cleanup callback is one step
    on an entry the map holds. *)

Inductive pc := AtLoad | AtVisit (p : nat) | AtDelete | Answered (b : bool).

Record goroutine := { gr_key : string; gr_now : Z; gr_max : Z; gr_pc : pc }.

Record config := { cf_limiter : localLimiter; cf_threads : list goroutine }.

Definition goto (g : goroutine) (p : pc) : goroutine :=
  {| gr_key := gr_key g; gr_now := gr_now g; gr_max := gr_max g; gr_pc := p |}.

Inductive action := Run (i : nat) | Evict (key : string) (now : Z).

Definition thread_step (window : Z) (l : localLimiter) (g : goroutine)
  : option (localLimiter * goroutine) :=
  match gr_pc g with
  | AtLoad => let '(l', p) := LoadOrStore l (gr_key g) in Some (l', goto g (AtVisit p))
  | AtVisit p =>
      '(l', v) ← visit_at l p (gr_now g) window (gr_max g);
      Some (l', goto g (match v with
                        | Gone => AtDelete | Refused => Answered false | Allowed => Answered true
                        end))
  | AtDelete => Some (delete_key l (gr_key g), goto g AtLoad)
  | Answered _ => None
  end.

Definition act (window : Z) (c : config) (a : action) : option config :=
  match a with
  | Run i =>
      g ← cf_threads c !! i;
      '(l, g') ← thread_step window (cf_limiter c) g;
      Some {| cf_limiter := l; cf_threads := <[i := g']> (cf_threads c) |}
  | Evict key now =>
      p ← ll_entries (cf_limiter c) !! key;
      Some {| cf_limiter := evict (now - window) (cf_limiter c) (key, p); cf_threads := cf_threads c |}
  end.

(** The interleavings: every schedule whose actions are enabled. *)
Inductive reaches (window : Z) : config -> config -> Prop :=
| reaches_refl c : reaches window c c
| reaches_act c c1 c2 a : act window c a = Some c1 -> reaches window c1 c2 -> reaches window c c2.

Fixpoint schedule (window : Z) (c : config) (actions : list action) : option config :=
  match actions with
  | [] => Some c
  | a :: rest => c' ← act window c a; schedule window c' rest
  end.

Lemma schedule_reaches window c actions c' :
  schedule window c actions = Some c' -> reaches window c c'.
Proof.
  revert c. induction actions as [|a rest IH]; cbn; intros c E; [injection E as <-; constructor|].
  apply bind_Some in E as (c1 & E1 & E). econstructor; eauto.
Qed.

(** ** The invariant of sequential use *)

#[local] Arguments recent : simpl never.
#[local] Arguments hits_of : simpl never.

Lemma recent_app cutoff a b : recent cutoff (a ++ b) = recent cutoff a ++ recent cutoff b.
Proof. apply filter_app. Qed.

Lemma recent_recent c c' ts : c <= c' -> recent c' (recent c ts) = recent c' ts.
Proof.
  intros Hc. unfold recent. rewrite list_filter_filter. apply list_filter_iff. intros t. lia.
Qed.

Lemma recent_nil c ts : existsb (fun t => c <? t) ts = false -> recent c ts = [].
Proof.
  intros H. unfold recent. induction ts as [|t ts IH]; [done|]. cbn in H. apply orb_false_iff in H as [Ht H].
  apply Z.ltb_ge in Ht. rewrite filter_cons_False by lia. auto.
Qed.

Lemma recent_length_le c c' ts : c <= c' -> (length (recent c' ts) <= length (recent c ts))%nat.
Proof. intros Hc. rewrite <- (recent_recent c c') by done. apply length_filter. Qed.

Lemma hits_of_app key h1 h2 : hits_of key (h1 ++ h2) = hits_of key h1 ++ hits_of key h2.
Proof. unfold hits_of. by rewrite filter_app, fmap_app. Qed.

Record local_inv (window time : Z) (r : local_run) : Prop := {
  li_entry key p : ll_entries (lr_limiter r) !! key = Some p ->
    exists e, ll_heap (lr_limiter r) !! p = Some e /\ le_deleted e = false
    /\ recent (time - window) (le_timestamps e) = recent (time - window) (hits_of key (lr_hits r));
  li_missing key : ll_entries (lr_limiter r) !! key = None ->
    recent (time - window) (hits_of key (lr_hits r)) = [];
  li_distinct k1 k2 p : ll_entries (lr_limiter r) !! k1 = Some p ->
    ll_entries (lr_limiter r) !! k2 = Some p -> k1 = k2
}.

Lemma inv_later window t t' r : t <= t' -> local_inv window t r -> local_inv window t' r.
Proof.
  intros Ht [He Hm Hd]. split; [|..|exact Hd].
  - intros key p Hp. destruct (He key p Hp) as (e & Hh & Hx & Hr). exists e. split_and!; [done..|].
    rewrite <- (recent_recent (t - window) (t' - window) (le_timestamps e)) by lia.
    rewrite <- (recent_recent (t - window) (t' - window) (hits_of _ _)) by lia. by rewrite Hr.
  - intros key Hk. specialize (Hm key Hk).
    rewrite <- (recent_recent (t - window)) by lia. by rewrite Hm.
Qed.

Lemma inv_empty window t : local_inv window t {| lr_limiter := newLocalLimiter; lr_hits := [] |}.
Proof. split; cbn; [intros ? ? E|done|intros ? ? ? E]; by rewrite lookup_empty in E. Qed.

(** Loading an entry keeps the invariant and yields the key's live entry. *)
Lemma load_inv window t l hits key l' p :
  local_inv window t {| lr_limiter := l; lr_hits := hits |} -> LoadOrStore l key = (l', p) ->
  local_inv window t {| lr_limiter := l'; lr_hits := hits |} /\ ll_entries l' !! key = Some p.
Proof.
  intros I. unfold LoadOrStore. destruct (ll_entries l !! key) as [q|] eqn:E.
  - intros F. injection F as <- <-. by split.
  - intros F. injection F as <- <-. cbn. rewrite lookup_insert_eq. split; [|done].
    destruct I as [He Hm Hd]. cbn in *.
    assert (Fresh : forall k p, ll_entries l !! k = Some p -> (p < length (ll_heap l))%nat).
    { intros k p Hp. destruct (He k p Hp) as (e & Hh & _). by apply lookup_lt_Some in Hh. }
    split; cbn.
    + intros k p Hk. destruct (decide (key = k)) as [<-|N].
      * rewrite lookup_insert_eq in Hk. injection Hk as <-. eexists.
        split; [by apply list_lookup_middle|]. split; [done|]. cbn. by rewrite (Hm key E).
      * rewrite lookup_insert_ne in Hk by done. destruct (He k p Hk) as (e & Hh & Hx).
        exists e. split; [|exact Hx]. by apply lookup_app_l_Some.
    + intros k Hk. apply Hm. destruct (decide (key = k)) as [<-|N]; [done|].
      by rewrite lookup_insert_ne in Hk.
    + intros k1 k2 p H1 H2. destruct (decide (key = k1)) as [<-|N1], (decide (key = k2)) as [<-|N2];
        rewrite ?lookup_insert_eq, ?lookup_insert_ne in H1 by done;
        rewrite ?lookup_insert_eq, ?lookup_insert_ne in H2 by done; [done|..|by eauto].
      * injection H1 as <-. apply Fresh in H2. lia.
      * injection H2 as <-. apply Fresh in H1. lia.
Qed.

(** A sequential [allow] answers in its first round, keeps the invariant, and
    grants only when the window has room. *)
Lemma allow_step window now l hits key max :
  local_inv window now {| lr_limiter := l; lr_hits := hits |} ->
  exists l' b, allow 1 l key now window max = Some (l', b)
  /\ local_inv window now {| lr_limiter := l'; lr_hits := if b : bool then hits ++ [(key, now)] else hits |}
  /\ (b = true -> Z.of_nat (length (recent (now - window) (hits_of key hits))) < max).
Proof.
  intros I. cbn [allow]. destruct (LoadOrStore l key) as [l1 p] eqn:E.
  apply (load_inv _ _ _ _ _ _ _ I) in E as [I1 Hp]. clear I l.
  pose proof (li_entry _ _ _ I1 key p Hp) as (e & Hh & Hx & Hr). cbn in Hh, Hr.
  unfold visit_at, visit_entry. rewrite Hh. cbn. rewrite Hx.
  assert (Keep : forall ts h, recent (now - window) ts = recent (now - window) (hits_of key h) ->
            (forall k, k <> key -> hits_of k h = hits_of k hits) ->
            local_inv window now
              {| lr_limiter := l1 <| ll_heap := <[p := e <| le_timestamps := ts |>]> (ll_heap l1) |>;
                 lr_hits := h |}).
  { intros ts h Hts Ho. destruct I1 as [He Hm Hd]. cbn in *. split; cbn; [| |exact Hd].
    - intros k q Hq. destruct (decide (k = key)) as [->|N].
      + assert (q = p) as -> by congruence. eexists. rewrite list_lookup_insert_eq; [by split|].
        by apply lookup_lt_Some in Hh.
      + assert (p <> q) by (intros ->; eauto). rewrite list_lookup_insert_ne, (Ho k N) by done. by apply He.
    - intros k Hk. rewrite Ho; [by apply Hm|]. intros ->. congruence. }
  rewrite Hr. destruct (max <=? _) eqn:Full.
  - eexists _, false. split; [reflexivity|]. split; [|discriminate].
    apply Keep; [|done]. by rewrite recent_recent.
  - eexists _, true. split; [reflexivity|]. split; [|intros _; by apply Z.leb_gt in Full].
    apply Keep.
    + rewrite hits_of_app, !recent_app, recent_recent by done. f_equal.
      unfold hits_of. by rewrite filter_cons_True.
    + intros k N. rewrite hits_of_app. unfold hits_of at 2.
      rewrite filter_cons_False by (cbn; congruence). by rewrite app_nil_r.
Qed.

Lemma evict_inv window now l hits key p :
  ll_entries l !! key = Some p ->
  local_inv window now {| lr_limiter := l; lr_hits := hits |} ->
  local_inv window now {| lr_limiter := evict (now - window) l (key, p); lr_hits := hits |}
  /\ forall k, k <> key -> ll_entries (evict (now - window) l (key, p)) !! k = ll_entries l !! k.
Proof.
  intros Hp I. pose proof (li_entry _ _ _ I key p Hp) as (e & Hh & Hx & Hr). cbn in Hh, Hr.
  unfold evict. cbn. rewrite Hh. destruct (existsb _ _) eqn:Ex; [by split|].
  apply recent_nil in Ex. rewrite Ex in Hr.
  split; [|intros k N; cbn; by rewrite lookup_delete_ne].
  destruct I as [He Hm Hd]. cbn in *. split; cbn.
  - intros k q Hq. apply lookup_delete_Some in Hq as [N Hq].
    assert (p <> q) by (intros ->; eauto). rewrite list_lookup_insert_ne by done. by apply He.
  - intros k Hk. apply lookup_delete_None in Hk as [<-|Hk]; [by symmetry|by apply Hm].
  - intros k1 k2 q H1 H2. apply lookup_delete_Some in H1 as [_ H1], H2 as [_ H2]. eauto.
Qed.

Lemma cleanup_inv window now l hits :
  local_inv window now {| lr_limiter := l; lr_hits := hits |} ->
  local_inv window now {| lr_limiter := cleanup l now window; lr_hits := hits |}.
Proof.
  intros I. unfold cleanup. pose proof (NoDup_fst_map_to_list (ll_entries l)) as N.
  assert (Hin : Forall (fun kp => ll_entries l !! kp.1 = Some kp.2) (map_to_list (ll_entries l))).
  { apply Forall_forall. intros [k p] H. by apply elem_of_map_to_list in H. }
  revert N Hin. generalize (map_to_list (ll_entries l)) as kps. intros kps. revert l I.
  induction kps as [|[k p] kps IH]; intros l I N Hin; cbn; [exact I|].
  apply NoDup_cons in N as [Nk N]. apply Forall_cons in Hin as [Hk Hin]. cbn in Hk.
  destruct (evict_inv window now l hits k p Hk I) as [I' Hother]. apply IH; [exact I'|exact N|].
  apply Forall_forall. intros [k' p'] H. rewrite Forall_forall in Hin. cbn.
  rewrite Hother; [by apply (Hin (k', p'))|]. intros ->. apply Nk.
  apply list_elem_of_fmap. by exists (k, p').
Qed.

Lemma local_steps_bound window key max ops : forall from r,
  ordered from ops ->
  Forall (fun op => match op with OpAllow k _ m => k = key -> m = max | OpCleanup _ => True end) ops ->
  local_inv window from r ->
  Z.of_nat (length (recent (from - window) (hits_of key (lr_hits r)))) <= max ->
  exists r', local_steps window r ops = Some r'
  /\ Z.of_nat (length (recent (last_time from ops - window) (hits_of key (lr_hits r')))) <= max.
Proof.
  induction ops as [|op ops IH]; intros from [l hits] O F I B; [by exists {| lr_limiter := l; lr_hits := hits |}|].
  cbn [local_steps last_time]. cbn [ordered] in O.
  destruct O as [Hle O]. apply Forall_cons in F as [Fo F].
  apply (inv_later _ _ (op_time op)) in I; [|done].
  assert (B' : Z.of_nat (length (recent (op_time op - window) (hits_of key hits))) <= max).
  { pose proof (recent_length_le (from - window) (op_time op - window) (hits_of key hits)). cbn in B. lia. }
  destruct op as [k now m|now]; cbn [local_step op_time lr_limiter lr_hits] in *.
  - destruct (allow_step window now l hits k m I) as (l' & b & E & I' & Hb). rewrite E. cbn [mbind option_bind].
    apply IH; [done..|]. cbn [lr_hits]. destruct b; [|exact B'].
    rewrite hits_of_app, recent_app, length_app. unfold hits_of at 2.
    destruct (decide (k = key)) as [->|N].
    + rewrite filter_cons_True by done. cbn. rewrite (Fo eq_refl) in Hb. specialize (Hb eq_refl).
      unfold recent at 2. pose proof (length_filter (fun t => now - window < t) [now]). cbn in *. lia.
    + rewrite filter_cons_False by done. unfold recent at 2. cbn. lia.
  - apply IH; [done|done| |exact B']. by apply cleanup_inv.
Qed.

(** C40. The in-process limiter never grants more than its budget: in any
    sequence of calls and cleanups on a clock that does not run backwards,
    every call answers, and the hits granted to a key within the window that
    ends at the last call are at most the budget asked for that key. *)
Theorem local_window_bound window key max from ops :
  0 <= max -> ordered from ops ->
  Forall (fun op => match op with OpAllow k _ m => k = key -> m = max | OpCleanup _ => True end) ops ->
  exists r, local_steps window {| lr_limiter := newLocalLimiter; lr_hits := [] |} ops = Some r
  /\ Z.of_nat (length (recent (last_time from ops - window) (hits_of key (lr_hits r)))) <= max.
Proof. intros Hm O F. apply (local_steps_bound window key max ops from); [done|done|apply inv_empty|done]. Qed.

Definition demo_ops : list local_op :=
  [OpAllow "k" 10 2; OpAllow "k" 11 2; OpAllow "j" 11 5; OpAllow "k" 12 2; OpCleanup 300; OpAllow "k" 301 2].

Lemma local_window_bound_witness :
  exists r, local_steps 60 {| lr_limiter := newLocalLimiter; lr_hits := [] |} demo_ops = Some r
  /\ Z.of_nat (length (recent (last_time 0 demo_ops - 60) (hits_of "k" (lr_hits r)))) <= 2.
Proof.
  apply (local_window_bound 60 "k" 2 0 demo_ops); [lia|cbn; lia|].
  repeat constructor; intros; congruence.
Defined.

(** ** The race of a late visitor with the cleanup *)

Definition caller (key : string) (now : Z) : goroutine :=
  {| gr_key := key; gr_now := now; gr_max := 1; gr_pc := AtLoad |}.

(** A fresh limiter, an early caller and two callers of one later instant,
    each with a budget of one. *)
Definition race_start : config := {|
  cf_limiter := newLocalLimiter;
  cf_threads := [caller "k" 5; caller "k" 1000; caller "k" 1000] |}.

(** The early caller is granted and its hit expires.  The second caller has
    loaded the entry when the cleanup evicts it; the third stores a new entry
    and is granted; the second finds its entry deleted, deletes the key, which
    now holds the third caller's entry, and starts over with an empty
    window. *)
Definition race_actions : list action :=
  [Run 0; Run 0; Run 1; Evict "k" 1000; Run 2; Run 2; Run 1; Run 1; Run 1; Run 1].

(** The in-process limiter can exceed its budget: under some interleaving
    of calls and one cleanup callback on a fresh limiter, two calls of the
    same instant on the same key, each with a budget of one hit, are both
    granted, because the delete that follows a deleted entry removes whatever
    entry the key holds by then. *)
Theorem cleanup_race_exceeds_budget :
  exists window c g1 g2,
    reaches window race_start c
    /\ cf_threads c !! 1%nat = Some g1 /\ cf_threads c !! 2%nat = Some g2
    /\ gr_key g1 = gr_key g2 /\ gr_now g1 = gr_now g2 /\ gr_max g1 = 1 /\ gr_max g2 = 1
    /\ gr_pc g1 = Answered true /\ gr_pc g2 = Answered true.
Proof.
  destruct (schedule 60 race_start race_actions) as [c|] eqn:E; [|by vm_compute in E].
  exists 60, c. do 2 eexists. split; [by eapply schedule_reaches|].
  vm_compute in E. injection E as <-. split_and!; reflexivity.
Qed.

(** ** The Redis script *)

Section RedisFacts.
Context {R : SortedSets} {L : SortedSetLaws R}.

Lemma script_scores z now window maxReq member z' r :
  rateLimitScript z now window maxReq member = (z', r) ->
  let kept := filter (fun ms => ~ in_range (Some 0) (Some (now - window)) ms.2) (zset_scores z) in
  if Z.of_nat (size kept) <? maxReq
  then r = 1 /\ zset_scores z' = <[member := now]> kept
  else r = 0 /\ zset_scores z' = kept.
Proof.
  unfold rateLimitScript. rewrite zcard_size, scores_remrange. cbn zeta.
  destruct (_ <? maxReq); intros E; injection E as <- <-;
    by rewrite ?scores_expire, ?scores_add, ?scores_remrange.
Qed.

Lemma script_bound z now window maxReq member z' r :
  0 <= maxReq -> Z.of_nat (size (zset_scores z)) <= maxReq ->
  rateLimitScript z now window maxReq member = (z', r) ->
  Z.of_nat (size (zset_scores z')) <= maxReq.
Proof.
  intros Hm Hz E%script_scores. cbn zeta in E. destruct (_ <? maxReq) eqn:C; destruct E as [_ ->].
  - apply Z.ltb_lt in C.
    match type of C with context [size ?k] => pose proof (size_insert_le k member now) end. lia.
  - pose proof (map_size_filter (fun ms : string * Z => ~ in_range (Some 0) (Some (now - window)) ms.2) (zset_scores z)). lia.
Qed.
End RedisFacts.

(** [n] calls of one instance in one millisecond. *)
Fixpoint burst {R : SortedSets} (n : nat) (z : zset) (now window maxReq : Z) (member : string)
  : list Z :=
  match n with
  | O => []
  | S n' => let '(z', r) := rateLimitScript z now window maxReq member in
            r :: burst n' z' now window maxReq member
  end.

(** The Redis path does not count the hits of one instance within one
    millisecond: the member of a hit is the instance and the millisecond, so
    the second hit overwrites the first, and any number of them is granted
    as soon as the budget is at least two. *)
Theorem same_millisecond_hits_uncounted {R : SortedSets} {L : SortedSetLaws R}
    n now window maxReq member :
  0 < now -> 0 < window -> 2 <= maxReq ->
  burst n zset_empty now window maxReq member = replicate n 1.
Proof.
  intros Hn Hw Hm.
  assert (B : forall z, zset_scores z = ∅ \/ zset_scores z = {[ member := now ]} ->
                burst n z now window maxReq member = replicate n 1).
  { induction n as [|n IH]; intros z Hz; [done|]. cbn [burst replicate].
    destruct (rateLimitScript z now window maxReq member) as [z' r] eqn:E.
    apply script_scores in E. cbn zeta in E.
    assert (K : filter (fun ms : string * Z => ~ in_range (Some 0) (Some (now - window)) ms.2) (zset_scores z)
                = zset_scores z).
    { destruct Hz as [-> | ->]; [apply map_filter_empty|].
      apply map_filter_id. intros i x [_ <-]%lookup_singleton_Some. unfold in_range. cbn. lia. }
    rewrite K in E.
    assert (Sz : (Z.of_nat (size (zset_scores z)) <? maxReq) = true).
    { apply Z.ltb_lt. destruct Hz as [-> | ->]; [rewrite map_size_empty|rewrite map_size_singleton]; lia. }
    rewrite Sz in E. destruct E as [-> E]. f_equal. apply IH. right. rewrite E.
    destruct Hz as [-> | ->]; [done|]. by rewrite insert_singleton_eq. }
  apply B. left. apply scores_empty.
Qed.

Lemma same_millisecond_hits_uncounted_witness :
  burst 100 (zset_empty : gmap string Z) 1700000000000 60000 2 "pod-1:1700000000000" = replicate 100 1.
Proof. apply (same_millisecond_hits_uncounted (R := map_sets)); lia. Defined.

(** Distinct hits are bounded on the Redis path: starting from an empty
    set, after any sequence of script calls with one budget the set holds at
    most that many members. *)
Theorem redis_members_bounded {R : SortedSets} {L : SortedSetLaws R} window maxReq calls :
  0 <= maxReq ->
  let final := foldl (fun z (call : Z * string) => (rateLimitScript z call.1 window maxReq call.2).1)
                 zset_empty calls in
  Z.of_nat (size (zset_scores final)) <= maxReq.
Proof.
  intros Hm. cbn zeta.
  assert (B : forall z, Z.of_nat (size (zset_scores z)) <= maxReq ->
    Z.of_nat (size (zset_scores (foldl (fun z (call : Z * string) =>
      (rateLimitScript z call.1 window maxReq call.2).1) z calls))) <= maxReq).
  { induction calls as [|[now member] calls IH]; intros z Hz; cbn [foldl]; [exact Hz|].
    apply IH. destruct (rateLimitScript _ _ _ _ _) as [z' r] eqn:E. by eapply script_bound. }
  apply B. rewrite scores_empty, map_size_empty. lia.
Qed.

Lemma redis_members_bounded_witness :
  Z.of_nat (size (foldl (fun (z : gmap string Z) (call : Z * string) =>
    (rateLimitScript (R := map_sets) z call.1 60 2 call.2).1) ∅
    [(1000, "a:1000"); (1001, "a:1001"); (1002, "a:1002"); (2000, "b:2000")])) <= 2.
Proof.
  apply (redis_members_bounded (R := map_sets) 60 2
    [(1000, "a:1000"); (1001, "a:1001"); (1002, "a:1002"); (2000, "b:2000")]). lia.
Defined.
