(* ===== verification/ModelLimiter.v ===== *)
(** The concurrency governor of model calls,
    [src/internal/models/limiter/{limiter,governor}.go]: the distributed
    semaphore on a Redis sorted set with its leases and heartbeats, the
    in-process semaphore of Lite mode, and the gate in front of both. *)

From stdpp Require Import sorting.
From S2P Require Import Prelude Redis.

(** ** The distributed semaphore ([limiter.go]) *)

Definition defaultLeaseTTL := 30000.   (* milliseconds *)
Definition keyPrefix := "weknora:modelsem:".

(** What the process knows of a semaphore, and its point-in-time view. *)
Record trackedSemaphore := { ts_limit : Z; ts_waiting : Z; ts_name : string }.

Record RuntimeStat := {
  st_ModelID : string;
  st_Name : string;
  st_Active : Z;
  st_Waiting : Z;
  st_Limit : Z
}.

Definition no_tracked : trackedSemaphore := {| ts_limit := 0; ts_waiting := 0; ts_name := "" |}.

Definition stat_le (a b : RuntimeStat) : Prop := String.leb (st_ModelID a) (st_ModelID b) = true.

#[export] Instance stat_le_dec : RelDecision stat_le.
Proof. intros a b. unfold stat_le. apply _. Defined.

(** The statistics are answered in the order of the model IDs. *)
Definition sort_stats (stats : list RuntimeStat) : list RuntimeStat :=
  merge_sort stat_le stats.

(** [SetModelName] on the map of tracked semaphores. *)
Definition name_tracked (tracked : gmap string trackedSemaphore) (modelID name : string)
  : gmap string trackedSemaphore :=
  when (modelID =? "")%string || (name =? "")%string return tracked;
  <[modelID := (default no_tracked (tracked !! modelID)) <| ts_name := name |>]> tracked.

Section RedisSemaphore.
Context {R : SortedSets}.

(** [acquireScript]: drop the expired leases, admit below the limit. *)
Definition acquireScript (z : zset) (now limit : Z) (token : string) (ttl : Z) : zset * Z :=
  let z := ZREMRANGEBYSCORE z None (Some now) in
  let count := ZCARD z in
  when count <? limit return (PEXPIRE (ZADD z (now + ttl) token) (ttl * 2), 1);
  (z, 0).

(** The heartbeat's refresh and the release's drop. *)
Definition heartbeat (z : zset) (now ttl : Z) (token : string) : zset :=
  PEXPIRE (ZADD z (now + ttl) token) (ttl * 2).

(** A holder is the heartbeat goroutine and the release function [hold]
    returns; [once] makes the release run one time. *)
Inductive hb_state := HbWaiting | HbTicked | HbStopped.
Inductive release_state := Held | StopClosed | Released.
Record holder := { ho_token : string; ho_heartbeat : hb_state; ho_release : release_state }.

Definition hold (token : string) : holder :=
  {| ho_token := token; ho_heartbeat := HbWaiting; ho_release := Held |}.

Record semaphore_system := { ss_set : zset; ss_now : Z; ss_holders : list holder }.

Inductive sem_action :=
| Poll (token : string)                 (* one round of [Acquire] *)
| Tick (i : nat)                        (* the ticker wins the select *)
| Beat (i : nat)                        (* the refresh it leads to *)
| Quit (i : nat)                        (* the stop channel wins the select *)
| CloseStop (i : nat)                   (* release: close(stop) *)
| Drop (i : nat)                        (* release: ZREM *)
| Crash (i : nat)                       (* the process of the holder dies *)
| Pass (ms : Z).                        (* time passes *)

Definition set_holder (s : semaphore_system) (i : nat) (h : holder) : semaphore_system :=
  {| ss_set := ss_set s; ss_now := ss_now s; ss_holders := <[i := h]> (ss_holders s) |}.

Definition set_zset (s : semaphore_system) (z : zset) : semaphore_system :=
  {| ss_set := z; ss_now := ss_now s; ss_holders := ss_holders s |}.

Definition sem_step (limit ttl : Z) (s : semaphore_system) (a : sem_action)
  : option semaphore_system :=
  match a with
  | Poll token =>
      let '(z, r) := acquireScript (ss_set s) (ss_now s) limit token ttl in
      let s := set_zset s z in
      Some (if r =? 1
            then {| ss_set := z; ss_now := ss_now s; ss_holders := ss_holders s ++ [hold token] |}
            else s)
  | Tick i =>
      h ← ss_holders s !! i;
      match ho_heartbeat h with
      | HbWaiting => Some (set_holder s i {| ho_token := ho_token h; ho_heartbeat := HbTicked;
                                             ho_release := ho_release h |})
      | _ => None
      end
  | Beat i =>
      h ← ss_holders s !! i;
      match ho_heartbeat h with
      | HbTicked =>
          Some (set_zset (set_holder s i {| ho_token := ho_token h; ho_heartbeat := HbWaiting;
                                            ho_release := ho_release h |})
                  (heartbeat (ss_set s) (ss_now s) ttl (ho_token h)))
      | _ => None
      end
  | Quit i =>
      h ← ss_holders s !! i;
      match ho_heartbeat h, ho_release h with
      | HbWaiting, (StopClosed | Released) =>
          Some (set_holder s i {| ho_token := ho_token h; ho_heartbeat := HbStopped;
                                  ho_release := ho_release h |})
      | _, _ => None
      end
  | CloseStop i =>
      h ← ss_holders s !! i;
      match ho_release h with
      | Held => Some (set_holder s i {| ho_token := ho_token h; ho_heartbeat := ho_heartbeat h;
                                        ho_release := StopClosed |})
      | _ => None
      end
  | Drop i =>
      h ← ss_holders s !! i;
      match ho_release h with
      | StopClosed =>
          Some (set_zset (set_holder s i {| ho_token := ho_token h; ho_heartbeat := ho_heartbeat h;
                                            ho_release := Released |})
                  (ZREM (ss_set s) (ho_token h)))
      | _ => None
      end
  | Crash i =>
      h ← ss_holders s !! i;
      Some (set_holder s i {| ho_token := ho_token h; ho_heartbeat := HbStopped; ho_release := Released |})
  | Pass ms =>
      when ms <? 0 return None;
      Some {| ss_set := ss_set s; ss_now := ss_now s + ms; ss_holders := ss_holders s |}
  end.

Fixpoint sem_steps (limit ttl : Z) (s : semaphore_system) (actions : list sem_action)
  : option semaphore_system :=
  match actions with
  | [] => Some s
  | a :: rest => s' ← sem_step limit ttl s a; sem_steps limit ttl s' rest
  end.

(** The leases that have not expired. *)
Definition active_leases (z : zset) (now : Z) : Z := ZCOUNT z (Some (now + 1)) None.

(** *** The process side of a Redis limiter *)

Record redisLimiter := { rl_client : bool; rl_tracked : gmap string trackedSemaphore }.

(** [Acquire] before its loop, and the deferred end of its wait. *)
Definition begin_acquire (l : redisLimiter) (key : string) (limit : Z) : option redisLimiter :=
  when negb (rl_client l) || (limit <=? 0) || (key =? "")%string return None;
  let tracked := default no_tracked (rl_tracked l !! key) in
  Some {| rl_client := rl_client l;
          rl_tracked := <[key := {| ts_limit := limit; ts_waiting := ts_waiting tracked + 1;
                                    ts_name := ts_name tracked |}]> (rl_tracked l) |}.

Definition end_acquire (l : redisLimiter) (key : string) : redisLimiter :=
  {| rl_client := rl_client l;
     rl_tracked := alter (fun t => t <| ts_waiting := ts_waiting t - 1 |>) key (rl_tracked l) |}.

(** What a round of the loop meets: an error of the script, an answer, and
    after a refusal the timer or the end of the context. *)
Inductive round := ScriptError | Answer (admitted : bool) (cancelled : bool).

(** The rounds until the loop ends; [None] is still waiting. *)
Fixpoint acquire_loop (rounds : list round) : option bool :=
  match rounds with
  | [] => None
  | ScriptError :: _ => Some false
  | Answer true _ :: _ => Some true
  | Answer false true :: _ => Some false
  | Answer false false :: rest => acquire_loop rest
  end.

Definition SetModelName_redis (l : redisLimiter) (modelID name : string) : redisLimiter :=
  {| rl_client := rl_client l; rl_tracked := name_tracked (rl_tracked l) modelID name |}.

(** [sets] are the keys of the server; [count_ok] is whether a count
    answers. *)
Definition RuntimeStats_redis (l : redisLimiter) (sets : gmap string zset) (now : Z)
  (count_ok : string -> bool) : list RuntimeStat * bool :=
  when negb (rl_client l) return ([], true);
  let seen := map_to_list (rl_tracked l) in
  (sort_stats (omap (fun '(modelID, t) =>
     if count_ok modelID
     then Some {| st_ModelID := modelID; st_Name := ts_name t;
                  st_Active := active_leases (default zset_empty (sets !! (keyPrefix +:+ modelID))) now;
                  st_Waiting := ts_waiting t; st_Limit := ts_limit t |}
     else None) seen),
   forallb (fun kt => count_ok kt.1) seen).
End RedisSemaphore.

(** ** The in-process semaphore ([governor.go]) *)

(** A buffered channel of empty structs: its capacity and its length. *)
Record channel := { ch_cap : Z; ch_len : Z }.

Record localLimiter := {
  lo_sems : gmap string channel;
  lo_tracked : gmap string trackedSemaphore
}.


Definition NewLocalLimiter : localLimiter := {| lo_sems := ∅; lo_tracked := ∅ |}.

(** The outcome of [Acquire]: a slot with its release, a no-op release, or the
    call is still waiting in its select. *)
Inductive acquired := Slot | Noop | Blocked.

(** The section under the mutex. *)
Definition register (l : localLimiter) (key : string) (limit : Z) : localLimiter :=
  let tracked := default no_tracked (lo_tracked l !! key) in
  let l := l <| lo_tracked := <[key := tracked <| ts_limit := limit |>]> (lo_tracked l) |> in
  match lo_sems l !! key with
  | Some _ => l
  | None => l <| lo_sems := <[key := {| ch_cap := limit; ch_len := 0 |}]> (lo_sems l) |>
  end.

Definition add_waiting (l : localLimiter) (key : string) (d : Z) : localLimiter :=
  l <| lo_tracked := alter (fun t => t <| ts_waiting := ts_waiting t + d |>) key (lo_tracked l) |>.

(** The select: send if the channel has room, leave if the context is done;
    [prefer_slot] is the choice when both are ready. *)
Definition select_slot (l : localLimiter) (key : string) (cancelled prefer_slot : bool)
  : localLimiter * acquired :=
  match lo_sems l !! key with
  | None => (l, Blocked)
  | Some sem =>
      if (ch_len sem <? ch_cap sem) && (prefer_slot || negb cancelled)
      then (add_waiting (l <| lo_sems := <[key := sem <| ch_len := ch_len sem + 1 |>]> (lo_sems l) |>) key (-1),
            Slot)
      else if cancelled then (add_waiting l key (-1), Noop) else (l, Blocked)
  end.

Definition Acquire_local (l : localLimiter) (key : string) (limit : Z) (cancelled prefer_slot : bool)
  : localLimiter * acquired :=
  when (limit <=? 0) || (key =? "")%string return (l, Noop);
  let l := add_waiting (register l key limit) key 1 in
  select_slot l key cancelled prefer_slot.

(** The release of a slot; [once] is whether it ran before. *)
Definition release_local (l : localLimiter) (key : string) (ran : bool) : localLimiter :=
  when ran return l;
  l <| lo_sems := alter (fun sem => sem <| ch_len := ch_len sem - 1 |>) key (lo_sems l) |>.

Definition SetModelName (l : localLimiter) (modelID name : string) : localLimiter :=
  l <| lo_tracked := name_tracked (lo_tracked l) modelID name |>.

Definition stat_of (l : localLimiter) (entry : string * channel) : RuntimeStat :=
  let tracked := default no_tracked (lo_tracked l !! entry.1) in
  {| st_ModelID := entry.1; st_Name := ts_name tracked; st_Active := ch_len entry.2;
     st_Waiting := ts_waiting tracked; st_Limit := ts_limit tracked |}.

Definition RuntimeStats_local (l : localLimiter) : list RuntimeStat :=
  sort_stats (stat_of l <$> map_to_list (lo_sems l)).

(** ** The gate ([governor.go])

    The installed limiter is an interface of the gate: its [Acquire], and the
    [SetModelName] the gate looks for by a type assertion. *)

Record limiter_ops (L : Type) := {
  lim_Acquire : L -> bool -> string -> Z -> L * option acquired;   (* None: an error *)
  lim_SetModelName : option (L -> string -> string -> L)
}.
Arguments lim_Acquire {L}.
Arguments lim_SetModelName {L}.

Section Gate.
Context {L : Type} (ops : limiter_ops L).

Record governor_state := { gv_governor : option L; gv_governorN : Z }.

Definition SetGovernor (g : governor_state) (l : option L) (limit : Z) : governor_state :=
  {| gv_governor := l; gv_governorN := limit |}.

Definition SetGlobalLimit (g : governor_state) (limit : Z) : governor_state :=
  g <| gv_governorN := limit |>.

(** [background] is [types.IsBackgroundTask(ctx)], [cancelled] whether the
    context is done. *)
Definition GateNamedN (g : governor_state) (background cancelled : bool)
  (modelID modelName : string) (modelLimit : Z) : governor_state * acquired :=
  let limit := if modelLimit <=? 0 then gv_governorN g else modelLimit in
  match gv_governor g with
  | None => (g, Noop)
  | Some l =>
      when (limit <=? 0) || negb background return (g, Noop);
      let l := match lim_SetModelName ops with
               | Some set_name => set_name l modelID modelName
               | None => l
               end in
      let '(l, release) := lim_Acquire ops l cancelled modelID limit in
      (g <| gv_governor := Some l |>, default Noop release)
  end.

Definition GateN (g : governor_state) (background cancelled : bool) (modelID : string)
  (modelLimit : Z) : governor_state * acquired :=
  GateNamedN g background cancelled modelID "" modelLimit.

Definition Gate (g : governor_state) (background cancelled : bool) (modelID : string)
  : governor_state * acquired := GateN g background cancelled modelID 0.
End Gate.
Arguments governor_state : clear implicits.

(** The in-process limiter behind the gate. *)
Definition local_ops : limiter_ops localLimiter := {|
  lim_Acquire := fun l cancelled key limit =>
    let '(l, a) := Acquire_local l key limit cancelled false in (l, Some a);
  lim_SetModelName := Some SetModelName
|}.

(** ** The distributed semaphore stays inside its limit *)

Section RedisFacts.
Context {R : SortedSets} {LR : SortedSetLaws R}.

(** A refresh finds its lease: it was not reclaimed before. *)
Definition timely (s : semaphore_system) (a : sem_action) : bool :=
  match a with
  | Beat i =>
      match ss_holders s !! i with
      | Some h => match zset_scores (ss_set s) !! ho_token h with Some _ => true | None => false end
      | None => true
      end
  | _ => true
  end.

Fixpoint timely_steps (limit ttl : Z) (s : semaphore_system) (actions : list sem_action) : bool :=
  match actions with
  | [] => true
  | a :: rest =>
      timely s a
      && match sem_step limit ttl s a with
         | Some s' => timely_steps limit ttl s' rest
         | None => true
         end
  end.

Definition slots (s : semaphore_system) : Z := Z.of_nat (size (zset_scores (ss_set s))).

Lemma acquire_script_bound z now limit token ttl :
  0 <= limit -> Z.of_nat (size (zset_scores z)) <= limit ->
  Z.of_nat (size (zset_scores (acquireScript z now limit token ttl).1)) <= limit.
Proof.
  intros Hl Hz. unfold acquireScript. destruct (_ <? limit) eqn:C; cbn [fst].
  - rewrite scores_expire, scores_add. apply Z.ltb_lt in C. rewrite zcard_size in C.
    match type of C with context [size ?k] => pose proof (size_insert_le k token (now + ttl)) end. lia.
  - rewrite scores_remrange.
    pose proof (map_size_filter (fun ms : string * Z => ~ in_range None (Some now) ms.2) (zset_scores z)). lia.
Qed.

Lemma sem_step_bound limit ttl s a s' :
  0 <= limit -> timely s a = true -> slots s <= limit -> sem_step limit ttl s a = Some s' -> slots s' <= limit.
Proof.
  unfold slots. intros Hl Ht B. destruct a; cbn.
  - pose proof (acquire_script_bound (ss_set s) (ss_now s) limit token ttl Hl B) as A.
    destruct (acquireScript _ _ _ _ _) as [z r]. cbn in A. intros E. injection E as <-. by destruct (r =? 1).
  - intros (h & Hh & E)%bind_Some. destruct (ho_heartbeat h); [|discriminate..]. by injection E as <-.
  - intros (h & Hh & E)%bind_Some. destruct (ho_heartbeat h); [discriminate| |discriminate].
    injection E as <-. cbn. unfold heartbeat. rewrite scores_expire, scores_add.
    unfold timely in Ht. rewrite Hh in Ht. destruct (_ !! ho_token h) as [x|] eqn:Hx; [|discriminate].
    by rewrite map_size_insert_Some by (by rewrite Hx).
  - intros (h & Hh & E)%bind_Some.
    destruct (ho_heartbeat h), (ho_release h); try discriminate; by injection E as <-.
  - intros (h & Hh & E)%bind_Some. destruct (ho_release h); [|discriminate..]. by injection E as <-.
  - intros (h & Hh & E)%bind_Some. destruct (ho_release h); [discriminate| |discriminate].
    injection E as <-. cbn. rewrite scores_rem.
    pose proof (size_delete_le (zset_scores (ss_set s)) (ho_token h)). lia.
  - intros (h & Hh & E)%bind_Some. by injection E as <-.
  - destruct (ms <? 0); [discriminate|]. intros E. by injection E as <-.
Qed.
End RedisFacts.

(** C38. The distributed semaphore admits at most its limit: in any
    interleaving of acquiring rounds, heartbeats, releases, crashes and the
    passing of time, in which no refresh arrives after its lease was
    reclaimed, the set never holds more members than the limit, so that the
    reported active leases do not exceed it either. *)
Theorem redis_slots_bounded {R : SortedSets} {LR : SortedSetLaws R} limit ttl actions now s :
  0 <= limit ->
  let start := {| ss_set := zset_empty; ss_now := now; ss_holders := [] |} in
  timely_steps limit ttl start actions = true ->
  sem_steps limit ttl start actions = Some s ->
  slots s <= limit /\ active_leases (ss_set s) (ss_now s) <= limit.
Proof.
  intros Hl start. assert (B : slots start <= limit).
  { unfold slots, start. cbn. rewrite scores_empty, map_size_empty. lia. }
  revert B. generalize start. clear start.
  assert (Active : forall s : semaphore_system, slots s <= limit ->
            slots s <= limit /\ active_leases (ss_set s) (ss_now s) <= limit).
  { intros s' Hs. split; [exact Hs|]. unfold active_leases, slots in *. rewrite zcount_size.
    pose proof (map_size_filter (fun ms : string * Z => in_range (Some (ss_now s' + 1)) None ms.2)
                  (zset_scores (ss_set s'))). lia. }
  induction actions as [|a rest IH]; intros s0 B; cbn [timely_steps sem_steps].
  - intros _ E. injection E as <-. by apply Active.
  - intros [Ht Hr]%andb_true_iff (s1 & E1 & E)%bind_Some. rewrite E1 in Hr.
    apply (IH s1); [|exact Hr|exact E]. by apply (sem_step_bound limit ttl s0 a s1).
Qed.

Definition demo_actions : list sem_action :=
  [Poll "a"; Poll "b"; Poll "c"; Pass 10000; Tick 0; Beat 0; CloseStop 1; Drop 1; Poll "c"].

Definition demo_start : semaphore_system (R := map_sets) :=
  {| ss_set := (∅ : gmap string Z); ss_now := 0; ss_holders := [] |}.

Definition demo_end : semaphore_system (R := map_sets) :=
  default demo_start (sem_steps (R := map_sets) 2 30000 demo_start demo_actions).

(** The demo runs to its end. *)
Lemma demo_runs : sem_steps (R := map_sets) 2 30000 demo_start demo_actions = Some demo_end.
Proof.
  unfold demo_end. assert (H : match sem_steps (R := map_sets) 2 30000 demo_start demo_actions with
                               | Some _ => true | None => false end = true) by (vm_compute; reflexivity).
  by destruct (sem_steps _ _ _ _).
Qed.

Lemma redis_slots_bounded_witness :
  slots demo_end <= 2 /\ active_leases (ss_set demo_end) (ss_now demo_end) <= 2.
Proof.
  apply (redis_slots_bounded (R := map_sets) 2 30000 demo_actions 0 demo_end).
  - lia.
  - vm_compute. reflexivity.
  - exact demo_runs.
Defined.

(** A refresh in flight while the slot is released puts the lease back: the
    holder is gone, its member is in the set, and the next caller is refused
    until the lease expires. *)
Lemma released_slot_comes_back :
  (fun s => (ho_release <$> ss_holders s, map_to_list (zset_scores (ss_set s))))
  <$> sem_steps (R := map_sets) 1 30000 demo_start
        [Poll "a"; Tick 0; CloseStop 0; Drop 0; Beat 0; Poll "b"]
  = Some ([Released], [("a", 30000)]).
Proof. vm_compute. reflexivity. Qed.

(** ** The in-process semaphore *)

Record local_system := { ls_limiter : localLimiter; ls_held : list string }.

Inductive local_action :=
| LAcquire (key : string) (limit : Z) (cancelled prefer_slot : bool)
| LResume (key : string) (cancelled prefer_slot : bool)     (* a waiting select proceeds *)
| LRelease (i : nat)
| LName (key name : string).

Definition with_answer (held : list string) (key : string) (la : localLimiter * acquired) : local_system :=
  {| ls_limiter := la.1; ls_held := match la.2 with Slot => key :: held | _ => held end |}.

Definition local_act (s : local_system) (a : local_action) : local_system :=
  match a with
  | LAcquire key limit cancelled prefer =>
      with_answer (ls_held s) key (Acquire_local (ls_limiter s) key limit cancelled prefer)
  | LResume key cancelled prefer =>
      with_answer (ls_held s) key (select_slot (ls_limiter s) key cancelled prefer)
  | LRelease i =>
      match ls_held s !! i with
      | Some key => {| ls_limiter := release_local (ls_limiter s) key false;
                       ls_held := delete i (ls_held s) |}
      | None => s
      end
  | LName key name => {| ls_limiter := SetModelName (ls_limiter s) key name; ls_held := ls_held s |}
  end.

Definition held_count (key : string) (held : list string) : Z :=
  sum_by (fun k => if (k =? key)%string then 1 else 0) held.
#[local] Arguments held_count : simpl never.

(** A channel holds one element per slot held, inside its capacity. *)
Definition channels_ok (s : local_system) : Prop :=
  (forall key sem, lo_sems (ls_limiter s) !! key = Some sem ->
     ch_len sem = held_count key (ls_held s) /\ ch_len sem <= ch_cap sem)
  /\ (forall key, lo_sems (ls_limiter s) !! key = None -> held_count key (ls_held s) = 0).

(** Channels are never replaced or resized. *)
Definition same_caps (l l' : localLimiter) : Prop :=
  forall key sem, lo_sems l !! key = Some sem ->
    exists sem', lo_sems l' !! key = Some sem' /\ ch_cap sem' = ch_cap sem.

Lemma held_count_cons key k held :
  held_count key (k :: held) = (if (k =? key)%string then 1 else 0) + held_count key held.
Proof. reflexivity. Qed.

Lemma held_count_delete key held i k :
  held !! i = Some k ->
  held_count key (delete i held) = held_count key held - (if (k =? key)%string then 1 else 0).
Proof.
  revert i. induction held as [|h held IH]; intros [|i] E; cbn in E; [discriminate..| |].
  - injection E as <-. change (delete 0%nat (h :: held)) with held. rewrite held_count_cons. lia.
  - change (delete (S i) (h :: held)) with (h :: delete i held). rewrite !held_count_cons, (IH i E). lia.
Qed.

Lemma held_count_nonneg key held : 0 <= held_count key held.
Proof. apply sum_by_nonneg. apply Forall_forall. intros k _. by destruct (k =? key)%string. Qed.

Lemma add_waiting_sems l key d : lo_sems (add_waiting l key d) = lo_sems l.
Proof. by destruct l. Qed.

Lemma set_sems l sems : lo_sems (l <| lo_sems := sems |>) = sems.
Proof. by destruct l. Qed.

Lemma select_ok l held key cancelled prefer :
  channels_ok {| ls_limiter := l; ls_held := held |} ->
  channels_ok (with_answer held key (select_slot l key cancelled prefer))
  /\ same_caps l (select_slot l key cancelled prefer).1.
Proof.
  intros [Hs Hn]. cbn [ls_limiter ls_held] in Hs, Hn. unfold select_slot, same_caps.
  assert (Same : forall l', lo_sems l' = lo_sems l ->
    channels_ok {| ls_limiter := l'; ls_held := held |}
    /\ forall k sem, lo_sems l !! k = Some sem ->
         exists sem', lo_sems l' !! k = Some sem' /\ ch_cap sem' = ch_cap sem).
  { intros l' El. unfold channels_ok. cbn. rewrite El. by eauto. }
  destruct (lo_sems l !! key) as [sem|] eqn:E; [|exact (Same l eq_refl)].
  destruct (_ && _) eqn:G;
    [|destruct cancelled; [exact (Same _ (add_waiting_sems l key (-1)))|exact (Same l eq_refl)]].
  apply andb_true_iff in G as [G _]. apply Z.ltb_lt in G. destruct (Hs key sem E) as [Hlen _].
  unfold channels_ok. cbn [with_answer ls_limiter ls_held fst snd].
  rewrite add_waiting_sems, set_sems. split; [split|].
  - intros k sem' Hk. rewrite held_count_cons. destruct (String.eqb_spec key k) as [<-|N].
    + rewrite lookup_insert_eq in Hk. injection Hk as <-. destruct sem. cbn in *. lia.
    + rewrite lookup_insert_ne in Hk by done. destruct (Hs k sem' Hk). lia.
  - intros k Hk. rewrite held_count_cons. destruct (String.eqb_spec key k) as [<-|N].
    + by rewrite lookup_insert_eq in Hk.
    + rewrite lookup_insert_ne in Hk by done. rewrite Hn by done. lia.
  - intros k sem' Hk. destruct (decide (key = k)) as [<-|N].
    + rewrite lookup_insert_eq. eexists. split; [reflexivity|]. replace sem' with sem by congruence.
      by destruct sem.
    + rewrite lookup_insert_ne by done. eauto.
Qed.

Lemma register_sems l key limit :
  lo_sems (add_waiting (register l key limit) key 1) =
  match lo_sems l !! key with
  | Some _ => lo_sems l
  | None => <[key := {| ch_cap := limit; ch_len := 0 |}]> (lo_sems l)
  end.
Proof. rewrite add_waiting_sems. unfold register. destruct l as [sems tracked]. cbn. by destruct (sems !! key). Qed.

Lemma register_ok l held key limit :
  0 < limit -> channels_ok {| ls_limiter := l; ls_held := held |} ->
  channels_ok {| ls_limiter := add_waiting (register l key limit) key 1; ls_held := held |}
  /\ same_caps l (add_waiting (register l key limit) key 1).
Proof.
  intros Hl [Hs Hn]. unfold channels_ok, same_caps. cbn [ls_limiter ls_held] in *. rewrite register_sems.
  destruct (lo_sems l !! key) as [sem|] eqn:E; [by eauto|]. split; [split|].
  - intros k sem Hk. destruct (decide (key = k)) as [<-|N].
    + rewrite lookup_insert_eq in Hk. injection Hk as <-. cbn. rewrite (Hn key E). lia.
    + rewrite lookup_insert_ne in Hk by done. by apply Hs.
  - intros k Hk. apply Hn. destruct (decide (key = k)) as [<-|N]; [done|].
    by rewrite lookup_insert_ne in Hk.
  - intros k sem Hk. rewrite lookup_insert_ne by congruence. eauto.
Qed.

Lemma local_act_ok s a :
  channels_ok s -> channels_ok (local_act s a) /\ same_caps (ls_limiter s) (ls_limiter (local_act s a)).
Proof.
  destruct s as [l held]. intros I. destruct a as [key limit cancelled prefer|key cancelled prefer|i|key name].
  - cbn [local_act ls_limiter ls_held]. unfold Acquire_local.
    destruct ((limit <=? 0) || (key =? "")%string) eqn:G; [split; [exact I|unfold same_caps; eauto]|].
    apply orb_false_iff in G as [G _]. apply Z.leb_gt in G.
    destruct (register_ok l held key limit G I) as [I1 C1].
    destruct (select_ok _ held key cancelled prefer I1) as [I2 C2]. split; [exact I2|].
    intros k sem Hk. destruct (C1 k sem Hk) as (sem1 & H1 & <-). by apply C2.
  - apply (select_ok l held key cancelled prefer I).
  - cbn [local_act ls_limiter ls_held]. destruct (held !! i) as [key|] eqn:E;
      [|split; [exact I|unfold same_caps; eauto]].
    destruct I as [Hs Hn]. unfold release_local, same_caps, channels_ok. cbn [ls_limiter ls_held] in *.
    rewrite set_sems. split; [split|].
    + intros k sem Hk. rewrite (held_count_delete k held i key E).
      apply lookup_alter_Some in Hk as [(-> & sem' & Hk & ->)|(N & Hk)]; destruct (Hs _ _ Hk).
      * rewrite String.eqb_refl. destruct sem'. cbn in *. lia.
      * rewrite (proj2 (String.eqb_neq key k)) by done. lia.
    + intros k Hk. rewrite (held_count_delete k held i key E).
      apply lookup_alter_None in Hk. specialize (Hn k Hk).
      destruct (String.eqb_spec key k) as [->|]; [|lia].
      assert (P : 0 < held_count k held).
      { clear -E. revert i E. induction held as [|h held IH]; intros [|i] E; cbn in E; [discriminate..| |];
          rewrite held_count_cons.
        - injection E as ->. rewrite String.eqb_refl. pose proof (held_count_nonneg k held). lia.
        - specialize (IH i E). destruct (h =? k)%string; lia. }
      lia.
    + intros k sem Hk. destruct (decide (key = k)) as [<-|N].
      * rewrite lookup_alter_eq, Hk. eexists. split; [reflexivity|]. by destruct sem.
      * rewrite lookup_alter_ne by done. eauto.
  - cbn [local_act ls_limiter ls_held]. unfold SetModelName, channels_ok, same_caps.
    cbn [ls_limiter ls_held]. destruct l as [sems tracked]. by split; [exact I|eauto].
Qed.

(** The in-process semaphore counts its holders: whatever calls acquire,
    wait, are cancelled and release, in any order, a channel's length is the
    number of slots currently held for its key and at most its capacity, and
    the capacity stays the one of the first acquire, whatever limits later
    calls ask for. *)
Theorem local_slots_bounded actions key limit cancelled prefer :
  0 < limit -> key <> "" ->
  let first := local_act {| ls_limiter := NewLocalLimiter; ls_held := [] |}
                 (LAcquire key limit cancelled prefer) in
  let s := foldl local_act first actions in
  channels_ok s /\ exists sem, lo_sems (ls_limiter s) !! key = Some sem
  /\ ch_cap sem = limit /\ 0 <= held_count key (ls_held s) <= limit.
Proof.
  intros Hl Hk. cbn zeta. set (first := local_act _ _).
  assert (F : channels_ok first /\ exists sem, lo_sems (ls_limiter first) !! key = Some sem /\ ch_cap sem = limit).
  { split.
    - apply local_act_ok. split; cbn; [intros ? ? E; by rewrite lookup_empty in E|done].
    - unfold first. cbn [local_act ls_limiter ls_held with_answer]. unfold Acquire_local.
      rewrite (proj2 (Z.leb_gt limit 0)) by lia. rewrite (proj2 (String.eqb_neq key "")) by done. cbn [orb].
      unfold select_slot. rewrite register_sems. cbn [NewLocalLimiter lo_sems].
      rewrite lookup_empty, lookup_insert_eq.
      destruct (_ && _); [|destruct cancelled]; cbn [fst]; rewrite add_waiting_sems, ?set_sems;
        unfold register; cbn; rewrite ?lookup_empty; cbn; rewrite lookup_insert_eq; by eexists. }
  revert F. generalize first. clear first. induction actions as [|a actions IH]; intros s (I & sem & Hs & Hc); cbn [foldl].
  - split; [exact I|]. exists sem. split_and!; [exact Hs|exact Hc|apply held_count_nonneg|].
    destruct I as [I _]. destruct (I key sem Hs). lia.
  - destruct (local_act_ok s a I) as [I' C]. destruct (C key sem Hs) as (sem' & Hs' & Hc').
    apply IH. split; [exact I'|]. exists sem'. split; [exact Hs'|congruence].
Qed.

Lemma local_slots_bounded_witness :
  let s := foldl local_act
             (local_act {| ls_limiter := NewLocalLimiter; ls_held := [] |} (LAcquire "m" 2 false true))
             [LAcquire "m" 1 false true; LAcquire "m" 5 false true; LRelease 0] in
  channels_ok s /\ exists sem, lo_sems (ls_limiter s) !! "m" = Some sem
  /\ ch_cap sem = 2 /\ 0 <= held_count "m" (ls_held s) <= 2.
Proof.
  apply (local_slots_bounded [LAcquire "m" 1 false true; LAcquire "m" 5 false true; LRelease 0]
           "m" 2 false true); [lia|done].
Defined.

(** Lowering the process-wide limit does not reach a channel that exists: the
    second call is admitted under a limit of one, and the statistics report
    two active calls under that limit. *)
Lemma retuned_limit_not_enforced :
  let g := SetGovernor {| gv_governor := None; gv_governorN := 0 |} (Some NewLocalLimiter) 2 in
  let '(g1, a1) := Gate local_ops g true false "m" in
  let '(g2, a2) := Gate local_ops (SetGlobalLimit g1 1) true false "m" in
  a1 = Slot /\ a2 = Slot
  /\ RuntimeStats_local <$> gv_governor g2
     = Some [{| st_ModelID := "m"; st_Name := ""; st_Active := 2; st_Waiting := 0; st_Limit := 1 |}].
Proof. vm_compute. split_and!; reflexivity. Qed.
