(* ===== verification/BudgetProfiles.v ===== *)
(** The acceptance-budget profiles: [internal/models/acceptancebudget/]
    [profile_config.go], [qwen_token_budget.go], [embedding_prices.go] and
    [token_budget_state.go].  The table of profile configurations, the readers
    of it, the price of a call, and the checklist that decides whether a
    finished call exceeded a limit. *)

From S2P Require Import Prelude.

(** ** Constants ([ledger.go], [qwen_token_budget.go], [embedding_prices.go]) *)

Definition Profile : string := "lingdoc-t10-deepseek-flash-20260929-v1".
Definition CostOnlyProfile : string := "lingdoc-demo-cny20-20261008-v2".
Definition CostOnlyMaxBudgetNanoCNY : Z := 19999999999.
Definition MaxCalls : Z := 6.
Definition InputMax : Z := 16000.
Definition OutputMax : Z := 6000.
Definition MaxConcurrency : Z := 1.
Definition DeepSeekModel : string := "deepseek-flash".
Definition QwenEmbedding : string := "qwen3.7-text-embedding".
Definition DeepSeekInputNanoUSDPerToken : Z := 300.
Definition DeepSeekOutputNanoUSDPerToken : Z := 1200.
Definition DeepSeekBudgetFXNanoCNYPerUSD : Z := 10.
Definition QwenNanoCNYPerToken : Z := 500.
Definition HumanBackstopCNY : Z := 5.
Definition MaxBudgetNanoCNY : Z := 5000000000.
Definition ledgerVersion : Z := 1.

Definition QwenProfile : string := "lingdoc-qwen-token-budget-20261023-v1".
Definition QwenProfileV2 : string := "lingdoc-qwen-token-budget-20261024-v2".
Definition QwenChatModel : string := "qwen3.8-flash".
Definition QwenInputMax : Z := 16000.
Definition QwenOutputMax : Z := 4096.
Definition QwenTotalMax : Z := QwenInputMax + QwenOutputMax.
Definition QwenMaxCalls : Z := 1.
Definition QwenV2MaxCalls : Z := 4.
Definition QwenV2CumulativeTokenMax : Z := 90000.
Definition QwenEmbeddingProfile : string := "lingdoc-qwen-embedding-budget-20261025".
Definition QwenEmbeddingMaxCalls : Z := 4.
Definition QwenEmbeddingCumulativeTokenMax : Z := 8000.
Definition QwenEmbeddingInputMax : Z := 16000.
Definition QwenEmbeddingOutputMax : Z := 0.
Definition QwenEmbeddingTotalMax : Z := QwenEmbeddingInputMax + QwenEmbeddingOutputMax.
Definition QwenEmbeddingMaxReserveNanoCNY : Z := QwenEmbeddingInputMax * QwenNanoCNYPerToken.
Definition QwenEmbeddingBackstopCNY : Z := 1.

Definition CostBasisNotApplicable : string := "not_applicable".
Definition CostBasisDeepSeekPeakUSD : string := "deepseek_peak_usd_2026_09_29".
Definition CostBasisQwenEmbeddingNanoCNY : string := "qwen_embedding_nano_cny_2026_10_25".
Definition UsageStatusReported : string := "reported".
Definition UsageStatusUnavailable : string := "unavailable".

Definition QwenEmbeddingFlash : string := "qwen3.7-text-embedding-flash".
Definition QwenFlashNanoCNYPerToken : Z := 125.

Definition profileFamilyDeepSeek : string := "deepseek".
Definition profileFamilyCostOnly : string := "cost_only".
Definition profileFamilyQwen : string := "qwen".

(** ** The configuration table ([profile_config.go]) *)

Set Primitive Projections.
Record profileConfig := {
  family : string;
  maxCalls : Z;
  nanoCNY : Z;
  backstopCNY : Z;
  inputMax : Z;
  outputMax : Z;
  totalMax : Z;
  costBasis : string;
  approvedModel : string;
  allowedModels : list string;
  cumulativeTokenMax : Z;
  embeddingHTTPErrorReconcilable : bool;
  unresolvedCallReconcilable : bool
}.
Unset Primitive Projections.

Definition profileEntries : list (string * profileConfig) := [
  (Profile, {|
    family := profileFamilyDeepSeek; maxCalls := MaxCalls; nanoCNY := MaxBudgetNanoCNY;
    backstopCNY := HumanBackstopCNY; inputMax := InputMax; outputMax := OutputMax;
    totalMax := InputMax + OutputMax; costBasis := CostBasisDeepSeekPeakUSD;
    approvedModel := DeepSeekModel; allowedModels := [DeepSeekModel; QwenEmbedding];
    cumulativeTokenMax := 0; embeddingHTTPErrorReconcilable := false;
    unresolvedCallReconcilable := true |});
  (CostOnlyProfile, {|
    family := profileFamilyCostOnly; maxCalls := 0; nanoCNY := CostOnlyMaxBudgetNanoCNY;
    backstopCNY := 20; inputMax := InputMax; outputMax := OutputMax;
    totalMax := InputMax + OutputMax; costBasis := CostBasisDeepSeekPeakUSD;
    approvedModel := DeepSeekModel;
    allowedModels := [DeepSeekModel; QwenEmbedding; QwenEmbeddingFlash];
    cumulativeTokenMax := 0; embeddingHTTPErrorReconcilable := true;
    unresolvedCallReconcilable := true |});
  (QwenProfile, {|
    family := profileFamilyQwen; maxCalls := QwenMaxCalls; nanoCNY := 0; backstopCNY := 0;
    inputMax := QwenInputMax; outputMax := QwenOutputMax; totalMax := QwenTotalMax;
    costBasis := CostBasisNotApplicable; approvedModel := QwenChatModel;
    allowedModels := [QwenChatModel]; cumulativeTokenMax := 0;
    embeddingHTTPErrorReconcilable := false; unresolvedCallReconcilable := true |});
  (QwenProfileV2, {|
    family := profileFamilyQwen; maxCalls := QwenV2MaxCalls; nanoCNY := 0; backstopCNY := 0;
    inputMax := QwenInputMax; outputMax := QwenOutputMax; totalMax := QwenTotalMax;
    costBasis := CostBasisNotApplicable; approvedModel := QwenChatModel;
    allowedModels := [QwenChatModel]; cumulativeTokenMax := QwenV2CumulativeTokenMax;
    embeddingHTTPErrorReconcilable := false; unresolvedCallReconcilable := true |});
  (QwenEmbeddingProfile, {|
    family := profileFamilyQwen; maxCalls := QwenEmbeddingMaxCalls;
    nanoCNY := QwenEmbeddingMaxReserveNanoCNY; backstopCNY := QwenEmbeddingBackstopCNY;
    inputMax := QwenEmbeddingInputMax; outputMax := QwenEmbeddingOutputMax;
    totalMax := QwenEmbeddingTotalMax; costBasis := CostBasisQwenEmbeddingNanoCNY;
    approvedModel := QwenEmbedding; allowedModels := [QwenEmbedding; QwenEmbeddingFlash];
    cumulativeTokenMax := QwenEmbeddingCumulativeTokenMax;
    embeddingHTTPErrorReconcilable := true; unresolvedCallReconcilable := true |})
].

Definition profileConfigs : gmap string profileConfig := list_to_map profileEntries.

Definition defaultProfileConfig : profileConfig := {|
  family := profileFamilyDeepSeek; maxCalls := MaxCalls; nanoCNY := MaxBudgetNanoCNY;
  backstopCNY := HumanBackstopCNY; inputMax := InputMax; outputMax := OutputMax;
  totalMax := InputMax + OutputMax; costBasis := CostBasisDeepSeekPeakUSD;
  approvedModel := DeepSeekModel; allowedModels := [DeepSeekModel; QwenEmbedding];
  cumulativeTokenMax := 0; embeddingHTTPErrorReconcilable := false;
  unresolvedCallReconcilable := false |}.

Definition profileConfigOf (profile : string) : profileConfig :=
  match profileConfigs !! profile with
  | Some config => config
  | None => defaultProfileConfig
  end.

Definition SupportedProfile (profile : string) : bool :=
  match profileConfigs !! profile with Some _ => true | None => false end.

Definition IsQwenProfile (profile : string) : bool :=
  String.eqb (family (profileConfigOf profile)) profileFamilyQwen.

Definition ProfileCumulativeTokenMax (profile : string) : Z :=
  cumulativeTokenMax (profileConfigOf profile).

Definition ProfileMaxCalls (profile : string) : Z := maxCalls (profileConfigOf profile).

Definition ProfileSupportsEmbeddingHTTPErrorReconciliation (profile : string) : bool :=
  embeddingHTTPErrorReconcilable (profileConfigOf profile).

Definition ProfileSupportsUnresolvedCallReconciliation (profile : string) : bool :=
  unresolvedCallReconcilable (profileConfigOf profile).

(** calls, nanoCNY, backstopCNY *)
Definition ProfileLimits (profile : string) : Z * Z * Z :=
  let config := profileConfigOf profile in
  (maxCalls config, nanoCNY config, backstopCNY config).

(** inputMax, outputMax, totalMax *)
Definition ProfileTokenLimits (profile : string) : Z * Z * Z :=
  let config := profileConfigOf profile in
  (inputMax config, outputMax config, totalMax config).

Definition ProfileCostBasis (profile : string) : string := costBasis (profileConfigOf profile).

Definition ProfilePriced (profile : string) : bool :=
  negb (String.eqb (ProfileCostBasis profile) CostBasisNotApplicable).

Definition ProfileApprovedModel (profile : string) : string :=
  approvedModel (profileConfigOf profile).

(** [(price, true)] is [Some price], [(0, false)] is [None]. *)
Definition EmbeddingInputNanoCNYPerToken (model : string) : option Z :=
  if String.eqb model QwenEmbedding then Some QwenNanoCNYPerToken
  else if String.eqb model QwenEmbeddingFlash then Some QwenFlashNanoCNYPerToken
  else None.

Definition ProfileApprovedChatModel (profile : string) : option string :=
  let approved := ProfileApprovedModel profile in
  match EmbeddingInputNanoCNYPerToken approved with
  | Some _ => None
  | None => Some approved
  end.

Fixpoint allows_loop (allowed : list string) (model : string) : bool :=
  match allowed with
  | [] => false
  | a :: rest => when String.eqb model a return true; allows_loop rest model
  end.

Definition ProfileAllowsModel (profile model : string) : bool :=
  allows_loop (allowedModels (profileConfigOf profile)) model.

(** ** Approved endpoints *)

Definition QwenApprovedBaseURLs : list string :=
  ["https://llm-k57eqvdqacn4nov3.cn-beijing.maas.aliyuncs.com/compatible-mode/v1"].

Fixpoint trim_slash_loop (fuel : nat) (value : string) : string :=
  match fuel with
  | O => value
  | S fuel' =>
      match String.get (String.length value - 1) value with
      | Some c => if Ascii.eqb c slash
                  then trim_slash_loop fuel' (String.substring 0 (String.length value - 1) value)
                  else value
      | None => value
      end
  end.

(** One round removes one byte, so [len(value)] rounds are enough. *)
Definition trimTrailingSlash (value : string) : string :=
  trim_slash_loop (String.length value) value.

Definition IsApprovedQwenBaseURL (baseURL : string) : bool :=
  existsb (fun approved => String.eqb (trimTrailingSlash baseURL) (trimTrailingSlash approved))
    QwenApprovedBaseURLs.

(** ** The checklist of a finished call *)

Inductive LimitCriterion :=
| LimitCriterionOutputCeiling
| LimitCriterionInputCeiling
| LimitCriterionTotalCeiling
| LimitCriterionNegativeCounter.

Inductive LimitQuantity :=
| LimitQuantityRequestOutputLimit
| LimitQuantityRequestInputUpperBound
| LimitQuantityProfileTotalCeiling
| LimitQuantityProviderCounters.

Inductive LimitDimension :=
| LimitDimensionOutputTokensExact
| LimitDimensionInputUpperBoundBytes
| LimitDimensionTotalTokens
| LimitDimensionProviderTokens.

Record CallFacts := {
  cf_InputUpperBound : Z;
  cf_OutputLimit : Z;
  cf_InputTokens : Z;
  cf_OutputTokens : Z
}.

Record LimitBreach := {
  Criterion : LimitCriterion;
  Quantity : LimitQuantity;
  Dimension : LimitDimension;
  Limit : Z;
  Actual : Z
}.

Record LimitVerdict := { Breaches : list LimitBreach; Violated : bool }.

Definition EvaluateCallLimits (profile : string) (facts : CallFacts) : LimitVerdict :=
  let '(_, _, totalMax) := ProfileTokenLimits profile in
  let breaches1 :=
    if cf_OutputLimit facts <? cf_OutputTokens facts then
      [{| Criterion := LimitCriterionOutputCeiling; Quantity := LimitQuantityRequestOutputLimit;
          Dimension := LimitDimensionOutputTokensExact;
          Limit := cf_OutputLimit facts; Actual := cf_OutputTokens facts |}]
    else [] in
  let breaches2 :=
    if cf_InputUpperBound facts <? cf_InputTokens facts then
      breaches1 ++
      [{| Criterion := LimitCriterionInputCeiling; Quantity := LimitQuantityRequestInputUpperBound;
          Dimension := LimitDimensionInputUpperBoundBytes;
          Limit := cf_InputUpperBound facts; Actual := cf_InputTokens facts |}]
    else breaches1 in
  let breaches3 :=
    if totalMax <? cf_InputTokens facts +i cf_OutputTokens facts then
      breaches2 ++
      [{| Criterion := LimitCriterionTotalCeiling; Quantity := LimitQuantityProfileTotalCeiling;
          Dimension := LimitDimensionTotalTokens;
          Limit := totalMax; Actual := cf_InputTokens facts +i cf_OutputTokens facts |}]
    else breaches2 in
  let breaches4 :=
    if (cf_InputTokens facts <? 0) || (cf_OutputTokens facts <? 0) then
      let impossible := if 0 <=? cf_InputTokens facts then cf_OutputTokens facts
                        else cf_InputTokens facts in
      breaches3 ++
      [{| Criterion := LimitCriterionNegativeCounter; Quantity := LimitQuantityProviderCounters;
          Dimension := LimitDimensionProviderTokens; Limit := 0; Actual := impossible |}]
    else breaches3 in
  {| Breaches := breaches4; Violated := (0 <? Z.of_nat (length breaches4)) |}.

(** ** The three token numbers of a window ([token_budget_state.go]) *)

Record TokenBudgetState := {
  Ceiling : Z;
  tbs_ReservedTokens : Z;
  tbs_ActualTokens : Z;
  RemainingReserved : Z;
  RemainingActual : option Z;
  UsageUnverifiable : bool
}.

Definition NewTokenBudgetState (ceiling reserved actual : Z) (usageUnverifiable : bool)
  : TokenBudgetState :=
  {| Ceiling := ceiling; tbs_ReservedTokens := reserved; tbs_ActualTokens := actual;
     RemainingReserved := ceiling -i reserved;
     RemainingActual := if negb usageUnverifiable then Some (ceiling -i actual) else None;
     UsageUnverifiable := usageUnverifiable |}.

(** ** Facts *)

(** Every configuration the code can read satisfies what the table's entries
    and the fallback satisfy. *)
Lemma profile_forall (P : profileConfig -> bool) :
  P defaultProfileConfig && forallb (fun e => P e.2) profileEntries = true ->
  forall profile, P (profileConfigOf profile) = true.
Proof.
  intros [Hd He]%andb_true_iff profile. unfold profileConfigOf.
  destruct (profileConfigs !! profile) as [c|] eqn:E; [|done].
  apply elem_of_list_to_map_2 in E. rewrite forallb_forall in He.
  apply (He (profile, c)). by apply list_elem_of_In.
Qed.


Lemma profile_limits_sane profile :
  0 <= inputMax (profileConfigOf profile) <= 16000
  /\ 0 <= outputMax (profileConfigOf profile) <= 6000
  /\ 0 <= totalMax (profileConfigOf profile) <= 22000
  /\ 0 <= nanoCNY (profileConfigOf profile) <= 19999999999
  /\ 0 <= cumulativeTokenMax (profileConfigOf profile) <= 90000.
Proof.
  pose proof (profile_forall (fun c =>
    (0 <=? inputMax c) && (inputMax c <=? 16000) && (0 <=? outputMax c) && (outputMax c <=? 6000)
    && (0 <=? totalMax c) && (totalMax c <=? 22000)
    && (0 <=? nanoCNY c) && (nanoCNY c <=? 19999999999)
    && (0 <=? cumulativeTokenMax c) && (cumulativeTokenMax c <=? 90000)) eq_refl profile) as H.
  cbn beta in H. split_bools. lia.
Qed.

(** The verdict is the disjunction of the four criteria. *)
Lemma violated_criteria profile facts :
  Violated (EvaluateCallLimits profile facts) =
  (cf_OutputLimit facts <? cf_OutputTokens facts)
  || (cf_InputUpperBound facts <? cf_InputTokens facts)
  || (totalMax (profileConfigOf profile) <? cf_InputTokens facts +i cf_OutputTokens facts)
  || ((cf_InputTokens facts <? 0) || (cf_OutputTokens facts <? 0)).
Proof. unfold EvaluateCallLimits, ProfileTokenLimits. by repeat case_match. Qed.

(** The checklist decides exactly the arithmetic question, wrap-around
    included: [int] overflow of the reported counters cannot hide a breach.

    C28. For every profile and every request whose recorded bounds passed the
    reservation, and for any two [int] counters a provider may report,
    [EvaluateCallLimits] flags the call if and only if the output passes the
    request's limit, or the input passes the request's bound, or the true sum
    passes the profile's total ceiling, or a counter is negative. *)
Theorem checklist_exact profile facts :
  0 <= cf_InputUpperBound facts <= inputMax (profileConfigOf profile) ->
  0 <= cf_OutputLimit facts <= outputMax (profileConfigOf profile) ->
  int64_range (cf_InputTokens facts) -> int64_range (cf_OutputTokens facts) ->
  Violated (EvaluateCallLimits profile facts) = true <->
  cf_OutputLimit facts < cf_OutputTokens facts
  \/ cf_InputUpperBound facts < cf_InputTokens facts
  \/ totalMax (profileConfigOf profile) < cf_InputTokens facts + cf_OutputTokens facts
  \/ cf_InputTokens facts < 0 \/ cf_OutputTokens facts < 0.
Proof.
  intros Hi Ho Ri Ro. pose proof (profile_limits_sane profile).
  rewrite violated_criteria, !orb_true_iff, !Z.ltb_lt.
  set (sum := cf_InputTokens facts + cf_OutputTokens facts) in *.
  assert (cf_OutputLimit facts < cf_OutputTokens facts
          \/ cf_InputUpperBound facts < cf_InputTokens facts
          \/ cf_InputTokens facts < 0 \/ cf_OutputTokens facts < 0 \/ i64 sum = sum) as Hsum.
  { assert (0 <= sum <= 22000 -> i64 sum = sum) by (intros; apply i64_id; solve_range). lia. }
  lia.
Qed.

Lemma checklist_exact_witness :
  Violated (EvaluateCallLimits QwenProfileV2
    {| cf_InputUpperBound := 16000; cf_OutputLimit := 4096;
       cf_InputTokens := max_int64; cf_OutputTokens := 1 |}) = true.
Proof.
  apply (checklist_exact QwenProfileV2
    {| cf_InputUpperBound := 16000; cf_OutputLimit := 4096;
       cf_InputTokens := max_int64; cf_OutputTokens := 1 |});
    [vm_compute; split; discriminate|vm_compute; split; discriminate
    |vm_compute; split; discriminate|vm_compute; split; discriminate|].
  right; left. reflexivity.
Defined.

(** Proofs reason with [profile_forall], not by unfolding the table. *)
#[global] Opaque profileConfigOf.
