(* ===== verification/BudgetLedger.v ===== *)
(** The acceptance-budget ledger: [internal/models/acceptancebudget/]
    [ledger.go], [reconcile.go] and [reconcile_unresolved.go].  The rows and
    counters of the ledger file, what makes a ledger valid, and the operations
    of the window: reserve, complete, cancel, and the two operator
    settlements.

    The ledger file is [option bytes]: [None] is "no such file".  Its JSON
    form and the SHA-256 digests are the interface [LedgerCodec]; the outcome
    of the lock, of each read and of each write, and the clock, are the
    fields of [IO]. *)

From S2P Require Import Prelude BudgetProfiles.

(** ** Data *)

Inductive BudgetError :=
| ErrUnavailable | ErrBlocked | ErrCallsSpent | ErrInputTooLarge | ErrWrongModel
| ErrTokenBudgetExhausted.

Set Primitive Projections.

Record EmbeddingHTTPErrorEvidence := {
  he_LedgerSHA256 : string;
  he_RequestNumber : Z;
  he_OriginalStatus : string;
  he_OriginalBlockedReason : string;
  he_HTTPStatus : Z;
  he_ResponseEvidenceSHA256 : string;
  he_Operator : string;
  he_Reason : string
}.

Record EmbeddingHTTPErrorReconciliation := {
  hr_Kind : string;
  hr_Evidence : EmbeddingHTTPErrorEvidence;
  hr_OriginalRequestSHA256 : string;
  hr_ChargeBasis : string;
  hr_ProviderTokenUsage : string;
  hr_ChargedNanoCNY : Z;
  hr_ChargedNanoUSD : Z;
  hr_ReconciledAt : Z
}.

Record UnresolvedCallEvidence := {
  ue_LedgerSHA256 : string;
  ue_RequestNumber : Z;
  ue_OriginalStatus : string;
  ue_OriginalBlockedReason : string;
  ue_EvidenceSHA256 : string;
  ue_Operator : string;
  ue_Reason : string
}.

Record UnresolvedCallReconciliation := {
  ur_Kind : string;
  ur_Evidence : UnresolvedCallEvidence;
  ur_OriginalRequestSHA256 : string;
  ur_ChargeBasis : string;
  ur_ProviderTokenUsage : string;
  ur_ChargedNanoCNY : Z;
  ur_ChargedNanoUSD : Z;
  ur_ReconciledAt : Z
}.

(** Times are nanoseconds; 0 is the zero [time.Time]. *)
Record Request := {
  rq_Number : Z;
  rq_Model : string;
  rq_Status : string;
  rq_InputUpperBound : Z;
  rq_OutputLimit : Z;
  rq_InputTokens : Z;
  rq_OutputTokens : Z;
  rq_TotalTokens : Z;
  rq_UsageStatus : string;
  rq_CostBasis : string;
  rq_ReservedNanoCNY : Z;
  rq_ActualNanoCNY : Z;
  rq_ReservedNanoUSD : Z;
  rq_ActualNanoUSD : Z;
  rq_FinishReason : string;
  rq_CreatedAt : Z;
  rq_Reconciliation : option EmbeddingHTTPErrorReconciliation;
  rq_UnresolvedReconciliation : option UnresolvedCallReconciliation
}.

Record Ledger := {
  l_SchemaVersion : Z;
  l_Profile : string;
  l_MaxCalls : Z;
  l_InputMaxTokens : Z;
  l_OutputMaxTokens : Z;
  l_TotalMaxTokens : Z;
  l_CumulativeTokenMax : Z;
  l_ReservedTokens : Z;
  l_ActualTokens : Z;
  l_MaxConcurrency : Z;
  l_CostBasis : string;
  l_FXReserveCNYPerUSD : Z;
  l_MaxReserveNanoCNY : Z;
  l_ReservedNanoCNY : Z;
  l_ActualNanoCNY : Z;
  l_ReservedNanoUSD : Z;
  l_ActualNanoUSD : Z;
  l_Blocked : bool;
  l_BlockedReason : string;
  l_Requests : list Request
}.

Record Usage := {
  u_InputTokens : Z;
  u_OutputTokens : Z;
  u_TotalTokens : Z;
  u_Reported : bool
}.

Record Budget := { b_profile : string; b_ledgerPath : string }.

(** [rs_lock] is [r.lock != nil]. *)
Record Reservation := {
  rs_budget : Budget;
  rs_lock : bool;
  rs_requestNum : Z;
  rs_model : string;
  rs_finished : bool
}.

Unset Primitive Projections.

(** ** The interfaces to the file system, to JSON and to SHA-256 *)

(** [parseLedger] is [uniqueJSONKeys] followed by the strict [json.Decoder];
    [requestDigest] is SHA-256 in hex of [json.Marshal]. *)
Class LedgerCodec := {
  bytes : Type;
  encodeLedger : Ledger -> bytes;
  parseLedger : bytes -> option Ledger;
  digestSHA256 : bytes -> string;
  requestDigest : Request -> string
}.

(** [io_read k] and [io_write k]: whether the [k]-th read or write of the
    operation succeeds. *)
Record IO := {
  io_lock : bool;
  io_read : nat -> bool;
  io_write : nat -> bool;
  io_now : Z
}.

(** [filepath.IsAbs] on the Unix systems the ledger lock supports. *)
Definition IsAbs (path : string) : bool := String.prefix "/" path.

(** ** Text, digests and evidence ([reconcile.go]) *)

Definition embeddingHTTPErrorReconciliationKind : string := "embedding_http_error_full_reserve_v1".
Definition fullReserveChargeBasis : string := "full_reserved_upper_bound_not_provider_usage".
Definition unknownProviderUsage : string := "unknown".
Definition unresolvedCallReconciliationKind : string := "unresolved_call_full_reserve_v1".

Definition validText (value : string) (limit : Z) : bool :=
  String.eqb (TrimSpace value) value && negb (String.eqb value "") && (len value <=? limit)
  && forallb (fun c => negb (existsb (Nat.eqb c) [0; 13; 10]%nat)) (bytes_of value).

(** [hex.DecodeString] succeeds and the text is its own lower case: every one
    of the 64 bytes is a lower-case hexadecimal digit. *)
Definition validSHA256 (value : string) : bool :=
  (len value =? 64)
  && forallb (fun c => ((48 <=? c) && (c <=? 57) || (97 <=? c) && (c <=? 102))%nat) (bytes_of value).

Definition validEvidence (e : EmbeddingHTTPErrorEvidence) : bool :=
  validSHA256 (he_LedgerSHA256 e) && (0 <? he_RequestNumber e)
  && String.eqb (he_OriginalStatus e) "http_error"
  && String.eqb (he_OriginalBlockedReason e) "http_error"
  && (400 <=? he_HTTPStatus e) && (he_HTTPStatus e <=? 599)
  && validSHA256 (he_ResponseEvidenceSHA256 e)
  && validText (he_Operator e) 128 && validText (he_Reason e) 2048.

Definition settleableUnresolvedStatus (status : string) : bool :=
  contains ["outcome_unknown"; "usage_unknown"; "in_flight"; "cancel_reconciliation_required";
            "limit_violation"] status.

Definition validUnresolvedCallEvidence (e : UnresolvedCallEvidence) : bool :=
  when negb (validSHA256 (ue_LedgerSHA256 e)) || (ue_RequestNumber e <? 1)
    || negb (settleableUnresolvedStatus (ue_OriginalStatus e))
    || negb (validSHA256 (ue_EvidenceSHA256 e)) || negb (validText (ue_Operator e) 128)
    || negb (validText (ue_Reason e) 2048)
  return false;
  when String.eqb (ue_OriginalStatus e) "in_flight"
  return String.eqb (ue_OriginalBlockedReason e) "";
  String.eqb (ue_OriginalBlockedReason e) (ue_OriginalStatus e).

Definition fullReserveEmbeddingHTTPError (request : Request) : bool :=
  match EmbeddingInputNanoCNYPerToken (rq_Model request) with
  | None => false
  | Some price =>
      String.eqb (rq_Status request) "http_error" && (rq_OutputLimit request =? 0)
      && (0 <? rq_InputUpperBound request) && (rq_InputUpperBound request <=? InputMax)
      && (rq_InputTokens request =? rq_InputUpperBound request)
      && (rq_OutputTokens request =? 0) && String.eqb (rq_FinishReason request) ""
      && negb (rq_CreatedAt request =? 0)
      && (rq_ActualNanoCNY request =? rq_ReservedNanoCNY request)
      && (rq_ReservedNanoCNY request =? rq_InputUpperBound request *i price)
      && (rq_ActualNanoUSD request =? rq_ReservedNanoUSD request)
      && (rq_ReservedNanoUSD request =? 0)
  end.

Section Codec.
Context `{LedgerCodec}.

Definition requestSHA256 (request : Request) : string :=
  requestDigest (request <| rq_Reconciliation := None |> <| rq_UnresolvedReconciliation := None |>).

Definition validEmbeddingHTTPErrorReconciliation (request : Request) : bool :=
  match rq_Reconciliation request with
  | None => false
  | Some r =>
      fullReserveEmbeddingHTTPError request
      && String.eqb (hr_Kind r) embeddingHTTPErrorReconciliationKind
      && validEvidence (hr_Evidence r)
      && (he_RequestNumber (hr_Evidence r) =? rq_Number request)
      && validSHA256 (hr_OriginalRequestSHA256 r)
      && String.eqb (hr_OriginalRequestSHA256 r) (requestSHA256 request)
      && String.eqb (hr_ChargeBasis r) fullReserveChargeBasis
      && String.eqb (hr_ProviderTokenUsage r) unknownProviderUsage
      && (hr_ChargedNanoCNY r =? rq_ReservedNanoCNY request)
      && (hr_ChargedNanoUSD r =? rq_ReservedNanoUSD request)
      && negb (hr_ReconciledAt r =? 0) && negb (hr_ReconciledAt r <? rq_CreatedAt request)
  end.

Definition validUnresolvedCallReconciliation (request : Request) : bool :=
  match rq_UnresolvedReconciliation request with
  | None => false
  | Some r =>
      when negb (settleableUnresolvedStatus (rq_Status request))
           || String.eqb (rq_UsageStatus request) UsageStatusReported
      return false;
      when negb (String.eqb (ur_Kind r) unresolvedCallReconciliationKind)
           || negb (validUnresolvedCallEvidence (ur_Evidence r))
           || negb (ue_RequestNumber (ur_Evidence r) =? rq_Number request)
           || negb (String.eqb (ue_OriginalStatus (ur_Evidence r)) (rq_Status request))
      return false;
      when negb (validSHA256 (ur_OriginalRequestSHA256 r))
           || negb (String.eqb (ur_OriginalRequestSHA256 r) (requestSHA256 request))
      return false;
      when negb (String.eqb (ur_ChargeBasis r) fullReserveChargeBasis)
           || negb (String.eqb (ur_ProviderTokenUsage r) unknownProviderUsage)
           || negb (ur_ChargedNanoCNY r =? rq_ReservedNanoCNY request)
           || negb (ur_ChargedNanoUSD r =? rq_ReservedNanoUSD request)
      return false;
      negb (ur_ReconciledAt r =? 0) && negb (ur_ReconciledAt r <? rq_CreatedAt request)
  end.

Definition requestUnresolved (request : Request) : bool :=
  when String.eqb (rq_Status request) "http_error"
  return negb (validEmbeddingHTTPErrorReconciliation request);
  when contains ["in_flight"; "outcome_unknown"; "usage_unknown"; "limit_violation";
                 "cancel_reconciliation_required"] (rq_Status request)
  return match rq_UnresolvedReconciliation request with
         | Some _ => negb (validUnresolvedCallReconciliation request)
         | None => true
         end;
  match rq_UnresolvedReconciliation request with
  | Some _ => negb (validUnresolvedCallReconciliation request)
  | None => match rq_Reconciliation request with
            | Some _ => negb (validEmbeddingHTTPErrorReconciliation request)
            | None => false
            end
  end.
End Codec.

(** ** Prices ([ledger.go]) *)

Definition reserveAmounts (model : string) (inputUpperBound outputLimit : Z)
  : res BudgetError (Z * Z) :=
  when String.eqb model DeepSeekModel
  return (let usd := inputUpperBound *i DeepSeekInputNanoUSDPerToken
                     +i outputLimit *i DeepSeekOutputNanoUSDPerToken in
          Ok (usd *i DeepSeekBudgetFXNanoCNYPerUSD, usd));
  when String.eqb model QwenChatModel return Ok (0, 0);
  when String.eqb model QwenEmbedding || String.eqb model QwenEmbeddingFlash
  return (when negb (outputLimit =? 0) return Err ErrWrongModel;
          let price := default 0 (EmbeddingInputNanoCNYPerToken model) in
          Ok (inputUpperBound *i price, 0));
  Err ErrWrongModel.

Definition actualAmounts (model : string) (inputTokens outputTokens : Z)
  : res BudgetError (Z * Z) :=
  when String.eqb model QwenChatModel return Ok (0, 0);
  when (inputTokens <? 0) || (outputTokens <? 0) return Err ErrInputTooLarge;
  when String.eqb model DeepSeekModel
  return (let usd := inputTokens *i DeepSeekInputNanoUSDPerToken
                     +i outputTokens *i DeepSeekOutputNanoUSDPerToken in
          Ok (usd *i DeepSeekBudgetFXNanoCNYPerUSD, usd));
  when String.eqb model QwenEmbedding || String.eqb model QwenEmbeddingFlash
  return (when negb (outputTokens =? 0) return Err ErrWrongModel;
          let price := default 0 (EmbeddingInputNanoCNYPerToken model) in
          Ok (inputTokens *i price, 0));
  Err ErrWrongModel.

(** ** Validity of a ledger ([ledger.go], [reconcile.go]) *)

Definition freshLedger (profile : string) : Ledger :=
  let config := profileConfigOf profile in
  let fxReserve := if String.eqb (costBasis config) CostBasisNotApplicable then 0
                   else DeepSeekBudgetFXNanoCNYPerUSD in
  {| l_SchemaVersion := ledgerVersion; l_Profile := profile; l_MaxCalls := maxCalls config;
     l_InputMaxTokens := inputMax config; l_OutputMaxTokens := outputMax config;
     l_TotalMaxTokens := totalMax config; l_CumulativeTokenMax := cumulativeTokenMax config;
     l_ReservedTokens := 0; l_ActualTokens := 0; l_MaxConcurrency := MaxConcurrency;
     l_CostBasis := costBasis config; l_FXReserveCNYPerUSD := fxReserve;
     l_MaxReserveNanoCNY := nanoCNY config; l_ReservedNanoCNY := 0; l_ActualNanoCNY := 0;
     l_ReservedNanoUSD := 0; l_ActualNanoUSD := 0; l_Blocked := false; l_BlockedReason := "";
     l_Requests := [] |}.

Definition tracksCumulativeTokens (l : Ledger) : bool := 0 <? l_CumulativeTokenMax l.

Definition validLedgerCumulativeTokenMax (ledger : Ledger) (profile : string) : bool :=
  let ceiling := ProfileCumulativeTokenMax profile in
  when ceiling <=? 0 return (l_CumulativeTokenMax ledger =? 0);
  (0 <? l_CumulativeTokenMax ledger) && (l_CumulativeTokenMax ledger <=? ceiling).

Definition validLedgerTotalMax (ledger : Ledger) (profile : string) (totalMax : Z) : bool :=
  when l_TotalMaxTokens ledger =? totalMax return true;
  negb (IsQwenProfile profile) && (l_TotalMaxTokens ledger =? 0).

Definition validLedgerCostBasis (recorded profile costBasis : string) : bool :=
  when String.eqb recorded costBasis return true;
  negb (IsQwenProfile profile) && String.eqb recorded "".

Definition validUsageStatus (status : string) : bool :=
  contains [""; UsageStatusReported; UsageStatusUnavailable] status.

Fixpoint consistent_costs_loop (requests : list Request) : bool :=
  match requests with
  | [] => true
  | request :: rest =>
      match actualAmounts (rq_Model request) (rq_InputTokens request) (rq_OutputTokens request) with
      | Err _ => false
      | Ok (cny, usd) =>
          when (rq_InputUpperBound request <? rq_InputTokens request)
            || (rq_OutputLimit request <? rq_OutputTokens request)
            || negb (cny =? rq_ActualNanoCNY request) || negb (usd =? rq_ActualNanoUSD request)
          return false;
          consistent_costs_loop rest
      end
  end.

Definition consistentRecordedCosts (ledger : Ledger) : bool :=
  consistent_costs_loop (l_Requests ledger).

(** The running totals of the loop of [validLedger]. *)
Record sums := {
  s_reserveCNY : Z; s_actualCNY : Z; s_reserveUSD : Z; s_actualUSD : Z;
  s_reservedTokens : Z; s_actualTokens : Z
}.

Definition no_sums : sums := Build_sums 0 0 0 0 0 0.

Definition add_row (acc : sums) (request : Request) : sums := {|
  s_reserveCNY := s_reserveCNY acc +i rq_ReservedNanoCNY request;
  s_actualCNY := s_actualCNY acc +i rq_ActualNanoCNY request;
  s_reserveUSD := s_reserveUSD acc +i rq_ReservedNanoUSD request;
  s_actualUSD := s_actualUSD acc +i rq_ActualNanoUSD request;
  s_reservedTokens := s_reservedTokens acc
                      +i (rq_InputUpperBound request +i rq_OutputLimit request);
  s_actualTokens := s_actualTokens acc +i rq_TotalTokens request
|}.

Definition known_statuses : list string :=
  ["in_flight"; "outcome_unknown"; "usage_unknown"; "http_error"; "response_received";
   "incomplete"; "limit_violation"; "cancel_reconciliation_required"].

Section Validity.
Context `{LedgerCodec}.

Definition recon_ok (profile : string) (request : Request) : bool :=
  match rq_Reconciliation request with
  | None => true
  | Some _ => ProfileSupportsEmbeddingHTTPErrorReconciliation profile
              && validEmbeddingHTTPErrorReconciliation request
  end
  && match rq_UnresolvedReconciliation request with
     | None => true
     | Some _ => ProfileSupportsUnresolvedCallReconciliation profile
                 && validUnresolvedCallReconciliation request
     end.

(** One round of the loop: the checks of the row at [index]. *)
Definition row_ok (blocked : bool) (profile : string) (index : Z) (request : Request) : bool :=
  let '(inputMax, outputMax, totalMax) := ProfileTokenLimits profile in
  when negb (ProfileAllowsModel profile (rq_Model request)) return false;
  when negb (recon_ok profile request) return false;
  when negb (rq_Number request =? index + 1)
    || (rq_InputUpperBound request <? 0) || (inputMax <? rq_InputUpperBound request)
    || (rq_OutputLimit request <? 0) || (outputMax <? rq_OutputLimit request)
    || (rq_InputTokens request <? 0) || (rq_OutputTokens request <? 0)
    || (rq_TotalTokens request <? 0)
    || (totalMax <? rq_InputTokens request +i rq_OutputTokens request)
  return false;
  when negb (validUsageStatus (rq_UsageStatus request))
    || negb (validLedgerCostBasis (rq_CostBasis request) profile (ProfileCostBasis profile))
  return false;
  match reserveAmounts (rq_Model request) (rq_InputUpperBound request) (rq_OutputLimit request) with
  | Err _ => false
  | Ok (expectedCNY, expectedUSD) =>
      when negb (expectedCNY =? rq_ReservedNanoCNY request)
        || negb (expectedUSD =? rq_ReservedNanoUSD request)
      return false;
      when negb (contains known_statuses (rq_Status request)) return false;
      when requestUnresolved request && negb blocked return false;
      true
  end.

Fixpoint rows_loop (blocked : bool) (profile : string) (index : Z) (requests : list Request)
  (acc : sums) : option sums :=
  match requests with
  | [] => Some acc
  | request :: rest =>
      when negb (row_ok blocked profile index request) return None;
      rows_loop blocked profile (index + 1) rest (add_row acc request)
  end.

(** The checks of [validLedger] before its loop. *)
Definition header_ok (ledger : Ledger) (profile : string) : bool :=
  let '(calls, budget, _) := ProfileLimits profile in
  let '(inputMax, outputMax, totalMax) := ProfileTokenLimits profile in
  let fxReserve := if ProfilePriced profile then DeepSeekBudgetFXNanoCNYPerUSD else 0 in
  negb (negb (SupportedProfile profile) || negb (l_SchemaVersion ledger =? ledgerVersion)
        || negb (String.eqb (l_Profile ledger) profile) || negb (l_MaxCalls ledger =? calls)
        || negb (l_InputMaxTokens ledger =? inputMax)
        || negb (l_OutputMaxTokens ledger =? outputMax)
        || negb (l_MaxConcurrency ledger =? MaxConcurrency)
        || negb (l_FXReserveCNYPerUSD ledger =? fxReserve)
        || negb (l_MaxReserveNanoCNY ledger =? budget)
        || negb (validLedgerTotalMax ledger profile totalMax)
        || negb (validLedgerCostBasis (l_CostBasis ledger) profile (ProfileCostBasis profile))
        || negb (validLedgerCumulativeTokenMax ledger profile)
        || (0 <? calls) && (calls <? Z.of_nat (length (l_Requests ledger)))
        || (l_ReservedNanoCNY ledger <? 0) || (budget <? l_ReservedNanoCNY ledger)
        || (l_ActualNanoCNY ledger <? 0) || (l_ReservedNanoCNY ledger <? l_ActualNanoCNY ledger)
        || (l_ReservedNanoUSD ledger <? 0) || (l_ActualNanoUSD ledger <? 0)
        || (l_ReservedNanoUSD ledger <? l_ActualNanoUSD ledger)).

Definition validLedger (ledger : Ledger) (profile : string) : bool :=
  when negb (header_ok ledger profile) return false;
  match rows_loop (l_Blocked ledger) profile 0 (l_Requests ledger) no_sums with
  | None => false
  | Some t =>
      when tracksCumulativeTokens ledger
        && (negb (l_ReservedTokens ledger =? s_reservedTokens t)
            || negb (l_ActualTokens ledger =? s_actualTokens t))
      return false;
      (s_reserveCNY t =? l_ReservedNanoCNY ledger) && (s_actualCNY t =? l_ActualNanoCNY ledger)
      && (s_reserveUSD t =? l_ReservedNanoUSD ledger)
      && (s_actualUSD t =? l_ActualNanoUSD ledger) && consistentRecordedCosts ledger
  end.

Fixpoint unresolved_loop (profile : string) (requests : list Request) : bool :=
  match requests with
  | [] => false
  | request :: rest =>
      when bool_decide (is_Some (rq_Reconciliation request))
        && negb (ProfileSupportsEmbeddingHTTPErrorReconciliation profile) return true;
      when bool_decide (is_Some (rq_UnresolvedReconciliation request))
        && negb (ProfileSupportsUnresolvedCallReconciliation profile) return true;
      when requestUnresolved request return true;
      unresolved_loop profile rest
  end.

Definition hasUnresolved (ledger : Ledger) : bool :=
  unresolved_loop (l_Profile ledger) (l_Requests ledger).

Fixpoint unverifiable_loop (profile : string) (requests : list Request) : bool :=
  match requests with
  | [] => false
  | request :: rest =>
      when negb (String.eqb (rq_UsageStatus request) UsageStatusUnavailable)
      return unverifiable_loop profile rest;
      when bool_decide (is_Some (rq_Reconciliation request))
        && ProfileSupportsEmbeddingHTTPErrorReconciliation profile
        && validEmbeddingHTTPErrorReconciliation request
      return unverifiable_loop profile rest;
      when bool_decide (is_Some (rq_UnresolvedReconciliation request))
        && ProfileSupportsUnresolvedCallReconciliation profile
        && validUnresolvedCallReconciliation request
      return unverifiable_loop profile rest;
      true
  end.

Definition ledgerUsageUnverifiable (ledger : Ledger) : bool :=
  unverifiable_loop (l_Profile ledger) (l_Requests ledger).

Definition ledgerTokenBudgetState (l : Ledger) : TokenBudgetState :=
  NewTokenBudgetState (l_CumulativeTokenMax l) (l_ReservedTokens l) (l_ActualTokens l)
    (ledgerUsageUnverifiable l).

(** ** Reading and writing the file *)

Definition decodeLedger (data : bytes) : res BudgetError Ledger :=
  match parseLedger data with
  | None => Err ErrUnavailable
  | Some ledger =>
      when negb (l_SchemaVersion ledger =? ledgerVersion) return Err ErrUnavailable;
      when negb (forallb (recon_ok (l_Profile ledger)) (l_Requests ledger))
      return Err ErrUnavailable;
      Ok ledger
  end.

(** [k] is the number of the read in the operation. *)
Definition readLedger (io : IO) (k : nat) (file : option bytes) (profile : string)
  : res BudgetError Ledger :=
  when negb (io_read io k) return Err ErrUnavailable;
  match file with
  | None => Ok (freshLedger profile)
  | Some data => decodeLedger data
  end.

(** The new content of the file and whether the write succeeded: the ledger
    is written to a temporary file and renamed over the old one. *)
Definition writeLedger (io : IO) (k : nat) (file : option bytes) (ledger : Ledger)
  : option bytes * bool :=
  if io_write io k then (Some (encodeLedger ledger), true) else (file, false).

Definition migrateLedgerProfile (ledger : Ledger) (target : string) : Ledger * bool :=
  when String.eqb (l_Profile ledger) target || negb (String.eqb target CostOnlyProfile)
    || negb (String.eqb (l_Profile ledger) Profile) || l_Blocked ledger
    || hasUnresolved ledger || negb (validLedger ledger Profile)
  return (ledger, false);
  let '(calls, nano, _) := ProfileLimits target in
  let migrated := ledger <| l_Profile := target |> <| l_MaxCalls := calls |>
                         <| l_MaxReserveNanoCNY := nano |> in
  when negb (validLedger migrated target) return (ledger, false);
  (migrated, true).
End Validity.

(** ** The operations of a window ([ledger.go]) *)

(** [r.release()]: the reservation is finished and its lock is gone. *)
Definition release (r : Reservation) : Reservation :=
  if rs_finished r then r else r <| rs_finished := true |> <| rs_lock := false |>.

Section Operations.
Context `{LedgerCodec}.

(** The gates of [Reserve] on the validated ledger, under the lock. *)
Definition reserve_gates (ledger : Ledger) (reserveNanoCNY reservedTokens : Z)
  : option BudgetError :=
  when l_Blocked ledger || hasUnresolved ledger return Some ErrBlocked;
  when (0 <? l_MaxCalls ledger) && (l_MaxCalls ledger <=? Z.of_nat (length (l_Requests ledger)))
    || (l_MaxReserveNanoCNY ledger -i l_ReservedNanoCNY ledger <? reserveNanoCNY)
  return Some ErrCallsSpent;
  when tracksCumulativeTokens ledger
  return (when l_CumulativeTokenMax ledger <? l_ReservedTokens ledger +i reservedTokens
          return Some ErrTokenBudgetExhausted;
          when ledgerUsageUnverifiable ledger return Some ErrTokenBudgetExhausted;
          None);
  None.

(** The row [Reserve] appends as the [number]-th. *)
Definition new_request (profile model : string) (number inputUpperBound outputLimit : Z)
  (reserveNanoCNY reserveNanoUSD now : Z) : Request := {|
    rq_Number := number; rq_Model := model;
    rq_Status := "in_flight"; rq_InputUpperBound := inputUpperBound;
    rq_OutputLimit := outputLimit; rq_InputTokens := 0; rq_OutputTokens := 0;
    rq_TotalTokens := 0; rq_UsageStatus := "";
    rq_CostBasis := ProfileCostBasis profile;
    rq_ReservedNanoCNY := reserveNanoCNY; rq_ActualNanoCNY := 0;
    rq_ReservedNanoUSD := reserveNanoUSD; rq_ActualNanoUSD := 0;
    rq_FinishReason := ""; rq_CreatedAt := now;
    rq_Reconciliation := None; rq_UnresolvedReconciliation := None |}.

Definition append_request (ledger : Ledger) (request : Request) : Ledger :=
  ledger
    <| l_Requests := l_Requests ledger ++ [request] |>
    <| l_ReservedNanoCNY := l_ReservedNanoCNY ledger +i rq_ReservedNanoCNY request |>
    <| l_ReservedNanoUSD := l_ReservedNanoUSD ledger +i rq_ReservedNanoUSD request |>
    <| l_ReservedTokens :=
         if tracksCumulativeTokens ledger
         then l_ReservedTokens ledger +i (rq_InputUpperBound request +i rq_OutputLimit request)
         else l_ReservedTokens ledger |>.

(** The checks of [Reserve] before the ledger is read: the amounts the call
    reserves, or the refusal. *)
Definition reserve_request_checks (profile model : string) (inputUpperBound outputLimit : Z)
  : res BudgetError (Z * Z) :=
  let '(inputMax, outputMax, totalMax) := ProfileTokenLimits profile in
  when (inputUpperBound <? 0) || (inputMax <? inputUpperBound)
    || (outputLimit <? 0) || (outputMax <? outputLimit)
  return Err ErrInputTooLarge;
  when totalMax <? inputUpperBound +i outputLimit return Err ErrInputTooLarge;
  when negb (ProfileAllowsModel profile model) return Err ErrWrongModel;
  reserveAmounts model inputUpperBound outputLimit.

(** [Budget.Reserve].  The new content of the file, and the reservation or
    the error. *)
Definition Reserve (io : IO) (budget : option Budget) (file : option bytes)
  (model : string) (inputUpperBound outputLimit : Z)
  : option bytes * res BudgetError Reservation :=
  match budget with
  | None => (file, Err ErrUnavailable)
  | Some b =>
  when negb (SupportedProfile (b_profile b)) || negb (IsAbs (b_ledgerPath b))
  return (file, Err ErrUnavailable);
  match reserve_request_checks (b_profile b) model inputUpperBound outputLimit with
  | Err e => (file, Err e)
  | Ok (reserveNanoCNY, reserveNanoUSD) =>
  when negb (io_lock io) return (file, Err ErrUnavailable);
  match readLedger io 0 file (b_profile b) with
  | Err _ => (file, Err ErrUnavailable)
  | Ok read =>
  let '(ledger, migrated) := migrateLedgerProfile read (b_profile b) in
  let '(file, written) := if migrated then writeLedger io 0 file ledger else (file, true) in
  when negb written return (file, Err ErrUnavailable);
  when negb (validLedger ledger (b_profile b)) return (file, Err ErrUnavailable);
  match reserve_gates ledger reserveNanoCNY (inputUpperBound +i outputLimit) with
  | Some e => (file, Err e)
  | None =>
  let request := new_request (b_profile b) model (Z.of_nat (length (l_Requests ledger)) + 1)
                   inputUpperBound outputLimit reserveNanoCNY reserveNanoUSD (io_now io) in
  let '(file, written) := writeLedger io 1 file (append_request ledger request) in
  when negb written return (file, Err ErrUnavailable);
  (file, Ok {| rs_budget := b; rs_lock := true; rs_requestNum := rq_Number request;
               rs_model := model; rs_finished := false |})
  end end end end.

(** The row and the ledger [CompleteUsage] writes for the row [request] of
    [ledger]. *)
Definition complete_row (r : Reservation) (request : Request) (status : string) (usage : Usage)
  (finishReason : string) (block : bool) : Request * bool * string :=
  let inputTokens := u_InputTokens usage in
  let outputTokens := u_OutputTokens usage in
  let totalTokens := if (u_TotalTokens usage <=? 0) && u_Reported usage
                     then inputTokens +i outputTokens else u_TotalTokens usage in
  let totalTokens := if negb (u_Reported usage) then 0 else totalTokens in
  let cost := actualAmounts (rs_model r) inputTokens outputTokens in
  let verdict := EvaluateCallLimits (b_profile (rs_budget r))
    {| cf_InputUpperBound := rq_InputUpperBound request; cf_OutputLimit := rq_OutputLimit request;
       cf_InputTokens := inputTokens; cf_OutputTokens := outputTokens |} in
  let violated := negb (is_ok cost) || Violated verdict in
  let block := if violated then true else block in
  let status := if violated then "limit_violation" else status in
  let '(actualNanoCNY, actualNanoUSD) :=
    match cost with
    | Ok amounts => amounts
    | Err _ => (rq_ReservedNanoCNY request +i 1, rq_ReservedNanoUSD request +i 1)
    end in
  (request <| rq_Status := status |> <| rq_InputTokens := inputTokens |>
           <| rq_OutputTokens := outputTokens |> <| rq_TotalTokens := totalTokens |>
           <| rq_UsageStatus := if u_Reported usage then UsageStatusReported
                                else UsageStatusUnavailable |>
           <| rq_FinishReason := finishReason |>
           <| rq_ActualNanoCNY := actualNanoCNY |> <| rq_ActualNanoUSD := actualNanoUSD |>,
   block, status).

Definition complete_ledger (ledger : Ledger) (index : nat) (request' : Request) (block : bool)
  (status : string) : Ledger :=
  let ledger1 := ledger
    <| l_Requests := <[index := request']> (l_Requests ledger) |>
    <| l_ActualNanoCNY := l_ActualNanoCNY ledger +i rq_ActualNanoCNY request' |>
    <| l_ActualNanoUSD := l_ActualNanoUSD ledger +i rq_ActualNanoUSD request' |>
    <| l_ActualTokens := if tracksCumulativeTokens ledger
                         then l_ActualTokens ledger +i rq_TotalTokens request'
                         else l_ActualTokens ledger |> in
  let ledger2 := if block then ledger1 <| l_Blocked := true |> <| l_BlockedReason := status |>
                 else ledger1 in
  if (l_ReservedNanoCNY ledger2 <? l_ActualNanoCNY ledger2)
     || (l_MaxReserveNanoCNY ledger2 <? l_ActualNanoCNY ledger2)
  then ledger2 <| l_Blocked := true |> <| l_BlockedReason := "actual usage exceeded reservation" |>
  else ledger2.

(** [Reservation.CompleteUsage]; [k] is the number of its read.  [None] is
    the nil error. *)
Definition CompleteUsage (io : IO) (k : nat) (reservation : option Reservation)
  (file : option bytes) (status : string) (usage : Usage) (finishReason : string) (block : bool)
  : option bytes * option Reservation * option BudgetError :=
  match reservation with
  | None => (file, None, Some ErrUnavailable)
  | Some r =>
  when rs_finished r || negb (rs_lock r) return (file, Some r, Some ErrUnavailable);
  match readLedger io k file Profile with
  | Err _ => (file, Some (release r), Some ErrUnavailable)
  | Ok ledger =>
  when (rs_requestNum r <? 1) || (Z.of_nat (length (l_Requests ledger)) <? rs_requestNum r)
  return (file, Some (release r), Some ErrUnavailable);
  let index := Z.to_nat (rs_requestNum r - 1) in
  match l_Requests ledger !! index with
  | None => (file, Some (release r), Some ErrUnavailable)
  | Some request =>
  when negb (rq_Number request =? rs_requestNum r)
    || negb (String.eqb (rq_Status request) "in_flight")
    || negb (String.eqb (rq_Model request) (rs_model r))
  return (let ledger := ledger <| l_Blocked := true |>
                               <| l_BlockedReason := "reservation sequence mismatch" |> in
          ((writeLedger io 0 file ledger).1, Some (release r), Some ErrBlocked));
  let '(request', block, status) := complete_row r request status usage finishReason block in
  let ledger := complete_ledger ledger index request' block status in
  let '(file, written) := writeLedger io 0 file ledger in
  when negb written return (file, Some (release r), Some ErrUnavailable);
  (file, Some (release r), if l_Blocked ledger then Some ErrCallsSpent else None)
  end end end.

Definition Complete (io : IO) (reservation : option Reservation) (file : option bytes)
  (status : string) (inputTokens outputTokens : Z) (finishReason : string) (block : bool)
  : option bytes * option Reservation * option BudgetError :=
  CompleteUsage io 0 reservation file status
    {| u_InputTokens := inputTokens; u_OutputTokens := outputTokens;
       u_TotalTokens := inputTokens +i outputTokens; u_Reported := true |} finishReason block.

Definition upperInputBound (io : IO) (k : nat) (r : Reservation) (file : option bytes) : Z :=
  when rs_requestNum r <? 1 return 0;
  match readLedger io k file Profile with
  | Err _ => 0
  | Ok ledger =>
      when Z.of_nat (length (l_Requests ledger)) <? rs_requestNum r return 0;
      match l_Requests ledger !! Z.to_nat (rs_requestNum r - 1) with
      | Some request => rq_InputUpperBound request
      | None => 0
      end
  end.

(** [Reservation.Unknown], whose reads start at the [k]-th of the operation. *)
Definition Unknown (io : IO) (k : nat) (reservation : option Reservation) (file : option bytes)
  (status : string) : option bytes * option Reservation * option BudgetError :=
  match reservation with
  | None => (file, None, Some ErrUnavailable)
  | Some r =>
      when negb (ProfilePriced (b_profile (rs_budget r)))
      return CompleteUsage io k (Some r) file status
               {| u_InputTokens := 0; u_OutputTokens := 0; u_TotalTokens := 0;
                  u_Reported := false |} "" true;
      CompleteUsage io (S k) (Some r) file status
        {| u_InputTokens := upperInputBound io k r file; u_OutputTokens := 0;
           u_TotalTokens := 0; u_Reported := false |} "" true
  end.

(** The ledger without its last row, whose reservation goes back. *)
Definition cancel_ledger (ledger : Ledger) (request : Request) : Ledger :=
  ledger
    <| l_Requests := take (length (l_Requests ledger) - 1) (l_Requests ledger) |>
    <| l_ReservedNanoCNY := l_ReservedNanoCNY ledger -i rq_ReservedNanoCNY request |>
    <| l_ReservedNanoUSD := l_ReservedNanoUSD ledger -i rq_ReservedNanoUSD request |>
    <| l_ReservedTokens :=
         if tracksCumulativeTokens ledger
         then l_ReservedTokens ledger -i (rq_InputUpperBound request +i rq_OutputLimit request)
         else l_ReservedTokens ledger |>.

Definition CancelNoCall (io : IO) (reservation : option Reservation) (file : option bytes)
  : option bytes * option Reservation * option BudgetError :=
  match reservation with
  | None => (file, None, Some ErrUnavailable)
  | Some r =>
  when rs_finished r || negb (rs_lock r) return (file, Some r, Some ErrUnavailable);
  match readLedger io 0 file Profile with
  | Err _ => Unknown io 1 (Some r) file "cancel_reconciliation_required"
  | Ok ledger =>
  when negb (rs_requestNum r =? Z.of_nat (length (l_Requests ledger)))
  return Unknown io 1 (Some r) file "cancel_reconciliation_required";
  match l_Requests ledger !! Z.to_nat (rs_requestNum r - 1) with
  | None => Unknown io 1 (Some r) file "cancel_reconciliation_required"
  | Some request =>
  when negb (String.eqb (rq_Status request) "in_flight")
    || negb (String.eqb (rq_Model request) (rs_model r))
  return Unknown io 1 (Some r) file "cancel_reconciliation_required";
  let '(file, written) := writeLedger io 0 file (cancel_ledger ledger request) in
  (file, Some (release r), if written then None else Some ErrUnavailable)
  end end end.
End Operations.

(** ** The operator settlements ([reconcile.go], [reconcile_unresolved.go]) *)

Record ReconcileEmbeddingHTTPErrorInput := {
  hi_ExpectedLedgerSHA256 : string;
  hi_RequestNumber : Z;
  hi_ExpectedStatus : string;
  hi_ExpectedBlockedReason : string;
  hi_ExpectedReason : string;
  hi_ConfirmFullReserveCharge : bool;
  hi_Evidence : EmbeddingHTTPErrorEvidence
}.

Record ReconcileUnresolvedCallInput := {
  ui_ExpectedLedgerSHA256 : string;
  ui_RequestNumber : Z;
  ui_ExpectedStatus : string;
  ui_ExpectedBlockedReason : string;
  ui_ExpectedReason : string;
  ui_ConfirmFullReserveCharge : bool;
  ui_Evidence : UnresolvedCallEvidence
}.

Section Settlements.
Context `{LedgerCodec}.

(** Whether a row other than the one at [index] is still unresolved. *)
Definition other_unresolved (index : nat) (requests : list Request) : bool :=
  existsb requestUnresolved (take index requests)
  || existsb requestUnresolved (drop (S index) requests).

Definition unblock (ledger : Ledger) (index : nat) (request' : Request) : Ledger :=
  ledger <| l_Requests := <[index := request']> (l_Requests ledger) |>
         <| l_Blocked := false |> <| l_BlockedReason := "" |>.

(** The last checks and the write of both settlements. *)
Definition settle (io : IO) (b : Budget) (file : option bytes) (ledger : Ledger)
  : option bytes * option BudgetError :=
  when negb (validLedger ledger (b_profile b)) || hasUnresolved ledger
  return (file, Some ErrBlocked);
  let '(file, written) := writeLedger io 0 file ledger in
  (file, if written then None else Some ErrUnavailable).

(** Both settlements read the complete file and compare its digest. *)
Definition read_snapshot (io : IO) (file : option bytes) (expected : string)
  : res BudgetError Ledger :=
  match file with
  | None => Err ErrUnavailable
  | Some data =>
      when negb (io_read io 0) || negb (String.eqb (digestSHA256 data) expected)
      return Err ErrUnavailable;
      decodeLedger data
  end.

Definition http_error_input_ok (b : Budget) (input : ReconcileEmbeddingHTTPErrorInput) : bool :=
  negb (negb (ProfileSupportsEmbeddingHTTPErrorReconciliation (b_profile b))
        || negb (IsAbs (b_ledgerPath b)) || negb (hi_ConfirmFullReserveCharge input)
        || negb (validSHA256 (hi_ExpectedLedgerSHA256 input)) || (hi_RequestNumber input <? 1)
        || negb (String.eqb (hi_ExpectedStatus input) "http_error")
        || negb (String.eqb (hi_ExpectedBlockedReason input) "http_error")
        || negb (validEvidence (hi_Evidence input))
        || negb (String.eqb (he_LedgerSHA256 (hi_Evidence input)) (hi_ExpectedLedgerSHA256 input))
        || negb (he_RequestNumber (hi_Evidence input) =? hi_RequestNumber input)
        || negb (String.eqb (he_Reason (hi_Evidence input)) (hi_ExpectedReason input))).

Definition ReconcileEmbeddingHTTPError (io : IO) (budget : option Budget) (file : option bytes)
  (input : ReconcileEmbeddingHTTPErrorInput) : option bytes * option BudgetError :=
  match budget with
  | None => (file, Some ErrUnavailable)
  | Some b =>
  when negb (http_error_input_ok b input) return (file, Some ErrUnavailable);
  when negb (io_lock io) return (file, Some ErrUnavailable);
  match read_snapshot io file (hi_ExpectedLedgerSHA256 input) with
  | Err _ => (file, Some ErrUnavailable)
  | Ok ledger =>
  when negb (validLedger ledger (b_profile b)) || negb (consistentRecordedCosts ledger)
    || negb (l_Blocked ledger)
    || negb (String.eqb (l_BlockedReason ledger) (hi_ExpectedBlockedReason input))
    || negb (hi_RequestNumber input =? Z.of_nat (length (l_Requests ledger)))
  return (file, Some ErrUnavailable);
  let index := Z.to_nat (hi_RequestNumber input - 1) in
  match l_Requests ledger !! index with
  | None => (file, Some ErrUnavailable)
  | Some request =>
  when negb (String.eqb (rq_Status request) (hi_ExpectedStatus input))
    || bool_decide (is_Some (rq_Reconciliation request))
    || negb (fullReserveEmbeddingHTTPError request)
  return (file, Some ErrUnavailable);
  when other_unresolved index (l_Requests ledger) return (file, Some ErrBlocked);
  let proof := {|
    hr_Kind := embeddingHTTPErrorReconciliationKind; hr_Evidence := hi_Evidence input;
    hr_OriginalRequestSHA256 := requestSHA256 request; hr_ChargeBasis := fullReserveChargeBasis;
    hr_ProviderTokenUsage := unknownProviderUsage;
    hr_ChargedNanoCNY := rq_ReservedNanoCNY request;
    hr_ChargedNanoUSD := rq_ReservedNanoUSD request; hr_ReconciledAt := io_now io |} in
  settle io b file (unblock ledger index (request <| rq_Reconciliation := Some proof |>))
  end end end.

Definition unresolved_input_ok (b : Budget) (input : ReconcileUnresolvedCallInput) : bool :=
  negb (negb (ProfileSupportsUnresolvedCallReconciliation (b_profile b))
        || negb (IsAbs (b_ledgerPath b)) || negb (ui_ConfirmFullReserveCharge input)
        || negb (validSHA256 (ui_ExpectedLedgerSHA256 input)) || (ui_RequestNumber input <? 1)
        || negb (settleableUnresolvedStatus (ui_ExpectedStatus input))
        || negb (String.eqb (ui_ExpectedStatus input) (ue_OriginalStatus (ui_Evidence input)))
        || negb (String.eqb (ui_ExpectedBlockedReason input)
                   (ue_OriginalBlockedReason (ui_Evidence input)))
        || negb (String.eqb (ui_ExpectedReason input) (ue_Reason (ui_Evidence input)))
        || negb (String.eqb (ue_LedgerSHA256 (ui_Evidence input)) (ui_ExpectedLedgerSHA256 input))
        || negb (ue_RequestNumber (ui_Evidence input) =? ui_RequestNumber input)
        || negb (validUnresolvedCallEvidence (ui_Evidence input))).

(** The freeze must be attributable to the settled row. *)
Definition freeze_attributable (ledger : Ledger) (input : ReconcileUnresolvedCallInput) : bool :=
  if l_Blocked ledger then
    negb (String.eqb (ui_ExpectedBlockedReason input) "")
    && String.eqb (l_BlockedReason ledger) (ui_ExpectedBlockedReason input)
  else if String.eqb (ui_ExpectedStatus input) "in_flight" then
    String.eqb (l_BlockedReason ledger) "" && String.eqb (ui_ExpectedBlockedReason input) ""
  else false.

Definition ReconcileUnresolvedCall (io : IO) (budget : option Budget) (file : option bytes)
  (input : ReconcileUnresolvedCallInput) : option bytes * option BudgetError :=
  match budget with
  | None => (file, Some ErrUnavailable)
  | Some b =>
  when negb (unresolved_input_ok b input) return (file, Some ErrUnavailable);
  when negb (io_lock io) return (file, Some ErrUnavailable);
  match read_snapshot io file (ui_ExpectedLedgerSHA256 input) with
  | Err _ => (file, Some ErrUnavailable)
  | Ok ledger =>
  when negb (ui_RequestNumber input =? Z.of_nat (length (l_Requests ledger)))
  return (file, Some ErrUnavailable);
  let index := Z.to_nat (ui_RequestNumber input - 1) in
  match l_Requests ledger !! index with
  | None => (file, Some ErrUnavailable)
  | Some request =>
  when negb (rq_Number request =? ui_RequestNumber input)
    || negb (String.eqb (rq_Status request) (ui_ExpectedStatus input))
    || bool_decide (is_Some (rq_Reconciliation request))
    || bool_decide (is_Some (rq_UnresolvedReconciliation request))
  return (file, Some ErrUnavailable);
  when String.eqb (rq_UsageStatus request) UsageStatusReported return (file, Some ErrUnavailable);
  when negb (freeze_attributable ledger input) return (file, Some ErrUnavailable);
  when other_unresolved index (l_Requests ledger) return (file, Some ErrBlocked);
  let proof := {|
    ur_Kind := unresolvedCallReconciliationKind; ur_Evidence := ui_Evidence input;
    ur_OriginalRequestSHA256 := requestSHA256 request; ur_ChargeBasis := fullReserveChargeBasis;
    ur_ProviderTokenUsage := unknownProviderUsage;
    ur_ChargedNanoCNY := rq_ReservedNanoCNY request;
    ur_ChargedNanoUSD := rq_ReservedNanoUSD request; ur_ReconciledAt := io_now io |} in
  settle io b file (unblock ledger index (request <| rq_UnresolvedReconciliation := Some proof |>))
  end end end.
End Settlements.

(** What [decodeLedger] accepts of a written ledger. *)
Definition storable `{LedgerCodec} (l : Ledger) : bool :=
  (l_SchemaVersion l =? ledgerVersion) && forallb (recon_ok (l_Profile l)) (l_Requests l).

(** ** Facts the window proofs share *)

(** What the source relies on of [encoding/json] and of the hex digest. *)
Class LedgerCodecLaws (C : LedgerCodec) := {
  parse_encode : forall l, parseLedger (encodeLedger l) = Some l;
  request_digest_hex : forall r, validSHA256 (requestDigest r) = true
}.

#[global] Arguments row_ok : simpl never.
#[global] Arguments header_ok : simpl never.
#[global] Arguments requestUnresolved : simpl never.
#[global] Arguments reserveAmounts : simpl never.
#[global] Arguments actualAmounts : simpl never.
