(* ===== verification/BudgetWindow.v ===== *)
(** The life of one acceptance-budget window: what each operation of
    [BudgetLedger] does to the ledger, and what holds of every ledger a
    sequence of operations can reach. *)

From S2P Require Import Prelude BudgetProfiles BudgetLedger.

(** ** A window as a step relation

    The state is the ledger file and the live reservation.  The OS guard of
    [AcquireLock] admits one holder, so an operation that takes the lock runs
    only when no reservation is live. *)

Record window {C : LedgerCodec} := {
  w_file : option bytes;
  w_live : option Reservation
}.
Arguments window : clear implicits.

Section Window.
Context {C : LedgerCodec}.
Variable b : Budget.

Definition live_after (r : option Reservation) : option Reservation :=
  match r with Some r => if rs_finished r then None else Some r | None => None end.

Inductive window_step : window C -> window C -> Prop :=
| step_reserve io model inputUpperBound outputLimit file file' outcome :
    Reserve io (Some b) file model inputUpperBound outputLimit = (file', outcome) ->
    window_step {| w_file := file; w_live := None |}
      {| w_file := file'; w_live := match outcome with Ok r => Some r | Err _ => None end |}
| step_complete io status usage finishReason block file file' r r' e :
    CompleteUsage io 0 (Some r) file status usage finishReason block = (file', r', e) ->
    window_step {| w_file := file; w_live := Some r |}
      {| w_file := file'; w_live := live_after r' |}
| step_unknown io status file file' r r' e :
    Unknown io 0 (Some r) file status = (file', r', e) ->
    window_step {| w_file := file; w_live := Some r |}
      {| w_file := file'; w_live := live_after r' |}
| step_cancel io file file' r r' e :
    CancelNoCall io (Some r) file = (file', r', e) ->
    window_step {| w_file := file; w_live := Some r |}
      {| w_file := file'; w_live := live_after r' |}
| step_crash file r :
    window_step {| w_file := file; w_live := Some r |} {| w_file := file; w_live := None |}
| step_settle_http io input file file' e :
    ReconcileEmbeddingHTTPError io (Some b) file input = (file', e) ->
    window_step {| w_file := file; w_live := None |} {| w_file := file'; w_live := None |}
| step_settle_unresolved io input file file' e :
    ReconcileUnresolvedCall io (Some b) file input = (file', e) ->
    window_step {| w_file := file; w_live := None |} {| w_file := file'; w_live := None |}.

Inductive window_reachable : window C -> Prop :=
| reach_start : window_reachable {| w_file := None; w_live := None |}
| reach_step w w' : window_reachable w -> window_step w w' -> window_reachable w'.
End Window.

(** ** The accounting of a ledger *)

Definition row_tokens (r : Request) : Z := rq_InputUpperBound r + rq_OutputLimit r.

(** A row whose reservation is what the price list says and fits the profile. *)
Definition row_reserved (profile : string) (r : Request) : Prop :=
  ProfileAllowsModel profile (rq_Model r) = true
  /\ 0 <= rq_InputUpperBound r <= inputMax (profileConfigOf profile)
  /\ 0 <= rq_OutputLimit r <= outputMax (profileConfigOf profile)
  /\ reserveAmounts (rq_Model r) (rq_InputUpperBound r) (rq_OutputLimit r)
     = Ok (rq_ReservedNanoCNY r, rq_ReservedNanoUSD r).

(** The reservations of a window: every counter is the exact sum of its rows
    and stays inside the profile's ceiling. *)
Record window_accounts (profile : string) (l : Ledger) : Prop := {
  wa_profile : l_Profile l = profile;
  wa_calls_max : l_MaxCalls l = maxCalls (profileConfigOf profile);
  wa_money_max : l_MaxReserveNanoCNY l = nanoCNY (profileConfigOf profile);
  wa_tokens_max : l_CumulativeTokenMax l = cumulativeTokenMax (profileConfigOf profile);
  wa_rows : Forall (row_reserved profile) (l_Requests l);
  wa_money : l_ReservedNanoCNY l = sum_by rq_ReservedNanoCNY (l_Requests l);
  wa_money_le : l_ReservedNanoCNY l <= nanoCNY (profileConfigOf profile);
  wa_calls : 0 < maxCalls (profileConfigOf profile) ->
             Z.of_nat (length (l_Requests l)) <= maxCalls (profileConfigOf profile);
  wa_tokens : 0 < cumulativeTokenMax (profileConfigOf profile) ->
              l_ReservedTokens l = sum_by row_tokens (l_Requests l)
              /\ l_ReservedTokens l <= cumulativeTokenMax (profileConfigOf profile)
}.

(** What an operation may change of a row without touching its reservation. *)
Definition same_reservation (r r' : Request) : Prop :=
  rq_Model r' = rq_Model r /\ rq_InputUpperBound r' = rq_InputUpperBound r
  /\ rq_OutputLimit r' = rq_OutputLimit r
  /\ rq_ReservedNanoCNY r' = rq_ReservedNanoCNY r /\ rq_ReservedNanoUSD r' = rq_ReservedNanoUSD r.

Lemma reserve_amounts_bounds model i o cny usd :
  0 <= i <= 16000 -> 0 <= o <= 6000 -> reserveAmounts model i o = Ok (cny, usd) ->
  0 <= cny <= 120000000 /\ 0 <= usd <= 12000000.
Proof.
  intros Hi Ho. unfold reserveAmounts, EmbeddingInputNanoCNYPerToken,
    DeepSeekInputNanoUSDPerToken, DeepSeekOutputNanoUSDPerToken, DeepSeekBudgetFXNanoCNYPerUSD,
    QwenNanoCNYPerToken, QwenFlashNanoCNYPerToken.
  repeat case_match; cbn; intros [= <- <-]; no_wrap; lia.
Qed.

Lemma row_reserved_bounds profile r :
  row_reserved profile r ->
  0 <= rq_ReservedNanoCNY r <= 120000000 /\ 0 <= row_tokens r <= 22000.
Proof.
  intros (_ & Hi & Ho & Ha). pose proof (profile_limits_sane profile) as S.
  apply reserve_amounts_bounds in Ha; unfold row_tokens; lia.
Qed.

Lemma same_reservation_row profile r r' :
  same_reservation r r' -> row_reserved profile r -> row_reserved profile r'.
Proof. unfold row_reserved. intros (-> & -> & -> & -> & ->). done. Qed.

Lemma accounts_nonneg profile l :
  window_accounts profile l -> 0 <= l_ReservedNanoCNY l.
Proof.
  intros W. rewrite (wa_money _ _ W). apply sum_by_nonneg.
  eapply Forall_impl; [apply (wa_rows _ _ W)|].
  intros r Hr%row_reserved_bounds. lia.
Qed.

Lemma accounts_tokens_nonneg profile l :
  window_accounts profile l -> 0 <= sum_by row_tokens (l_Requests l).
Proof.
  intros W. apply sum_by_nonneg. eapply Forall_impl; [apply (wa_rows _ _ W)|].
  intros r Hr%row_reserved_bounds. lia.
Qed.

Lemma fresh_accounts profile :
  window_accounts profile (freshLedger profile).
Proof.
  pose proof (profile_limits_sane profile).
  split; cbn; first [lia | constructor | done].
Qed.

(** Replacing a row by one with the same reservation keeps the accounts. *)
Lemma accounts_replace profile l l' i r r' :
  window_accounts profile l -> l_Requests l !! i = Some r -> same_reservation r r' ->
  l_Requests l' = <[i := r']> (l_Requests l) ->
  l_Profile l' = l_Profile l -> l_MaxCalls l' = l_MaxCalls l ->
  l_MaxReserveNanoCNY l' = l_MaxReserveNanoCNY l ->
  l_CumulativeTokenMax l' = l_CumulativeTokenMax l ->
  l_ReservedNanoCNY l' = l_ReservedNanoCNY l -> l_ReservedTokens l' = l_ReservedTokens l ->
  window_accounts profile l'.
Proof.
  intros W Hi S Er Ep Ec Em Et En Ek. destruct W. pose proof S as (Sm & Si & So & Sc & Su).
  split; rewrite ?Er, ?Ep, ?Ec, ?Em, ?Et, ?En, ?Ek; try assumption.
  - apply Forall_insert; [done|]. eapply same_reservation_row; [done|].
    by eapply Forall_lookup_1.
  - rewrite (sum_by_insert _ _ _ _ _ Hi). cbn in *. lia.
  - rewrite length_insert. assumption.
  - rewrite (sum_by_insert _ _ _ _ _ Hi). unfold row_tokens. rewrite Si, So. intros Hp.
    destruct (wa_tokens0 Hp). unfold row_tokens in *. lia.
Qed.

(** ** Every operation keeps the accounts *)

Section Steps.
Context {C : LedgerCodec} {L : LedgerCodecLaws C}.

Definition file_accounts (profile : string) (file : option bytes) : Prop :=
  forall data, file = Some data ->
  exists l, parseLedger data = Some l /\ window_accounts profile l.

Lemma decode_ok data l :
  decodeLedger data = Ok l -> parseLedger data = Some l.
Proof. unfold decodeLedger. intros E. early_returns E. congruence. Qed.

(** A successful read of an existing file is its content; of a missing one,
    the fresh ledger. *)
Lemma read_ok io k file profile l :
  readLedger io k file profile = Ok l ->
  match file with None => l = freshLedger profile | Some data => parseLedger data = Some l end.
Proof.
  unfold readLedger. intros E. early_returns E; [by apply decode_ok|congruence].
Qed.

Lemma read_accounts io k file profile l :
  file_accounts profile file -> readLedger io k file profile = Ok l -> window_accounts profile l.
Proof.
  intros F R%read_ok. destruct file as [data|]; [|subst; apply fresh_accounts].
  destruct (F data eq_refl) as (l' & E & W). congruence.
Qed.

Lemma write_accounts profile io k file l :
  file_accounts profile file -> window_accounts profile l ->
  file_accounts profile (writeLedger io k file l).1.
Proof.
  intros F W. unfold writeLedger. destruct (io_write io k); [|done].
  intros data [= <-]. exists l. rewrite parse_encode. done.
Qed.

(** A ledger that carries the profile is not migrated. *)
Lemma migrate_same l profile :
  l_Profile l = profile -> migrateLedgerProfile l profile = (l, false).
Proof. intros <-. unfold migrateLedgerProfile. by rewrite String.eqb_refl. Qed.

(** What a granted [Reserve] has checked and written. *)
Lemma reserve_ok_inv io b file model i o file' r :
  Reserve io (Some b) file model i o = (file', Ok r) ->
  exists read l cny usd,
    readLedger io 0 file (b_profile b) = Ok read
    /\ l = (migrateLedgerProfile read (b_profile b)).1
    /\ SupportedProfile (b_profile b) = true
    /\ reserve_request_checks (b_profile b) model i o = Ok (cny, usd)
    /\ validLedger l (b_profile b) = true
    /\ reserve_gates l cny (i +i o) = None
    /\ file' = Some (encodeLedger (append_request l
         (new_request (b_profile b) model (Z.of_nat (length (l_Requests l)) + 1) i o cny usd
            (io_now io))))
    /\ r = {| rs_budget := b; rs_lock := true;
              rs_requestNum := Z.of_nat (length (l_Requests l)) + 1;
              rs_model := model; rs_finished := false |}.
Proof.
  unfold Reserve. intros E.
  destruct (negb (SupportedProfile _) || _) eqn:G0; [discriminate E|].
  destruct (reserve_request_checks _ _ _ _) as [[cny usd]|] eqn:G1; [|discriminate E].
  destruct (negb (io_lock io)); [discriminate E|].
  destruct (readLedger io 0 file (b_profile b)) as [read|] eqn:G2; [|discriminate E].
  destruct (migrateLedgerProfile read (b_profile b)) as [l m] eqn:G3.
  destruct (if m then _ else _) as [file1 written] eqn:G4.
  destruct written; [cbn in E|discriminate E].
  destruct (validLedger l (b_profile b)) eqn:G5; [cbn in E|discriminate E].
  destruct (reserve_gates l cny (i +i o)) eqn:G6; [discriminate E|].
  unfold writeLedger in E at 1. destruct (io_write io 1); cbn in E; [|discriminate E].
  injection E as <- <-. exists read, l, cny, usd. rewrite G3.
  apply orb_false_iff in G0 as [G0%negb_false_iff _]. rewrite G0.
  split_and!; first [assumption|reflexivity].
Qed.

Lemma request_checks_inv profile model i o cny usd :
  reserve_request_checks profile model i o = Ok (cny, usd) ->
  ProfileAllowsModel profile model = true
  /\ 0 <= i <= inputMax (profileConfigOf profile)
  /\ 0 <= o <= outputMax (profileConfigOf profile)
  /\ reserveAmounts model i o = Ok (cny, usd).
Proof.
  unfold reserve_request_checks, ProfileTokenLimits. intros E. early_returns E.
  split_bools. split_and!; try assumption; lia.
Qed.

(** The gates, read on the exact accounts. *)
Lemma gates_open_inv profile l cny tokens :
  window_accounts profile l -> 0 <= cny -> 0 <= tokens <= 22000 ->
  reserve_gates l cny tokens = None ->
  l_Blocked l = false /\ hasUnresolved l = false
  /\ (0 < maxCalls (profileConfigOf profile) ->
      Z.of_nat (length (l_Requests l)) < maxCalls (profileConfigOf profile))
  /\ l_ReservedNanoCNY l + cny <= nanoCNY (profileConfigOf profile)
  /\ (0 < cumulativeTokenMax (profileConfigOf profile) ->
      l_ReservedTokens l + tokens <= cumulativeTokenMax (profileConfigOf profile)
      /\ ledgerUsageUnverifiable l = false).
Proof.
  intros W Hc Ht. pose proof (accounts_nonneg _ _ W). pose proof (accounts_tokens_nonneg _ _ W).
  pose proof (profile_limits_sane profile). destruct W.
  unfold reserve_gates, tracksCumulativeTokens.
  rewrite wa_calls_max0, wa_money_max0, wa_tokens_max0. intros E.
  no_wrap_in E. early_returns E; split_bools; split_and!; try assumption; try lia;
    intros Hp; try lia; destruct (wa_tokens0 Hp) as [Hs Hl].
  all: assert (Hw : i64 (l_ReservedTokens l + tokens) = l_ReservedTokens l + tokens)
         by (apply i64_id; solve_range).
  all: split; [lia|first [assumption|reflexivity]].
Qed.

Lemma append_accounts profile l model i o cny usd n now :
  window_accounts profile l -> reserve_request_checks profile model i o = Ok (cny, usd) ->
  reserve_gates l cny (i +i o) = None ->
  window_accounts profile (append_request l (new_request profile model n i o cny usd now)).
Proof.
  intros W R G. apply request_checks_inv in R as (Ra & Ri & Ro & Rr).
  pose proof (profile_limits_sane profile) as S.
  pose proof (reserve_amounts_bounds model i o cny usd ltac:(lia) ltac:(lia) Rr) as [Bc _].
  assert (Eio : i +i o = i + o) by (apply i64_id; solve_range). rewrite Eio in G.
  pose proof (gates_open_inv profile l cny (i + o) W ltac:(lia) ltac:(lia) G) as (_ & _ & Gn & Gm & Gt).
  pose proof (accounts_nonneg _ _ W). pose proof (accounts_tokens_nonneg _ _ W). destruct W.
  split; cbn; rewrite ?sum_by_app, ?length_app; cbn; try assumption.
  - apply Forall_app_2; [assumption|]. constructor; [|constructor].
    unfold row_reserved; cbn. split_and!; first [assumption|lia].
  - rewrite i64_id by solve_range. lia.
  - rewrite i64_id by solve_range. lia.
  - intros Hp. specialize (Gn Hp). lia.
  - intros Hp. destruct (Gt Hp) as [Gt' _]. destruct (wa_tokens0 Hp).
    unfold tracksCumulativeTokens, row_tokens in *; cbn. rewrite wa_tokens_max0.
    destruct (Z.ltb_spec 0 (cumulativeTokenMax (profileConfigOf profile))); [|lia].
    rewrite Eio. rewrite i64_id by solve_range. lia.
Qed.

Lemma complete_row_same r request status usage finish block :
  same_reservation request (complete_row r request status usage finish block).1.1.
Proof. unfold complete_row. by case_match. Qed.

Lemma complete_accounts profile l index request request' block status :
  window_accounts profile l -> l_Requests l !! index = Some request ->
  same_reservation request request' ->
  window_accounts profile (complete_ledger l index request' block status).
Proof.
  intros W Hi S. unfold complete_ledger.
  eapply accounts_replace; [exact W|exact Hi|exact S|..]; cbn; repeat case_match; reflexivity.
Qed.

Lemma complete_usage_accounts profile io k r file status usage finish block :
  file_accounts profile file ->
  file_accounts profile (CompleteUsage io k (Some r) file status usage finish block).1.1.
Proof.
  intros F. unfold CompleteUsage. guard_step; [exact F|].
  destruct (readLedger io k file Profile) as [l|] eqn:R; [|exact F].
  guard_step; [exact F|].
  destruct (l_Requests l !! _) as [request|] eqn:Hi; [|exact F].
  assert (W : window_accounts profile l).
  { apply read_ok in R. destruct file as [data|].
    - destruct (F data eq_refl) as (l' & E & W). congruence.
    - subst l. discriminate Hi. }
  guard_step.
  - apply write_accounts; [exact F|]. destruct W; split; cbn; assumption.
  - pose proof (complete_row_same r request status usage finish block) as S.
    destruct (complete_row _ _ _ _ _ _) as [[request' block'] status'] eqn:E. cbn in S.
    pose proof (write_accounts profile io 0 file _ F
                  (complete_accounts _ _ _ _ _ block' status' W Hi S)) as Fw.
    destruct (writeLedger _ _ _ _) as [file' []]; exact Fw.
Qed.

Lemma unknown_accounts profile io k r file status :
  file_accounts profile file ->
  file_accounts profile (Unknown io k (Some r) file status).1.1.
Proof. intros F. unfold Unknown. by case_match; apply complete_usage_accounts. Qed.

Lemma cancel_accounts_ledger profile l request :
  window_accounts profile l -> last (l_Requests l) = Some request ->
  window_accounts profile (cancel_ledger l request).
Proof.
  intros W E. apply last_Some in E as (rows & E). pose proof (profile_limits_sane profile).
  pose proof (accounts_nonneg _ _ W) as N. pose proof (accounts_tokens_nonneg _ _ W) as T.
  destruct W. rewrite E in *. apply Forall_app in wa_rows0 as [Hrows Hr].
  rewrite sum_by_app in *. cbn [sum_by] in *. rewrite length_app in *. cbn [length] in *.
  apply Forall_cons_1 in Hr as [Hr%row_reserved_bounds _]. destruct Hr as [Bc Bt].
  assert (0 <= sum_by rq_ReservedNanoCNY rows).
  { apply sum_by_nonneg. eapply Forall_impl; [exact Hrows|].
    intros r' Hr'%row_reserved_bounds. lia. }
  assert (0 <= sum_by row_tokens rows).
  { apply sum_by_nonneg. eapply Forall_impl; [exact Hrows|].
    intros r' Hr'%row_reserved_bounds. lia. }
  assert (take (length (rows ++ [request]) - 1) (rows ++ [request]) = rows) as Et.
  { rewrite length_app. apply take_app_length'. cbn. lia. }
  unfold cancel_ledger; split; cbn; rewrite ?E, ?Et; try assumption.
  - rewrite i64_id by solve_range. lia.
  - rewrite i64_id by solve_range. lia.
  - intros Hp. specialize (wa_calls0 Hp). lia.
  - intros Hp. destruct (wa_tokens0 Hp). unfold tracksCumulativeTokens, row_tokens in *.
    rewrite wa_tokens_max0. destruct (Z.ltb_spec 0 (cumulativeTokenMax (profileConfigOf profile))); [|lia].
    rewrite (i64_id (rq_InputUpperBound request + _)) by solve_range.
    rewrite i64_id by solve_range. lia.
Qed.

Lemma cancel_accounts profile io r file :
  file_accounts profile file -> file_accounts profile (CancelNoCall io (Some r) file).1.1.
Proof.
  intros F. unfold CancelNoCall. guard_step; [exact F|].
  destruct (readLedger io 0 file Profile) as [l|] eqn:R; [|by apply unknown_accounts].
  destruct (rs_requestNum r =? Z.of_nat (length (l_Requests l))) eqn:Gn;
    cbn [negb]; [|by apply unknown_accounts].
  destruct (l_Requests l !! _) as [request|] eqn:Hi; [|by apply unknown_accounts].
  guard_step; [by apply unknown_accounts|].
  assert (W : window_accounts profile l).
  { apply read_ok in R. destruct file as [data|].
    - destruct (F data eq_refl) as (l' & E & W). congruence.
    - subst l. discriminate Hi. }
  assert (Hlast : last (l_Requests l) = Some request).
  { rewrite last_lookup, <- Hi. f_equal. apply lookup_lt_Some in Hi. lia. }
  pose proof (write_accounts profile io 0 file _ F
                (cancel_accounts_ledger profile l request W Hlast)) as Fw.
  destruct (writeLedger _ _ _ _) as [file' written]. exact Fw.
Qed.

Lemma settle_accounts profile io b file l :
  file_accounts profile file -> window_accounts profile l ->
  file_accounts profile (settle io b file l).1.
Proof.
  intros F W. unfold settle. guard_step; [exact F|].
  pose proof (write_accounts profile io 0 file l F W) as Fw.
  destruct (writeLedger _ _ _ _). exact Fw.
Qed.

Lemma unblock_accounts profile l index request request' :
  window_accounts profile l -> l_Requests l !! index = Some request ->
  same_reservation request request' -> window_accounts profile (unblock l index request').
Proof. intros W Hi S. eapply accounts_replace; [exact W|exact Hi|exact S|..]; reflexivity. Qed.

Lemma snapshot_ok io file expected l :
  read_snapshot io file expected = Ok l ->
  exists data, file = Some data /\ parseLedger data = Some l /\ digestSHA256 data = expected.
Proof.
  unfold read_snapshot. destruct file as [data|]; [|discriminate].
  destruct (negb _ || _) eqn:G; [discriminate|]. intros E%decode_ok.
  apply orb_false_iff in G as [_ G%negb_false_iff%String.eqb_eq]. eauto.
Qed.

Lemma reconcile_http_accounts profile io b file input :
  file_accounts profile file ->
  file_accounts profile (ReconcileEmbeddingHTTPError io (Some b) file input).1.
Proof.
  intros F. unfold ReconcileEmbeddingHTTPError. guard_step; [exact F|].
  guard_step; [exact F|].
  destruct (read_snapshot _ _ _) as [l|] eqn:R; [|exact F]. guard_step; [exact F|].
  destruct (l_Requests l !! _) as [request|] eqn:Hi; [|exact F].
  guard_step; [exact F|]. guard_step; [exact F|].
  apply snapshot_ok in R as (data & -> & Hp & _).
  destruct (F data eq_refl) as (l' & E & W). assert (l' = l) as -> by congruence.
  apply settle_accounts; [exact F|]. eapply unblock_accounts; [exact W|exact Hi|repeat split].
Qed.

Lemma reconcile_unresolved_accounts profile io b file input :
  file_accounts profile file ->
  file_accounts profile (ReconcileUnresolvedCall io (Some b) file input).1.
Proof.
  intros F. unfold ReconcileUnresolvedCall. guard_step; [exact F|].
  guard_step; [exact F|].
  destruct (read_snapshot _ _ _) as [l|] eqn:R; [|exact F]. guard_step; [exact F|].
  destruct (l_Requests l !! _) as [request|] eqn:Hi; [|exact F].
  guard_step; [exact F|]. guard_step; [exact F|].
  guard_step; [exact F|]. guard_step; [exact F|].
  apply snapshot_ok in R as (data & -> & Hp & _).
  destruct (F data eq_refl) as (l' & E & W). assert (l' = l) as -> by congruence.
  apply settle_accounts; [exact F|]. eapply unblock_accounts; [exact W|exact Hi|repeat split].
Qed.

(** A refused [Reserve] leaves the file of a window as it was. *)
Lemma reserve_refused_file b io file model i o file' e :
  file_accounts (b_profile b) file ->
  Reserve io (Some b) file model i o = (file', Err e) -> file' = file.
Proof.
  intros F. unfold Reserve. guard_step; [congruence|].
  destruct (reserve_request_checks _ _ _ _) as [[cny usd]|]; [|congruence].
  guard_step; [congruence|].
  destruct (readLedger io 0 file (b_profile b)) as [read|] eqn:R; [|congruence].
  rewrite (migrate_same _ _ (wa_profile _ _ (read_accounts _ _ _ _ _ F R))). cbn.
  guard_step; [congruence|]. destruct (reserve_gates _ _ _); [congruence|].
  unfold writeLedger. destruct (io_write io 1); cbn; congruence.
Qed.

Lemma reserve_accounts b io file model i o :
  file_accounts (b_profile b) file ->
  file_accounts (b_profile b) (Reserve io (Some b) file model i o).1.
Proof.
  intros F. destruct (Reserve io (Some b) file model i o) as [file' [r|e]] eqn:E; cbn.
  - apply reserve_ok_inv in E as (read & l & cny & usd & R & El & _ & Rc & _ & G & -> & _).
    pose proof (read_accounts _ _ _ _ _ F R) as W.
    rewrite (migrate_same _ _ (wa_profile _ _ W)) in El. cbn in El. subst l.
    intros data [= <-]. eexists. rewrite parse_encode. split; [reflexivity|].
    by apply append_accounts.
  - apply reserve_refused_file in E; [by subst|exact F].
Qed.

Lemma reachable_accounts b w :
  window_reachable b w -> file_accounts (b_profile b) (w_file w).
Proof.
  induction 1 as [|w w' _ IH S]; [intros data; discriminate|].
  destruct S as [io model i o file file' out E|io status usage fin block file file' r r' e E
    |io status file file' r r' e E|io file file' r r' e E|file r|io input file file' e E
    |io input file file' e E]; cbn in IH |- *; [..|exact IH| |].
  - pose proof (reserve_accounts b io file model i o IH) as K. by rewrite E in K.
  - pose proof (complete_usage_accounts _ io 0 r file status usage fin block IH) as K.
    by rewrite E in K.
  - pose proof (unknown_accounts _ io 0 r file status IH) as K. by rewrite E in K.
  - pose proof (cancel_accounts _ io r file IH) as K. by rewrite E in K.
  - pose proof (reconcile_http_accounts _ io b file input IH) as K. by rewrite E in K.
  - pose proof (reconcile_unresolved_accounts _ io b file input IH) as K. by rewrite E in K.
Qed.
End Steps.

(** ** What a valid ledger says of its rows *)

Section Valid.
Context {C : LedgerCodec} {L : LedgerCodecLaws C}.

Lemma rows_loop_rows blocked profile index rows acc t :
  rows_loop blocked profile index rows acc = Some t ->
  forall k r, rows !! k = Some r -> row_ok blocked profile (index + Z.of_nat k) r = true.
Proof.
  revert index acc. induction rows as [|r0 rows IH]; intros index acc E k r Hk; [done|].
  cbn in E. destruct (row_ok blocked profile index r0) eqn:G; cbn in E; [|discriminate E].
  destruct k as [|k]; cbn in Hk.
  - injection Hk as <-. by replace (index + Z.of_nat 0) with index by lia.
  - specialize (IH _ _ E k r Hk).
    by replace (index + Z.of_nat (S k)) with (index + 1 + Z.of_nat k) by lia.
Qed.

Lemma valid_inv l profile :
  validLedger l profile = true ->
  header_ok l profile = true
  /\ (exists t, rows_loop (l_Blocked l) profile 0 (l_Requests l) no_sums = Some t
      /\ s_reserveUSD t = l_ReservedNanoUSD l
      /\ (tracksCumulativeTokens l = true -> s_reservedTokens t = l_ReservedTokens l))
  /\ consistentRecordedCosts l = true.
Proof.
  unfold validLedger. intros E. destruct (header_ok l profile) eqn:Hh; [cbn in E|discriminate E].
  destruct (rows_loop _ _ _ _ _) as [t|] eqn:Hr; [|discriminate E].
  destruct (tracksCumulativeTokens l && _) eqn:Ht; [discriminate E|].
  split_bools. split; [reflexivity|]. split; [|assumption]. exists t.
  split; [reflexivity|]. split; [assumption|]. intros Htr. rewrite Htr in Ht. cbn in Ht.
  split_bools. congruence.
Qed.

Lemma valid_row l profile k r :
  validLedger l profile = true -> l_Requests l !! k = Some r ->
  row_ok (l_Blocked l) profile (Z.of_nat k) r = true.
Proof.
  intros (_ & (t & Hr & _) & _)%valid_inv Hk. by apply (rows_loop_rows _ _ _ _ _ _ Hr k r).
Qed.

Lemma row_ok_resolved profile index r :
  row_ok false profile index r = true -> requestUnresolved r = false.
Proof.
  unfold row_ok, ProfileTokenLimits. intros E. destruct (requestUnresolved r); [|reflexivity].
  early_returns E; discriminate.
Qed.

(** An unblocked ledger with an unresolved row is not valid. *)
Lemma unresolved_invalid l profile k r :
  l_Requests l !! k = Some r -> requestUnresolved r = true -> l_Blocked l = false ->
  validLedger l profile = false.
Proof.
  intros Hk Hu Hb. destruct (validLedger l profile) eqn:V; [|reflexivity].
  pose proof (valid_row _ _ _ _ V Hk) as K. rewrite Hb in K.
  apply row_ok_resolved in K. congruence.
Qed.

Lemma header_profile l profile : header_ok l profile = true -> l_Profile l = profile.
Proof.
  unfold header_ok, ProfileLimits, ProfileTokenLimits. intros E. apply negb_true_iff in E.
  repeat apply orb_false_iff in E as [E ?]. split_bools. assumption.
Qed.

Lemma header_money l profile :
  header_ok l profile = true ->
  0 <= l_ReservedNanoCNY l <= nanoCNY (profileConfigOf profile)
  /\ 0 <= l_ReservedNanoUSD l.
Proof.
  unfold header_ok, ProfileLimits, ProfileTokenLimits. intros E. apply negb_true_iff in E.
  repeat apply orb_false_iff in E as [E ?]. split_bools. lia.
Qed.

Lemma unresolved_loop_false profile rows :
  unresolved_loop profile rows = false -> Forall (fun r => requestUnresolved r = false) rows.
Proof.
  induction rows as [|r rows IH]; cbn; [constructor|]. intros E. early_returns E.
  constructor; [assumption|]. by apply IH.
Qed.

Lemma gates_open_ledger l cny tokens :
  reserve_gates l cny tokens = None -> l_Blocked l = false /\ hasUnresolved l = false.
Proof. unfold reserve_gates. intros E. early_returns E; by apply orb_false_iff. Qed.

(** The running totals are [int64]s. *)
Lemma rows_loop_range blocked profile index rows acc t :
  rows_loop blocked profile index rows acc = Some t ->
  int64_range (s_reserveUSD acc) -> int64_range (s_reservedTokens acc) ->
  int64_range (s_reserveUSD t) /\ int64_range (s_reservedTokens t).
Proof.
  revert index acc. induction rows as [|r rows IH]; intros index acc E Hu Ht; cbn in E.
  - injection E as <-. done.
  - destruct (row_ok _ _ _ _); cbn in E; [|discriminate E].
    eapply IH; [exact E|apply i64_in_range..].
Qed.

Lemma valid_counters_range l profile :
  validLedger l profile = true ->
  int64_range (l_ReservedNanoCNY l) /\ int64_range (l_ReservedNanoUSD l)
  /\ (tracksCumulativeTokens l = true -> int64_range (l_ReservedTokens l)).
Proof.
  intros (Hh & (t & Hr & Hu & Ht) & _)%valid_inv. apply header_money in Hh.
  pose proof (profile_limits_sane profile).
  assert (int64_range 0) by solve_range.
  destruct (rows_loop_range _ _ _ _ _ _ Hr) as [Ru Rt]; [assumption..|].
  rewrite Hu in Ru. split; [solve_range|]. split; [exact Ru|].
  intros Htr. by rewrite <- (Ht Htr).
Qed.

Lemma cancel_append l row :
  int64_range (l_ReservedNanoCNY l) -> int64_range (l_ReservedNanoUSD l) ->
  (tracksCumulativeTokens l = true -> int64_range (l_ReservedTokens l)) ->
  cancel_ledger (append_request l row) row = l.
Proof.
  destruct l. unfold cancel_ledger, append_request, tracksCumulativeTokens, set_field; cbn.
  intros Rc Ru Rt. rewrite (i64_add_sub _ _ Rc), (i64_add_sub _ _ Ru).
  rewrite (take_app_length' l_Requests) by (rewrite length_app; cbn; lia).
  destruct (0 <? l_CumulativeTokenMax); [rewrite (i64_add_sub _ _ (Rt eq_refl))|]; reflexivity.
Qed.

Lemma decode_encode l :
  storable l = true -> decodeLedger (encodeLedger l) = Ok l.
Proof.
  unfold storable, decodeLedger. rewrite parse_encode. intros [Hs Hf]%andb_true_iff.
  by rewrite Hs, Hf.
Qed.

Lemma row_ok_recon blocked profile index r :
  row_ok blocked profile index r = true -> recon_ok profile r = true.
Proof.
  unfold row_ok, ProfileTokenLimits. intros E.
  destruct (recon_ok profile r); [reflexivity|]. early_returns E; discriminate.
Qed.

Lemma valid_storable l profile : validLedger l profile = true -> storable l = true.
Proof.
  intros V. pose proof (proj1 (valid_inv _ _ V)) as Hh. unfold storable.
  rewrite (header_profile _ _ Hh). apply andb_true_iff. split.
  - unfold header_ok, ProfileLimits, ProfileTokenLimits in Hh. apply negb_true_iff in Hh.
    repeat apply orb_false_iff in Hh as [Hh ?]. by apply negb_false_iff.
  - apply forallb_forall. intros r [k Hk]%list_elem_of_In%list_elem_of_lookup.
    eapply row_ok_recon, valid_row; [exact V|exact Hk].
Qed.
End Valid.
