(* ===== verification/BudgetTheorems.v ===== *)
(** The properties of the acceptance budget: the reservations of a window stay
    inside the profile's ceilings whatever happens, nothing is reserved while
    a call is unresolved, cancelling gives the ledger back, and the operator
    settlements never refund. *)

From S2P Require Import Prelude BudgetProfiles BudgetLedger BudgetWindow.

(** ** A concrete codec and inputs for the witnesses *)

Definition zeros64 : string := "0000000000000000000000000000000000000000000000000000000000000000".

(** The file is the ledger itself. *)
#[export] Instance plain_codec : LedgerCodec := {
  bytes := Ledger;
  encodeLedger := fun l => l;
  parseLedger := Some;
  digestSHA256 := fun _ => zeros64;
  requestDigest := fun _ => zeros64
}.

#[export] Instance plain_codec_laws : LedgerCodecLaws plain_codec.
Proof. split; reflexivity. Qed.

Definition good_io (now : Z) : IO :=
  {| io_lock := true; io_read := fun _ => true; io_write := fun _ => true; io_now := now |}.

Definition demo_budget (profile : string) : Budget :=
  {| b_profile := profile; b_ledgerPath := "/var/ledger.json" |}.

(** One reservation on a fresh file. *)
Definition demo_reserved : option (@bytes plain_codec) * res BudgetError Reservation :=
  Reserve (good_io 10) (Some (demo_budget QwenProfileV2)) None QwenChatModel 1000 500.

Definition demo_live : option Reservation :=
  match demo_reserved.2 with Ok r => Some r | Err _ => None end.

(** The content of the file after it. *)
Definition demo_data : @bytes plain_codec :=
  match demo_reserved.1 with Some data => data | None => freshLedger QwenProfileV2 end.

Definition demo_unresolved_input : ReconcileUnresolvedCallInput := {|
  ui_ExpectedLedgerSHA256 := zeros64; ui_RequestNumber := 1; ui_ExpectedStatus := "in_flight";
  ui_ExpectedBlockedReason := ""; ui_ExpectedReason := "process died";
  ui_ConfirmFullReserveCharge := true;
  ui_Evidence := {| ue_LedgerSHA256 := zeros64; ue_RequestNumber := 1;
    ue_OriginalStatus := "in_flight"; ue_OriginalBlockedReason := "";
    ue_EvidenceSHA256 := zeros64; ue_Operator := "operator"; ue_Reason := "process died" |} |}.

(** An embedding call the provider answered with an HTTP error. *)
Definition demo_http_file : option (@bytes plain_codec) :=
  let '(file, outcome) := Reserve (good_io 10) (Some (demo_budget QwenEmbeddingProfile)) None
                            QwenEmbedding 100 0 in
  match outcome with
  | Ok r => (Unknown (good_io 11) 0 (Some r) file "http_error").1.1
  | Err _ => file
  end.

Definition demo_http_input : ReconcileEmbeddingHTTPErrorInput := {|
  hi_ExpectedLedgerSHA256 := zeros64; hi_RequestNumber := 1; hi_ExpectedStatus := "http_error";
  hi_ExpectedBlockedReason := "http_error"; hi_ExpectedReason := "provider refused";
  hi_ConfirmFullReserveCharge := true;
  hi_Evidence := {| he_LedgerSHA256 := zeros64; he_RequestNumber := 1;
    he_OriginalStatus := "http_error"; he_OriginalBlockedReason := "http_error";
    he_HTTPStatus := 429; he_ResponseEvidenceSHA256 := zeros64; he_Operator := "operator";
    he_Reason := "provider refused" |} |}.

(** ** Ceilings *)

(** C3. In every state a window can reach from a missing ledger file, through
    any interleaving of reservations, completions, unknown outcomes,
    cancellations, crashes and settlements, with any outcome of each read,
    write and lock: the recorded reservation counters are the exact sums of
    the rows, and the money, the number of calls and the cumulative tokens
    stay inside the profile's ceilings. *)
Theorem window_never_over_budget {C : LedgerCodec} {L : LedgerCodecLaws C} b w data :
  window_reachable b w -> w_file w = Some data ->
  exists l, parseLedger data = Some l /\ window_accounts (b_profile b) l.
Proof. intros R E. exact (reachable_accounts b w R data E). Qed.

Lemma window_never_over_budget_witness :
  exists l, parseLedger demo_data = Some l /\ window_accounts QwenProfileV2 l.
Proof.
  apply (window_never_over_budget (C := plain_codec) (demo_budget QwenProfileV2)
    (Build_window plain_codec demo_reserved.1 demo_live)).
  - eapply reach_step; [apply reach_start|].
    apply (step_reserve (demo_budget QwenProfileV2) (good_io 10) QwenChatModel 1000 500 None
             demo_reserved.1 demo_reserved.2). vm_compute. reflexivity.
  - vm_compute. reflexivity.
Defined.



(** A process that dies between [Reserve] and its completion leaves a
    ledger on which every later [Reserve] fails: with the request's own
    refusal if the request is not acceptable, and with [ErrUnavailable]
    otherwise, because the in-flight row of an unblocked ledger makes it
    invalid before the [ErrBlocked] gate is reached. *)
Theorem crash_makes_window_unavailable {C : LedgerCodec} {L : LedgerCodecLaws C}
    io b file model i o file1 r io' model' i' o' :
  Reserve io (Some b) file model i o = (file1, Ok r) ->
  Reserve io' (Some b) file1 model' i' o' =
  (file1, match reserve_request_checks (b_profile b) model' i' o' with
          | Err e => Err e
          | Ok _ => Err ErrUnavailable
          end).
Proof.
  intros E. pose proof E as (read & l & cny0 & usd0 & _ & _ & S & _ & V & G & -> & _)%reserve_ok_inv.
  pose proof (gates_open_ledger _ _ _ G) as [Hb _].
  unfold Reserve in *. guard_step; [discriminate E|].
  destruct (reserve_request_checks _ model' i' o') as [[cny usd]|]; [|reflexivity].
  destruct (io_lock io'); cbn [negb]; [|reflexivity].
  destruct (readLedger io' 0 _ _) as [l1|] eqn:R; [|reflexivity].
  apply read_ok in R. rewrite parse_encode in R. injection R as <-.
  pose proof (proj1 (valid_inv _ _ V)) as P%header_profile.
  rewrite (migrate_same (append_request _ _) _ P). cbn [negb].
  erewrite unresolved_invalid; [reflexivity| |..].
  - apply list_lookup_middle. reflexivity.
  - reflexivity.
  - exact Hb.
Qed.

Lemma crash_makes_window_unavailable_witness :
  Reserve (good_io 20) (Some (demo_budget QwenProfileV2)) demo_reserved.1 QwenChatModel 1 1
  = (demo_reserved.1, Err ErrUnavailable).
Proof.
  apply (crash_makes_window_unavailable (C := plain_codec) (good_io 10) (demo_budget QwenProfileV2)
    None QwenChatModel 1000 500 demo_reserved.1
    {| rs_budget := demo_budget QwenProfileV2; rs_lock := true; rs_requestNum := 1;
       rs_model := QwenChatModel; rs_finished := false |} (good_io 20) QwenChatModel 1 1).
  vm_compute. reflexivity.
Defined.

(** ** Cancelling *)

(** Cancelling a call that was never made gives the ledger back exactly:
    after [Reserve] and a [CancelNoCall] whose read and write succeed, the
    file holds the very ledger [Reserve] accepted, every counter and every row
    as before. *)
Theorem cancel_restores_ledger {C : LedgerCodec} {L : LedgerCodecLaws C}
    io b file model i o file1 r io' :
  Reserve io (Some b) file model i o = (file1, Ok r) ->
  io_read io' 0 = true -> io_write io' 0 = true ->
  exists read l,
    readLedger io 0 file (b_profile b) = Ok read
    /\ l = (migrateLedgerProfile read (b_profile b)).1
    /\ CancelNoCall io' (Some r) file1 = (Some (encodeLedger l), Some (release r), None).
Proof.
  intros (read & l & cny & usd & R & El & _ & _ & V & _ & -> & ->)%reserve_ok_inv Hr Hw.
  exists read, l. split; [exact R|]. split; [exact El|].
  set (row := new_request _ _ _ _ _ _ _ _).
  pose proof (valid_storable _ _ V) as St.
  assert (Sa : storable (append_request l row) = true).
  { unfold storable in *. apply andb_true_iff in St as [Ss Sr]. apply andb_true_iff. split; [exact Ss|].
    cbn. rewrite forallb_app. apply andb_true_iff. split; [exact Sr|reflexivity]. }
  unfold CancelNoCall. cbn [rs_finished rs_lock orb negb rs_requestNum rs_model].
  unfold readLedger. rewrite Hr. cbn [negb]. rewrite (decode_encode _ Sa).
  assert (Hn : length (l_Requests (append_request l row)) = S (length (l_Requests l))).
  { cbn. rewrite length_app. cbn. lia. }
  rewrite Hn, (proj2 (Z.eqb_eq _ _)) by lia. cbn [negb].
  rewrite (list_lookup_middle (l_Requests l) [] row) by lia.
  cbn [rq_Status rq_Model new_request row]. rewrite !String.eqb_refl. cbn [negb orb].
  pose proof (valid_counters_range _ _ V) as (Rc & Ru & Rt).
  rewrite (cancel_append l row Rc Ru Rt). unfold writeLedger. by rewrite Hw.
Qed.

Lemma cancel_restores_ledger_witness :
  exists read l,
    readLedger (good_io 10) 0 None QwenProfileV2 = Ok read
    /\ l = (migrateLedgerProfile read QwenProfileV2).1
    /\ CancelNoCall (good_io 11) demo_live demo_reserved.1
       = (Some l, option_map release demo_live, None).
Proof.
  apply (cancel_restores_ledger (C := plain_codec) (good_io 10) (demo_budget QwenProfileV2)
    None QwenChatModel 1000 500 demo_reserved.1
    {| rs_budget := demo_budget QwenProfileV2; rs_lock := true; rs_requestNum := 1;
       rs_model := QwenChatModel; rs_finished := false |} (good_io 11));
    [vm_compute; reflexivity|reflexivity|reflexivity].
Defined.

(** ** The operator settlements *)

(** The ledger without the annotations of a settlement and without the freeze. *)
Definition strip_settlement (r : Request) : Request :=
  r <| rq_Reconciliation := None |> <| rq_UnresolvedReconciliation := None |>.

Definition without_settlements (l : Ledger) : Ledger :=
  l <| l_Blocked := false |> <| l_BlockedReason := "" |>
    <| l_Requests := strip_settlement <$> l_Requests l |>.

(** What a successful settlement says of the files before and after it. *)
Definition settled {C : LedgerCodec} (profile expected : string) (file file' : option bytes) : Prop :=
  exists data l l',
    file = Some data /\ digestSHA256 data = expected /\ parseLedger data = Some l
    /\ file' = Some (encodeLedger l') /\ without_settlements l' = without_settlements l
    /\ l_Blocked l' = false /\ hasUnresolved l' = false /\ validLedger l' profile = true.

Lemma unblock_without l i r r' :
  l_Requests l !! i = Some r -> strip_settlement r' = strip_settlement r ->
  without_settlements (unblock l i r') = without_settlements l.
Proof.
  intros Hi Hs. destruct l. unfold without_settlements, unblock, set_field in *; cbn in *. f_equal.
  rewrite list_fmap_insert, Hs. apply list_insert_id. by rewrite list_lookup_fmap, Hi.
Qed.

Lemma settle_settled {C : LedgerCodec} io b file file' data l i r r' :
  file = Some data -> parseLedger data = Some l ->
  l_Requests l !! i = Some r -> strip_settlement r' = strip_settlement r ->
  settle io b file (unblock l i r') = (file', None) ->
  settled (b_profile b) (digestSHA256 data) file file'.
Proof.
  intros -> Hp Hi Hs. unfold settle. destruct (validLedger _ _) eqn:V; cbn [negb orb]; [|discriminate].
  destruct (hasUnresolved _) eqn:U; [discriminate|]. unfold writeLedger.
  destruct (io_write io 0); [|discriminate]. intros [= <-].
  exists data, l, (unblock l i r'). split_and!; try reflexivity; try assumption.
  by eapply unblock_without.
Qed.

(** [ReconcileUnresolvedCall] never refunds and never rewrites history: a
    successful settlement is bound to the exact bytes the operator named,
    leaves a valid, unblocked ledger with nothing unresolved, and apart from
    the appended annotation and the freeze the ledger is the one it read:
    every reserved and actual counter, every row and every field of it. *)
Theorem unresolved_settlement_never_refunds {C : LedgerCodec} io b file file' input :
  ReconcileUnresolvedCall io (Some b) file input = (file', None) ->
  settled (b_profile b) (ui_ExpectedLedgerSHA256 input) file file'.
Proof.
  unfold ReconcileUnresolvedCall. intros E. do 2 (guard_in E; [discriminate E|]).
  destruct (read_snapshot _ _ _) as [l|] eqn:R; [|discriminate E]. guard_in E; [discriminate E|].
  destruct (l_Requests l !! _) as [r|] eqn:Hi; [|discriminate E].
  do 4 (guard_in E; [discriminate E|]).
  apply snapshot_ok in R as (data & Ef & Hp & <-).
  eapply settle_settled; [exact Ef|exact Hp|exact Hi| |exact E]. reflexivity.
Qed.

Lemma unresolved_settlement_never_refunds_witness :
  settled QwenProfileV2 zeros64 demo_reserved.1
    (ReconcileUnresolvedCall (good_io 20) (Some (demo_budget QwenProfileV2)) demo_reserved.1
       demo_unresolved_input).1.
Proof.
  apply (unresolved_settlement_never_refunds (C := plain_codec) (good_io 20)
           (demo_budget QwenProfileV2) demo_reserved.1 _ demo_unresolved_input).
  vm_compute. reflexivity.
Defined.

(** The same of [ReconcileEmbeddingHTTPError]. *)
Theorem http_settlement_never_refunds {C : LedgerCodec} io b file file' input :
  ReconcileEmbeddingHTTPError io (Some b) file input = (file', None) ->
  settled (b_profile b) (hi_ExpectedLedgerSHA256 input) file file'.
Proof.
  unfold ReconcileEmbeddingHTTPError. intros E. do 2 (guard_in E; [discriminate E|]).
  destruct (read_snapshot _ _ _) as [l|] eqn:R; [|discriminate E]. guard_in E; [discriminate E|].
  destruct (l_Requests l !! _) as [r|] eqn:Hi; [|discriminate E].
  do 2 (guard_in E; [discriminate E|]).
  apply snapshot_ok in R as (data & Ef & Hp & <-).
  eapply settle_settled; [exact Ef|exact Hp|exact Hi| |exact E]. reflexivity.
Qed.

Lemma http_settlement_never_refunds_witness :
  settled QwenEmbeddingProfile zeros64 demo_http_file
    (ReconcileEmbeddingHTTPError (good_io 20) (Some (demo_budget QwenEmbeddingProfile))
       demo_http_file demo_http_input).1.
Proof.
  apply (http_settlement_never_refunds (C := plain_codec) (good_io 20)
           (demo_budget QwenEmbeddingProfile) demo_http_file _ demo_http_input).
  vm_compute. reflexivity.
Defined.

(** ** Completing a call *)

Lemma complete_ledger_blocked l i r status :
  l_Blocked (complete_ledger l i r true status) = true.
Proof. unfold complete_ledger. by repeat case_match. Qed.

Lemma complete_row_violated r request status usage finish block :
  Violated (EvaluateCallLimits (b_profile (rs_budget r))
    {| cf_InputUpperBound := rq_InputUpperBound request; cf_OutputLimit := rq_OutputLimit request;
       cf_InputTokens := u_InputTokens usage; cf_OutputTokens := u_OutputTokens usage |}) = true ->
  exists request', complete_row r request status usage finish block = (request', true, "limit_violation")
  /\ rq_Status request' = "limit_violation".
Proof.
  intros V. unfold complete_row. rewrite V, orb_true_r. case_match. eauto.
Qed.

(** A frozen ledger hands out no reservation, and stays as it is. *)
Lemma blocked_never_reserves {C : LedgerCodec} io b data l model i o :
  parseLedger data = Some l -> l_Blocked l = true ->
  exists e, Reserve io (Some b) (Some data) model i o = (Some data, Err e).
Proof.
  intros Hp Hb. unfold Reserve. guard_step; [eauto|].
  destruct (reserve_request_checks _ _ _ _) as [[cny usd]|]; [|eauto]. guard_step; [eauto|].
  destruct (readLedger io 0 _ _) as [l1|] eqn:R; [|eauto]. apply read_ok in R.
  assert (l1 = l) as -> by congruence. unfold migrateLedgerProfile.
  rewrite Hb, !orb_true_r. cbn [orb negb]. guard_step; [eauto|].
  unfold reserve_gates. rewrite Hb. cbn [orb]. eauto.
Qed.

(** A completed call that breached a limit freezes the window: when the
    checklist flags the reported counters of the live reservation's own row,
    [CompleteUsage] answers [ErrCallsSpent], the written ledger is blocked
    with the row marked as a limit violation, and no later [Reserve] of any
    budget on that file hands out a reservation. *)
Theorem violation_freezes_window {C : LedgerCodec} {L : LedgerCodecLaws C}
    io r file status usage finish block l request :
  rs_finished r = false -> rs_lock r = true -> 1 <= rs_requestNum r ->
  readLedger io 0 file Profile = Ok l ->
  l_Requests l !! Z.to_nat (rs_requestNum r - 1) = Some request ->
  rq_Number request = rs_requestNum r -> rq_Status request = "in_flight" ->
  rq_Model request = rs_model r -> io_write io 0 = true ->
  Violated (EvaluateCallLimits (b_profile (rs_budget r))
    {| cf_InputUpperBound := rq_InputUpperBound request; cf_OutputLimit := rq_OutputLimit request;
       cf_InputTokens := u_InputTokens usage; cf_OutputTokens := u_OutputTokens usage |}) = true ->
  exists l' request',
    CompleteUsage io 0 (Some r) file status usage finish block
    = (Some (encodeLedger l'), Some (release r), Some ErrCallsSpent)
    /\ l_Blocked l' = true
    /\ l_Requests l' !! Z.to_nat (rs_requestNum r - 1) = Some request'
    /\ rq_Status request' = "limit_violation"
    /\ forall io' b' model' i' o', exists e,
         Reserve io' (Some b') (Some (encodeLedger l')) model' i' o'
         = (Some (encodeLedger l'), Err e).
Proof.
  intros Hf Hl H1 R Hi En Es Em Hw V.
  destruct (complete_row_violated r request status usage finish block V) as (request' & Er & Es').
  exists (complete_ledger l (Z.to_nat (rs_requestNum r - 1)) request' true "limit_violation"), request'.
  pose proof (lookup_lt_Some _ _ _ Hi) as Hlt. split_and!.
  - unfold CompleteUsage. rewrite Hf, Hl, R. cbn [orb negb].
    rewrite (proj2 (Z.ltb_ge _ _) H1), (proj2 (Z.ltb_ge _ (rs_requestNum r))) by lia. cbn [orb].
    rewrite Hi, En, Es, Em, Z.eqb_refl, !String.eqb_refl. cbn [negb orb].
    rewrite Er. unfold writeLedger. rewrite Hw. cbn [negb].
    by rewrite complete_ledger_blocked.
  - apply complete_ledger_blocked.
  - unfold complete_ledger. repeat case_match; cbn; by apply list_lookup_insert_eq.
  - exact Es'.
  - intros. eapply blocked_never_reserves; [apply parse_encode|apply complete_ledger_blocked].
Qed.

Definition demo_reservation : Reservation :=
  {| rs_budget := demo_budget QwenProfileV2; rs_lock := true; rs_requestNum := 1;
     rs_model := QwenChatModel; rs_finished := false |}.

Definition demo_row : Request := new_request QwenProfileV2 QwenChatModel 1 1000 500 0 0 10.

(** One more output token than the request asked for. *)
Definition demo_excess : Usage :=
  {| u_InputTokens := 900; u_OutputTokens := 501; u_TotalTokens := 1401; u_Reported := true |}.

Lemma violation_freezes_window_witness :
  exists l' request',
    CompleteUsage (good_io 11) 0 (Some demo_reservation) demo_reserved.1 "response_received"
      demo_excess "stop" false
    = (Some l', Some (release demo_reservation), Some ErrCallsSpent)
    /\ l_Blocked l' = true
    /\ l_Requests l' !! 0%nat = Some request'
    /\ rq_Status request' = "limit_violation"
    /\ forall io' b' model' i' o', exists e,
         Reserve io' (Some b') (Some (l' : @bytes plain_codec)) model' i' o' = (Some l', Err e).
Proof.
  apply (violation_freezes_window (C := plain_codec) (good_io 11) demo_reservation demo_reserved.1
           "response_received" demo_excess "stop" false demo_data demo_row);
    vm_compute; first [reflexivity | discriminate].
Defined.

(** The reservation keeps every row's bounds inside the profile's, and a
    profile's single-call ceiling is the sum of its two. *)
Lemma total_is_sum profile :
  totalMax (profileConfigOf profile)
  = inputMax (profileConfigOf profile) + outputMax (profileConfigOf profile).
Proof.
  apply Z.eqb_eq. exact (profile_forall (fun c => totalMax c =? inputMax c + outputMax c) eq_refl profile).
Qed.

Lemma consistent_costs_row rows k q :
  consistent_costs_loop rows = true -> rows !! k = Some q ->
  rq_InputTokens q <= rq_InputUpperBound q /\ rq_OutputTokens q <= rq_OutputLimit q
  /\ is_ok (actualAmounts (rq_Model q) (rq_InputTokens q) (rq_OutputTokens q)) = true.
Proof.
  revert k. induction rows as [|q0 rows IH]; intros k Hc Hk; [done|]. cbn in Hc.
  destruct (actualAmounts (rq_Model q0) _ _) as [[cny usd]|] eqn:A; [|discriminate Hc].
  guard_in Hc; [discriminate Hc|]. destruct k as [|k]; [|by apply (IH k)].
  injection Hk as <-. rewrite A. split_bools. split_and!; [lia|lia|reflexivity].
Qed.

Lemma row_ok_bounds {C : LedgerCodec} blocked profile index q :
  row_ok blocked profile index q = true ->
  0 <= rq_InputUpperBound q <= inputMax (profileConfigOf profile)
  /\ 0 <= rq_OutputLimit q <= outputMax (profileConfigOf profile)
  /\ 0 <= rq_InputTokens q /\ 0 <= rq_OutputTokens q.
Proof.
  unfold row_ok, ProfileTokenLimits. intros E. do 3 (guard_in E; [discriminate E|]).
  clear E. split_bools. lia.
Qed.

(** A ledger whose history holds a breach of the checklist is never valid
    again: no row of a valid ledger carries counters the checklist of its
    profile flags, whatever its status and whatever annotation it carries.  A
    row [CompleteUsage] marked [limit_violation] because of its counters can
    therefore never be settled, although the settlement accepts the status. *)
Theorem valid_ledger_has_no_breach {C : LedgerCodec} l profile k q :
  validLedger l profile = true -> l_Requests l !! k = Some q ->
  Violated (EvaluateCallLimits profile
    {| cf_InputUpperBound := rq_InputUpperBound q; cf_OutputLimit := rq_OutputLimit q;
       cf_InputTokens := rq_InputTokens q; cf_OutputTokens := rq_OutputTokens q |}) = false.
Proof.
  intros V Hk. pose proof (row_ok_bounds _ _ _ _ (valid_row _ _ _ _ V Hk)) as (Hi & Ho & Ti & To).
  destruct (valid_inv _ _ V) as (_ & _ & Hc).
  destruct (consistent_costs_row _ _ _ Hc Hk) as (Li & Lo & _).
  pose proof (profile_limits_sane profile). pose proof (total_is_sum profile).
  rewrite violated_criteria. cbn [cf_InputUpperBound cf_OutputLimit cf_InputTokens cf_OutputTokens].
  rewrite (i64_id (rq_InputTokens q + _)) by solve_range.
  rewrite !orb_false_iff, !Z.ltb_ge. lia.
Qed.

Definition demo_usage : Usage :=
  {| u_InputTokens := 900; u_OutputTokens := 400; u_TotalTokens := 0; u_Reported := true |}.

(** The demo ledger after a clean completion. *)
Definition demo_completed : option (@bytes plain_codec) :=
  (CompleteUsage (good_io 11) 0 (Some demo_reservation) demo_reserved.1 "response_received"
     demo_usage "stop" false).1.1.

Definition demo_completed_ledger : Ledger :=
  match demo_completed with Some l => l | None => freshLedger QwenProfileV2 end.

Definition demo_completed_row : Request :=
  (complete_row demo_reservation demo_row "response_received" demo_usage "stop" false).1.1.

Lemma valid_ledger_has_no_breach_witness :
  Violated (EvaluateCallLimits QwenProfileV2
    {| cf_InputUpperBound := 1000; cf_OutputLimit := 500;
       cf_InputTokens := 900; cf_OutputTokens := 400 |}) = false.
Proof.
  apply (valid_ledger_has_no_breach (C := plain_codec) demo_completed_ledger QwenProfileV2 0
           demo_completed_row); vm_compute; reflexivity.
Defined.

(** A nil error of [CompleteUsage] means a clean call: the written ledger
    is not frozen, its row carries exactly the reported counters and the
    amounts of the price list, no criterion of the checklist fired, and the
    window's actual money is within what it reserved and within its ceiling. *)
Theorem clean_completion {C : LedgerCodec} io k r file file' r' status usage finish block :
  CompleteUsage io k (Some r) file status usage finish block = (file', r', None) ->
  exists l' q,
    file' = Some (encodeLedger l') /\ r' = Some (release r) /\ l_Blocked l' = false
    /\ l_Requests l' !! Z.to_nat (rs_requestNum r - 1) = Some q
    /\ rq_Status q = status /\ rq_InputTokens q = u_InputTokens usage
    /\ rq_OutputTokens q = u_OutputTokens usage
    /\ actualAmounts (rs_model r) (rq_InputTokens q) (rq_OutputTokens q)
       = Ok (rq_ActualNanoCNY q, rq_ActualNanoUSD q)
    /\ Violated (EvaluateCallLimits (b_profile (rs_budget r))
         {| cf_InputUpperBound := rq_InputUpperBound q; cf_OutputLimit := rq_OutputLimit q;
            cf_InputTokens := rq_InputTokens q; cf_OutputTokens := rq_OutputTokens q |}) = false
    /\ l_ActualNanoCNY l' <= l_ReservedNanoCNY l'
    /\ l_ActualNanoCNY l' <= l_MaxReserveNanoCNY l'.
Proof.
  unfold CompleteUsage. intros E. guard_in E; [discriminate E|].
  destruct (readLedger io k file Profile) as [l|]; [|discriminate E].
  guard_in E; [discriminate E|].
  destruct (l_Requests l !! _) as [request|] eqn:Hi; [|discriminate E].
  guard_in E; [discriminate E|]. pose proof (lookup_lt_Some _ _ _ Hi) as Hlt.
  unfold complete_row in E. destruct (actualAmounts _ _ _) as [[cny usd]|] eqn:A; cbn [is_ok negb orb] in E.
  2: { unfold writeLedger in E. rewrite complete_ledger_blocked in E. by destruct (io_write io 0). }
  destruct (Violated _) eqn:V.
  { unfold writeLedger in E. rewrite complete_ledger_blocked in E. by destruct (io_write io 0). }
  match type of E with context [complete_ledger l ?n ?q block status] =>
    set (q' := q) in *; set (l' := complete_ledger l n q' block status) in * end.
  unfold writeLedger in E. destruct (io_write io 0); [|discriminate E]. cbn [negb] in E.
  destruct (l_Blocked l') eqn:B; [discriminate E|]. injection E as <- <-.
  exists l', q'. split_and!; try reflexivity; try assumption.
  - unfold l', complete_ledger. repeat case_match; cbn; by apply list_lookup_insert_eq.
  - unfold l', complete_ledger in B |- *. repeat case_match; cbn in *; split_bools; first [discriminate|lia].
  - unfold l', complete_ledger in B |- *. repeat case_match; cbn in *; split_bools; first [discriminate|lia].
Qed.

Lemma clean_completion_witness :
  exists l' q,
    demo_completed = Some l' /\ Some (release demo_reservation) = Some (release demo_reservation)
    /\ l_Blocked l' = false
    /\ l_Requests l' !! 0%nat = Some q
    /\ rq_Status q = "response_received" /\ rq_InputTokens q = 900 /\ rq_OutputTokens q = 400
    /\ actualAmounts QwenChatModel (rq_InputTokens q) (rq_OutputTokens q)
       = Ok (rq_ActualNanoCNY q, rq_ActualNanoUSD q)
    /\ Violated (EvaluateCallLimits QwenProfileV2
         {| cf_InputUpperBound := rq_InputUpperBound q; cf_OutputLimit := rq_OutputLimit q;
            cf_InputTokens := rq_InputTokens q; cf_OutputTokens := rq_OutputTokens q |}) = false
    /\ l_ActualNanoCNY l' <= l_ReservedNanoCNY l'
    /\ l_ActualNanoCNY l' <= l_MaxReserveNanoCNY l'.
Proof.
  apply (clean_completion (C := plain_codec) (good_io 11) 0 demo_reservation demo_reserved.1
           demo_completed _ "response_received" demo_usage "stop" false).
  vm_compute. reflexivity.
Defined.

(** ** The embedding window and the fresh window *)

Lemma embedding_config :
  let c := profileConfigOf QwenEmbeddingProfile in
  maxCalls c = 4 /\ nanoCNY c = 8000000 /\ inputMax c = 16000 /\ outputMax c = 0
  /\ cumulativeTokenMax c = 8000 /\ allowedModels c = [QwenEmbedding; QwenEmbeddingFlash].
Proof. vm_compute. split_and!; reflexivity. Qed.

Lemma embedding_price model i o cny usd :
  ProfileAllowsModel QwenEmbeddingProfile model = true ->
  0 <= i <= inputMax (profileConfigOf QwenEmbeddingProfile) ->
  0 <= o <= outputMax (profileConfigOf QwenEmbeddingProfile) ->
  reserveAmounts model i o = Ok (cny, usd) ->
  0 <= cny <= 500 * (i + o).
Proof.
  intros Ha Hi Ho. destruct embedding_config as (_ & _ & Ei & Eo' & _ & Em).
  rewrite Ei in Hi. rewrite Eo' in Ho. unfold ProfileAllowsModel in Ha. rewrite Em in Ha.
  assert (o = 0) as -> by lia.
  assert (Hm : model = QwenEmbedding \/ model = QwenEmbeddingFlash).
  { cbn in Ha. destruct (model =? QwenEmbedding)%string eqn:E1; [left; by apply String.eqb_eq|].
    destruct (model =? QwenEmbeddingFlash)%string eqn:E2; [right; by apply String.eqb_eq|done]. }
  unfold reserveAmounts, EmbeddingInputNanoCNYPerToken, QwenNanoCNYPerToken, QwenFlashNanoCNYPerToken.
  destruct Hm as [-> | ->]; cbn; rewrite i64_id by solve_range; intros [= <- _]; lia.
Qed.

Lemma embedding_row_price r :
  row_reserved QwenEmbeddingProfile r -> rq_ReservedNanoCNY r <= 500 * row_tokens r.
Proof. intros (Ha & Hi & Ho & Hr). by apply (embedding_price _ _ _ _ _ Ha Hi Ho Hr). Qed.

(** The money ceiling of the embedding profile never binds before its
    token ceiling: in any reachable window of that profile, when [Reserve]
    answers [ErrCallsSpent] the authorized calls are used up, or the request
    would have passed the cumulative token ceiling anyway. *)
Theorem embedding_money_never_binds {C : LedgerCodec} {L : LedgerCodecLaws C} path w io model i o file' :
  let b := {| b_profile := QwenEmbeddingProfile; b_ledgerPath := path |} in
  window_reachable b w ->
  Reserve io (Some b) (w_file w) model i o = (file', Err ErrCallsSpent) ->
  exists l, readLedger io 0 (w_file w) QwenEmbeddingProfile = Ok l
  /\ (QwenEmbeddingMaxCalls <= Z.of_nat (length (l_Requests l))
      \/ QwenEmbeddingCumulativeTokenMax < l_ReservedTokens l + (i + o)).
Proof.
  intros b R E. unfold Reserve in E. guard_in E; [discriminate E|].
  destruct (reserve_request_checks _ _ _ _) as [[cny usd]|e] eqn:Rc.
  2: { exfalso. injection E as _ ->. revert Rc. unfold reserve_request_checks, reserveAmounts,
         ProfileTokenLimits. repeat case_match; discriminate. }
  guard_in E; [discriminate E|].
  destruct (readLedger io 0 (w_file w) _) as [l|] eqn:Rl; [|discriminate E].
  exists l. split; [reflexivity|].
  pose proof (read_accounts _ _ _ _ _ (reachable_accounts b w R) Rl) as W.
  rewrite (migrate_same _ _ (wa_profile _ _ W)) in E. cbn [negb] in E.
  guard_in E; [discriminate E|].
  destruct (reserve_gates _ _ _) as [e|] eqn:Gt; [injection E as _ ->|].
  2: { unfold writeLedger in E. by destruct (io_write io 1). }
  apply request_checks_inv in Rc as (Ra & Ri & Ro & Rr).
  pose proof (embedding_price _ _ _ _ _ Ra Ri Ro Rr) as Hrow.
  assert (Hsum : l_ReservedNanoCNY l <= 500 * sum_by row_tokens (l_Requests l)).
  { rewrite (wa_money _ _ W). pose proof (wa_rows _ _ W) as F. clear -F.
    induction F as [|r rows Hr _ IH]; cbn; [lia|]. apply embedding_row_price in Hr. lia. }
  pose proof (accounts_nonneg _ _ W) as N. destruct embedding_config as (Ec & En & _ & _ & Et & _).
  pose proof (wa_tokens _ _ W) as [Ts Tl]; [cbn; rewrite Et; lia|].
  pose proof (wa_calls_max _ _ W) as Mc. pose proof (wa_money_max _ _ W) as Mm.
  pose proof (wa_money_le _ _ W) as Ml. cbn [b_profile b] in *. rewrite ?Ec, ?En, ?Et in *.
  unfold QwenEmbeddingMaxCalls, QwenEmbeddingCumulativeTokenMax.
  unfold reserve_gates in Gt. guard_in Gt; [discriminate Gt|].
  destruct (_ || (_ <? cny)) eqn:G3 in Gt.
  2: { exfalso. revert Gt. repeat case_match; discriminate. }
  rewrite Mc, Mm in G3. apply orb_true_iff in G3 as [G3|G3].
  - left. split_bools. lia.
  - right. apply Z.ltb_lt in G3. rewrite i64_id in G3 by solve_range. lia.
Qed.

(** One embedding call and its completion. *)
Definition demo_round (file : option (@bytes plain_codec)) : option (@bytes plain_codec) :=
  let '(file1, outcome) :=
    Reserve (good_io 10) (Some (demo_budget QwenEmbeddingProfile)) file QwenEmbedding 100 0 in
  match outcome with
  | Err _ => file1
  | Ok r => (CompleteUsage (good_io 11) 0 (Some r) file1 "response_received"
               {| u_InputTokens := 90; u_OutputTokens := 0; u_TotalTokens := 90;
                  u_Reported := true |} "" false).1.1
  end.

Lemma demo_round_reachable file :
  window_reachable (demo_budget QwenEmbeddingProfile) {| w_file := file; w_live := None |} ->
  window_reachable (demo_budget QwenEmbeddingProfile)
    {| w_file := demo_round file; w_live := None |}.
Proof.
  intros R. unfold demo_round.
  destruct (Reserve _ _ file _ _ _) as [file1 [r|e]] eqn:E1;
    (eapply reach_step in R; [|apply (step_reserve _ _ _ _ _ _ _ _ E1)]); [|exact R].
  destruct (CompleteUsage _ _ _ _ _ _ _ _) as [[file2 r'] e] eqn:E2. cbn [fst].
  eapply reach_step in R; [|apply (step_complete _ _ _ _ _ _ _ _ _ _ _ E2)].
  destruct (live_after r') as [x|] eqn:Lv; [|exact R].
  eapply reach_step; [exact R|apply step_crash].
Qed.

Definition demo_spent : option (@bytes plain_codec) :=
  demo_round (demo_round (demo_round (demo_round None))).

Definition demo_spent_ledger : Ledger :=
  match demo_spent with Some l => l | None => freshLedger QwenEmbeddingProfile end.

Lemma embedding_money_never_binds_witness :
  exists l, readLedger (good_io 20) 0 demo_spent QwenEmbeddingProfile = Ok l
  /\ (QwenEmbeddingMaxCalls <= Z.of_nat (length (l_Requests l))
      \/ QwenEmbeddingCumulativeTokenMax < l_ReservedTokens l + (100 + 0)).
Proof.
  apply (embedding_money_never_binds (C := plain_codec) "/var/ledger.json"
    {| w_file := demo_spent; w_live := None |} (good_io 20) QwenEmbedding 100 0 demo_spent).
  - unfold demo_spent. do 4 apply demo_round_reachable. apply reach_start.
  - vm_compute. reflexivity.
Defined.

Lemma supported_entry profile :
  SupportedProfile profile = true -> exists c, In (profile, c) profileEntries.
Proof.
  unfold SupportedProfile. destruct (profileConfigs !! profile) as [c|] eqn:E; [|discriminate].
  intros _. exists c. apply list_elem_of_In. by apply elem_of_list_to_map_2 in E.
Qed.

(** The ledger a missing file stands for is valid for every profile of the table. *)
Lemma fresh_valid {C : LedgerCodec} profile :
  SupportedProfile profile = true -> validLedger (freshLedger profile) profile = true.
Proof.
  intros [c Hin]%supported_entry.
  assert (forallb (fun e => validLedger (freshLedger e.1) e.1) profileEntries = true) as F
    by (vm_compute; reflexivity).
  rewrite forallb_forall in F. exact (F (profile, c) Hin).
Qed.

Lemma fresh_gates {C : LedgerCodec} profile cny tokens :
  cny <= nanoCNY (profileConfigOf profile) ->
  (0 < cumulativeTokenMax (profileConfigOf profile) ->
   i64 tokens <= cumulativeTokenMax (profileConfigOf profile)) ->
  reserve_gates (freshLedger profile) cny (i64 tokens) = None.
Proof.
  intros Hm Ht. pose proof (profile_limits_sane profile) as Sane. unfold reserve_gates.
  cbn. rewrite (i64_id (nanoCNY _ - 0)) by solve_range.
  destruct ((0 <? maxCalls (profileConfigOf profile)) && _) eqn:Gc; [split_bools; lia|].
  destruct (_ <? cny) eqn:Gm; [split_bools; lia|].
  cbn [orb].
  change (tracksCumulativeTokens _) with (0 <? cumulativeTokenMax (profileConfigOf profile)).
  destruct (0 <? cumulativeTokenMax (profileConfigOf profile)) eqn:Gt; [|reflexivity]. apply Z.ltb_lt in Gt. specialize (Ht Gt).
  pose proof (i64_in_range tokens).
  rewrite Z.add_0_l, (i64_id (i64 tokens)) by assumption.
  destruct (_ <? i64 tokens) eqn:Gx; [split_bools; lia|]. reflexivity.
Qed.

(** C39. A fresh window grants: on a missing ledger file, with a supported
    profile, a lock and a working disk, [Reserve] refuses a call only for the
    call's own size, model or price; otherwise it writes the fresh ledger with
    that one row and hands out request number 1. *)
Theorem fresh_window_grants {C : LedgerCodec} io b model i o cny usd :
  SupportedProfile (b_profile b) = true -> IsAbs (b_ledgerPath b) = true ->
  io_lock io = true -> io_read io 0 = true -> io_write io 1 = true ->
  reserve_request_checks (b_profile b) model i o = Ok (cny, usd) ->
  cny <= nanoCNY (profileConfigOf (b_profile b)) ->
  (0 < cumulativeTokenMax (profileConfigOf (b_profile b)) ->
   i + o <= cumulativeTokenMax (profileConfigOf (b_profile b))) ->
  Reserve io (Some b) None model i o =
  (Some (encodeLedger (append_request (freshLedger (b_profile b))
     (new_request (b_profile b) model 1 i o cny usd (io_now io)))),
   Ok {| rs_budget := b; rs_lock := true; rs_requestNum := 1; rs_model := model;
         rs_finished := false |}).
Proof.
  intros Hs Ha Hl Hr Hw Rc Hm Ht. unfold Reserve. rewrite Hs, Ha, Rc, Hl. cbn [negb orb].
  unfold readLedger. rewrite Hr. cbn [negb].
  rewrite (migrate_same (freshLedger (b_profile b)) (b_profile b) eq_refl). cbn [negb].
  rewrite (fresh_valid _ Hs). cbn [negb].
  apply request_checks_inv in Rc as (_ & Ri & Ro & _).
  pose proof (profile_limits_sane (b_profile b)) as Sane.
  rewrite fresh_gates; [|no_wrap; lia..].
  unfold writeLedger. rewrite Hw. reflexivity.
Qed.

Lemma fresh_window_grants_witness :
  Reserve (good_io 10) (Some (demo_budget QwenProfileV2)) None QwenChatModel 1000 500
  = (Some (append_request (freshLedger QwenProfileV2) demo_row), Ok demo_reservation).
Proof.
  apply (fresh_window_grants (C := plain_codec) (good_io 10) (demo_budget QwenProfileV2)
           QwenChatModel 1000 500 0 0); vm_compute; congruence.
Defined.
